(** * ChainMind: signal extraction, swap routing, trade execution, bracket orders

    A shallow embedding of the trading core of the ChainMind server, and the
    properties its specification claims of it.

    Definitions:
    - [Regex]: regular expressions, run the way the JavaScript engine runs
      the patterns of the signal parser (backtracking, greedy, [g] and [i]
      flags);
    - [Number], [Exact], [Binary64]: the arithmetic of confidences, on
      rationals and on binary64 floating point;
    - [SignalParser]: signal-parser.ts;
    - [Rounding]: what rounding to binary64 computes, in integers;
    - [Js], [Eff]: JSON values, thrown errors, and the outside world (HTTP,
      chain RPC, database) as an effect signature; an asynchronous function
      is a tree of calls, and a run against a world records the calls made
      and what they resolved to;
    - [BuyApi]: api/trade/buy.ts; [Kyber], [TradeService], [SellApi]:
      trade-service.ts and api/trade/sell.ts;
    - [Mexc], [Routes], [Okx]: the exchange clients and the MEXC routes;
    - [MexcQueries], [MexcRoutes], [OkxQueries]: the queries, limit orders
      and exits of the two clients, and the other MEXC routes;
    - [Moltbook], [WalletService], [WethBalance], [ClankerInfo]:
      moltbook-api.ts, wallet-service.ts and the read-only helpers;
    - [Server]: the Express routes for trading, the wallet and the post
      queue, unwrapping WETH and the fees of the launch venue, over a
      signature that adds storage, the clock and two contracts;
    - [Observe], [Examples], [SignalProps], [TradeProps]: the vocabulary of
      the properties, and inputs and worlds to run the code on;
    - [TextProps], [PostProps], [BuyProps], [ExitProps], [WalletProps],
      [ServerProps], [ServerExamples]: the same for the properties X1 to
      X25.

    Theorems: [RoundingFacts], [Binary64Facts], [RegexFacts], [SignalFacts],
    [RunFacts], [RouterFacts], [SellFacts],
    [BuyFacts], [ExchangeFacts]; then [TextFacts], [SignalExtras],
    [BuyExtras], [TaskFacts], [VaultFacts], [RouteFacts], [ExchangeExtras],
    [WalletFacts]. *)

From Stdlib Require Import ZArith QArith Qminmax List String Ascii Bool Lia.
From Stdlib Require Import Sorting.Sorted Sorting.Permutation Lqa.
From Stdlib Require Import Floats DecimalString.
Import ListNotations.

Close Scope Q_scope.
Local Open Scope nat_scope.
Local Open Scope string_scope.
Local Open Scope list_scope.

(* ================================================================== *)
(** ** Regular expressions, as the JavaScript engine runs them *)
(* ================================================================== *)

Module Regex.

(** Characters are 8-bit code units; every pattern of the parser is ASCII and
    carries the [i] flag. *)
Definition code (c : ascii) : nat := nat_of_ascii c.
Definition between (lo hi : nat) (c : ascii) : bool :=
  (lo <=? code c)%nat && (code c <=? hi)%nat.

Definition isLower : ascii -> bool := between 97 122.
Definition isUpper : ascii -> bool := between 65 90.
(** [[a-z]] under the [i] flag. *)
Definition isLetter (c : ascii) : bool := isLower c || isUpper c.
(** [\d] *)
Definition isDigit : ascii -> bool := between 48 57.
(** [\w] *)
Definition isWordChar (c : ascii) : bool :=
  isLetter c || isDigit c || (code c =? 95)%nat.
(** [\s]: tab, line feed, vertical tab, form feed, carriage return, space and
    the no-break space. *)
Definition isSpace (c : ascii) : bool :=
  between 9 13 c || (code c =? 32)%nat || (code c =? 160)%nat.
Definition isChar (a : ascii) (c : ascii) : bool := (code a =? code c)%nat.
(** [[\s:@=]] *)
Definition isSeparator (c : ascii) : bool :=
  isSpace c || isChar ":" c || isChar "@" c || isChar "=" c.

Definition toUpperChar (c : ascii) : ascii :=
  if isLower c then ascii_of_nat (code c - 32) else c.

Fixpoint toUpperCase (s : string) : string :=
  match s with
  | EmptyString => EmptyString
  | String c s' => String (toUpperChar c) (toUpperCase s')
  end.

Inductive regex : Type :=
| Lit (l : string)                                   (* literal text *)
| Class (p : ascii -> bool) (lo : nat) (hi : option nat)
                                   (* greedy p{lo,hi}; hi = None: no bound *)
| WordB                                              (* \b *)
| Seq (r1 r2 : regex)
| Alt (r1 r2 : regex)                                (* r1|r2 *)
| Opt (r : regex)                                    (* (?:r)? *)
| Group (r : regex).                                 (* capturing ( r ) *)

(** A literal, compared case-insensitively; [prev] is the character just
    before the current position (for [\b]). *)
Fixpoint litMatch (l : string) (prev : option ascii) (s : string)
  : option (option ascii * string) :=
  match l with
  | EmptyString => Some (prev, s)
  | String a l' =>
      match s with
      | String c s' =>
          if isChar (toUpperChar a) (toUpperChar c)
          then litMatch l' (Some c) s' else None
      | EmptyString => None
      end
  end.

Definition mayTakeMore (hi : option nat) : bool :=
  match hi with Some O => false | _ => true end.

(** Greedy bounded repetition of a character class, backtracking into the
    continuation [k] from the longest run down to [lo]. *)
Fixpoint classMatch {A : Type} (p : ascii -> bool)
    (k : option ascii -> string -> option A)
    (lo : nat) (hi : option nat) (prev : option ascii) (s : string)
  : option A :=
  let stop := if (lo =? 0)%nat then k prev s else None in
  match s with
  | String c s' =>
      if p c && mayTakeMore hi then
        match classMatch p k (pred lo) (option_map pred hi) (Some c) s' with
        | Some x => Some x
        | None => stop
        end
      else stop
  | EmptyString => stop
  end.

Definition isWordAt (o : option ascii) : bool :=
  match o with Some c => isWordChar c | None => false end.

Definition next (s : string) : option ascii :=
  match s with String c _ => Some c | EmptyString => None end.

Definition atWordBoundary (prev : option ascii) (s : string) : bool :=
  xorb (isWordAt prev) (isWordAt (next s)).

(** Backtracking matcher in continuation-passing style: [cap] is capture
    group 1 so far, [k] the rest of the pattern. *)
Fixpoint matchAt {A : Type} (r : regex) (cap : option string)
    (prev : option ascii) (s : string)
    (k : option string -> option ascii -> string -> option A) : option A :=
  match r with
  | Lit l =>
      match litMatch l prev s with
      | Some (prev', s') => k cap prev' s'
      | None => None
      end
  | Class p lo hi => classMatch p (k cap) lo hi prev s
  | WordB => if atWordBoundary prev s then k cap prev s else None
  | Seq r1 r2 =>
      matchAt r1 cap prev s (fun cap' prev' s' => matchAt r2 cap' prev' s' k)
  | Alt r1 r2 =>
      match matchAt r1 cap prev s k with
      | Some x => Some x
      | None => matchAt r2 cap prev s k
      end
  | Opt r1 =>
      match matchAt r1 cap prev s k with
      | Some x => Some x
      | None => k cap prev s
      end
  | Group r1 =>
      matchAt r1 cap prev s
        (fun _ prev' s' =>
           k (Some (substring 0 (length s - length s') s)) prev' s')
  end.

(** One attempt at the current position: capture group 1 and the text left
    after the match. *)
Definition matchHere (r : regex) (prev : option ascii) (s : string)
  : option (option string * string) :=
  matchAt r None prev s (fun cap _ s' => Some (cap, s')).

(** [while ((match = pattern.exec(text)) !== null)] with the [g] flag:
    leftmost match from [lastIndex], then again from the end of that match.
    [skip] counts the characters still covered by the previous match.  The
    list holds [match[1]] of every iteration.  (No pattern of the parser
    matches the empty string.) *)
Fixpoint execAll (r : regex) (prev : option ascii) (s : string) (skip : nat)
  : list (option string) :=
  let here := if (skip =? 0)%nat then matchHere r prev s else None in
  match s with
  | EmptyString =>
      match here with Some (cap, _) => [cap] | None => [] end
  | String c s' =>
      match here with
      | Some (cap, rest) =>
          cap :: execAll r (Some c) s' (length s - length rest - 1)
      | None => execAll r (Some c) s' (skip - 1)
      end
  end.

Definition matchAll (r : regex) (text : string) : list (option string) :=
  execAll r None text 0.

(** [text.match(r)] without the [g] flag: [match[1]] of the leftmost match. *)
Fixpoint searchFrom (r : regex) (prev : option ascii) (s : string)
  : option (option string) :=
  match matchHere r prev s with
  | Some (cap, _) => Some cap
  | None =>
      match s with
      | String c s' => searchFrom r (Some c) s'
      | EmptyString => None
      end
  end.

Definition search (r : regex) (text : string) : option (option string) :=
  searchFrom r None text.

(** The least number of characters a match of [r] spans. *)
Fixpoint minLength (r : regex) : nat :=
  match r with
  | Lit l => length l
  | Class _ lo _ => lo
  | WordB => 0
  | Seq r1 r2 => minLength r1 + minLength r2
  | Alt r1 r2 => Nat.min (minLength r1) (minLength r2)
  | Opt _ => 0
  | Group r1 => minLength r1
  end.

(** Pattern-building shorthands. *)
Fixpoint seq (rs : list regex) : regex :=
  match rs with
  | [] => Lit EmptyString
  | [r] => r
  | r :: rs' => Seq r (seq rs')
  end.

Fixpoint oneOf (ls : list string) : regex :=
  match ls with
  | [] => Class (fun _ => false) 1 None
  | [l] => Lit l
  | l :: ls' => Alt (Lit l) (oneOf ls')
  end.

Fixpoint anyOf (rs : list regex) : regex :=
  match rs with
  | [] => Class (fun _ => false) 1 None
  | [r] => r
  | r :: rs' => Alt r (anyOf rs')
  end.

Definition ws1 : regex := Class isSpace 1 None.          (* \s+ *)
Definition ws0 : regex := Class isSpace 0 None.          (* \s* *)
Definition dollarOpt : regex := Class (isChar "$") 0 (Some 1).   (* \$? *)
Definition letters : regex := Class isLetter 2 (Some 10).  (* [a-z]{2,10} *)
Definition digits1 : regex := Class isDigit 1 None.      (* \d+ *)
Definition digits0 : regex := Class isDigit 0 None.      (* \d* *)
(** [(\$?[a-z]{2,10})] *)
Definition TOK : regex := Group (Seq dollarOpt letters).
(** [(\$[a-z]{2,10})] *)
Definition DTOK : regex := Group (Seq (Lit "$") letters).
(** [(?:w\s+)?] *)
Definition optWord (w : string) : regex := Opt (Seq (Lit w) ws1).
(** [\bverb\s+ opts (\$?[a-z]{2,10})\b] *)
Definition verb (v : string) (opts : list regex) : regex :=
  seq ([WordB; Lit v; ws1] ++ opts ++ [TOK; WordB]).
(** [(\$[a-z]{2,10})\s+(?: alternatives )] *)
Definition sentiment (alts : regex) : regex := seq [DTOK; ws1; alts].

End Regex.

(* ================================================================== *)
(** ** JavaScript numbers *)
(* ================================================================== *)

(** The arithmetic the parser uses on [number]s.  Two instances follow:
    binary64 floating point, which is what the program runs on, and exact
    rationals, the arithmetic the formulas of the parser are read in. *)
Class Number (N : Type) : Type := {
  ofInt : Z -> N;            (* an integer count *)
  lit   : Q -> N;            (* a decimal literal of the source *)
  add   : N -> N -> N;
  sub   : N -> N -> N;
  mul   : N -> N -> N;
  div   : N -> N -> N;
  nmin  : N -> N -> N;       (* Math.min *)
  nmax  : N -> N -> N;       (* Math.max *)
  gt    : N -> N -> bool     (* a > b *)
}.

Module Exact.

Definition gtb (a b : Q) : bool := negb (Qle_bool a b).

#[global] Instance number : Number Q := {|
  ofInt := inject_Z;
  lit := fun q => q;
  add := Qplus;
  sub := Qminus;
  mul := Qmult;
  div := Qdiv;
  nmin := Qmin;
  nmax := Qmax;
  gt := gtb
|}.

End Exact.

Module Binary64.

Local Open Scope float_scope.

(** Exact below 2^53, as integer-valued [number]s are. *)
Fixpoint ofPositive (p : positive) : float :=
  match p with
  | xH => 1
  | xO p' => 2 * ofPositive p'
  | xI p' => 2 * ofPositive p' + 1
  end.

Definition ofZ (z : Z) : float :=
  match z with
  | Z0 => 0
  | Zpos p => ofPositive p
  | Zneg p => - ofPositive p
  end.

(** A decimal literal denotes the double nearest to it; a correctly rounded
    quotient of two exactly represented integers is that double. *)
Definition ofDecimal (q : Q) : float := ofZ (Qnum q) / ofZ (Zpos (Qden q)).

(** [Math.min] and [Math.max]: NaN if either argument is, and -0 below +0. *)
Definition mathMin (a b : float) : float :=
  if is_nan a || is_nan b then nan
  else if a <? b then a
  else if b <? a then b
  else if get_sign a then a else b.

Definition mathMax (a b : float) : float :=
  if is_nan a || is_nan b then nan
  else if b <? a then a
  else if a <? b then b
  else if get_sign a then b else a.

#[global] Instance number : Number float := {|
  ofInt := ofZ;
  lit := ofDecimal;
  add := PrimFloat.add;
  sub := PrimFloat.sub;
  mul := PrimFloat.mul;
  div := PrimFloat.div;
  nmin := mathMin;
  nmax := mathMax;
  gt := fun a b => b <? a
|}.

End Binary64.

(* ================================================================== *)
(** ** Signal parser (signal-parser.ts) *)
(* ================================================================== *)

Module SignalParser.
Import Regex.

Inductive Action : Type := buy | sell.

Definition actionName (a : Action) : string :=
  match a with buy => "buy" | sell => "sell" end.

Record Author : Type := { name : string }.

Record Post : Type := {
  post_id : string;
  post_title : string;
  post_content : option string;
  post_author : Author;
  post_upvotes : Z;
  post_downvotes : option Z
}.

Record Source : Type := {
  postId : string;
  title : string;
  author : string;
  upvotes : Z
}.

Definition has (set : list string) (x : string) : bool :=
  existsb (String.eqb x) set.

Definition KNOWN_TOKENS : list string :=
  [ "BTC"; "ETH"; "SOL"; "DOGE"; "XRP"; "ADA"; "AVAX"; "DOT"; "MATIC"; "LINK";
    "UNI"; "AAVE"; "ATOM"; "FTM"; "NEAR"; "APT"; "ARB"; "OP"; "SUI"; "SEI";
    "BONK"; "PEPE"; "SHIB"; "WIF"; "FLOKI"; "MEME"; "BOME"; "SLERF"; "POPCAT";
    "JUP"; "PYTH"; "JTO"; "TIA"; "INJ"; "RENDER"; "FET"; "TAO"; "WLD"; "ARKM";
    "ONDO"; "ENA"; "ETHFI"; "ALT"; "STRK"; "MANTA"; "DYM"; "PIXEL"; "PORTAL";
    "LTC"; "BCH"; "ETC"; "FIL"; "ICP"; "HBAR"; "VET"; "ALGO"; "EGLD"; "SAND";
    "MANA"; "AXS"; "GMT"; "APE"; "GALA"; "ENJ"; "IMX"; "BLUR"; "MAGIC"; "PRIME";
    "STX"; "ORDI"; "SATS"; "RATS"; "MTRX"; "AI"; "GPT"; "AGIX"; "OCEAN"; "RNDR" ].

Definition BUY_PATTERNS : list regex :=
  [ verb "buy" [];
    verb "buying" [];
    verb "bought" [];
    verb "long" [];
    verb "longing" [];
    verb "bullish" [optWord "on"];
    verb "accumulate" [];
    verb "accumulating" [];
    verb "load" [optWord "up"; optWord "on"];
    verb "loading" [];
    verb "entry" [optWord "on"];
    verb "ape" [optWord "into"];
    verb "aping" [optWord "into"];
    verb "aped" [optWord "into"];
    verb "fomo" [optWord "into"];
    verb "stack" [optWord "more"];
    verb "stacking" [];
    verb "grab" [optWord "some"];
    verb "scoop" [optWord "up"];
    verb "scooping" [];
    sentiment (oneOf [ "to the moon"; "moon"; "pump"; "pumping"; "going up";
                       "breaking out"; "breakout"; "ripping"; "mooning";
                       "sending"; "flying" ]);
    sentiment (oneOf [ "looks good"; "looking good"; "bullish"; "strong";
                       "ready"; "primed"; "set to run"; "about to run" ]);
    seq [ oneOf ["bullish"; "long"; "buy"; "grab"; "load"; "stack"]; ws1;
          optWord "on"; DTOK ];
    sentiment (anyOf [ Seq digits1 (Lit "x"); Lit "100x"; Lit "10x"; Lit "5x";
                       Lit "2x"; Lit "will pump"; Lit "gonna pump";
                       Lit "about to pump" ]);
    sentiment (oneOf [ "easy money"; "free money"; "alpha"; "gem";
                       "hidden gem"; "undervalued" ]) ].

Definition SELL_PATTERNS : list regex :=
  [ verb "sell" [];
    verb "selling" [];
    verb "sold" [];
    verb "short" [];
    verb "shorting" [];
    verb "bearish" [optWord "on"];
    verb "exit" [];
    verb "exiting" [];
    verb "dump" [];
    verb "dumping" [];
    seq [ WordB; Lit "take"; ws1; Lit "profit"; ws1; optWord "on"; TOK; WordB ];
    verb "tp" [optWord "on"];
    verb "close" [];
    verb "closing" [];
    verb "fade" [];
    verb "fading" [];
    sentiment (oneOf [ "dump"; "dumping"; "crashing"; "going down"; "tanking";
                       "dying"; "dead"; "rug"; "rugging" ]);
    sentiment (oneOf [ "looks weak"; "looking weak"; "bearish"; "overbought";
                       "topped"; "topping" ]);
    seq [ oneOf ["bearish"; "short"; "sell"; "dump"; "fade"]; ws1;
          optWord "on"; DTOK ] ].

(** [/\$([a-z]{2,10})\b/gi] *)
Definition TOKEN_MENTION_PATTERN : regex := seq [Lit "$"; Group letters; WordB].

(** [(\d+\.?\d* )] *)
Definition decimalNumber : regex :=
  seq [digits1; Class (isChar ".") 0 (Some 1); digits0].

Definition TP_PATTERN : regex :=
  seq [ anyOf [ Lit "tp"; seq [Lit "take"; ws0; Lit "profit"]; Lit "target";
                Lit "pt" ];
        Class isSeparator 0 None; dollarOpt; Group decimalNumber ].

Definition SL_PATTERN : regex :=
  seq [ anyOf [ Lit "sl"; seq [Lit "stop"; ws0; Lit "loss"]; Lit "stop";
                Lit "stoploss" ];
        Class isSeparator 0 None; dollarOpt; Group decimalNumber ].

Definition AMOUNT_PATTERN : regex :=
  seq [ Group (Seq dollarOpt decimalNumber); ws0;
        anyOf [ Lit "usdt"; Lit "usd"; Lit "$"; Seq (Lit "dollar") (Opt (Lit "s"));
                Lit "worth" ] ].

Definition matched (m : option (option string)) : option string :=
  match m with Some cap => cap | None => None end.

Definition extractTpSl (text : string) : option string * option string :=
  (matched (search TP_PATTERN text), matched (search SL_PATTERN text)).

Fixpoint removeDollars (s : string) : string :=
  match s with
  | EmptyString => EmptyString
  | String c s' =>
      if isChar "$" c then removeDollars s' else String c (removeDollars s')
  end.

Definition extractAmount (text : string) : option string :=
  option_map removeDollars (matched (search AMOUNT_PATTERN text)).

Definition stripLeadingDollar (token : string) : string :=
  match token with
  | String c rest => if isChar "$" c then rest else token
  | EmptyString => token
  end.

Definition cleanToken (token : string) : string :=
  toUpperCase (stripLeadingDollar token).

Definition COMMON_WORDS : list string :=
  [ "THE"; "AND"; "FOR"; "ARE"; "BUT"; "NOT"; "YOU"; "ALL"; "CAN"; "HER";
    "WAS"; "ONE"; "OUR"; "OUT"; "HAS"; "HIS"; "HOW"; "ITS"; "MAY"; "NEW";
    "NOW"; "OLD"; "SEE"; "WAY"; "WHO"; "BOY"; "DID"; "GET"; "LET"; "PUT";
    "SAY"; "SHE"; "TOO"; "USE"; "USD"; "USDT"; "COIN"; "TOKEN"; "THIS";
    "THAT"; "WITH"; "FROM"; "HAVE"; "BEEN"; "WILL"; "WHAT"; "WHEN"; "YOUR";
    "JUST"; "MORE"; "SOME"; "THAN"; "THEM"; "THEN"; "VERY"; "WOULD"; "ABOUT" ].

Fixpoint allChars (p : ascii -> bool) (s : string) : bool :=
  match s with
  | EmptyString => true
  | String c s' => p c && allChars p s'
  end.

(** [/^[A-Z]+$/.test(s)] *)
Definition onlyCapitals (s : string) : bool :=
  negb (Nat.eqb (length s) 0) && allChars isUpper s.

Definition isValidToken (token : string) : bool :=
  let clean := cleanToken token in
  if Nat.ltb (length clean) 2 || Nat.ltb 10 (length clean) then false
  else if has COMMON_WORDS clean then false
  else if negb (onlyCapitals clean) then false
  else true.

Definition isKnownToken (token : string) : bool :=
  has KNOWN_TOKENS (cleanToken token).

(** A string in a condition: the empty string is falsy. *)
Definition truthy (s : string) : bool := negb (Nat.eqb (length s) 0).

Section Signals.
Context {N : Type} {num : Number N}.

Record TradingSignal : Type := {
  action : Action;
  token : string;
  amount : option string;
  tp : option string;
  sl : option string;
  confidence : N;
  source : Source
}.

Definition originalText (post : Post) : string :=
  post_title post ++ " " ++
  match post_content post with Some c => c | None => EmptyString end.

Definition netVotes (post : Post) : N :=
  sub (ofInt (post_upvotes post))
      (ofInt (match post_downvotes post with Some d => d | None => 0%Z end)).

Definition baseConfidence (post : Post) : N :=
  nmin (lit 0.9%Q)
       (nmax (lit 0.1%Q) (add (lit 0.3%Q) (div (netVotes post) (ofInt 50)))).

Definition sourceOf (post : Post) : Source :=
  {| postId := post_id post;
     title := post_title post;
     author := name (post_author post);
     upvotes := post_upvotes post |}.

(** The body of the [while] loop of an intent pattern, for one match:
    the signals it pushes. *)
Definition intentSignal (post : Post) (act : Action) (m : option string)
  : list TradingSignal :=
  match m with
  | Some token =>
      if truthy token && isValidToken token then
        let text := originalText post in
        let confidence :=
          if isKnownToken token
          then add (baseConfidence post) (lit 0.2%Q)
          else baseConfidence post in
        [ {| action := act;
             token := cleanToken token;
             amount := extractAmount text;
             tp := fst (extractTpSl text);
             sl := snd (extractTpSl text);
             confidence := nmin (lit 0.95%Q) confidence;
             source := sourceOf post |} ]
      else []
  | None => []
  end.

(** [for (const pattern of patterns) { while (match = pattern.exec(text)) ... }] *)
Definition intentSignals (post : Post) (act : Action) (patterns : list regex)
  : list TradingSignal :=
  flat_map
    (fun pattern =>
       flat_map (intentSignal post act) (matchAll pattern (originalText post)))
    patterns.

Definition mentionSignal (post : Post) (tok : string) : TradingSignal :=
  {| action := buy;
     token := cleanToken tok;
     amount := None;
     tp := None;
     sl := None;
     confidence := mul (baseConfidence post) (lit 0.7%Q);
     source := sourceOf post |}.

(** The body of the [$TOKEN] mention loop, for one match. *)
Definition addMention (post : Post) (signals : list TradingSignal)
    (m : option string) : list TradingSignal :=
  match m with
  | Some tok =>
      if truthy tok && isKnownToken tok then
        let exists_ :=
          existsb (fun s => String.eqb (token s) (cleanToken tok)) signals in
        if negb exists_ then signals ++ [mentionSignal post tok] else signals
      else signals
  | None => signals
  end.

Definition keyOf (s : TradingSignal) : string :=
  actionName (action s) ++ "-" ++ token s.

(** [signals.filter(...)] with the [seen] set. *)
Fixpoint dedupe (seen : list string) (signals : list TradingSignal)
  : list TradingSignal :=
  match signals with
  | [] => []
  | s :: rest =>
      if has seen (keyOf s) then dedupe seen rest
      else s :: dedupe (keyOf s :: seen) rest
  end.

(** The signals pushed by the buy and sell loops. *)
Definition intentPhase (post : Post) : list TradingSignal :=
  intentSignals post buy BUY_PATTERNS ++ intentSignals post sell SELL_PATTERNS.

(** [signals] right before the final filter. *)
Definition collected (post : Post) : list TradingSignal :=
  fold_left (addMention post)
            (matchAll TOKEN_MENTION_PATTERN (originalText post))
            (intentPhase post).

Definition parseSignalsFromPost (post : Post) : list TradingSignal :=
  dedupe [] (collected post).

(** [Map<string, TradingSignal>]: iteration follows insertion order, and
    [set] on a present key keeps the key's position. *)
Definition SignalMap : Type := list (string * TradingSignal).

Fixpoint mapGet (key : string) (m : SignalMap) : option TradingSignal :=
  match m with
  | [] => None
  | (k, v) :: m' => if String.eqb k key then Some v else mapGet key m'
  end.

Fixpoint mapSet (key : string) (v : TradingSignal) (m : SignalMap) : SignalMap :=
  match m with
  | [] => [(key, v)]
  | (k, v') :: m' =>
      if String.eqb k key then (k, v) :: m' else (k, v') :: mapSet key v m'
  end.

Definition keepBest (m : SignalMap) (signal : TradingSignal) : SignalMap :=
  let key := keyOf signal in
  match mapGet key m with
  | Some existing =>
      if gt (confidence signal) (confidence existing)
      then mapSet key signal m else m
  | None => mapSet key signal m
  end.

(** [(a, b) => b.confidence - a.confidence] is positive: [b] goes first. *)
Definition comesAfter (a b : TradingSignal) : bool :=
  gt (sub (confidence b) (confidence a)) (ofInt 0).

(** [Array.prototype.sort] is stable. *)
Fixpoint insertSorted (x : TradingSignal) (sorted : list TradingSignal)
  : list TradingSignal :=
  match sorted with
  | [] => [x]
  | y :: ys => if comesAfter x y then y :: insertSorted x ys else x :: sorted
  end.

Fixpoint sortSignals (l : list TradingSignal) : list TradingSignal :=
  match l with
  | [] => []
  | x :: l' => insertSorted x (sortSignals l')
  end.

Definition allSignals (posts : list Post) : list TradingSignal :=
  flat_map parseSignalsFromPost posts.

Definition tokenActionMap (posts : list Post) : SignalMap :=
  fold_left keepBest (allSignals posts) [].

Definition parseSignalsFromFeed (posts : list Post) : list TradingSignal :=
  sortSignals (map snd (tokenActionMap posts)).

End Signals.

Arguments TradingSignal N : clear implicits.

End SignalParser.


(* ================================================================== *)
(** ** Rounding to binary64

    The vocabulary of the facts on binary64 arithmetic: the operations of
    the program are those of [PrimFloat], which the library specifies by
    [SpecFloat]; what follows names the integer the rounding of [SpecFloat]
    computes. *)
(* ================================================================== *)

Module Rounding.
Local Open Scope Z_scope.

(** [m / 2^n] rounded to the nearest integer, ties to even. *)
Definition nearestEven (m n : Z) : Z :=
  if n <=? 0 then m
  else
    let q := m / 2 ^ n in
    let r := m mod 2 ^ n in
    if r <? 2 ^ (n - 1) then q
    else if 2 ^ (n - 1) <? r then q + 1
    else if Z.even q then q else q + 1.

(** [m] rounded to 53 significant bits. *)
Definition rounded (m : Z) : Z :=
  let n := Zdigits2 m - 53 in
  nearestEven m n * 2 ^ n.

(** A positive normal float whose exponent lies in [lo, hi]. *)
Definition normalWithin (lo hi : Z) (f : spec_float) : bool :=
  match f with
  | S754_finite false m e =>
      (Zdigits2 (Zpos m) =? 53) && (lo <=? e) && (e <=? hi)
  | _ => false
  end.

Definition tame : spec_float -> bool := normalWithin (-100) 100.
Definition moderate : spec_float -> bool := normalWithin (-400) 400.

(** The value of a moderate float, in units of 2^-500. *)
Definition units (f : spec_float) : Z :=
  match f with
  | S754_finite false m e => Zpos m * 2 ^ (e + 500)
  | _ => 0
  end.

(** After [k] shifts of [m]: the quotient, and where the remainder lies. *)
Definition shifted (k m : Z) (rec : shr_record) : Prop :=
  exists low,
    0 <= low < 2 ^ (k - 1) /\
    0 <= shr_m rec /\
    m = shr_m rec * 2 ^ k + (if shr_r rec then 2 ^ (k - 1) else 0) + low /\
    shr_s rec = negb (low =? 0).

(** A float that is neither zero, nor infinite, nor NaN. *)
Definition isFinite (f : spec_float) : bool :=
  match f with S754_finite _ _ _ => true | _ => false end.

(** The value of a moderate binary64 number, in units of 2^-500. *)
Definition funits (x : float) : Z := units (Prim2SF x).

End Rounding.

(* ================================================================== *)
(** ** JavaScript values *)
(* ================================================================== *)

Module Js.

(** The outcome of an expression that may throw: [inl msg] is a thrown
    error with message [msg]. *)
Definition Exc (A : Type) : Type := (string + A)%type.

#[local] Unset Elimination Schemes.
Inductive Json : Type :=
| JNull
| JBool (b : bool)
| JNum (n : Z)
| JStr (s : string)
| JArr (items : list Json)
| JObj (fields : list (string * Json)).
#[local] Set Elimination Schemes.

(** [None] is [undefined]. *)
Definition Value : Type := option Json.

Definition str (s : string) : Value := Some (JStr s).
Definition obj (fields : list (string * Json)) : Value := Some (JObj fields).

Definition truthy (v : Value) : bool :=
  match v with
  | None | Some JNull => false
  | Some (JBool b) => b
  | Some (JNum n) => negb (Z.eqb n 0)
  | Some (JStr s) => negb (Nat.eqb (String.length s) 0)
  | Some (JArr _) | Some (JObj _) => true
  end.

Fixpoint lookup (name : string) (fields : list (string * Json)) : Value :=
  match fields with
  | [] => None
  | (k, v) :: rest => if String.eqb k name then Some v else lookup name rest
  end.

(** [v?.name] *)
Definition optProp (v : Value) (name : string) : Value :=
  match v with
  | Some (JObj fields) => lookup name fields
  | _ => None
  end.

(** [v.name]: a TypeError on [undefined] and [null]. *)
Definition prop (v : Value) (name : string) : Exc Value :=
  match v with
  | None | Some JNull => inl "Cannot read properties of undefined"
  | _ => inr (optProp v name)
  end.

(** [v[0]] of an array. *)
Definition first (v : Value) : Value :=
  match v with
  | Some (JArr (x :: _)) => Some x
  | _ => None
  end.

(** [s.includes(sub)] *)
Fixpoint includes (s sub : string) : bool :=
  String.prefix sub s ||
  match s with
  | String _ s' => includes s' sub
  | EmptyString => false
  end.

(** [a || b] on strings that may be missing. *)
Definition orElse (a : option string) (b : string) : string :=
  match a with
  | Some s => if Nat.eqb (String.length s) 0 then b else s
  | None => b
  end.

Definition present (a : option string) : bool :=
  match a with
  | Some s => negb (Nat.eqb (String.length s) 0)
  | None => false
  end.

End Js.

(* ================================================================== *)
(** ** The outside world *)
(* ================================================================== *)

Module Eff.
Import Js.

Record Request : Type := {
  url : string;
  method : string;
  headers : list (string * string);
  body : Value
}.

Definition GET (u : string) (h : list (string * string)) : Request :=
  {| url := u; method := "GET"; headers := h; body := None |}.
Definition POST (u : string) (h : list (string * string)) (b : Value) : Request :=
  {| url := u; method := "POST"; headers := h; body := b |}.

Record Response : Type := {
  ok : bool;
  status : nat;
  json : Exc Value;         (* what [await res.json()] gives *)
  text : Exc string         (* what [await res.text()] gives *)
}.

(** [res.status(code).json(payload)]; [end()] sends no payload. *)
Record HttpResponse : Type := {
  code : nat;
  payload : Value
}.

Definition reply (c : nat) (fields : list (string * Json)) : HttpResponse :=
  {| code := c; payload := obj fields |}.

Definition showNat (n : nat) : string :=
  NilZero.string_of_uint (Nat.to_uint n).

(** One row of [moltbook_agent]. *)
Record AgentRow : Type := {
  encrypted_private_key : option string;
  wallet_address : option string
}.

(** Every call that leaves the process.  [A] is what the call resolves to;
    [Exc] results reject with [inl]. *)
Inductive Effect : Type -> Type :=
| Fetch (rq : Request) : Effect (Exc Response)
| SelectAgent (sessionId : option string) : Effect (Exc (list AgentRow))
| GetBalance (address : string) : Effect (Exc Z)
| ReadDecimals (token : string) : Effect (Exc Z)
| ReadSymbol (token : string) : Effect (Exc string)
| ReadBalanceOf (token account : string) : Effect (Exc Z)
| WriteApprove (token : string) (spender : Value) (amount : Z)
    : Effect (Exc string)
| SendTransaction (to data : Value) (value : Z) : Effect (Exc string)
| WaitForTransactionReceipt (hash : string) : Effect (Exc unit)
| MexcRequest (method endpoint : string) (params : list (string * Value))
    (signed : bool) : Effect (Exc Value)
| OkxRequest (method path : string) (body : Value) : Effect (Exc Value).

(** An asynchronous function: a tree of calls, each awaited before the next
    is issued. *)
Inductive Prog (R : Type) : Type :=
| Ret (r : R)
| Vis (A : Type) (e : Effect A) (k : A -> Prog R).

Arguments Ret {R} r.
Arguments Vis {R A} e k.

Fixpoint bind {R S : Type} (p : Prog R) (f : R -> Prog S) : Prog S :=
  match p with
  | Ret r => f r
  | Vis e k => Vis e (fun a => bind (k a) f)
  end.

(** Code that may throw. *)
Definition M (A : Type) : Type := Prog (Exc A).

Definition ret {A : Type} (a : A) : M A := Ret (inr a).
Definition throw {A : Type} (msg : string) : M A := Ret (inl msg).
Definition lift {A : Type} (x : Exc A) : M A := Ret x.
(** [await call] *)
Definition await {A : Type} (e : Effect (Exc A)) : M A := Vis e Ret.

Definition bindM {A B : Type} (m : M A) (f : A -> M B) : M B :=
  bind m (fun x => match x with inl msg => Ret (inl msg) | inr a => f a end).

(** [try { m } catch (e) { h e }] *)
Definition tryCatch {A : Type} (m : M A) (h : string -> Prog A) : Prog A :=
  bind m (fun x => match x with inl msg => h msg | inr a => Ret a end).

Notation "x <- m ;; k" := (bindM m (fun x => k))
  (at level 61, m at next level, right associativity).
Notation "m ;;; k" := (bindM m (fun _ => k))
  (at level 61, right associativity).

(** A call together with what it resolved to. *)
Inductive Event : Type :=
| Called (A : Type) (e : Effect A) (a : A).

Arguments Called {A} e a.

(** A world answers every call and moves on. *)
Record World : Type := {
  state : Type;
  answer : forall A : Type, Effect A -> state -> A * state
}.

Fixpoint run {R : Type} (w : World) (p : Prog R) (s : state w)
  : R * list Event * state w :=
  match p with
  | Ret r => (r, [], s)
  | Vis e k =>
      let (a, s1) := answer w _ e s in
      let '(r, t, s2) := run w (k a) s1 in
      (r, Called e a :: t, s2)
  end.

Definition result {R : Type} (w : World) (p : Prog R) (s : state w) : R :=
  fst (fst (run w p s)).
Definition trace {R : Type} (w : World) (p : Prog R) (s : state w)
  : list Event :=
  snd (fst (run w p s)).

(** Kinds of calls. *)
Definition isFetch (ev : Event) : bool :=
  match ev with Called (Fetch _) _ => true | _ => false end.

(** A call that submits a transaction for signing and broadcast. *)
Definition isSubmission (ev : Event) : bool :=
  match ev with
  | Called (SendTransaction _ _ _) _ => true
  | Called (WriteApprove _ _ _) _ => true
  | _ => false
  end.

Definition isSend (ev : Event) : bool :=
  match ev with Called (SendTransaction _ _ _) _ => true | _ => false end.

End Eff.

(* ================================================================== *)
(** ** Library bindings *)
(* ================================================================== *)

(** viem, node's crypto and the conversions of the language, as the trade
    code uses them.  They are pure; those that can throw return [Exc]. *)
Record Runtime : Type := {
  decryptPrivateKey : string -> Js.Exc string;
  privateKeyToAccount : string -> Js.Exc string;      (* account.address *)
  getAccountFromEncryptedKey : string -> Js.Exc string;
  parseEther : string -> Js.Exc Z;
  formatUnits : Z -> Z -> string;
  formatEther : Z -> string;
  bigintToString : Z -> string;                       (* n.toString() *)
  toBigInt : Js.Value -> Js.Exc Z;                    (* BigInt(v) *)
  encodeDevBuy : string -> string -> Z -> Js.Exc string;
      (* encodeFunctionData({abi: DEVBUY_ABI, functionName: 'buy', args}) *)
  toBaseUnits : string -> Z -> Js.Exc Z
      (* BigInt(Math.floor(parseFloat(amount) * (10 ** decimals))) *)
}.

(* ================================================================== *)
(** ** api/trade/buy.ts *)
(* ================================================================== *)

Module BuyApi.
Import Js Eff.

Definition ETH : string := "0xEeeeeEeeeEeEeeEeEeEeeEEEeeeeEeeeeeeeEEeE".
Definition CLANKER_DEVBUY : string := "0x1331f0788F9c08C8F38D52c7a1152250A9dE00be".

(** What [getSwapQuote] returns when a provider answers. *)
Record Quote : Type := {
  to : Value;
  data : Value;
  value : Value;
  type : string
}.

Definition jsonHeaders : list (string * string) :=
  [("Content-Type", "application/json")].

Section SwapQuote.
Variables (buyToken sellAmount takerAddress : string).

(** [try { ... } catch (e) { console.log(...) }] around one provider: a quote
    is returned from inside the block, [None] falls through to the next. *)
Definition guarded (block : M (option Quote)) : Prog (option Quote) :=
  tryCatch block (fun _ => Ret None).

Definition tryKyberswap : Prog (option Quote) :=
  guarded (
    kyberRouteRes <- await (Fetch (GET
      ("https://aggregator-api.kyberswap.com/base/api/v1/routes?tokenIn="
         ++ ETH ++ "&tokenOut=" ++ buyToken ++ "&amountIn=" ++ sellAmount
         ++ "&saveGas=true")
      [("X-Client-Id", "chainmind")])) ;;
    if ok kyberRouteRes then
      routeData <- lift (json kyberRouteRes) ;;
      routeDataData <- lift (prop routeData "data") ;;
      if truthy (optProp routeDataData "routeSummary") then
        kyberBuildRes <- await (Fetch (POST
          "https://aggregator-api.kyberswap.com/base/api/v1/route/build"
          [("Content-Type", "application/json"); ("X-Client-Id", "chainmind")]
          (obj [ ("routeSummary",
                   match optProp routeDataData "routeSummary" with
                   | Some j => j | None => JNull end);
                 ("sender", JStr takerAddress);
                 ("recipient", JStr takerAddress);
                 ("slippageTolerance", JNum 300) ]))) ;;
        if ok kyberBuildRes then
          buildData <- lift (json kyberBuildRes) ;;
          buildDataData <- lift (prop buildData "data") ;;
          if truthy (optProp buildDataData "data") then
            ret (Some {| to := optProp routeDataData "routerAddress";
                         data := optProp buildDataData "data";
                         value := str sellAmount;
                         type := "kyberswap" |})
          else ret None
        else ret None
      else ret None
    else ret None).

Definition tryOdos : Prog (option Quote) :=
  guarded (
    odosQuote <- await (Fetch (POST "https://api.odos.xyz/sor/quote/v2" jsonHeaders
      (obj [ ("chainId", JNum 8453);
             ("inputTokens",
               JArr [JObj [ ("tokenAddress",
                              JStr "0x0000000000000000000000000000000000000000");
                            ("amount", JStr sellAmount) ]]);
             ("outputTokens",
               JArr [JObj [ ("tokenAddress", JStr buyToken);
                            ("proportion", JNum 1) ]]);
             ("userAddr", JStr takerAddress);
             ("slippageLimitPercent", JNum 3);
             ("disableRFQs", JBool true) ]))) ;;
    if ok odosQuote then
      quoteData <- lift (json odosQuote) ;;
      pathId <- lift (prop quoteData "pathId") ;;
      if truthy pathId then
        odosAssemble <- await (Fetch (POST "https://api.odos.xyz/sor/assemble"
          jsonHeaders
          (obj [ ("userAddr", JStr takerAddress);
                 ("pathId", match pathId with Some j => j | None => JNull end) ]))) ;;
        if ok odosAssemble then
          assembleData <- lift (json odosAssemble) ;;
          transaction <- lift (prop assembleData "transaction") ;;
          if truthy transaction then
            ret (Some {| to := optProp transaction "to";
                         data := optProp transaction "data";
                         value := optProp transaction "value";
                         type := "odos" |})
          else ret None
        else ret None
      else ret None
    else ret None).

Definition tryParaSwap : Prog (option Quote) :=
  guarded (
    priceRes <- await (Fetch (GET
      ("https://apiv5.paraswap.io/prices?srcToken=" ++ ETH ++ "&destToken="
         ++ buyToken ++ "&amount=" ++ sellAmount ++ "&network=8453&side=SELL")
      [])) ;;
    if ok priceRes then
      priceData <- lift (json priceRes) ;;
      priceRoute <- lift (prop priceData "priceRoute") ;;
      if truthy priceRoute then
        txRes <- await (Fetch (POST "https://apiv5.paraswap.io/transactions/8453"
          jsonHeaders
          (obj [ ("srcToken", JStr ETH);
                 ("destToken", JStr buyToken);
                 ("srcAmount", JStr sellAmount);
                 ("slippage", JNum 300);
                 ("priceRoute",
                   match priceRoute with Some j => j | None => JNull end);
                 ("userAddress", JStr takerAddress) ]))) ;;
        if ok txRes then
          txData <- lift (json txRes) ;;
          txTo <- lift (prop txData "to") ;;
          ret (Some {| to := txTo;
                       data := optProp txData "data";
                       value := optProp txData "value";
                       type := "paraswap" |})
        else ret None
      else ret None
    else ret None).

(** [apiKey] is [process.env.ONEINCH_API_KEY], empty when unset. *)
Definition tryOneInch (apiKey : string) : Prog (option Quote) :=
  guarded (
    oneInchRes <- await (Fetch (GET
      ("https://api.1inch.dev/swap/v6.0/8453/swap?src=" ++ ETH ++ "&dst="
         ++ buyToken ++ "&amount=" ++ sellAmount ++ "&from=" ++ takerAddress
         ++ "&slippage=3&disableEstimate=true")
      [("Authorization", ("Bearer " ++ apiKey)%string)])) ;;
    if ok oneInchRes then
      data <- lift (json oneInchRes) ;;
      tx <- lift (prop data "tx") ;;
      if truthy tx then
        ret (Some {| to := optProp tx "to";
                     data := optProp tx "data";
                     value := optProp tx "value";
                     type := "1inch" |})
      else ret None
    else ret None).

(** A quote returns from the function at once; [None] at the end is the
    [null] that signals the fallback to the Clanker devbuy. *)
Definition orNext (attempt rest : Prog (option Quote)) : Prog (option Quote) :=
  bind attempt (fun r =>
    match r with
    | Some quote => Ret (Some quote)
    | None => rest
    end).

Definition getSwapQuote (apiKey : string) : Prog (option Quote) :=
  orNext tryKyberswap
  (orNext tryOdos
  (orNext tryParaSwap
  (orNext (tryOneInch apiKey)
  (Ret None)))).

End SwapQuote.

Record BuyRequest : Type := {
  req_method : string;
  sessionId : option string;          (* req.headers['x-session-id'] *)
  tokenAddress : option string;       (* req.body.tokenAddress *)
  amountEth : option string           (* req.body.amountEth *)
}.

Definition insufficientEth (rt : Runtime) (balance : Z) (amountEth : option string)
  : HttpResponse :=
  reply 400
    [("error", JStr ("Insufficient ETH. You have " ++ formatUnits rt balance 18
                     ++ " ETH but need " ++ orElse amountEth "0.001"
                     ++ " ETH + gas"))].

Definition notTradeable (tokenAddress : string) : HttpResponse :=
  reply 400
    [("error", JStr "Token not tradeable via our API yet. Clanker v4 tokens use Uniswap v4 which most aggregators don't support yet. Try trading on clanker.world directly or wait for aggregator support.");
     ("clankerUrl", JStr ("https://clanker.world/clanker/" ++ tokenAddress))].

(** The outer [catch (error)]. *)
Definition buyError (msg : string) : HttpResponse :=
  if includes msg "insufficient funds" then
    reply 400 [("error", JStr "Insufficient ETH for gas + swap")]
  else if includes msg "No swap route" || includes msg "No route" then
    reply 400 [("error", JStr "No liquidity found. Token might be too new or only on Uniswap v4.")]
  else
    reply 500 [("error", JStr (orElse (Some msg) "Buy failed"))].

(** [symbol] and [decimals] keep their defaults from the point where a read
    fails. *)
Definition tokenInfo (tokenAddress : string) : Prog (string * Z) :=
  Vis (ReadSymbol tokenAddress) (fun s =>
    match s with
    | inl _ => Ret ("TOKEN", 18%Z)
    | inr symbol =>
        Vis (ReadDecimals tokenAddress) (fun d =>
          match d with
          | inl _ => Ret (symbol, 18%Z)
          | inr decimals => Ret (symbol, decimals)
          end)
    end).

(** From the receipt to the response. *)
Definition settle (rt : Runtime) (tokenAddress address hash swapType : string)
  : M HttpResponse :=
  await (WaitForTransactionReceipt hash) ;;;
  info <- bind (tokenInfo tokenAddress) ret ;;
  tokenBalance <- await (ReadBalanceOf tokenAddress address) ;;
  ret (reply 200
         [ ("success", JBool true);
           ("transactionHash", JStr hash);
           ("tokensReceived", JStr (formatUnits rt tokenBalance (snd info)));
           ("symbol", JStr (fst info));
           ("via", JStr swapType) ]).

(** The branch taken when [getSwapQuote] returned [null]: the devbuy is sent
    for whatever token was asked. *)
Definition devBuy (rt : Runtime) (tokenAddress address : string) (amountIn : Z)
  : M HttpResponse :=
  bind (buyData <- lift (encodeDevBuy rt tokenAddress address 0) ;;
        await (SendTransaction (str CLANKER_DEVBUY) (str buyData) amountIn))
       (fun sent =>
          match sent with
          | inl _ => ret (notTradeable tokenAddress)
          | inr hash => settle rt tokenAddress address hash "clanker"
          end).

Definition aggregatorBuy (rt : Runtime) (tokenAddress address : string)
    (amountIn : Z) (swapData : Quote) : M HttpResponse :=
  v <- lift (toBigInt rt (if truthy (value swapData) then value swapData
                          else str (bigintToString rt amountIn))) ;;
  hash <- await (SendTransaction (to swapData) (data swapData) v) ;;
  settle rt tokenAddress address hash (type swapData).

Definition handler (rt : Runtime) (apiKey : string) (req : BuyRequest)
  : Prog HttpResponse :=
  if String.eqb (req_method req) "OPTIONS" then
    Ret {| code := 200; payload := None |}
  else if negb (String.eqb (req_method req) "POST") then
    Ret (reply 405 [("error", JStr "Method not allowed")])
  else
    match tokenAddress req with
    | None => Ret (reply 400 [("error", JStr "Token address required")])
    | Some tokenAddress =>
      if negb (present (Some tokenAddress)) then
        Ret (reply 400 [("error", JStr "Token address required")])
      else
        tryCatch (
          rows <- await (SelectAgent (sessionId req)) ;;
          match rows with
          | [] => ret (reply 400 [("error", JStr "No wallet found. Register first!")])
          | row :: _ =>
            match encrypted_private_key row with
            | None => ret (reply 400 [("error", JStr "No wallet found. Register first!")])
            | Some key =>
              if negb (present (Some key)) then
                ret (reply 400 [("error", JStr "No wallet found. Register first!")])
              else
                privateKey <- lift (decryptPrivateKey rt key) ;;
                address <- lift (privateKeyToAccount rt privateKey) ;;
                (* Check balance first *)
                balance <- await (GetBalance address) ;;
                amountIn <- lift (parseEther rt (orElse (amountEth req) "0.001")) ;;
                gasBuffer <- lift (parseEther rt "0.0005") ;;
                if (balance <? amountIn + gasBuffer)%Z then
                  ret (insufficientEth rt balance (amountEth req))
                else
                  swapData <- bind (getSwapQuote tokenAddress
                                      (bigintToString rt amountIn) address apiKey)
                                   ret ;;
                  match swapData with
                  | Some quote => aggregatorBuy rt tokenAddress address amountIn quote
                  | None => devBuy rt tokenAddress address amountIn
                  end
            end
          end)
          (fun msg => Ret (buyError msg))
    end.

End BuyApi.

(* ================================================================== *)
(** ** Kyberswap quote of the sell and server paths *)
(* ================================================================== *)

Module Kyber.
Import Js Eff.

(** [getSwapQuote(sellToken, buyToken, sellAmount, takerAddress)] of
    trade-service.ts and of api/trade/sell.ts.  The two copies differ in
    logging and in that the first reads [res.text()] before it throws
    ([readsText]). *)
Definition getSwapQuote (readsText : bool)
    (sellToken buyToken sellAmount takerAddress : string) : M Value :=
  res <- await (Fetch (GET
    ("https://aggregator-api.kyberswap.com/base/api/v1/routes?tokenIn="
       ++ sellToken ++ "&tokenOut=" ++ buyToken ++ "&amountIn=" ++ sellAmount
       ++ "&saveGas=false&gasInclude=true")
    [("Accept", "application/json")])) ;;
  if negb (ok res) then
    (if readsText then lift (text res) else ret EmptyString) ;;;
    throw ("Failed to get swap route: " ++ showNat (status res))
  else
    routeData <- lift (json res) ;;
    routeDataData <- lift (prop routeData "data") ;;
    if negb (truthy (optProp routeDataData "routeSummary")) then
      throw "No route found for this swap"
    else
      buildRes <- await (Fetch (POST
        "https://aggregator-api.kyberswap.com/base/api/v1/route/build"
        [("Accept", "application/json"); ("Content-Type", "application/json")]
        (obj [ ("routeSummary",
                 match optProp routeDataData "routeSummary" with
                 | Some j => j | None => JNull end);
               ("sender", JStr takerAddress);
               ("recipient", JStr takerAddress);
               ("slippageTolerance", JNum 500) ]))) ;;
      if negb (ok buildRes) then
        (if readsText then lift (text buildRes) else ret EmptyString) ;;;
        throw ("Failed to build swap: " ++ showNat (status buildRes))
      else
        buildData <- lift (json buildRes) ;;
        lift (prop buildData "data").

(** [amount === "all" ? currentBalance : BigInt(Math.floor(...))]; a missing
    amount parses to NaN, which [BigInt] refuses. *)
Definition amountToSell (rt : Runtime) (amount : option string)
    (currentBalance decimals : Z) : Exc Z :=
  match amount with
  | Some a =>
      if String.eqb a "all" then inr currentBalance
      else toBaseUnits rt a decimals
  | None =>
      inl "The number NaN cannot be converted to a BigInt because it is not an integer"
  end.

(** [ethReceived > 0n ? ethReceived : 0n] *)
Definition received (ethBefore ethAfter : Z) : Z :=
  let ethReceived := (ethAfter - ethBefore)%Z in
  if (ethReceived >? 0)%Z then ethReceived else 0%Z.

(** The on-chain phase of a sell, the same in both copies: approve, wait,
    balance, swap, wait, balance.  It gives the hash of the swap and the
    formatted amount received. *)
Definition approveAndSwap (rt : Runtime) (tokenAddress address : string)
    (amount : Z) (swapData : Value) : M (string * string) :=
  routerAddress <- lift (prop swapData "routerAddress") ;;
  approveHash <- await (WriteApprove tokenAddress routerAddress amount) ;;
  await (WaitForTransactionReceipt approveHash) ;;;
  ethBefore <- await (GetBalance address) ;;
  hash <- await (SendTransaction routerAddress (optProp swapData "data") 0) ;;
  await (WaitForTransactionReceipt hash) ;;;
  ethAfter <- await (GetBalance address) ;;
  ret (hash, formatEther rt (received ethBefore ethAfter)).

End Kyber.

(* ================================================================== *)
(** ** server/trade-service.ts *)
(* ================================================================== *)

Module TradeService.
Import Js Eff.

Definition ETH_ADDRESS : string := "0xEeeeeEeeeEeEeeEeEeEeeEEEeeeeEeeeeeeeEEeE".

Definition failure (msg : string) : Value :=
  obj [("success", JBool false); ("error", JStr msg)].

Definition buyError (msg : string) : Value :=
  if includes msg "insufficient funds" || includes msg "exceeds the balance" then
    failure "Insufficient funds. Add more ETH to your wallet."
  else if includes msg "No route found" then
    failure "No liquidity found for this token yet. Try again later."
  else failure ("Buy failed: " ++ orElse (Some msg) "Check token address").

Definition buyToken (rt : Runtime)
    (encryptedPrivateKey tokenAddress amountEth : string) : Prog Value :=
  tryCatch (
    address <- lift (getAccountFromEncryptedKey rt encryptedPrivateKey) ;;
    amountIn <- lift (parseEther rt amountEth) ;;
    (* Get swap quote from Kyberswap *)
    swapData <- Kyber.getSwapQuote true ETH_ADDRESS tokenAddress
                  (bigintToString rt amountIn) address ;;
    (* Execute the swap *)
    routerAddress <- lift (prop swapData "routerAddress") ;;
    hash <- await (SendTransaction routerAddress (optProp swapData "data") amountIn) ;;
    await (WaitForTransactionReceipt hash) ;;;
    decimals <- await (ReadDecimals tokenAddress) ;;
    balance <- await (ReadBalanceOf tokenAddress address) ;;
    ret (obj [ ("success", JBool true);
               ("transactionHash", JStr hash);
               ("tokensReceived", JStr (formatUnits rt balance decimals)) ]))
    (fun msg => Ret (buyError msg)).

Definition sellError (msg : string) : Value :=
  if includes msg "insufficient funds" || includes msg "exceeds the balance" then
    failure "Insufficient funds for gas. Add ETH to your wallet."
  else if includes msg "No tokens to sell" then
    failure "No tokens to sell."
  else if includes msg "No route found" then
    failure "No liquidity found for this token yet."
  else failure ("Sell failed: " ++ orElse (Some msg) "Check token address").

Definition sellToken (rt : Runtime)
    (encryptedPrivateKey tokenAddress amount : string) : Prog Value :=
  tryCatch (
    address <- lift (getAccountFromEncryptedKey rt encryptedPrivateKey) ;;
    decimals <- await (ReadDecimals tokenAddress) ;;
    currentBalance <- await (ReadBalanceOf tokenAddress address) ;;
    amountToSell <- lift (Kyber.amountToSell rt (Some amount) currentBalance
                            decimals) ;;
    if (amountToSell =? 0)%Z then
      ret (failure "No tokens to sell")
    else
      swapData <- Kyber.getSwapQuote true tokenAddress ETH_ADDRESS
                    (bigintToString rt amountToSell) address ;;
      done <- Kyber.approveAndSwap rt tokenAddress address amountToSell swapData ;;
      ret (obj [ ("success", JBool true);
                 ("transactionHash", JStr (fst done));
                 ("ethReceived", JStr (snd done)) ]))
    (fun msg => Ret (sellError msg)).

End TradeService.

(* ================================================================== *)
(** ** api/trade/sell.ts *)
(* ================================================================== *)

Module SellApi.
Import Js Eff.

Definition ETH_ADDRESS : string := "0xEeeeeEeeeEeEeeEeEeEeeEEEeeeeEeeeeeeeEEeE".

Record SellRequest : Type := {
  req_method : string;
  sessionId : option string;
  tokenAddress : option string;
  amount : option string              (* req.body.amount *)
}.

Definition failure (msg : string) : HttpResponse :=
  reply 200 [("success", JBool false); ("error", JStr msg)].

Definition sellError (msg : string) : HttpResponse :=
  if includes msg "insufficient funds" then failure "Insufficient gas. Add ETH."
  else if includes msg "No route found" then failure "No liquidity found."
  else failure (orElse (Some msg) "Sell failed").

Definition noWallet : HttpResponse :=
  reply 400 [("error", JStr "No wallet found. Register first!")].

Definition handler (rt : Runtime) (req : SellRequest) : Prog HttpResponse :=
  if String.eqb (req_method req) "OPTIONS" then
    Ret {| code := 200; payload := None |}
  else if negb (String.eqb (req_method req) "POST") then
    Ret (reply 405 [("error", JStr "Method not allowed")])
  else if negb (present (tokenAddress req)) then
    Ret (reply 400 [("error", JStr "Token address required")])
  else
    let tokenAddress := orElse (tokenAddress req) EmptyString in
    tryCatch (
      rows <- await (SelectAgent (sessionId req)) ;;
      match rows with
      | [] => ret noWallet
      | row :: _ =>
        if negb (present (encrypted_private_key row)) then ret noWallet
        else
          privateKey <- lift (decryptPrivateKey rt
                                (orElse (encrypted_private_key row) EmptyString)) ;;
          address <- lift (privateKeyToAccount rt privateKey) ;;
          decimals <- await (ReadDecimals tokenAddress) ;;
          currentBalance <- await (ReadBalanceOf tokenAddress address) ;;
          amountToSell <- lift (Kyber.amountToSell rt (amount req)
                                  currentBalance decimals) ;;
          if (amountToSell =? 0)%Z then
            ret (failure "No tokens to sell")
          else
            swapData <- Kyber.getSwapQuote false tokenAddress ETH_ADDRESS
                          (bigintToString rt amountToSell) address ;;
            done <- Kyber.approveAndSwap rt tokenAddress address amountToSell
                      swapData ;;
            ret (reply 200 [ ("success", JBool true);
                             ("transactionHash", JStr (fst done));
                             ("ethReceived", JStr (snd done)) ])
      end)
      (fun msg => Ret (sellError msg)).

End SellApi.

(* ================================================================== *)
(** ** server/mexc-api.ts *)
(* ================================================================== *)

Module Mexc.
Import Js Eff.

Record MexcCredentials : Type := { apiKey : string; secretKey : string }.

Section Client.
(** [this.credentials] *)
Variable credentials : option MexcCredentials.

Definition hasCredentials : bool :=
  match credentials with Some _ => true | None => false end.

(** [request]: signing needs the credentials and throws without them; the
    timestamp and the signature it adds are left out of [params].  The
    answer is [await response.json()]; the test [data.code && ...] that
    follows only logs, but reading [data.code] throws when the body is
    [null]. *)
Definition request (method endpoint : string) (params : list (string * Value))
    (signed : bool) : M Value :=
  if signed && negb hasCredentials then throw "Credentials not set"
  else
    data <- await (MexcRequest method endpoint params signed) ;;
    lift (prop data "code") ;;;
    ret data.

Record PlaceOrderParams : Type := {
  symbol : Value;
  side : string;
  type : string;
  quantity : Value;
  quoteOrderQty : Value;
  price : Value
}.

Definition optional (name : string) (v : Value) : list (string * Value) :=
  if truthy v then [(name, v)] else [].

(** [placeOrder]: any failure of the request gives [null]. *)
Definition placeOrder (params : PlaceOrderParams) : Prog Value :=
  tryCatch
    (request "POST" "/api/v3/order"
       ([ ("symbol", symbol params); ("side", str (side params));
          ("type", str (type params)) ]
        ++ optional "quantity" (quantity params)
        ++ optional "quoteOrderQty" (quoteOrderQty params)
        ++ optional "price" (price params))
       true)
    (fun _ => Ret (Some JNull)).

Definition cancelOrder (sym orderId : Value) : Prog bool :=
  tryCatch
    (request "DELETE" "/api/v3/order" [("symbol", sym); ("orderId", orderId)] true ;;;
     ret true)
    (fun _ => Ret false).

Definition buyMarket (sym quoteAmount : Value) : Prog Value :=
  placeOrder {| symbol := sym; side := "BUY"; type := "MARKET";
                quantity := None; quoteOrderQty := quoteAmount; price := None |}.

Definition sellMarket (sym qty : Value) : Prog Value :=
  placeOrder {| symbol := sym; side := "SELL"; type := "MARKET";
                quantity := qty; quoteOrderQty := None; price := None |}.

Definition opposite (sd : string) : string :=
  if String.eqb sd "BUY" then "SELL" else "BUY".

Definition limitOrder (sym qty : Value) (sd : string) (px : Value) : Prog Value :=
  placeOrder {| symbol := sym; side := opposite sd; type := "LIMIT";
                quantity := qty; quoteOrderQty := None; price := px |}.

(** The fields of the object [placeTpSlOrders] returns. *)
Definition placeTpSlOrders (sym qty : Value) (sd : string) (tp sl : Value)
  : Prog (list (string * Json)) :=
  bind (if truthy tp
        then bind (limitOrder sym qty sd tp)
                  (fun o => Ret [("tpOrder", match o with Some j => j | None => JNull end)])
        else Ret [])
       (fun tpField =>
  bind (if truthy sl
        then bind (limitOrder sym qty sd sl)
                  (fun o => Ret [("slOrder", match o with Some j => j | None => JNull end)])
        else Ret [])
       (fun slField => Ret (tpField ++ slField))).

End Client.

End Mexc.

(* ================================================================== *)
(** ** The MEXC routes of server/routes.ts *)
(* ================================================================== *)

Module Routes.
Import Js Eff.

Definition orderJson (order : Value) : Json :=
  match order with Some j => j | None => JNull end.

(** The part shared by [POST /api/mexc/buy] and the buy branch of
    [POST /api/signals/execute]: the market order, then the bracket.
    ([placeOrder] catches every failure, so nothing here reaches the
    [catch] of the route.) *)
Definition buyWithBracket (creds : option Mexc.MexcCredentials)
    (symbol amount tp sl : Value) (extra : list (string * Json))
  : Prog HttpResponse :=
  (* Place market buy order *)
  bind (Mexc.buyMarket creds symbol amount) (fun order =>
    if negb (truthy order) then
      Ret (reply 400 [("error", JStr "Failed to place buy order")])
    else
      (* If TP or SL provided, place limit orders *)
      bind (if (truthy tp || truthy sl) && truthy (optProp order "executedQty")
            then Mexc.placeTpSlOrders creds symbol (optProp order "executedQty")
                                      "BUY" tp sl
            else Ret [])
           (fun tpSlResult =>
              Ret (reply 200 (extra ++ [("order", orderJson order)] ++ tpSlResult)))).

(** [app.post("/api/mexc/buy", ...)] *)
Definition mexcBuy (creds : option Mexc.MexcCredentials)
    (symbol amount tp sl : Value) : Prog HttpResponse :=
  if negb (Mexc.hasCredentials creds) then
    Ret (reply 400 [("error", JStr "MEXC credentials not configured")])
  else if negb (truthy symbol) || negb (truthy amount) then
    Ret (reply 400 [("error", JStr "symbol and amount are required")])
  else buyWithBracket creds symbol amount tp sl [].

(** [app.post("/api/signals/execute", ...)] *)
Definition executeSignal (creds : option Mexc.MexcCredentials)
    (action token : string) (amount tp sl : Value) : Prog HttpResponse :=
  if negb (Mexc.hasCredentials creds) then
    Ret (reply 400 [("error", JStr "MEXC credentials not configured")])
  else if Nat.eqb (String.length action) 0 || Nat.eqb (String.length token) 0 then
    Ret (reply 400 [("error", JStr "action and token are required")])
  else
    let symbol := str (token ++ "USDT") in
    let tradeAmount := if truthy amount then amount else str "10" in
    if String.eqb action "buy" then
      buyWithBracket creds symbol tradeAmount tp sl [("success", JBool true)]
    else
      bind (Mexc.sellMarket creds symbol tradeAmount) (fun order =>
        if negb (truthy order) then
          Ret (reply 400 [("error", JStr "Failed to place sell order")])
        else
          Ret (reply 200 [("success", JBool true); ("order", orderJson order)])).

End Routes.

(* ================================================================== *)
(** ** server/okx-api.ts *)
(* ================================================================== *)

Module Okx.
Import Js Eff.

Record OkxCredentials : Type := {
  apiKey : string; secretKey : string; passphrase : string; demo : bool
}.

Section Client.
Variable credentials : option OkxCredentials.

(** [request] with [auth = true]: throws without credentials; the signature
    headers are left out. *)
Definition request (method path : string) (body : Value) : M Value :=
  match credentials with
  | None => throw "OKX credentials not set"
  | Some _ => await (OkxRequest method path body)
  end.

(** [v.length > 0] *)
Definition nonEmpty (v : Value) : Exc bool :=
  match v with
  | None | Some JNull => inl "Cannot read properties of undefined"
  | Some (JArr items) => inr (negb (Nat.eqb (List.length items) 0))
  | Some (JStr s) => inr (negb (Nat.eqb (String.length s) 0))
  | Some (JObj fields) =>
      inr (match lookup "length" fields with
           | Some (JNum n) => (0 <? n)%Z
           | _ => false
           end)
  | _ => inr false
  end.

Definition isZeroCode (v : Value) : bool :=
  match v with Some (JStr s) => String.eqb s "0" | _ => false end.

(** [response.code === "0" && response.data.length > 0] *)
Definition succeeded (response : Value) : Exc bool :=
  match prop response "code" with
  | inl msg => inl msg
  | inr c =>
      if isZeroCode c then nonEmpty (optProp response "data") else inr false
  end.

(** [v[0]] *)
Definition item0 (v : Value) : Value :=
  match v with
  | Some (JStr (String c _)) => str (String c EmptyString)
  | Some (JObj fields) => lookup "0" fields
  | _ => first v
  end.

(** [placeOrder]: the first result if the venue accepted it, else [null]. *)
Definition placeOrder (params : list (string * Json)) : M Value :=
  response <- request "POST" "/api/v5/trade/order" (obj params) ;;
  good <- lift (succeeded response) ;;
  if good then
    let result := item0 (optProp response "data") in
    sCode <- lift (prop result "sCode") ;;
    if isZeroCode sCode then ret result else ret (Some JNull)
  else ret (Some JNull).

Definition cancelOrder (instId ordId : string) : M bool :=
  response <- request "POST" "/api/v5/trade/cancel-order"
                (obj [("instId", JStr instId); ("ordId", JStr ordId)]) ;;
  good <- lift (succeeded response) ;;
  if good then
    sCode <- lift (prop (item0 (optProp response "data")) "sCode") ;;
    ret (isZeroCode sCode)
  else ret false.

Definition setLeverage (instId lever mgnMode : string) : M bool :=
  response <- request "POST" "/api/v5/account/set-leverage"
                (obj [ ("instId", JStr instId); ("lever", JStr lever);
                       ("mgnMode", JStr mgnMode) ]) ;;
  c <- lift (prop response "code") ;;
  ret (isZeroCode c).

Definition trigger (px ord : string) (v : option string)
  : list (string * Json) :=
  match v with
  | Some p => if present v then [(px, JStr p); (ord, JStr "-1")] else []
  | None => []
  end.

(** [placeAlgoOrder], called with [ordType: "conditional"] and one of the
    two trigger prices. *)
Definition placeAlgoOrder (instId tdMode side sz : string)
    (posSide tpTriggerPx slTriggerPx : option string) : M Value :=
  response <- request "POST" "/api/v5/trade/order-algo"
    (obj ([ ("instId", JStr instId); ("tdMode", JStr tdMode);
            ("side", JStr side); ("ordType", JStr "conditional");
            ("sz", JStr sz) ]
          ++ match posSide with
             | Some p => if present posSide then [("posSide", JStr p)] else []
             | None => []
             end
          ++ trigger "tpTriggerPx" "tpOrdPx" tpTriggerPx
          ++ trigger "slTriggerPx" "slOrdPx" slTriggerPx)) ;;
  good <- lift (succeeded response) ;;
  if good then ret (item0 (optProp response "data")) else ret (Some JNull).

(** [if (order && (tp || sl)) { if (tp) ...; if (sl) ... }] *)
Definition bracket (order : Value) (instId tdMode side sz : string)
    (posSide tp sl : option string) : M unit :=
  if truthy order && (present tp || present sl) then
    (if present tp
     then placeAlgoOrder instId tdMode side sz posSide tp None ;;; ret tt
     else ret tt) ;;;
    (if present sl
     then placeAlgoOrder instId tdMode side sz posSide None sl ;;; ret tt
     else ret tt)
  else ret tt.

Definition buySpot (instId amount : string) (tp sl : option string) : M Value :=
  order <- placeOrder [ ("instId", JStr instId); ("tdMode", JStr "cash");
                        ("side", JStr "buy"); ("ordType", JStr "market");
                        ("sz", JStr amount) ] ;;
  bracket order instId "cash" "sell" amount None tp sl ;;;
  ret order.

Definition openLong (instId size leverage : string) (tp sl : option string)
  : M Value :=
  setLeverage instId leverage "cross" ;;;
  order <- placeOrder [ ("instId", JStr instId); ("tdMode", JStr "cross");
                        ("side", JStr "buy"); ("posSide", JStr "long");
                        ("ordType", JStr "market"); ("sz", JStr size) ] ;;
  bracket order instId "cross" "sell" size (Some "long") tp sl ;;;
  ret order.

Definition openShort (instId size leverage : string) (tp sl : option string)
  : M Value :=
  setLeverage instId leverage "cross" ;;;
  order <- placeOrder [ ("instId", JStr instId); ("tdMode", JStr "cross");
                        ("side", JStr "sell"); ("posSide", JStr "short");
                        ("ordType", JStr "market"); ("sz", JStr size) ] ;;
  bracket order instId "cross" "buy" size (Some "short") tp sl ;;;
  ret order.

End Client.

End Okx.
(* ================================================================== *)
(** ** server/mexc-api.ts: queries and limit orders *)
(* ================================================================== *)

Module MexcQueries.
Import Js Eff.

(** [Array.isArray(data) ? data : []] *)
Definition arrayOrEmpty (data : Value) : Value :=
  match data with
  | Some (JArr _) => data
  | _ => Some (JArr [])
  end.

Section Client.
Variable credentials : option Mexc.MexcCredentials.

Definition getTicker (symbol : Value) : Prog Value :=
  tryCatch
    (Mexc.request credentials "GET" "/api/v3/ticker/24hr"
       [("symbol", symbol)] false)
    (fun _ => Ret (Some JNull)).

Definition getTickers : Prog Value :=
  tryCatch
    (data <- Mexc.request credentials "GET" "/api/v3/ticker/24hr" [] false ;;
     ret (arrayOrEmpty data))
    (fun _ => Ret (Some (JArr []))).

Definition getPrice (symbol : Value) : Prog Value :=
  tryCatch
    (Mexc.request credentials "GET" "/api/v3/ticker/price"
       [("symbol", symbol)] false)
    (fun _ => Ret (Some JNull)).

Definition getAccountInfo : Prog Value :=
  tryCatch
    (Mexc.request credentials "GET" "/api/v3/account" [] true)
    (fun _ => Ret (Some JNull)).

(** [items.filter(holds)], where the callback may throw. *)
Fixpoint filterBy (holds : Json -> Exc bool) (items : list Json)
  : Exc (list Json) :=
  match items with
  | [] => inr []
  | b :: rest =>
      match holds b with
      | inl msg => inl msg
      | inr keep =>
          match filterBy holds rest with
          | inl msg => inl msg
          | inr kept => inr (if keep then b :: kept else kept)
          end
      end
  end.

(** [getBalance]: the balances of the account that hold something;
    [holds b] is [parseFloat(b.free) > 0 || parseFloat(b.locked) > 0]. *)
Definition getBalance (holds : Json -> Exc bool) : M Value :=
  bind getAccountInfo (fun account =>
    let balances := optProp account "balances" in
    if truthy balances then
      match balances with
      | Some (JArr items) =>
          kept <- lift (filterBy holds items) ;;
          ret (Some (JArr kept))
      | _ => throw "account.balances.filter is not a function"
      end
    else ret (Some (JArr []))).

(** [if (symbol) params.symbol = symbol] *)
Definition getOpenOrders (symbol : Value) : Prog Value :=
  tryCatch
    (data <- Mexc.request credentials "GET" "/api/v3/openOrders"
               (Mexc.optional "symbol" symbol) true ;;
     ret (arrayOrEmpty data))
    (fun _ => Ret (Some (JArr []))).

(** [limit = 100]: the default of a parameter left [undefined]. *)
Definition orHundred (limit : Value) : Value :=
  match limit with None => Some (JNum 100) | Some _ => limit end.

Definition getOrderHistory (symbol limit : Value) : Prog Value :=
  tryCatch
    (data <- Mexc.request credentials "GET" "/api/v3/allOrders"
               [("symbol", symbol); ("limit", orHundred limit)] true ;;
     ret (arrayOrEmpty data))
    (fun _ => Ret (Some (JArr []))).



End Client.

End MexcQueries.

(* ================================================================== *)
(** ** The other MEXC routes of server/routes.ts *)
(* ================================================================== *)

Module MexcRoutes.
Import Js Eff.

Definition notConfigured : HttpResponse :=
  reply 400 [("error", JStr "MEXC credentials not configured")].

(** [res.json(v)] *)
Definition send (v : Value) : HttpResponse := {| code := 200; payload := v |}.

Section Routes.
Variable creds : option Mexc.MexcCredentials.

(** [app.get("/api/mexc/ticker/:symbol", ...)] *)
Definition mexcTicker (symbol : string) : Prog HttpResponse :=
  bind (MexcQueries.getTicker creds (str symbol)) (fun ticker =>
    if truthy ticker then Ret (send ticker)
    else Ret (reply 404 [("error", JStr "Ticker not found")])).

(** [app.get("/api/mexc/price/:symbol", ...)] *)
Definition mexcPrice (symbol : string) : Prog HttpResponse :=
  bind (MexcQueries.getPrice creds (str symbol)) (fun price =>
    if truthy price then Ret (send price)
    else Ret (reply 404 [("error", JStr "Price not found")])).

(** [app.get("/api/mexc/orders", ...)]; [symbol] is [req.query.symbol]. *)
Definition mexcOrders (symbol : Value) : Prog HttpResponse :=
  if negb (Mexc.hasCredentials creds) then Ret notConfigured
  else bind (MexcQueries.getOpenOrders creds symbol) (fun orders =>
         Ret (send orders)).

(** [app.post("/api/mexc/sell", ...)]: [tp] and [sl] are read from the body
    and not used. *)
Definition mexcSell (symbol quantity tp sl : Value) : Prog HttpResponse :=
  if negb (Mexc.hasCredentials creds) then Ret notConfigured
  else if negb (truthy symbol) || negb (truthy quantity) then
    Ret (reply 400 [("error", JStr "symbol and quantity are required")])
  else
    bind (Mexc.sellMarket creds symbol quantity) (fun order =>
      if negb (truthy order) then
        Ret (reply 400 [("error", JStr "Failed to place sell order")])
      else Ret (reply 200 [("order", Routes.orderJson order)])).

(** [app.post("/api/mexc/cancel", ...)] *)
Definition mexcCancel (symbol orderId : Value) : Prog HttpResponse :=
  if negb (Mexc.hasCredentials creds) then Ret notConfigured
  else if negb (truthy symbol) || negb (truthy orderId) then
    Ret (reply 400 [("error", JStr "symbol and orderId are required")])
  else
    bind (Mexc.cancelOrder creds symbol orderId) (fun success =>
      Ret (reply 200 [("success", JBool success)])).

End Routes.

End MexcRoutes.

(* ================================================================== *)
(** ** server/okx-api.ts: queries and exits *)
(* ================================================================== *)

Module OkxQueries.
Import Js Eff.

(** [response.code === "0" ? response.data : []] *)
Definition dataIfOk (response : Value) : Exc Value :=
  match prop response "code" with
  | inl msg => inl msg
  | inr c =>
      if Okx.isZeroCode c then inr (optProp response "data")
      else inr (Some (JArr []))
  end.

(** [response.code === "0" && response.data.length > 0 ? response.data[0]
    : null] *)
Definition firstIfOk (response : Value) : Exc Value :=
  match Okx.succeeded response with
  | inl msg => inl msg
  | inr true => inr (Okx.item0 (optProp response "data"))
  | inr false => inr (Some JNull)
  end.

(** [request] with [auth = false]: no credentials are looked at. *)
Definition publicRequest (method path : string) : M Value :=
  await (OkxRequest method path None).

Definition getTicker (instId : string) : M Value :=
  response <- publicRequest "GET" ("/api/v5/market/ticker?instId=" ++ instId) ;;
  lift (firstIfOk response).

Definition getTickers (instType : string) : M Value :=
  response <- publicRequest "GET"
                ("/api/v5/market/tickers?instType=" ++ instType) ;;
  lift (dataIfOk response).

Definition getInstruments (instType : string) : M Value :=
  response <- publicRequest "GET"
                ("/api/v5/public/instruments?instType=" ++ instType) ;;
  lift (dataIfOk response).

Section Client.
Variable credentials : option Okx.OkxCredentials.

Definition getBalance : M Value :=
  response <- Okx.request credentials "GET" "/api/v5/account/balance" None ;;
  lift (firstIfOk response).

(** [if (instType) path += ...] *)
Definition withInstType (path : string) (instType : option string) : string :=
  if present instType
  then path ++ "?instType=" ++ orElse instType EmptyString
  else path.


Definition getOpenOrders (instType : option string) : M Value :=
  response <- Okx.request credentials "GET"
                (withInstType "/api/v5/trade/orders-pending" instType) None ;;
  lift (dataIfOk response).

(** An integer in a template literal. *)
Definition showZ (n : Z) : string := NilZero.string_of_int (Z.to_int n).

(** [instType = "SPOT", limit = 100]; the limit is an integer. *)
Definition getOrderHistory (instType : option string) (limit : option Z)
  : M Value :=
  response <- Okx.request credentials "GET"
                ("/api/v5/trade/orders-history-archive?instType="
                 ++ match instType with Some t => t | None => "SPOT" end
                 ++ "&limit="
                 ++ showZ (match limit with Some n => n | None => 100%Z end))
                None ;;
  lift (dataIfOk response).

(** [tp] and [sl] are parameters of [sellSpot] that its body does not use. *)
Definition sellSpot (instId amount : string) (tp sl : option string)
  : M Value :=
  Okx.placeOrder credentials
    [ ("instId", JStr instId); ("tdMode", JStr "cash");
      ("side", JStr "sell"); ("ordType", JStr "market");
      ("sz", JStr amount) ].

Definition closeLong (instId size : string) : M Value :=
  Okx.placeOrder credentials
    [ ("instId", JStr instId); ("tdMode", JStr "cross");
      ("side", JStr "sell"); ("posSide", JStr "long");
      ("ordType", JStr "market"); ("sz", JStr size) ].

Definition closeShort (instId size : string) : M Value :=
  Okx.placeOrder credentials
    [ ("instId", JStr instId); ("tdMode", JStr "cross");
      ("side", JStr "buy"); ("posSide", JStr "short");
      ("ordType", JStr "market"); ("sz", JStr size) ].

End Client.

End OkxQueries.
(* ================================================================== *)
(** ** server/moltbook-api.ts *)
(* ================================================================== *)

Module Moltbook.
Import Js Eff.

Definition MOLTBOOK_BASE_URL : string := "https://www.moltbook.com/api/v1".

(** A field is set only when its value is not [undefined]. *)
Definition field (name : string) (v : Value) : list (string * Json) :=
  match v with Some j => [(name, j)] | None => [] end.

(** [a || b] on values. *)
Definition orValue (a b : Value) : Value := if truthy a then a else b.

Section Client.
(** [this.apiKey] *)
Variable apiKey : option string.

Definition headersOf : list (string * string) :=
  ("Content-Type", "application/json")
  :: (if present apiKey
      then [("Authorization", ("Bearer " ++ orElse apiKey EmptyString)%string)]
      else []).

(** [request]: what it resolves to is always a [MoltbookResponse]; nothing
    is thrown. *)
Definition request (endpoint method : string) (body : Value) : Prog Value :=
  tryCatch (
    response <- await (Fetch {| url := MOLTBOOK_BASE_URL ++ endpoint;
                                method := method;
                                headers := headersOf;
                                body := body |}) ;;
    data <- lift (json response) ;;
    if negb (ok response) then
      error <- lift (prop data "error") ;;
      hint <- lift (prop data "hint") ;;
      ret (obj ([ ("success", JBool false) ]
                ++ field "error"
                     (orValue error
                        (str ("HTTP " ++ showNat (status response))%string))
                ++ field "hint" hint))
    else
      ret (obj ([ ("success", JBool true) ] ++ field "data" data)))
    (fun msg => Ret (obj [ ("success", JBool false); ("error", JStr msg) ])).

Definition register (name description : string) : Prog Value :=
  request "/agents/register" "POST"
    (obj [ ("name", JStr name); ("description", JStr description) ]).

Definition getStatus : Prog Value := request "/agents/status" "GET" None.

Definition getProfile : Prog Value := request "/agents/me" "GET" None.

Definition getPost (postId : string) : Prog Value :=
  request ("/posts/" ++ postId) "GET" None.

(** [if (content) body.content = content; if (url) body.url = url] *)
Definition createPost (submolt title : string) (content url : option string)
  : Prog Value :=
  request "/posts" "POST"
    (obj ([ ("submolt", JStr submolt); ("title", JStr title) ]
          ++ (if present content
              then [("content", JStr (orElse content EmptyString))] else [])
          ++ (if present url
              then [("url", JStr (orElse url EmptyString))] else []))).

Definition getComments (postId sort : string) : Prog Value :=
  request ("/posts/" ++ postId ++ "/comments?sort=" ++ sort) "GET" None.

Definition addComment (postId content : string) (parentId : option string)
  : Prog Value :=
  request ("/posts/" ++ postId ++ "/comments") "POST"
    (obj ([ ("content", JStr content) ]
          ++ (if present parentId
              then [("parent_id", JStr (orElse parentId EmptyString))]
              else []))).

Definition upvotePost (postId : string) : Prog Value :=
  request ("/posts/" ++ postId ++ "/upvote") "POST" None.

Definition downvotePost (postId : string) : Prog Value :=
  request ("/posts/" ++ postId ++ "/downvote") "POST" None.

Definition upvoteComment (commentId : string) : Prog Value :=
  request ("/comments/" ++ commentId ++ "/upvote") "POST" None.

Definition getSubmolts : Prog Value := request "/submolts" "GET" None.

Definition follow (agentName : string) : Prog Value :=
  request ("/agents/" ++ agentName ++ "/follow") "POST" None.

Definition unfollow (agentName : string) : Prog Value :=
  request ("/agents/" ++ agentName ++ "/follow") "DELETE" None.

End Client.

End Moltbook.

(* ================================================================== *)
(** ** server/wallet-service.ts and the read-only helpers *)
(* ================================================================== *)

Module WalletService.
Import Js Eff.

Record WalletInfo : Type := {
  address : string;
  balance : string;
  balanceWei : Z
}.

Definition getWalletBalance (rt : Runtime) (addr : string) : Prog WalletInfo :=
  tryCatch (
    bal <- await (GetBalance addr) ;;
    ret {| address := addr; balance := formatEther rt bal; balanceWei := bal |})
    (fun _ => Ret {| address := addr; balance := "0"; balanceWei := 0 |}).

(** [{ hash }] or [{ error }] *)
Definition transferEth (rt : Runtime)
    (encryptedPrivateKey toAddress amountEth : string) : Prog Value :=
  tryCatch (
    privateKey <- lift (decryptPrivateKey rt encryptedPrivateKey) ;;
    account <- lift (privateKeyToAccount rt privateKey) ;;
    value <- lift (parseEther rt amountEth) ;;
    hash <- await (SendTransaction (str toAddress) None value) ;;
    ret (obj [ ("hash", JStr hash) ]))
    (fun msg => Ret (obj [ ("error", JStr (orElse (Some msg) "Transfer failed")) ])).

End WalletService.

Module WethBalance.
Import Js Eff.

Definition WETH : string := "0x4200000000000000000000000000000000000006".

(** [getWethBalance] of trade-service.ts *)
Definition getWethBalance (rt : Runtime) (walletAddress : string)
  : Prog string :=
  tryCatch (
    balance <- await (ReadBalanceOf WETH walletAddress) ;;
    ret (formatEther rt balance))
    (fun _ => Ret "0").

Definition noBalance : HttpResponse := reply 200 [("balance", JStr "0")].

(** The handler of the WETH balance endpoint: any method but OPTIONS is
    served. *)
Definition handler (rt : Runtime) (req_method : string)
    (sessionId : option string) : Prog HttpResponse :=
  if String.eqb req_method "OPTIONS" then
    Ret {| code := 200; payload := None |}
  else
    tryCatch (
      rows <- await (SelectAgent sessionId) ;;
      match rows with
      | [] => ret noBalance
      | row :: _ =>
          if negb (present (wallet_address row)) then ret noBalance
          else
            balance <- await (ReadBalanceOf WETH
                                (orElse (wallet_address row) EmptyString)) ;;
            ret (reply 200 [("balance", JStr (formatEther rt balance))])
      end)
      (fun _ => Ret noBalance).

End WethBalance.

Module ClankerInfo.
Import Js Eff.

(** [getTokenInfo] of clanker-service.ts *)
Definition getTokenInfo (tokenAddress : string) : Prog Value :=
  tryCatch (
    response <- await (Fetch {| url := "https://www.clanker.world/api/tokens/"
                                         ++ tokenAddress;
                                method := "GET"; headers := []; body := None |}) ;;
    if negb (ok response) then ret (Some JNull)
    else lift (json response))
    (fun _ => Ret (Some JNull)).

End ClankerInfo.
(* ================================================================== *)
(** ** The server: storage, clock and the contracts of the launch venue *)
(* ================================================================== *)

(** The Express server calls, besides what the trade code calls, its
    storage, the clock, and two more contracts.  [Task] is [Prog] over this
    larger signature; a program of the trade code runs in it unchanged
    ([core]). *)
Module Server.
Import Js Eff.

(** A row of [moltbook_agent], as [storage.getAgent] gives it. *)
Record Agent : Type := {
  agent_id : string;
  agent_name : string;
  agent_apiKey : option string;
  walletAddress : option string;
  encryptedPrivateKey : option string
}.

(** A row of [post_queue]. *)
Record PostQueueItem : Type := {
  item_id : string;
  item_submolt : string;
  item_title : string;
  item_content : option string
}.

Inductive Call : Type -> Type :=
| Core (A : Type) (e : Effect A) : Call A
| GetAgent (sessionId : option string) : Call (Exc (option Agent))
| GetLastPostedTime : Call (Exc (option Z))        (* milliseconds *)
| GetPendingPosts : Call (Exc (list PostQueueItem))
| MarkAsPosted (id : string) : Call (Exc unit)
| MarkAsFailed (id : string) (error : Value) : Call (Exc unit)
| Now : Call Z                                     (* new Date(), in ms *)
| WriteWithdraw (wad : Z) : Call (Exc string)      (* WETH.withdraw(wad) *)
| ReadFeesToClaim (feeOwner token : string) : Call (Exc Z)
| WriteClaim (feeOwner token : string) (amount : Z) : Call (Exc string).

Arguments Core {A} e.

Inductive Task (R : Type) : Type :=
| Done (r : R)
| Do (A : Type) (c : Call A) (k : A -> Task R).

Arguments Done {R} r.
Arguments Do {R A} c k.

Fixpoint bindT {R S : Type} (p : Task R) (f : R -> Task S) : Task S :=
  match p with
  | Done r => f r
  | Do c k => Do c (fun a => bindT (k a) f)
  end.

(** A program of the trade code, run by the server. *)
Fixpoint core {R : Type} (p : Prog R) : Task R :=
  match p with
  | Ret r => Done r
  | Vis e k => Do (Core e) (fun a => core (k a))
  end.

Definition TM (A : Type) : Type := Task (Exc A).

Definition retT {A : Type} (a : A) : TM A := Done (inr a).
Definition throwT {A : Type} (msg : string) : TM A := Done (inl msg).
Definition liftT {A : Type} (x : Exc A) : TM A := Done x.
Definition awaitT {A : Type} (c : Call (Exc A)) : TM A := Do c Done.
(** [await f()] for an [f] that cannot throw. *)
Definition calm {A : Type} (p : Task A) : TM A := bindT p retT.

Definition bindTM {A B : Type} (m : TM A) (f : A -> TM B) : TM B :=
  bindT m (fun x => match x with inl msg => Done (inl msg) | inr a => f a end).

Definition tryCatchT {A : Type} (m : TM A) (h : string -> Task A) : Task A :=
  bindT m (fun x => match x with inl msg => h msg | inr a => Done a end).

Notation "x <~ m ;; k" := (bindTM m (fun x => k))
  (at level 61, m at next level, right associativity).
Notation "m ;;~ k" := (bindTM m (fun _ => k))
  (at level 61, right associativity).

(** A call of the server together with what it resolved to. *)
Inductive Occurrence : Type :=
| Occurred (A : Type) (c : Call A) (a : A).

Arguments Occurred {A} c a.

Record Backend : Type := {
  bstate : Type;
  serve : forall A : Type, Call A -> bstate -> A * bstate
}.

Fixpoint runT {R : Type} (b : Backend) (p : Task R) (s : bstate b)
  : R * list Occurrence * bstate b :=
  match p with
  | Done r => (r, [], s)
  | Do c k =>
      let (a, s1) := serve b _ c s in
      let '(r, t, s2) := runT b (k a) s1 in
      (r, Occurred c a :: t, s2)
  end.

Definition outcome {R : Type} (b : Backend) (p : Task R) (s : bstate b) : R :=
  fst (fst (runT b p s)).
Definition calls {R : Type} (b : Backend) (p : Task R) (s : bstate b)
  : list Occurrence :=
  snd (fst (runT b p s)).

(** The world the trade code sees through a backend. *)
Definition worldOf (b : Backend) : World :=
  {| state := bstate b; answer := fun A e => serve b A (Core e) |}.

Definition ofEvent (ev : Event) : Occurrence :=
  match ev with Called e a => Occurred (Core e) a end.

Definition WETH : string := "0x4200000000000000000000000000000000000006".

Definition failure (msg : string) : Value :=
  obj [("success", JBool false); ("error", JStr msg)].

(** [res.json(v)] *)
Definition send (v : Value) : HttpResponse := {| code := 200; payload := v |}.

(** *** trade-service.ts: [unwrapWeth] *)

(** [amount === "all" || !amount ? wethBalance : parseEther(amount)] *)
Definition amountToUnwrap (rt : Runtime) (amount : option string)
    (wethBalance : Z) : Exc Z :=
  match amount with
  | Some a =>
      if String.eqb a "all" || negb (present amount) then inr wethBalance
      else parseEther rt a
  | None => inr wethBalance
  end.

(** The part shared by [unwrapWeth] and the unwrap handler, from the
    balance read on; [say] builds the answer from a payload. *)
Definition unwrapFrom {R : Type} (rt : Runtime) (say : Value -> R)
    (address : string) (amount : option string) : TM R :=
  wethBalance <~ awaitT (Core (ReadBalanceOf WETH address)) ;;
  if (wethBalance =? 0)%Z then
    retT (say (failure "No WETH to unwrap"))
  else
    amountToUnwrap <~ liftT (amountToUnwrap rt amount wethBalance) ;;
    if (amountToUnwrap >? wethBalance)%Z then
      retT (say (failure ("Not enough WETH. You have "
                          ++ formatEther rt wethBalance ++ " WETH")))
    else
      (* Unwrap WETH to ETH *)
      hash <~ awaitT (WriteWithdraw amountToUnwrap) ;;
      awaitT (Core (WaitForTransactionReceipt hash)) ;;~
      retT (say (obj [ ("success", JBool true);
                       ("transactionHash", JStr hash);
                       ("ethReceived",
                         JStr (formatEther rt amountToUnwrap)) ])).

Definition unwrapWeth (rt : Runtime) (encryptedPrivateKey : string)
    (amount : option string) : Task Value :=
  tryCatchT (
    address <~ liftT (getAccountFromEncryptedKey rt encryptedPrivateKey) ;;
    unwrapFrom rt (fun v => v) address amount)
    (fun msg =>
       Done (if includes msg "insufficient funds"
             then failure "Insufficient gas. Add ETH to your wallet."
             else failure "Unwrap failed. Try again.")).

(** *** api/trade/unwrap.ts *)

Definition unwrapHandler (rt : Runtime) (req_method : string)
    (sessionId amount : option string) : Task HttpResponse :=
  if String.eqb req_method "OPTIONS" then
    Done {| code := 200; payload := None |}
  else if negb (String.eqb req_method "POST") then
    Done (reply 405 [("error", JStr "Method not allowed")])
  else
    tryCatchT (
      rows <~ awaitT (Core (SelectAgent sessionId)) ;;
      match rows with
      | [] => retT (reply 400 [("error", JStr "No wallet found. Register first!")])
      | row :: _ =>
          if negb (present (encrypted_private_key row)) then
            retT (reply 400 [("error", JStr "No wallet found. Register first!")])
          else
            privateKey <~ liftT (decryptPrivateKey rt
                                   (orElse (encrypted_private_key row)
                                           EmptyString)) ;;
            address <~ liftT (privateKeyToAccount rt privateKey) ;;
            unwrapFrom rt send address amount
      end)
      (fun msg =>
         Done (send (if includes msg "insufficient funds"
                     then failure "Insufficient gas. Add ETH."
                     else failure "Unwrap failed. Try again."))).

(** *** clanker-service.ts: fees *)

Definition FEE_LOCKER_ADDRESS : string :=
  "0x1d5A0F0BD3eA07F78FC14577f053de7A3FEc35B2".

Section Fees.
(** [(Number(n) / 1e18).toFixed(6)] *)
Variable ethFixed6 : Z -> string.
Variable rt : Runtime.

(** The body of the loop of [getClaimableFees], for one token: what it adds
    to [results].  The read does not mention the token. *)
Definition feesOf (walletAddress tokenAddress : string)
  : TM (list (string * Z)) :=
  fees <~ awaitT (ReadFeesToClaim walletAddress WETH) ;;
  if (fees >? 0)%Z then retT [(tokenAddress, fees)] else retT [].

Fixpoint collectFees (walletAddress : string) (tokenAddresses : list string)
  : TM (list (string * Z)) :=
  match tokenAddresses with
  | [] => retT []
  | tokenAddress :: rest =>
      found <~ feesOf walletAddress tokenAddress ;;
      more <~ collectFees walletAddress rest ;;
      retT (found ++ more)
  end.

Definition claimable (entry : string * Z) : Json :=
  JObj [ ("tokenAddress", JStr (fst entry));
         ("fees", JStr (bigintToString rt (snd entry)));
         ("feesEth", JStr (ethFixed6 (snd entry))) ].

(** [results.reduce((sum, r) => sum + BigInt(r.fees), 0n)] *)
Fixpoint sumFees (results : list (string * Z)) (sum : Z) : Exc Z :=
  match results with
  | [] => inr sum
  | r :: rest =>
      match toBigInt rt (str (bigintToString rt (snd r))) with
      | inl msg => inl msg
      | inr n => sumFees rest (sum + n)%Z
      end
  end.

Definition getClaimableFees (walletAddress : string)
    (tokenAddresses : list string) : Task Value :=
  tryCatchT (
    results <~ collectFees walletAddress tokenAddresses ;;
    totalFees <~ liftT (sumFees results 0) ;;
    retT (obj [ ("claimableTokens", JArr (map claimable results));
                ("totalFees", JStr (ethFixed6 totalFees)) ]))
    (fun _ => Done (obj [ ("claimableTokens", JArr []);
                          ("totalFees", JStr "0") ])).

Definition claimFees (encryptedPrivateKey : string) : Task Value :=
  tryCatchT (
    address <~ liftT (getAccountFromEncryptedKey rt encryptedPrivateKey) ;;
    (* Check claimable WETH *)
    fees <~ awaitT (ReadFeesToClaim address WETH) ;;
    if (fees =? 0)%Z then retT (failure "No fees to claim")
    else
      (* Claim all WETH fees *)
      hash <~ awaitT (WriteClaim address WETH fees) ;;
      retT (obj [ ("success", JBool true);
                  ("transactionHash", JStr hash);
                  ("amountClaimed", JStr (ethFixed6 fees)) ]))
    (fun msg => Done (failure (orElse (Some msg) "Failed to claim fees"))).

End Fees.

(** *** The trading and wallet routes of server/routes.ts *)

Definition noWallet : HttpResponse :=
  reply 400 [("error", JStr "No wallet found. Register first!")].

(** [agent?.encryptedPrivateKey], when it is truthy. *)
Definition keyOf (agent : option Agent) : option string :=
  match agent with
  | Some a => if present (encryptedPrivateKey a) then encryptedPrivateKey a
              else None
  | None => None
  end.

Definition addressOf (agent : option Agent) : option string :=
  match agent with
  | Some a => if present (walletAddress a) then walletAddress a else None
  | None => None
  end.

(** [app.post("/api/trade/buy", ...)] *)
Definition tradeBuy (rt : Runtime) (sessionId tokenAddress amountEth : option string)
  : Task HttpResponse :=
  tryCatchT (
    agent <~ awaitT (GetAgent sessionId) ;;
    match keyOf agent with
    | None => retT noWallet
    | Some key =>
        if negb (present tokenAddress) then
          retT (reply 400 [("error", JStr "Token address required")])
        else
          result <~ calm (core (TradeService.buyToken rt key
                                  (orElse tokenAddress EmptyString)
                                  (orElse amountEth "0.01"))) ;;
          retT (send result)
    end)
    (fun _ => Done (reply 500 [("error", JStr "Buy failed")])).

(** [app.post("/api/trade/sell", ...)] *)
Definition tradeSell (rt : Runtime) (sessionId tokenAddress amount : option string)
  : Task HttpResponse :=
  tryCatchT (
    agent <~ awaitT (GetAgent sessionId) ;;
    match keyOf agent with
    | None => retT noWallet
    | Some key =>
        if negb (present tokenAddress) then
          retT (reply 400 [("error", JStr "Token address required")])
        else
          result <~ calm (core (TradeService.sellToken rt key
                                  (orElse tokenAddress EmptyString)
                                  (orElse amount "all"))) ;;
          retT (send result)
    end)
    (fun _ => Done (reply 500 [("error", JStr "Sell failed")])).

(** [app.post("/api/trade/unwrap", ...)] *)
Definition tradeUnwrap (rt : Runtime) (sessionId amount : option string)
  : Task HttpResponse :=
  tryCatchT (
    agent <~ awaitT (GetAgent sessionId) ;;
    match keyOf agent with
    | None => retT noWallet
    | Some key =>
        result <~ calm (unwrapWeth rt key amount) ;;
        retT (send result)
    end)
    (fun _ => Done (reply 500 [("error", JStr "Unwrap failed")])).

(** [app.get("/api/wallet/weth", ...)] *)
Definition walletWeth (rt : Runtime) (sessionId : option string)
  : Task HttpResponse :=
  tryCatchT (
    agent <~ awaitT (GetAgent sessionId) ;;
    match addressOf agent with
    | None => retT (reply 200 [("balance", JStr "0")])
    | Some address =>
        balance <~ calm (core (WethBalance.getWethBalance rt address)) ;;
        retT (reply 200 [("balance", JStr balance)])
    end)
    (fun _ => Done (reply 200 [("balance", JStr "0")])).

(** [app.get("/api/wallet", ...)] *)
Definition wallet (rt : Runtime) (sessionId : option string)
  : Task HttpResponse :=
  tryCatchT (
    agent <~ awaitT (GetAgent sessionId) ;;
    match addressOf agent with
    | None =>
        retT (reply 400 [("error", JStr "No wallet found. Register an agent first.")])
    | Some address =>
        walletInfo <~ calm (core (WalletService.getWalletBalance rt address)) ;;
        retT (reply 200
                [ ("address", JStr (WalletService.address walletInfo));
                  ("balance", JStr (WalletService.balance walletInfo));
                  ("balanceWei",
                    JStr (bigintToString rt
                            (WalletService.balanceWei walletInfo))) ])
    end)
    (fun _ => Done (reply 500 [("error", JStr "Failed to fetch wallet info")])).

(** [Number(n)] of a bigint: the double nearest to it, ties to even. *)
Definition numberOfBigInt (n : Z) : float :=
  SF2Prim (binary_normalize prec emax n 0 false).

Fixpoint zeros (k : nat) : string :=
  match k with
  | O => EmptyString
  | S k' => String "0" (zeros k')
  end.

(** The decimal digits of [n / 10^18], with eighteen of them after the
    point. *)
Definition fixed18 (n : Z) : string :=
  let m := NilZero.string_of_int (Z.to_int n) in
  let m := if Nat.leb (String.length m) 18
           then (zeros (19 - String.length m) ++ m)%string else m in
  let k := String.length m in
  (substring 0 (k - 18) m ++ "." ++ substring (k - 18) 18 m)%string.

Section ToFixed.
(** [Number::toString], which [toFixed] falls back on from 1e21 on and for
    what is not finite. *)
Variable numberToString : float -> string.

(** [x.toFixed(18)]: the integer [n] with [n / 10^18] nearest to the exact
    value of [x], the larger one of two, written with eighteen decimals. *)
Definition toFixed18 (x : float) : string :=
  match Prim2SF x with
  | S754_zero _ => fixed18 0
  | S754_finite s m e =>
      let sign := if s then "-" else EmptyString in
      let large :=
        match e with
        | Zneg p => (10 ^ 21 * 2 ^ Zpos p <=? Zpos m)%Z
        | _ => (10 ^ 21 <=? Zpos m * 2 ^ e)%Z
        end in
      if large then (sign ++ numberToString (PrimFloat.abs x))%string
      else
        (sign ++ fixed18
           match e with
           | Zneg p =>
               ((2 * (Zpos m * 10 ^ 18) + 2 ^ Zpos p) / (2 * 2 ^ Zpos p))%Z
           | _ => (Zpos m * 2 ^ e * 10 ^ 18)%Z
           end)%string
  | _ => numberToString x
  end.

(** [(Number(wei) / 1e18).toFixed(18)] *)
Definition ethFixed18 (wei : Z) : string :=
  toFixed18 (PrimFloat.div (numberOfBigInt wei)
                           (numberOfBigInt (10 ^ 18))).

End ToFixed.

(** [app.post("/api/wallet/transfer", ...)] *)
Section Transfer.
Variable numberToString : float -> string.

Definition gasBuffer : Z := 100000000000000.

Definition walletTransfer (rt : Runtime)
    (sessionId toAddress amount : option string) : Task HttpResponse :=
  tryCatchT (
    agent <~ awaitT (GetAgent sessionId) ;;
    match keyOf agent, addressOf agent with
    | Some key, Some address =>
        if negb (present toAddress) then
          retT (reply 400 [("error", JStr "toAddress is required")])
        else
          let transfer (transferAmount : string) : TM HttpResponse :=
            result <~ calm (core (WalletService.transferEth rt key
                                    (orElse toAddress EmptyString)
                                    transferAmount)) ;;
            match optProp result "error" with
            | Some error => retT (reply 400 [("error", error)])
            | None =>
                retT (reply 200
                        ([ ("success", JBool true) ]
                         ++ Moltbook.field "transactionHash"
                              (optProp result "hash")
                         ++ [ ("amount", JStr transferAmount) ]))
            end in
          (* Handle "max" - calculate balance minus gas buffer *)
          if match amount with Some a => String.eqb a "max" | None => false end
             || negb (present amount) then
            walletInfo <~ calm (core (WalletService.getWalletBalance rt address)) ;;
            let balanceWei := WalletService.balanceWei walletInfo in
            if (balanceWei <=? gasBuffer)%Z then
              retT (reply 400 [("error", JStr "Insufficient balance for transfer + gas")])
            else transfer (ethFixed18 numberToString (balanceWei - gasBuffer))
          else transfer (orElse amount EmptyString)
    | _, _ => retT (reply 400 [("error", JStr "No wallet found")])
    end)
    (fun _ => Done (reply 500 [("error", JStr "Transfer failed")])).

End Transfer.

(** *** The post queue: [app.post("/api/queue/process", ...)] *)

Section Queue.
(** [date.toISOString()], from milliseconds. *)
Variable toISOString : Z -> string.

Definition thirtyMinutes : Z := 30 * 60 * 1000.

(** [lastPosted && lastPosted > thirtyMinsAgo] *)
Definition rateLimited (lastPosted : option Z) (now : Z) : bool :=
  match lastPosted with
  | Some t => (t >? now - thirtyMinutes)%Z
  | None => false
  end.

Definition isTrue (v : Value) : bool := truthy v.

Definition queueProcess (sessionId : option string) : Task HttpResponse :=
  tryCatchT (
    agent <~ awaitT (GetAgent sessionId) ;;
    match agent with
    | None => retT (reply 400 [("error", JStr "No agent registered")])
    | Some a =>
      if negb (present (agent_apiKey a)) then
        retT (reply 400 [("error", JStr "No agent registered")])
      else
        (* Check rate limit *)
        lastPosted <~ awaitT GetLastPostedTime ;;
        now <~ calm (Do Now Done) ;;
        if rateLimited lastPosted now then
          retT (reply 200
                  [ ("processed", JNum 0);
                    ("nextAvailable",
                      JStr (toISOString
                              (match lastPosted with Some t => t | None => 0 end
                               + thirtyMinutes)));
                    ("message", JStr "Rate limit active, try again later") ])
        else
          pending <~ awaitT GetPendingPosts ;;
          match pending with
          | [] => retT (reply 200 [ ("processed", JNum 0);
                                    ("message", JStr "No pending posts") ])
          | post :: _ =>
              (* Process first pending post *)
              result <~ calm (core (Moltbook.createPost (agent_apiKey a)
                                      (item_submolt post) (item_title post)
                                      (item_content post) None)) ;;
              if isTrue (optProp result "success") then
                awaitT (MarkAsPosted (item_id post)) ;;~
                retT (reply 200 ([ ("processed", JNum 1) ]
                                 ++ Moltbook.field "post" (optProp result "data")))
              else
                awaitT (MarkAsFailed (item_id post)
                          (Moltbook.orValue (optProp result "error")
                                            (str "Unknown error"))) ;;~
                retT (reply 200 ([ ("processed", JNum 0) ]
                                 ++ Moltbook.field "error"
                                      (optProp result "error")))
          end
    end)
    (fun _ => Done (reply 500 [("error", JStr "Failed to process queue")])).

End Queue.

End Server.

(* ================================================================== *)
(** ** Observing runs *)
(* ================================================================== *)

(** The vocabulary in which the properties of the trade paths are stated:
    which provider a call goes to, and worlds to run the programs in. *)
Module Observe.
Import Js Eff.

Inductive Provider : Type := Kyberswap | Odos | ParaSwap | OneInch.

Definition host (p : Provider) : string :=
  match p with
  | Kyberswap => "https://aggregator-api.kyberswap.com/"
  | Odos => "https://api.odos.xyz/"
  | ParaSwap => "https://apiv5.paraswap.io/"
  | OneInch => "https://api.1inch.dev/"
  end.

(** The [type] field of the quotes of a provider. *)
Definition tag (p : Provider) : string :=
  match p with
  | Kyberswap => "kyberswap"
  | Odos => "odos"
  | ParaSwap => "paraswap"
  | OneInch => "1inch"
  end.

(** Place in the fallback chain. *)
Definition rank (p : Provider) : nat :=
  match p with Kyberswap => 0 | Odos => 1 | ParaSwap => 2 | OneInch => 3 end.

Definition callsTo (p : Provider) (ev : Event) : bool :=
  match ev with
  | Called (Fetch rq) _ => String.prefix (host p) (url rq)
  | _ => false
  end.

(** A trace cut at its first [sendTransaction]: the calls before it, and the
    call itself with the calls after it. *)
Fixpoint untilSend (t : list Event)
  : list Event * option (Event * list Event) :=
  match t with
  | [] => ([], None)
  | ev :: t' =>
      if isSend ev then ([], Some (ev, t'))
      else let (pre, found) := untilSend t' in (ev :: pre, found)
  end.

Definition isBalanceRead (ev : Event) : bool :=
  match ev with Called (GetBalance _) _ => true | _ => false end.

Definition callName (ev : Event) : string :=
  match ev with
  | Called (Fetch _) _ => "fetch"
  | Called (SelectAgent _) _ => "sql"
  | Called (GetBalance _) _ => "getBalance"
  | Called (ReadDecimals _) _ => "decimals"
  | Called (ReadSymbol _) _ => "symbol"
  | Called (ReadBalanceOf _ _) _ => "balanceOf"
  | Called (WriteApprove _ _ _) _ => "approve"
  | Called (SendTransaction _ _ _) _ => "sendTransaction"
  | Called (WaitForTransactionReceipt _) _ => "waitForTransactionReceipt"
  | Called (MexcRequest _ _ _ _) _ => "mexc"
  | Called (OkxRequest _ _ _) _ => "okx"
  end.

(** The string a request carries under [name]. *)
Fixpoint param (name : string) (params : list (string * Value))
  : option string :=
  match params with
  | [] => None
  | (k, v) :: rest =>
      if String.eqb k name
      then match v with Some (JStr s) => Some s | _ => None end
      else param name rest
  end.

(** Side and type of an order placed on MEXC. *)
Definition mexcOrder (ev : Event) : option (string * string) :=
  match ev with
  | Called (MexcRequest m endpoint params _) _ =>
      if String.eqb m "POST" && String.eqb endpoint "/api/v3/order" then
        match param "side" params, param "type" params with
        | Some sd, Some ty => Some (sd, ty)
        | _, _ => None
        end
      else None
  | _ => None
  end.

(** A request that cancels an order, on either venue. *)
Definition isCancel (ev : Event) : bool :=
  match ev with
  | Called (MexcRequest m _ _ _) _ => String.eqb m "DELETE"
  | Called (OkxRequest _ path _) _ =>
      String.eqb path "/api/v5/trade/cancel-order"
  | _ => false
  end.

Definition okxPath (ev : Event) : option string :=
  match ev with
  | Called (OkxRequest _ path _) _ => Some path
  | _ => None
  end.

Definition isSuccess (v : Value) : bool :=
  match optProp v "success" with Some (JBool true) => true | _ => false end.

(** A world where nothing answers: every call rejects. *)
Definition refuse (A : Type) (e : Effect A) : A :=
  match e in Effect T return T with
  | Fetch _ => inl "fetch failed"
  | SelectAgent _ => inl "database unavailable"
  | GetBalance _ => inl "rpc unavailable"
  | ReadDecimals _ => inl "rpc unavailable"
  | ReadSymbol _ => inl "rpc unavailable"
  | ReadBalanceOf _ _ => inl "rpc unavailable"
  | WriteApprove _ _ _ => inl "rpc unavailable"
  | SendTransaction _ _ _ => inl "rpc unavailable"
  | WaitForTransactionReceipt _ => inl "rpc unavailable"
  | MexcRequest _ _ _ _ => inl "fetch failed"
  | OkxRequest _ _ _ => inl "fetch failed"
  end.

Definition respond (good : bool) (st : nat) (v : Value) : Exc Response :=
  inr {| ok := good; status := st; json := inr v; text := inr EmptyString |}.

(** A runtime for the examples: amounts are parsed from a table, keys are
    not encrypted. *)
Definition demoRuntime : Runtime :=
  {| decryptPrivateKey := fun k => inr k;
     privateKeyToAccount := fun _ => inr "0xA11CE";
     getAccountFromEncryptedKey := fun _ => inr "0xA11CE";
     parseEther := fun s =>
       if String.eqb s "0.01" then inr 10000000000000000%Z
       else if String.eqb s "0.001" then inr 1000000000000000%Z
       else if String.eqb s "0.0005" then inr 500000000000000%Z
       else inl "invalid decimal number";
     formatUnits := fun n _ => NilZero.string_of_int (Z.to_int n);
     formatEther := fun n => NilZero.string_of_int (Z.to_int n);
     bigintToString := fun n => NilZero.string_of_int (Z.to_int n);
     toBigInt := fun v =>
       match v with
       | Some (JStr s) =>
           match NilZero.int_of_string s with
           | Some i => inr (Z.of_int i)
           | None => inl "Cannot convert to a BigInt"
           end
       | Some (JNum n) => inr n
       | _ => inl "Cannot convert to a BigInt"
       end;
     encodeDevBuy := fun token _ _ => inr ("0xbuy" ++ token)%string;
     toBaseUnits := fun _ _ => inl "not a number" |}.

(** Only ParaSwap finds a route: it answers both of its endpoints, every
    other provider answers 404. *)
Definition onlyParaSwap : World :=
  {| state := unit;
     answer := fun A e s =>
       match e in Effect T return T -> T * unit with
       | Fetch rq => fun _ =>
           (if String.prefix (host ParaSwap) (url rq)
            then respond true 200
                   (obj [ ("priceRoute", JObj [("bestRoute", JArr [])]);
                          ("to", JStr "0xDEF171Fe48CF0115B1d80b88dc8eAB59176FEe57");
                          ("data", JStr "0x54e3f31b");
                          ("value", JStr "10000000000000000") ])
            else respond false 404 (obj [("message", JStr "route not found")]),
            s)
       | _ => fun d => (d, s)
       end (refuse A e) |}.


Definition agentRow : AgentRow :=
  {| encrypted_private_key := Some "0xkey"; wallet_address := Some "0xA11CE" |}.

Definition kyberRoute : Value :=
  obj [("data", JObj [ ("routeSummary", JObj [("amountOut", JStr "123")]);
                       ("routerAddress",
                         JStr "0x6131B5fae19EA4f9D964eAc0408E4408b66337b5") ])].

Definition kyberBuild : Value :=
  obj [("data", JObj [ ("data", JStr "0xe21fd0e9");
                       ("routerAddress",
                         JStr "0x6131B5fae19EA4f9D964eAc0408E4408b66337b5") ])].

Definition kyberAnswers (rq : Request) : Exc Response :=
  if String.eqb (method rq) "GET" then respond true 200 kyberRoute
  else respond true 200 kyberBuild.

(** The router of [kyberBuild]. *)
Definition kyberRouter : string := "0x6131B5fae19EA4f9D964eAc0408E4408b66337b5".

(** A request to sell the whole balance of a token. *)
Definition sellAll : SellApi.SellRequest :=
  {| SellApi.req_method := "POST";
     SellApi.sessionId := Some "s1";
     SellApi.tokenAddress := Some "0xT0KEN";
     SellApi.amount := Some "all" |}.

(** A wallet holding 0.005 ETH on a chain that rejects a transaction whose
    value exceeds the balance; Kyberswap quotes and builds. *)
Definition poorWallet : World :=
  {| state := unit;
     answer := fun A e s =>
       match e in Effect T return T -> T * unit with
       | Fetch rq => fun _ => (kyberAnswers rq, s)
       | SelectAgent _ => fun _ => (inr [agentRow], s)
       | GetBalance _ => fun _ => (inr 5000000000000000%Z, s)
       | SendTransaction _ _ v => fun d =>
           (if (5000000000000000 <? v)%Z
            then inl "insufficient funds for gas * price + value"
            else inr "0xswap", s)
       | _ => fun d => (d, s)
       end (refuse A e) |}.

(** No aggregator answers; the chain accepts whatever is sent. *)
Definition noRoutes : World :=
  {| state := unit;
     answer := fun A e s =>
       match e in Effect T return T -> T * unit with
       | SelectAgent _ => fun _ => (inr [agentRow], s)
       | GetBalance _ => fun _ => (inr 1000000000000000000%Z, s)
       | SendTransaction _ _ _ => fun _ => (inr "0xdevbuy", s)
       | WaitForTransactionReceipt _ => fun _ => (inr tt, s)
       | ReadSymbol _ => fun _ => (inr "NEW", s)
       | ReadDecimals _ => fun _ => (inr 18%Z, s)
       | ReadBalanceOf _ _ => fun _ => (inr 1000%Z, s)
       | _ => fun d => (d, s)
       end (refuse A e) |}.

(** No aggregator answers and the chain rejects the devbuy. *)
Definition noRoutesNoDevBuy : World :=
  {| state := unit;
     answer := fun A e s =>
       match e in Effect T return T -> T * unit with
       | SelectAgent _ => fun _ => (inr [agentRow], s)
       | GetBalance _ => fun _ => (inr 1000000000000000000%Z, s)
       | SendTransaction _ _ _ => fun _ => (inl "execution reverted", s)
       | _ => fun d => (d, s)
       end (refuse A e) |}.

Definition buyRequest (token amount : string) : BuyApi.BuyRequest :=
  {| BuyApi.req_method := "POST";
     BuyApi.sessionId := Some "session-1";
     BuyApi.tokenAddress := Some token;
     BuyApi.amountEth := Some amount |}.

(** An address that no launch venue deployed. *)
Definition someToken : string := "0x000000000000000000000000000000000000dEaD".

(** OKX accepts every order and every algo order; what it answers to an
    order is the order's id and status code, as the venue does. *)
Definition okxAccepts : World :=
  {| state := unit;
     answer := fun A e s =>
       match e in Effect T return T -> T * unit with
       | OkxRequest _ path _ => fun _ =>
           (inr (obj [ ("code", JStr "0"); ("msg", JStr EmptyString);
                       ("data", JArr [JObj [ ("ordId", JStr "312269865356374016");
                                             ("clOrdId", JStr EmptyString);
                                             ("sCode", JStr "0");
                                             ("sMsg", JStr EmptyString) ]]) ]),
            s)
       | _ => fun d => (d, s)
       end (refuse A e) |}.

Definition okxKeys : Okx.OkxCredentials :=
  {| Okx.apiKey := "key"; Okx.secretKey := "secret";
     Okx.passphrase := "pass"; Okx.demo := true |}.

Definition mexcKeys : Mexc.MexcCredentials :=
  {| Mexc.apiKey := "key"; Mexc.secretKey := "secret" |}.

(** MEXC fills the market order and refuses every limit order. *)
Definition mexcFillsOnly : World :=
  {| state := unit;
     answer := fun A e s =>
       match e in Effect T return T -> T * unit with
       | MexcRequest _ _ params _ => fun d =>
           (match param "type" params with
            | Some ty =>
                if String.eqb ty "MARKET"
                then inr (obj [ ("symbol", JStr "BTCUSDT");
                                ("orderId", JStr "1");
                                ("executedQty", JStr "0.0002") ])
                else d
            | None => d
            end, s)
       | _ => fun d => (d, s)
       end (refuse A e) |}.

(** A wallet without the token. *)
Definition emptyWallet : World :=
  {| state := unit;
     answer := fun A e s =>
       match e in Effect T return T -> T * unit with
       | SelectAgent _ => fun _ => (inr [agentRow], s)
       | ReadDecimals _ => fun _ => (inr 18%Z, s)
       | ReadBalanceOf _ _ => fun _ => (inr 0%Z, s)
       | _ => fun d => (d, s)
       end (refuse A e) |}.

(** A sell that goes through.  The state counts the balance reads: the
    wallet holds 5 finney before the swap and 9 after. *)
Definition sellingWallet : World :=
  {| state := nat;
     answer := fun A e s =>
       match e in Effect T return T -> T * nat with
       | Fetch rq => fun _ => (kyberAnswers rq, s)
       | SelectAgent _ => fun _ => (inr [agentRow], s)
       | ReadDecimals _ => fun _ => (inr 18%Z, s)
       | ReadBalanceOf _ _ => fun _ => (inr 250%Z, s)
       | WriteApprove _ _ _ => fun _ => (inr "0xapprove", s)
       | SendTransaction _ _ _ => fun _ => (inr "0xswap", s)
       | WaitForTransactionReceipt _ => fun _ => (inr tt, s)
       | GetBalance _ => fun _ =>
           (inr (if Nat.eqb s 0 then 5000000000000000%Z
                 else 9000000000000000%Z), S s)
       | _ => fun d => (d, s)
       end (refuse A e) |}.

End Observe.

(* ================================================================== *)
(** ** Properties of signals, as the theorems state them *)
(* ================================================================== *)

Module SignalProps.
Import SignalParser.

Section AnyArithmetic.
Context {N : Type} {num : Number N}.

(** The confidence the source gives an intent-pattern signal whose cleaned
    token is [tok]. *)
Definition intentConfidence (post : Post) (tok : string) : N :=
  nmin (lit 0.95%Q)
       (if has KNOWN_TOKENS tok
        then add (baseConfidence post) (lit 0.2%Q)
        else baseConfidence post).

Definition mentionConfidence (post : Post) : N :=
  mul (baseConfidence post) (lit 0.7%Q).

(** A signal pushed by the [$TOKEN] mention loop while [signals] held
    [before]. *)
Definition mentionOnly (post : Post) (before : list (TradingSignal N))
    (m : TradingSignal N) : Prop :=
  action m = buy /\
  has KNOWN_TOKENS (token m) = true /\
  confidence m = mentionConfidence post /\
  forall s, In s before -> token s <> token m.

Definition actionToken (s : TradingSignal N) : Action * string :=
  (action s, token s).


Definition firstWithKey (key : string) (l : list (TradingSignal N))
  : option (TradingSignal N) :=
  find (fun x => String.eqb (keyOf x) key) l.

Section Ordered.
Variable le : N -> N -> Prop.

(** [m] holds, for every key among [done], the best signal of that key. *)
Definition best (done : list (TradingSignal N)) (m : SignalMap) : Prop :=
  NoDup (map fst m) /\
  (forall k v, In (k, v) m ->
     k = keyOf v /\ In v done /\
     forall s, In s done -> keyOf s = k -> le (confidence s) (confidence v)) /\
  (forall s, In s done -> In (keyOf s) (map fst m)).

(** [a] may stand before [b]: the order is descending. *)
Definition descending (a b : TradingSignal N) : Prop :=
  le (confidence b) (confidence a).

End Ordered.

End AnyArithmetic.

(** *** Confidences on binary64, the numbers the program runs on *)

(** [a <= b], which is false if either is NaN. *)
Definition atMost (a b : float) : Prop := PrimFloat.leb a b = true.

Definition inRange (lo hi c : float) : Prop := atMost lo c /\ atMost c hi.

(** The vote difference of the post is a number.  It is NaN when both
    counts are beyond the range of binary64. *)
Definition counted (post : Post) : Prop :=
  PrimFloat.is_nan (netVotes (N:=float) post) = false.

(** The least confidence of a signal: 0.1 * 0.7, as rounded. *)
Definition lowest : float := mul (lit 0.1%Q) (lit 0.7%Q).

(** The greatest confidence of a mention-only signal: 0.9 * 0.7. *)
Definition highestMention : float := mul (lit 0.9%Q) (lit 0.7%Q).

End SignalProps.

(* ================================================================== *)
(** ** Properties of runs, as the theorems state them *)
(* ================================================================== *)

Module TradeProps.
Import Js Eff Observe.

(** One provider's block: it calls that provider and no other, at least
    once, and a quote it returns carries the provider's tag. *)
Definition attemptOf (p : Provider) (out : option BuyApi.Quote * list Event * unit)
  : Prop :=
  snd (fst out) <> [] /\
  Forall (fun ev => callsTo p ev = true) (snd (fst out)) /\
  match fst (fst out) with Some q => BuyApi.type q = tag p | None => True end.

(** The quote [q] is built from what provider [p] answered in the calls
    [t]: [t] holds the provider's requests, each answered with an ok status,
    the answer to the last one passed the test that the code makes of it,
    and the fields of [q] are read off the answers.  Kyberswap's build must
    hold call data, the answers of Odos and of 1inch must hold a
    transaction; of ParaSwap's answer nothing is asked but that it is
    neither [null] nor [undefined]. *)
Definition builtFrom (p : Provider) (sellAmount : string) (t : list Event)
    (q : BuyApi.Quote) : Prop :=
  match p with
  | Kyberswap =>
      exists routeRq route routeData routeDataData buildRq build buildData
             buildDataData,
        t = [ Called (Fetch routeRq) (inr route);
              Called (Fetch buildRq) (inr build) ] /\
        ok route = true /\ json route = inr routeData /\
        prop routeData "data" = inr routeDataData /\
        truthy (optProp routeDataData "routeSummary") = true /\
        ok build = true /\ json build = inr buildData /\
        prop buildData "data" = inr buildDataData /\
        truthy (optProp buildDataData "data") = true /\
        q = {| BuyApi.to := optProp routeDataData "routerAddress";
               BuyApi.data := optProp buildDataData "data";
               BuyApi.value := str sellAmount;
               BuyApi.type := "kyberswap" |}
  | Odos =>
      exists quoteRq quoted quoteData pathId assembleRq assembled assembleData
             transaction,
        t = [ Called (Fetch quoteRq) (inr quoted);
              Called (Fetch assembleRq) (inr assembled) ] /\
        ok quoted = true /\ json quoted = inr quoteData /\
        prop quoteData "pathId" = inr pathId /\ truthy pathId = true /\
        ok assembled = true /\ json assembled = inr assembleData /\
        prop assembleData "transaction" = inr transaction /\
        truthy transaction = true /\
        q = {| BuyApi.to := optProp transaction "to";
               BuyApi.data := optProp transaction "data";
               BuyApi.value := optProp transaction "value";
               BuyApi.type := "odos" |}
  | ParaSwap =>
      exists priceRq priced priceData priceRoute txRq txRes txData txTo,
        t = [ Called (Fetch priceRq) (inr priced);
              Called (Fetch txRq) (inr txRes) ] /\
        ok priced = true /\ json priced = inr priceData /\
        prop priceData "priceRoute" = inr priceRoute /\
        truthy priceRoute = true /\
        ok txRes = true /\ json txRes = inr txData /\
        prop txData "to" = inr txTo /\
        q = {| BuyApi.to := txTo;
               BuyApi.data := optProp txData "data";
               BuyApi.value := optProp txData "value";
               BuyApi.type := "paraswap" |}
  | OneInch =>
      exists rq res data tx,
        t = [Called (Fetch rq) (inr res)] /\
        ok res = true /\ json res = inr data /\
        prop data "tx" = inr tx /\ truthy tx = true /\
        q = {| BuyApi.to := optProp tx "to";
               BuyApi.data := optProp tx "data";
               BuyApi.value := optProp tx "value";
               BuyApi.type := "1inch" |}
  end.


Definition forget {S : Type} (out : option BuyApi.Quote * list Event * S)
  : option BuyApi.Quote * list Event * unit :=
  (fst out, tt).

(** The calls of the buy handler up to the balance check. *)
Definition walletCalls (req : BuyApi.BuyRequest) (address : string)
    (row : AgentRow) (rows : list AgentRow) (balance : Z) : list Event :=
  [ Called (SelectAgent (BuyApi.sessionId req)) (inr (row :: rows));
    Called (GetBalance address) (inr balance) ].

(** What a trace of a sell and the result returned with it must satisfy,
    [amount] being the amount asked for.  Without a [sendTransaction] the
    result is a failure.  At the first [sendTransaction] the seven calls
    before it are, in this order: the reads of the decimals and of the token
    balance; the route request and the build request to Kyberswap, both
    answered with an ok status; the approval, for the [routerAddress] of the
    build answer (the quoted swap target) and for the amount to sell, which is
    what [amount] resolves to and is not zero, accepted with hash [h]; the
    wait for the receipt of [h], which resolved; and the read of the native
    balance.  Before them there is at most the database lookup.  The
    transaction goes to that same [routerAddress], with the [data] of the
    build answer and no value.  No other transaction is submitted before or
    after.  And a successful result reports the hash of the swap and the
    balance read after its receipt minus the one read before it, or zero if
    that is negative. *)
Definition approvalFirst (rt : Runtime) (token : string)
    (amount : option string) (t : list Event) (r : Value) : Prop :=
  match untilSend t with
  | (_, None) => isSuccess r = false
  | (pre, Some (ev, post)) =>
      exists older decimals currentBalance routeRq route buildRq build
             buildData swapData spender amt h u address before a,
        rev pre = Called (GetBalance address) (inr before)
                  :: Called (WaitForTransactionReceipt h) (inr u)
                  :: Called (WriteApprove token spender amt) (inr h)
                  :: Called (Fetch buildRq) (inr build)
                  :: Called (Fetch routeRq) (inr route)
                  :: Called (ReadBalanceOf token address) (inr currentBalance)
                  :: Called (ReadDecimals token) (inr decimals)
                  :: older /\
        Forall (fun e => isSubmission e = false) older /\
        List.length older <= 1 /\
        Kyber.amountToSell rt amount currentBalance decimals = inr amt /\
        amt <> 0%Z /\
        callsTo Kyberswap (Called (Fetch routeRq) (inr route)) = true /\
        method routeRq = "GET" /\
        url buildRq
        = "https://aggregator-api.kyberswap.com/base/api/v1/route/build" /\
        method buildRq = "POST" /\
        ok route = true /\ ok build = true /\
        json build = inr buildData /\
        prop buildData "data" = inr swapData /\
        prop swapData "routerAddress" = inr spender /\
        ev = Called (SendTransaction spender (optProp swapData "data") 0) a /\
        Forall (fun e => isSubmission e = false) post /\
        (isSuccess r = true ->
         exists hash u' after,
           a = inr hash /\
           post = [ Called (WaitForTransactionReceipt hash) (inr u');
                    Called (GetBalance address) (inr after) ] /\
           r = obj [ ("success", JBool true);
                     ("transactionHash", JStr hash);
                     ("ethReceived",
                       JStr (formatEther rt (Z.max 0 (after - before)))) ])
  end.

(** What a run of a MEXC buy route must satisfy: no order is ever cancelled;
    the first call is the market buy and the calls after it are limit sells,
    at most two; and limit sells are placed only if a take-profit or a
    stop-loss was given and the market buy came back with an order that has
    an [executedQty], in which case the answer is 200 and carries that order
    whatever became of the limit sells. *)
Definition bracketAfterFill (tp sl : Value) (t : list Event)
    (r : HttpResponse) : Prop :=
  Forall (fun ev => isCancel ev = false) t /\
  match t with
  | [] => True
  | primary :: brackets =>
      mexcOrder primary = Some ("BUY", "MARKET") /\
      Forall (fun ev => mexcOrder ev = Some ("SELL", "LIMIT")) brackets /\
      List.length brackets <= 2 /\
      (brackets <> [] ->
       (truthy tp || truthy sl) = true /\
       exists params order,
         primary = Called (MexcRequest "POST" "/api/v3/order" params true)
                          (inr order) /\
         truthy order = true /\
         truthy (optProp order "executedQty") = true /\
         code r = 200 /\
         optProp (payload r) "order" = Some (Routes.orderJson order))
  end.

(** *** OKX *)

Definition algoPath : string := "/api/v5/trade/order-algo".
Definition orderPath : string := "/api/v5/trade/order".
Definition leveragePath : string := "/api/v5/account/set-leverage".

(** The venue accepted the order: the answer has response code 0 and a
    first result with status code 0. *)
Definition accepted (a : Exc Value) : bool :=
  match a with
  | inr response =>
      match Okx.succeeded response with
      | inr true =>
          match prop (Okx.item0 (optProp response "data")) "sCode" with
          | inr sCode => Okx.isZeroCode sCode
          | inl _ => false
          end
      | _ => false
      end
  | inl _ => false
  end.

(** The request of a conditional order of an entry: of the size of the
    entry, with one of the two trigger prices at market. *)
Definition conditional (instId tdMode side sz : string)
    (posSide tpTriggerPx slTriggerPx : option string) : Effect (Exc Value) :=
  OkxRequest "POST" algoPath
    (obj ([ ("instId", JStr instId); ("tdMode", JStr tdMode);
            ("side", JStr side); ("ordType", JStr "conditional");
            ("sz", JStr sz) ]
          ++ match posSide with
             | Some p => if present posSide then [("posSide", JStr p)] else []
             | None => []
             end
          ++ Okx.trigger "tpTriggerPx" "tpOrdPx" tpTriggerPx
          ++ Okx.trigger "slTriggerPx" "slOrdPx" slTriggerPx)).

(** The conditional orders an entry asks for: the take-profit when one was
    given, then the stop-loss when one was given. *)
Definition conditionals (instId tdMode side sz : string)
    (posSide tp sl : option string) : list (Effect (Exc Value)) :=
  (if present tp
   then [conditional instId tdMode side sz posSide tp None] else [])
  ++ (if present sl
      then [conditional instId tdMode side sz posSide None sl] else []).

(** The calls [t] are the requests [expected], in order, each made as soon
    as the one before it was answered; the entry stops short only where a
    request fails or its answer cannot be read. *)
Fixpoint madeInOrder (expected : list (Effect (Exc Value))) (t : list Event)
  : Prop :=
  match expected with
  | [] => t = []
  | request :: rest =>
      exists a t',
        t = Called request a :: t' /\
        match a with
        | inr response =>
            match Okx.succeeded response with
            | inr _ => madeInOrder rest t'
            | inl _ => t' = []
            end
        | inl _ => t' = []
        end
  end.

(** What the calls of an OKX entry must satisfy, from the market order on:
    the first call places the order and the calls after it are algo orders,
    at most two; algo orders are placed only if a take-profit or a stop-loss
    was given and the venue accepted the order (response code 0, a result
    with status code 0).  And they are placed whenever it did: after an
    accepted order the calls are the conditional orders asked for, each of
    the size of the entry and on the closing side; after any other answer
    there is none.  No filled quantity is looked at. *)
Definition bracketAfterOrder (instId tdMode side sz : string)
    (posSide tp sl : option string) (t : list Event) : Prop :=
  match t with
  | [] => True
  | primary :: brackets =>
      okxPath primary = Some orderPath /\
      Forall (fun ev => okxPath ev = Some algoPath) brackets /\
      List.length brackets <= 2 /\
      (brackets <> [] ->
       (present tp || present sl) = true /\
       exists body response order sCode,
         primary = Called (OkxRequest "POST" orderPath body) (inr response) /\
         Okx.succeeded response = inr true /\
         order = Okx.item0 (optProp response "data") /\
         prop order "sCode" = inr sCode /\
         Okx.isZeroCode sCode = true) /\
      exists body a,
        primary = Called (OkxRequest "POST" orderPath body) a /\
        if accepted a
        then madeInOrder (conditionals instId tdMode side sz posSide tp sl)
                         brackets
        else brackets = []
  end.

(** A leveraged entry: the leverage is set, then the entry follows. *)
Definition leveragedEntry (instId tdMode side sz : string)
    (posSide tp sl : option string) (t : list Event) : Prop :=
  match t with
  | [] => True
  | lev :: rest =>
      okxPath lev = Some leveragePath /\
      bracketAfterOrder instId tdMode side sz posSide tp sl rest
  end.

End TradeProps.
(* ================================================================== *)
(** ** What a pattern spans and what it captures *)
(* ================================================================== *)

(** The vocabulary of the facts about the text a signal is read from. *)
Module TextProps.
Import Regex SignalParser.

(** [w] is [l], letter case aside. *)
Fixpoint sameText (l w : string) : bool :=
  match l, w with
  | EmptyString, EmptyString => true
  | String a l', String c w' =>
      isChar (toUpperChar a) (toUpperChar c) && sameText l' w'
  | _, _ => false
  end.

Definition within (lo : nat) (hi : option nat) (n : nat) : Prop :=
  lo <= n /\ match hi with Some h => n <= h | None => True end.

(** The strings a match of the pattern can span; a word boundary spans
    nothing. *)
Fixpoint spans (r : regex) (w : string) : Prop :=
  match r with
  | Lit l => sameText l w = true
  | Class p lo hi => allChars p w = true /\ within lo hi (length w)
  | WordB => w = EmptyString
  | Seq r1 r2 => exists w1 w2 : string, w = (w1 ++ w2)%string /\ spans r1 w1 /\ spans r2 w2
  | Alt r1 r2 => spans r1 w \/ spans r2 w
  | Opt r1 => w = EmptyString \/ spans r1 w
  | Group r1 => spans r1 w
  end.

(** The capturing groups of a pattern. *)
Fixpoint groups (r : regex) : list regex :=
  match r with
  | Group r1 => [r1]
  | Seq r1 r2 | Alt r1 r2 => groups r1 ++ groups r2
  | Opt r1 => groups r1
  | _ => []
  end.

(** [v] occurs in [text]. *)
Definition occursIn (v text : string) : Prop :=
  exists a b : string, text = (a ++ v ++ b)%string.

(** A run of 2 to 10 letters. *)
Definition ticker (l : string) : Prop :=
  allChars isLetter l = true /\ 2 <= length l <= 10.

(** [\d+\.?\d*]: digits, then possibly a point and more digits. *)
Definition decimal (v : string) : Prop :=
  exists i f : string,
    allChars isDigit i = true /\ 1 <= length i /\
    allChars isDigit f = true /\
    (v = (i ++ f)%string \/ v = (i ++ "." ++ f)%string).

Fixpoint hasAdjacentLetters (s : string) : bool :=
  match s with
  | String a ((String b _) as s') =>
      (isLetter a && isLetter b) || hasAdjacentLetters s'
  | _ => false
  end.

(** The two groups the intent patterns capture with: [\$?[a-z]{2,10}] and
    [\$[a-z]{2,10}]. *)
Definition tokenGroup (g : regex) : Prop :=
  g = Seq dollarOpt letters \/ g = Seq (Lit "$") letters.

(** The three tests of [isValidToken], on a cleaned token. *)
Definition validClean (c : string) : bool :=
  negb (Nat.ltb (length c) 2 || Nat.ltb 10 (length c)) &&
  negb (has COMMON_WORDS c) && onlyCapitals c.

(** The 256 characters. *)
Definition allAscii : list ascii := map ascii_of_nat (List.seq 0 256).

(** Every character of the class is a letter. *)
Definition lettersOnly (p : ascii -> bool) : bool :=
  forallb (fun c => implb (p c) (isLetter c)) allAscii.

(** Every span of the pattern has two adjacent letters: a sufficient
    test. *)
Fixpoint needsLetters (r : regex) : bool :=
  match r with
  | Lit l => hasAdjacentLetters l
  | Class p lo hi => Nat.leb 2 lo && lettersOnly p
  | WordB => false
  | Seq r1 r2 => needsLetters r1 || needsLetters r2
  | Alt r1 r2 => needsLetters r1 && needsLetters r2
  | Opt _ => false
  | Group r1 => needsLetters r1
  end.

End TextProps.

(* ================================================================== *)
(** ** Properties of the signals of a post *)
(* ================================================================== *)

Module PostProps.
Import Regex SignalParser TextProps.

Section AnyArithmetic.
Context {N : Type} {num : Number N}.

(** What the three extracted fields of a signal of [post] can be: those read
    from the whole text of the post, or none at all. *)
Definition fieldsOfPost (post : Post) (s : TradingSignal N) : Prop :=
  (amount s = extractAmount (originalText post) /\
   tp s = fst (extractTpSl (originalText post)) /\
   sl s = snd (extractTpSl (originalText post))) \/
  (amount s = None /\ tp s = None /\ sl s = None).

(** The token of a signal is a ticker of the text in capitals. *)
Definition tokenFromText (post : Post) (s : TradingSignal N) : Prop :=
  exists l, ticker l /\ occursIn l (originalText post) /\
            token s = toUpperCase l.

(** A well-formed token: what [isValidToken] accepts, already clean. *)
Definition wellFormed (tok : string) : Prop :=
  isValidToken tok = true /\ cleanToken tok = tok /\
  2 <= length tok <= 10 /\ allChars isUpper tok = true /\
  has COMMON_WORDS tok = false.

End AnyArithmetic.

End PostProps.
(* ================================================================== *)
(** ** Properties of buys, as the theorems state them *)
(* ================================================================== *)

Module BuyProps.
Import Js Eff Observe.

(** What a trace of [buyToken] and the result returned with it must satisfy.
    Without a [sendTransaction] the result is a failure.  At the first
    [sendTransaction], the calls before it are exactly the route request and
    the build request to Kyberswap, both answered with an ok status; the
    transaction goes to the [routerAddress] of the build answer with its
    [data] and carries the parsed amount; no other transaction is submitted;
    and a successful result reports the hash of that transaction and the
    token balance read after its receipt. *)
Definition quotedFirst (rt : Runtime) (token amountEth : string)
    (t : list Event) (r : Value) : Prop :=
  match untilSend t with
  | (_, None) => isSuccess r = false
  | (pre, Some (ev, post)) =>
      exists routeRq buildRq route build buildData swapData amountIn to a,
        pre = [ Called (Fetch routeRq) (inr route);
                Called (Fetch buildRq) (inr build) ] /\
        method routeRq = "GET" /\ method buildRq = "POST" /\
        ok route = true /\ ok build = true /\
        json build = inr buildData /\
        prop buildData "data" = inr swapData /\
        prop swapData "routerAddress" = inr to /\
        parseEther rt amountEth = inr amountIn /\
        ev = Called (SendTransaction to (optProp swapData "data") amountIn) a /\
        Forall (fun e => isSubmission e = false) post /\
        (isSuccess r = true ->
         exists hash u address decimals balance,
           a = inr hash /\
           post = [ Called (WaitForTransactionReceipt hash) (inr u);
                    Called (ReadDecimals token) (inr decimals);
                    Called (ReadBalanceOf token address) (inr balance) ] /\
           r = obj [ ("success", JBool true);
                     ("transactionHash", JStr hash);
                     ("tokensReceived",
                       JStr (formatUnits rt balance decimals)) ])
  end.

(** What a trace of the buy handler and the response sent with it must
    satisfy.  Without a [sendTransaction] the only 200 is the empty answer to
    OPTIONS.  At the first [sendTransaction], the calls before it are the
    database lookup (which found a row), the read of the wallet's balance,
    which was at least the amount plus the gas buffer, and then requests to
    the aggregators only; no other transaction is submitted; and a 200
    response means that the transaction was accepted, that the first call
    after it awaited its receipt, and that the response reports success and
    its hash. *)
Definition checkedFirst (rt : Runtime) (req : BuyApi.BuyRequest)
    (t : list Event) (r : HttpResponse) : Prop :=
  match untilSend t with
  | (_, None) => code r = 200 -> payload r = None
  | (pre, Some (ev, post)) =>
      exists row rows address balance amountIn gasBuffer quoteCalls
             to data value a,
        pre = Called (SelectAgent (BuyApi.sessionId req)) (inr (row :: rows))
              :: Called (GetBalance address) (inr balance) :: quoteCalls /\
        Forall (fun e => isFetch e = true) quoteCalls /\
        parseEther rt (orElse (BuyApi.amountEth req) "0.001") = inr amountIn /\
        parseEther rt "0.0005" = inr gasBuffer /\
        (amountIn + gasBuffer <= balance)%Z /\
        ev = Called (SendTransaction to data value) a /\
        Forall (fun e => isSubmission e = false) post /\
        (code r = 200 ->
         exists hash u rest,
           a = inr hash /\
           post = Called (WaitForTransactionReceipt hash) (inr u) :: rest /\
           isSuccess (payload r) = true /\
           optProp (payload r) "transactionHash" = str hash)
  end.

(** What the part of the handler after the quote does: one transaction at
    most, sent first. *)
Definition sentFirst (out : Exc HttpResponse * list Event) : Prop :=
  match untilSend (snd out) with
  | (_, None) => forall resp, fst out = inr resp -> code resp <> 200
  | (pre, Some (ev, post)) =>
      pre = [] /\
      (exists to data value a, ev = Called (SendTransaction to data value) a /\
         (forall resp, fst out = inr resp -> code resp = 200 ->
            exists hash u rest,
              a = inr hash /\
              post = Called (WaitForTransactionReceipt hash) (inr u) :: rest /\
              isSuccess (payload resp) = true /\
              optProp (payload resp) "transactionHash" = str hash)) /\
      Forall (fun e => isSubmission e = false) post
  end.

End BuyProps.

(* ================================================================== *)
(** ** Properties of the exits on the two venues *)
(* ================================================================== *)

Module ExitProps.
Import Js Eff Observe TradeProps.

(** What the calls of a MEXC sell route and its response must satisfy:
    nothing is requested and the answer is a 400; or the one request is a
    market sell of [qty] of [sym], and the answer is a 200 that carries what
    the venue answered whenever that is truthy, and a 400 otherwise. *)
Definition sellOnly (sym qty : Value) (extra : list (string * Json))
    (t : list Event) (r : HttpResponse) : Prop :=
  (t = [] /\ code r = 400) \/
  exists a,
    t = [ Called (MexcRequest "POST" "/api/v3/order"
                    [ ("symbol", sym); ("side", str "SELL");
                      ("type", str "MARKET"); ("quantity", qty) ] true) a ] /\
    match a with
    | inr order =>
        if truthy order
        then r = reply 200 (extra ++ [("order", Routes.orderJson order)])
        else code r = 400
    | inl _ => code r = 400
    end.

(** What the calls of a market-data route of MEXC and its response must
    satisfy: the one call is the unsigned request for [symbol] at [path]; the
    answer is a 200 with what the venue answered when that is truthy, and a
    404 with [missing] otherwise, a failed request included. *)
Definition quoted (path symbol missing : string) (t : list Event)
    (r : HttpResponse) : Prop :=
  exists a,
    t = [Called (MexcRequest "GET" path [("symbol", str symbol)] false) a] /\
    r = match a with
        | inr data =>
            if truthy data then {| code := 200; payload := data |}
            else reply 404 [("error", JStr missing)]
        | inl _ => reply 404 [("error", JStr missing)]
        end.

(** The request was answered, with a body that is not [null]. *)
Definition answered (a : Exc Value) : bool :=
  match a with
  | inr (Some JNull) | inr None => false
  | inr (Some _) => true
  | inl _ => false
  end.

(** What a run of a list method of the MEXC client must satisfy.  A signed
    method without credentials makes no call and returns the empty array.
    Otherwise the one call is [request], and the result is what the venue
    answered when that is an array, and the empty array in every other
    case. *)
Definition listedBy (signed : bool) (creds : option Mexc.MexcCredentials)
    (request : Effect (Exc Value)) (out : Value * list Event) : Prop :=
  if signed && negb (Mexc.hasCredentials creds)
  then out = (Some (JArr []), [])
  else
    exists a,
      snd out = [Called request a] /\
      fst out = (match a with
                 | inr (Some (JArr items)) => Some (JArr items)
                 | _ => Some (JArr [])
                 end).

(** What a run of an OKX exit must satisfy: without credentials it throws
    before any request; with them its one call is the order with [params],
    and an order is returned only if the venue accepted it. *)
Definition exitOrder (creds : option Okx.OkxCredentials)
    (params : list (string * Json))
    (out : Exc Value * list Event) : Prop :=
  match creds with
  | None => out = (inl "OKX credentials not set", [])
  | Some _ =>
      exists a,
        snd out = [Called (OkxRequest "POST" orderPath (obj params)) a] /\
        forall order, fst out = inr order -> truthy order = true ->
          exists response sCode,
            a = inr response /\
            Okx.succeeded response = inr true /\
            order = Okx.item0 (optProp response "data") /\
            prop order "sCode" = inr sCode /\
            Okx.isZeroCode sCode = true
  end.

(** The program makes no call and returns [r]. *)
Definition untouched {R : Type} (w : World) (p : Prog R) (r : R) : Prop :=
  forall s : state w, run w p s = (r, [], s).


(** The order of a leveraged entry. *)
Definition entryOrder (instId side posSide size : string)
  : list (string * Json) :=
  [ ("instId", JStr instId); ("tdMode", JStr "cross");
    ("side", JStr side); ("posSide", JStr posSide);
    ("ordType", JStr "market"); ("sz", JStr size) ].

Definition leverageRequest (instId leverage : string) : Effect (Exc Value) :=
  OkxRequest "POST" leveragePath
    (obj [ ("instId", JStr instId); ("lever", JStr leverage);
           ("mgnMode", JStr "cross") ]).

(** The first two calls of [t] are the leverage request, answered with
    [response], and the order [params]. *)
Definition ordersAfter (instId leverage : string) (response : Value)
    (params : list (string * Json)) (t : list Event) : Prop :=
  exists a rest,
    t = Called (leverageRequest instId leverage) (inr response)
        :: Called (OkxRequest "POST" orderPath (obj params)) a :: rest.

(** OKX refuses to set the leverage and accepts every order. *)
Definition okxRefusesLeverage : World :=
  {| state := unit;
     answer := fun A e s =>
       match e in Effect T return T -> T * unit with
       | OkxRequest _ path _ => fun _ =>
           (if String.eqb path leveragePath
            then inr (obj [ ("code", JStr "59000");
                            ("msg", JStr "Setting failed");
                            ("data", JArr []) ])
            else inr (obj [ ("code", JStr "0"); ("msg", JStr EmptyString);
                            ("data", JArr [JObj [ ("ordId", JStr "7");
                                                  ("sCode", JStr "0") ]]) ]),
            s)
       | _ => fun d => (d, s)
       end (refuse A e) |}.

(** MEXC answers every request with an error object. *)
Definition mexcRefuses : World :=
  {| state := unit;
     answer := fun A e s =>
       match e in Effect T return T -> T * unit with
       | MexcRequest _ _ _ _ => fun _ =>
           (inr (obj [ ("code", JNum (-2011)); ("msg", JStr "Unknown order") ]),
            s)
       | _ => fun d => (d, s)
       end (refuse A e) |}.

(** MEXC answers every request with the body [null]. *)
Definition mexcAnswersNull : World :=
  {| state := unit;
     answer := fun A e s =>
       match e in Effect T return T -> T * unit with
       | MexcRequest _ _ _ _ => fun _ => (inr (Some JNull), s)
       | _ => fun d => (d, s)
       end (refuse A e) |}.

End ExitProps.

(* ================================================================== *)
(** ** Properties of the wallet helpers and of the Moltbook client *)
(* ================================================================== *)

Module WalletProps.
Import Js Eff Observe.

(** The wallet of the session, as the database answered: the
    [wallet_address] of the first row, when there is one and it is not
    empty. *)
Definition walletOf (a : Exc (list AgentRow)) : option string :=
  match a with
  | inr (row :: _) =>
      if present (wallet_address row) then wallet_address row else None
  | _ => None
  end.

(** What the calls of the WETH balance endpoint and its response must
    satisfy.  The status is 200 and the first call is the lookup of the
    session.  When it gives a wallet, the one other call is the read of the
    WETH balance of that wallet, and the balance shown is the one read, or
    "0" when the read failed.  When it gives none, or fails, there is no
    other call and the balance shown is "0". *)
Definition balanceOrZero (rt : Runtime) (sessionId : option string)
    (t : list Event) (r : HttpResponse) : Prop :=
  code r = 200 /\
  exists a,
    match walletOf a with
    | Some address =>
        exists b,
          t = [ Called (SelectAgent sessionId) a;
                Called (ReadBalanceOf WethBalance.WETH address) b ] /\
          payload r =
          obj [("balance",
                JStr (match b with
                      | inr wei => formatEther rt wei
                      | inl _ => "0"
                      end))]
    | None =>
        t = [Called (SelectAgent sessionId) a] /\
        payload r = obj [("balance", JStr "0")]
    end.

(** What a run of [transferEth] must satisfy: either nothing is called and
    an error is returned; or the one call is a plain transfer of the parsed
    amount to the address, and the result is the hash if the transaction was
    accepted and an error if not. *)
Definition plainTransfer (rt : Runtime) (toAddress amountEth : string)
    (t : list Event) (r : Value) : Prop :=
  (t = [] /\ exists msg, r = obj [("error", JStr msg)]) \/
  exists value a,
    parseEther rt amountEth = inr value /\
    t = [Called (SendTransaction (str toAddress) None value) a] /\
    match a with
    | inr hash => r = obj [("hash", JStr hash)]
    | inl _ => exists msg, r = obj [("error", JStr msg)]
    end.

(** What a run of a call to Moltbook must satisfy: its one call is the
    request [rq]; the result is a success, carrying the answer, exactly when
    the request was answered with an ok status and a body that parses. *)
Definition oneRequest (rq : Request) (t : list Event) (r : Value) : Prop :=
  exists a,
    t = [Called (Fetch rq) a] /\
    match a with
    | inr response =>
        match json response with
        | inr data =>
            if ok response
            then r = obj ([("success", JBool true)] ++ Moltbook.field "data" data)
            else isSuccess r = false
        | inl _ => isSuccess r = false
        end
    | inl _ => isSuccess r = false
    end.

End WalletProps.
(* ================================================================== *)
(** ** Properties of server runs, as the theorems state them *)
(* ================================================================== *)

Module ServerProps.
Import Js Eff Observe Server.

(** A call that submits a transaction. *)
Definition submits (o : Occurrence) : bool :=
  match o with
  | Occurred (Core e) a => isSubmission (Called e a)
  | Occurred (WriteWithdraw _) _ => true
  | Occurred (WriteClaim _ _ _) _ => true
  | _ => false
  end.

Definition quiet (t : list Occurrence) : Prop :=
  Forall (fun o => submits o = false) t.

(** What the calls of an unwrap and the payload answered must satisfy.
    Either nothing is submitted and the answer is a failure; or the one
    submission is a withdrawal that comes right after the read of the WETH
    balance, of an amount that is what the request resolves to and is at most
    that balance, which is not zero; and a success means that the withdrawal
    was accepted, its receipt awaited, and the amount withdrawn reported. *)
Definition withinBalance (rt : Runtime) (amount : option string)
    (t : list Occurrence) (r : Value) : Prop :=
  (quiet t /\ isSuccess r = false) \/
  exists pre address balance wad a rest,
    t = pre ++ Occurred (Core (ReadBalanceOf WETH address)) (inr balance)
            :: Occurred (WriteWithdraw wad) a :: rest /\
    quiet pre /\ quiet rest /\
    balance <> 0%Z /\ (wad <= balance)%Z /\
    amountToUnwrap rt amount balance = inr wad /\
    (isSuccess r = true ->
     exists hash u,
       a = inr hash /\
       rest = [Occurred (Core (WaitForTransactionReceipt hash)) (inr u)] /\
       r = obj [ ("success", JBool true);
                 ("transactionHash", JStr hash);
                 ("ethReceived", JStr (formatEther rt wad)) ]).

(** A read of the fees the locker holds for [owner], in WETH. *)
Definition isFeeRead (owner : string) (o : Occurrence) : bool :=
  match o with
  | Occurred (ReadFeesToClaim feeOwner token) _ =>
      String.eqb feeOwner owner && String.eqb token WETH
  | _ => false
  end.

(** What the calls of [claimFees] and its result must satisfy.  Either
    nothing is submitted and the result is a failure; or the calls are the
    read of the fees and the claim of exactly the amount read, which is not
    zero, for the account of the key; the result is a success exactly when
    the claim was accepted, and no receipt is awaited. *)
Definition claimsWhatItRead (rt : Runtime) (ethFixed6 : Z -> string)
    (encryptedPrivateKey : string) (t : list Occurrence) (r : Value) : Prop :=
  (quiet t /\ isSuccess r = false) \/
  exists address fees a,
    getAccountFromEncryptedKey rt encryptedPrivateKey = inr address /\
    t = [ Occurred (ReadFeesToClaim address WETH) (inr fees);
          Occurred (WriteClaim address WETH fees) a ] /\
    fees <> 0%Z /\
    match a with
    | inr hash =>
        r = obj [ ("success", JBool true);
                  ("transactionHash", JStr hash);
                  ("amountClaimed", JStr (ethFixed6 fees)) ]
    | inl msg => isSuccess r = false
    end.

(** What the calls of an Express trading route and its response must
    satisfy, [service] being the call of the trade service for a key and a
    token.  Either the lookup of the agent is the only call and the status is
    not 200; or an agent with a stored key was found and a token given, the
    calls after the lookup are those of the service, run once, and the
    response is a 200 that carries the result of the service as it is. *)
Definition handsOver (b : Backend) (s : bstate b) (sessionId : option string)
    (tokenAddress : option string) (service : string -> string -> Prog Value)
    (t : list Occurrence) (r : HttpResponse) : Prop :=
  (exists a, t = [Occurred (GetAgent sessionId) a] /\ code r <> 200) \/
  exists agent key token s1,
    serve b _ (GetAgent sessionId) s = (inr agent, s1) /\
    keyOf agent = Some key /\ tokenAddress = Some token /\
    token <> EmptyString /\
    t = Occurred (GetAgent sessionId) (inr agent)
        :: map ofEvent (trace (worldOf b) (service key token) s1) /\
    r = send (result (worldOf b) (service key token) s1).

(** [amount === "max" || !amount] *)
Definition asksForMax (amount : option string) : bool :=
  match amount with Some a => String.eqb a "max" | None => false end
  || negb (present amount).

(** What the calls of a transfer of the whole balance and its response must
    satisfy.  Either nothing is submitted and the status is not 200; or the
    balance read was above the gas buffer, and the one submission is a plain
    transfer to the address given, sent right after the balance read and not
    followed by any call.  Its value is what [parseEther] reads from the
    amount shown, and the amount shown is the balance less the buffer after
    its passage through binary64: turned into the nearest double, divided by
    1e18, and written with eighteen decimals.  The status is 200 exactly
    when the transaction was accepted. *)
Definition sendsAllButBuffer (rt : Runtime) (numberToString : float -> string)
    (sessionId toAddress : option string)
    (t : list Occurrence) (r : HttpResponse) : Prop :=
  (quiet t /\ code r <> 200) \/
  exists agent address to balance value a,
    addressOf agent = Some address /\ toAddress = Some to /\
    t = [ Occurred (GetAgent sessionId) (inr agent);
          Occurred (Core (GetBalance address)) (inr balance);
          Occurred (Core (SendTransaction (str to) None value)) a ] /\
    (gasBuffer < balance)%Z /\
    let shown :=
      toFixed18 numberToString
        (PrimFloat.div (numberOfBigInt (balance - gasBuffer))
                       (numberOfBigInt (10 ^ 18))) in
    parseEther rt shown = inr value /\
    match a with
    | inr hash =>
        r = reply 200 [ ("success", JBool true);
                        ("transactionHash", JStr hash);
                        ("amount", JStr shown) ]
    | inl _ => code r = 400
    end.

(** What the calls of the WETH balance route and its response must satisfy.
    The status is 200 and the first call is the lookup of the agent.  When it
    gives an agent with a wallet, the one other call is the read of the WETH
    balance of that wallet, and the balance shown is the one read, or "0"
    when the read failed.  When it gives none, or fails, there is no other
    call and the balance shown is "0". *)
Definition wethShown (rt : Runtime) (sessionId : option string)
    (t : list Occurrence) (r : HttpResponse) : Prop :=
  exists a,
    match a with
    | inr agent =>
        match addressOf agent with
        | Some address =>
            exists b,
              t = [ Occurred (GetAgent sessionId) a;
                    Occurred (Core (ReadBalanceOf WETH address)) b ] /\
              r = reply 200
                    [("balance",
                      JStr (match b with
                            | inr wei => formatEther rt wei
                            | inl _ => "0"
                            end))]
        | None =>
            t = [Occurred (GetAgent sessionId) a] /\
            r = reply 200 [("balance", JStr "0")]
        end
    | inl _ =>
        t = [Occurred (GetAgent sessionId) a] /\
        r = reply 200 [("balance", JStr "0")]
    end.

(** What the calls of the wallet route and its response must satisfy.  The
    first call is the lookup of the agent.  When it gives an agent with a
    wallet, the one other call is the read of the balance of that wallet, and
    the answer is a 200 that shows the address and the balance read, or a
    balance of zero when the read failed.  When it gives no agent or no
    wallet, there is no other call and the answer is a 400; when the lookup
    fails, a 500. *)
Definition walletShown (rt : Runtime) (sessionId : option string)
    (t : list Occurrence) (r : HttpResponse) : Prop :=
  exists a,
    match a with
    | inr agent =>
        match addressOf agent with
        | Some address =>
            exists b,
              t = [ Occurred (GetAgent sessionId) a;
                    Occurred (Core (GetBalance address)) b ] /\
              r = reply 200
                    [ ("address", JStr address);
                      ("balance",
                        JStr (match b with
                              | inr wei => formatEther rt wei
                              | inl _ => "0"
                              end));
                      ("balanceWei",
                        JStr (bigintToString rt
                                (match b with
                                 | inr wei => wei
                                 | inl _ => 0%Z
                                 end))) ]
        | None =>
            t = [Occurred (GetAgent sessionId) a] /\
            r = reply 400
                  [("error",
                    JStr "No wallet found. Register an agent first.")]
        end
    | inl _ =>
        t = [Occurred (GetAgent sessionId) a] /\
        r = reply 500 [("error", JStr "Failed to fetch wallet info")]
    end.

(** A request to post. *)
Definition posts (o : Occurrence) : bool :=
  match o with
  | Occurred (Core (Fetch _)) _ => true
  | _ => false
  end.

(** A change of the post queue. *)
Definition marks (o : Occurrence) : bool :=
  match o with
  | Occurred (MarkAsPosted _) _ => true
  | Occurred (MarkAsFailed _ _) _ => true
  | _ => false
  end.

(** What the calls of a run of the queue must satisfy.  Either nothing is
    posted and the queue is not changed; or the agent has a key, the last
    post is at least thirty minutes old or there is none, and the calls are
    the four reads, one request that posts the first pending item with the
    key of the agent, and one change of the queue, of that item: marked as
    posted when the answer says success, as failed otherwise. *)
Definition oneAtATime (sessionId : option string)
    (t : list Occurrence) : Prop :=
  Forall (fun o => posts o = false /\ marks o = false) t \/
  exists agent key lastPosted now post more rq answer mark,
    agent_apiKey agent = Some key /\
    match lastPosted with
    | Some posted => (posted <= now - thirtyMinutes)%Z
    | None => True
    end /\
    t = [ Occurred (GetAgent sessionId) (inr (Some agent));
          Occurred GetLastPostedTime (inr lastPosted);
          Occurred Now now;
          Occurred GetPendingPosts (inr (post :: more));
          Occurred (Core (Fetch rq)) answer;
          mark ] /\
    url rq = (Moltbook.MOLTBOOK_BASE_URL ++ "/posts")%string /\
    method rq = "POST" /\
    headers rq = [ ("Content-Type", "application/json");
                   ("Authorization", ("Bearer " ++ key)%string) ] /\
    optProp (body rq) "submolt" = str (item_submolt post) /\
    optProp (body rq) "title" = str (item_title post) /\
    ((exists response data u,
        answer = inr response /\ ok response = true /\
        json response = inr data /\
        mark = Occurred (MarkAsPosted (item_id post)) u) \/
     (exists error u,
        mark = Occurred (MarkAsFailed (item_id post) error) u /\
        forall response data,
          answer = inr response -> json response = inr data ->
          ok response = false)).

End ServerProps.

(* ================================================================== *)
(** ** Example backends *)
(* ================================================================== *)

Module ServerExamples.
Import Js Eff Observe Server.

(** What a call resolves to when nothing answers. *)
Definition decline (A : Type) (c : Call A) : A :=
  match c in Call T return T with
  | Core e => refuse _ e
  | GetAgent _ => inl "database unavailable"
  | GetLastPostedTime => inl "database unavailable"
  | GetPendingPosts => inl "database unavailable"
  | MarkAsPosted _ => inl "database unavailable"
  | MarkAsFailed _ _ => inl "database unavailable"
  | Now => 0%Z
  | WriteWithdraw _ => inl "rpc unavailable"
  | ReadFeesToClaim _ _ => inl "rpc unavailable"
  | WriteClaim _ _ _ => inl "rpc unavailable"
  end.

(** A fee locker that holds [fees] for everyone; nothing else answers. *)
Definition feeLocker (fees : Z) : Backend :=
  {| bstate := unit;
     serve := fun A c s =>
       match c in Call T return T -> T * unit with
       | ReadFeesToClaim _ _ => fun _ => (inr fees, s)
       | _ => fun d => (d, s)
       end (decline A c) |}.

Definition demoAgent : Agent :=
  {| agent_id := "a1";
     agent_name := "molty";
     agent_apiKey := Some "moltbook_key";
     walletAddress := Some "0xA11CE";
     encryptedPrivateKey := Some "0xkey" |}.

Definition queuedPost : PostQueueItem :=
  {| item_id := "q1";
     item_submolt := "trading";
     item_title := "gm";
     item_content := None |}.

(** A server where everything answers: one agent with a wallet of 1.1
    finney and 250 wei of WETH, 5 wei of fees in the locker, one post in the
    queue and none posted yet. *)
Definition demoServer : Backend :=
  {| bstate := unit;
     serve := fun A c s =>
       match c in Call T return T -> T * unit with
       | Core e => fun d =>
           (match e in Effect T return T -> T with
            | Fetch _ => fun _ =>
                respond true 200 (obj [("id", JStr "post1")])
            | GetBalance _ => fun _ => inr 1100000000000000%Z
            | ReadBalanceOf _ _ => fun _ => inr 250%Z
            | SendTransaction _ _ _ => fun _ => inr "0xsent"
            | WaitForTransactionReceipt _ => fun _ => inr tt
            | _ => fun d' => d'
            end d, s)
       | GetAgent _ => fun _ => (inr (Some demoAgent), s)
       | GetLastPostedTime => fun _ => (inr None, s)
       | GetPendingPosts => fun _ => (inr [queuedPost], s)
       | MarkAsPosted _ => fun _ => (inr tt, s)
       | WriteWithdraw _ => fun _ => (inr "0xunwrap", s)
       | ReadFeesToClaim _ _ => fun _ => (inr 5%Z, s)
       | WriteClaim _ _ _ => fun _ => (inr "0xclaim", s)
       | _ => fun d => (d, s)
       end (decline A c) |}.

(** The agent is found, and the chain does not answer. *)
Definition offlineChain : Backend :=
  {| bstate := unit;
     serve := fun A c s =>
       match c in Call T return T -> T * unit with
       | GetAgent _ => fun _ => (inr (Some demoAgent), s)
       | _ => fun d => (d, s)
       end (decline A c) |}.

(** The same agent, with a wallet of 5 ETH; transactions are accepted. *)
Definition wealthyServer : Backend :=
  {| bstate := unit;
     serve := fun A c s =>
       match c in Call T return T -> T * unit with
       | Core e => fun d =>
           (match e in Effect T return T -> T with
            | GetBalance _ => fun _ => inr 5000000000000000000%Z
            | SendTransaction _ _ _ => fun _ => inr "0xsent"
            | _ => fun d' => d'
            end d, s)
       | GetAgent _ => fun _ => (inr (Some demoAgent), s)
       | _ => fun d => (d, s)
       end (decline A c) |}.

Fixpoint withoutPoint (s : string) : string :=
  match s with
  | EmptyString => EmptyString
  | String c s' =>
      if Ascii.eqb c "." then withoutPoint s' else String c (withoutPoint s')
  end.

(** [demoRuntime], with [parseEther] as it reads an amount written with
    eighteen decimals. *)
Definition transferRuntime : Runtime :=
  {| decryptPrivateKey := decryptPrivateKey demoRuntime;
     privateKeyToAccount := privateKeyToAccount demoRuntime;
     getAccountFromEncryptedKey := getAccountFromEncryptedKey demoRuntime;
     parseEther := fun s =>
       match NilZero.int_of_string (withoutPoint s) with
       | Some i => inr (Z.of_int i)
       | None => inl "invalid decimal number"
       end;
     formatUnits := formatUnits demoRuntime;
     formatEther := formatEther demoRuntime;
     bigintToString := bigintToString demoRuntime;
     toBigInt := toBigInt demoRuntime;
     encodeDevBuy := encodeDevBuy demoRuntime;
     toBaseUnits := toBaseUnits demoRuntime |}.

(** No amount of the examples reaches 1e21. *)
Definition noExponent (x : float) : string := "Infinity".

(** The name of a call. *)
Definition callOf (o : Occurrence) : string :=
  match o with
  | Occurred (Core e) a => callName (Called e a)
  | Occurred (GetAgent _) _ => "getAgent"
  | Occurred GetLastPostedTime _ => "getLastPostedTime"
  | Occurred GetPendingPosts _ => "getPendingPosts"
  | Occurred (MarkAsPosted _) _ => "markAsPosted"
  | Occurred (MarkAsFailed _ _) _ => "markAsFailed"
  | Occurred Now _ => "now"
  | Occurred (WriteWithdraw _) _ => "withdraw"
  | Occurred (ReadFeesToClaim _ _) _ => "feesToClaim"
  | Occurred (WriteClaim _ _ _) _ => "claim"
  end.

End ServerExamples.

(* ================================================================== *)
(** ** Example inputs *)
(* ================================================================== *)

Module Examples.
Import SignalParser.

Definition post (id title : string) (up : Z) (down : option Z) : Post :=
  {| post_id := id;
     post_title := title;
     post_content := None;
     post_author := {| name := "molty" |};
     post_upvotes := up;
     post_downvotes := down |}.

(** The post of the specification's example scenario. *)
Definition pepePost : Post :=
  post "p1" "buying $PEPE, looks ready to pump" 20 (Some 2%Z).

(** A bare mention of a known token, voted down. *)
Definition downvotedMention : Post := post "p2" "$PEPE" 0 (Some 8%Z).

(** Two posts without votes: a bare mention of a known token and a buy intent
    for an unknown one. *)
Definition plainMention : Post := post "p3" "$PEPE" 0 None.
Definition unknownBuy : Post := post "p4" "buy FOO today" 0 None.

(** A sell intent that also mentions the token with a dollar sign. *)
Definition dumpPepe : Post := post "p5" "time to dump $PEPE" 3 None.

(** The same key from two posts with different votes. *)
Definition weakPepe : Post := post "p6" "buy PEPE" 1 None.

(** Vote counts beyond the range of binary64, as a feed can carry them
    (1e400 is a JSON number), and a well voted post with the same intent. *)
Definition overflowingPepe : Post :=
  post "p9" "buy PEPE" (10 ^ 400) (Some (10 ^ 400)%Z).
Definition strongPepe : Post := post "p10" "buy PEPE" 100 None.

Definition signal {N : Type} (act : Action) (tok : string) (conf : N)
    (p : Post) : TradingSignal N :=
  {| action := act; token := tok; amount := None; tp := None; sl := None;
     confidence := conf; source := sourceOf p |}.

End Examples.
(* ================================================================== *)
(** * Theorems *)
(* ================================================================== *)

(** ** Binary64 arithmetic: rounding is monotone

    From the specification of [PrimFloat] in the library: what
    [binary_round_aux] computes in the normal range, and from it the order
    facts the confidences of the parser need. *)

Module RoundingFacts.
Import Rounding.
Local Open Scope Z_scope.

Lemma digits2_size (p : positive) : digits2_pos p = Pos.size p.
Proof. induction p; simpl; congruence. Qed.

Lemma digits_log2 (m : Z) : 0 < m -> Zdigits2 m = Z.log2 m + 1.
Proof.
  destruct m as [|p|p]; try lia. intros _. simpl. rewrite digits2_size.
  destruct p; simpl; lia.
Qed.

Lemma digits_bounds (m : Z) :
  0 < m -> 2 ^ (Zdigits2 m - 1) <= m < 2 ^ Zdigits2 m.
Proof.
  intros H. rewrite digits_log2 by exact H.
  pose proof (Z.log2_spec m H) as Hs.
  replace (Z.log2 m + 1 - 1) with (Z.log2 m) by lia.
  replace (Z.log2 m + 1) with (Z.succ (Z.log2 m)) by lia. exact Hs.
Qed.

Lemma digits_unique (m d : Z) :
  0 < d -> 2 ^ (d - 1) <= m < 2 ^ d -> Zdigits2 m = d.
Proof.
  intros Hd H.
  assert (0 < m) as Hm by (pose proof (Z.pow_pos_nonneg 2 (d - 1)); lia).
  rewrite digits_log2 by exact Hm.
  rewrite (Z.log2_unique m (d - 1)); [lia|lia|].
  replace (Z.succ (d - 1)) with d by lia. exact H.
Qed.

Lemma digits_pos (m : Z) : 0 < m -> 0 < Zdigits2 m.
Proof. destruct m; simpl; lia. Qed.

(** *** Shifting right *)

Lemma shr_1_nonneg (m : Z) (r s : bool) :
  0 <= m ->
  shr_1 {| shr_m := m; shr_r := r; shr_s := s |}
  = {| shr_m := Z.div2 m; shr_r := Z.odd m; shr_s := r || s |}.
Proof. destruct m as [|[p|p|]|]; simpl; try lia; reflexivity. Qed.

Lemma shifted_first (m : Z) :
  0 <= m ->
  shifted 1 m (shr_1 {| shr_m := m; shr_r := false; shr_s := false |}).
Proof.
  intros H. rewrite shr_1_nonneg by exact H. exists 0. simpl.
  split; [lia|]. split; [apply Z.div2_nonneg; exact H|].
  split; [|reflexivity].
  rewrite (Zdiv2_odd_eqn m) at 1. destruct (Z.odd m); lia.
Qed.

Lemma shifted_next (k m : Z) (rec : shr_record) :
  1 <= k -> shifted k m rec -> shifted (k + 1) m (shr_1 rec).
Proof.
  intros Hk (low & Hlow & Hm & Heq & Hs).
  destruct rec as [q r s]. simpl in Hm, Heq, Hs.
  rewrite shr_1_nonneg by exact Hm.
  exists ((if r then 2 ^ (k - 1) else 0) + low). simpl.
  replace (k + 1 - 1) with k by lia.
  assert (2 ^ k = 2 * 2 ^ (k - 1)) as Hpow.
  { replace k with (Z.succ (k - 1)) at 1 by lia. apply Z.pow_succ_r. lia. }
  assert (2 ^ (k + 1) = 2 * 2 ^ k) as Hpow'.
  { replace (k + 1) with (Z.succ k) by lia. apply Z.pow_succ_r. lia. }
  split; [destruct r; lia|]. split; [apply Z.div2_nonneg; exact Hm|].
  split.
  - rewrite Heq. rewrite (Zdiv2_odd_eqn q) at 1. rewrite Hpow'.
    destruct (Z.odd q), r; lia.
  - subst s. destruct r; simpl.
    + symmetry. apply negb_true_iff, Z.eqb_neq. lia.
    + reflexivity.
Qed.

Lemma shifted_iter (p : positive) :
  forall (k m : Z) (rec : shr_record),
    1 <= k -> shifted k m rec ->
    shifted (k + Zpos p) m (iter_pos shr_1 p rec).
Proof.
  induction p as [p IH|p IH|]; intros k m rec Hk H; simpl.
  - apply shifted_next in H; [|exact Hk].
    apply IH in H; [|lia]. apply IH in H; [|lia].
    replace (k + Zpos p~1) with (k + 1 + Zpos p + Zpos p) by lia. exact H.
  - apply IH in H; [|exact Hk]. apply IH in H; [|lia].
    replace (k + Zpos p~0) with (k + Zpos p + Zpos p) by lia. exact H.
  - now apply shifted_next.
Qed.

Lemma shifted_exact (p : positive) (m : Z) :
  0 <= m ->
  shifted (Zpos p) m
    (iter_pos shr_1 p {| shr_m := m; shr_r := false; shr_s := false |}).
Proof.
  intros Hm. induction p as [p IH|p IH|]; simpl.
  - pose proof (shifted_first m Hm) as H.
    apply (shifted_iter p) in H; [|lia]. apply (shifted_iter p) in H; [|lia].
    replace (Zpos p~1) with (1 + Zpos p + Zpos p) by lia. exact H.
  - apply (shifted_iter p) in IH; [|lia].
    replace (Zpos p~0) with (Zpos p + Zpos p) by lia. exact IH.
  - now apply shifted_first.
Qed.

(** Rounding what was shifted out is rounding the quotient to nearest
    even. *)
Lemma shifted_round (k m : Z) (rec : shr_record) :
  1 <= k -> shifted k m rec ->
  round_nearest_even (shr_m rec) (loc_of_shr_record rec) = nearestEven m k.
Proof.
  intros Hk (low & Hlow & Hm & Heq & Hs).
  destruct rec as [q r s]. simpl in *.
  assert (2 ^ k = 2 * 2 ^ (k - 1)) as Hpow.
  { replace k with (Z.succ (k - 1)) at 1 by lia. apply Z.pow_succ_r. lia. }
  assert (0 < 2 ^ (k - 1)) as Hpos by (apply Z.pow_pos_nonneg; lia).
  set (rest := (if r then 2 ^ (k - 1) else 0) + low) in *.
  assert (0 <= rest < 2 ^ k) as Hrest by (unfold rest; destruct r; lia).
  assert (m / 2 ^ k = q) as Hq.
  { symmetry. apply (Z.div_unique_pos m (2 ^ k) q rest); lia. }
  assert (m mod 2 ^ k = rest) as Hr.
  { symmetry. apply (Z.mod_unique_pos m (2 ^ k) q rest); lia. }
  unfold nearestEven. destruct (Z.leb_spec k 0) as [|_]; [lia|].
  cbv zeta. rewrite Hq, Hr. unfold rest.
  assert (low = 0 <-> s = false) as Hlow0.
  { subst s. rewrite negb_false_iff, Z.eqb_eq. tauto. }
  destruct r, s; simpl;
    repeat match goal with
           | |- context [?a <? ?b] => destruct (Z.ltb_spec a b)
           end;
    try reflexivity; try lia;
    try (assert (low = 0) by tauto; lia);
    try (assert (low <> 0) by (intros E; apply Hlow0 in E; discriminate); lia).
Qed.


(** *** Rounding to nearest even *)

Lemma pow2_pos (k : Z) : 0 <= k -> 0 < 2 ^ k.
Proof. intros H. apply Z.pow_pos_nonneg; lia. Qed.

Lemma pow2_succ (k : Z) : 1 <= k -> 2 ^ k = 2 * 2 ^ (k - 1).
Proof.
  intros H. replace k with (Z.succ (k - 1)) at 1 by lia.
  apply Z.pow_succ_r. lia.
Qed.

Lemma pow2_add (a b : Z) : 0 <= a -> 0 <= b -> 2 ^ (a + b) = 2 ^ a * 2 ^ b.
Proof. intros. apply Z.pow_add_r; assumption. Qed.

Lemma pow2_le (a b : Z) : 0 <= a <= b -> 2 ^ a <= 2 ^ b.
Proof. intros H. apply Z.pow_le_mono_r; lia. Qed.

Lemma pow2_lt (a b : Z) : 0 <= a < b -> 2 ^ a < 2 ^ b.
Proof. intros H. apply Z.pow_lt_mono_r; lia. Qed.

Lemma nearestEven_floor (m n : Z) :
  1 <= n -> m / 2 ^ n <= nearestEven m n <= m / 2 ^ n + 1.
Proof.
  intros Hn. unfold nearestEven. destruct (Z.leb_spec n 0); [lia|]. cbv zeta.
  repeat match goal with
         | |- context [if ?c then _ else _] => destruct c
         end; lia.
Qed.

Lemma nearestEven_exact (m n : Z) :
  0 <= n -> m mod 2 ^ n = 0 -> nearestEven m n = m / 2 ^ n.
Proof.
  intros Hn Hr. unfold nearestEven. destruct (Z.leb_spec n 0).
  - assert (n = 0) as -> by lia. simpl. now rewrite Z.div_1_r.
  - cbv zeta. rewrite Hr. pose proof (pow2_pos (n - 1)).
    destruct (Z.ltb_spec 0 (2 ^ (n - 1))); [reflexivity|lia].
Qed.

Lemma nearestEven_mono (m1 m2 n : Z) :
  m1 <= m2 -> nearestEven m1 n <= nearestEven m2 n.
Proof.
  intros Hle. unfold nearestEven. destruct (Z.leb_spec n 0); [exact Hle|].
  cbv zeta. pose proof (pow2_pos n) as Hpos.
  pose proof (Z.div_mod m1 (2 ^ n)) as E1.
  pose proof (Z.div_mod m2 (2 ^ n)) as E2.
  pose proof (Z.mod_pos_bound m1 (2 ^ n)) as B1.
  pose proof (Z.mod_pos_bound m2 (2 ^ n)) as B2.
  assert (m1 / 2 ^ n <= m2 / 2 ^ n) as Hq by (apply Z.div_le_mono; lia).
  set (q1 := m1 / 2 ^ n) in *. set (q2 := m2 / 2 ^ n) in *.
  set (r1 := m1 mod 2 ^ n) in *. set (r2 := m2 mod 2 ^ n) in *.
  set (h := 2 ^ (n - 1)) in *. set (P := 2 ^ n) in *.
  assert (q1 < q2 \/ (q1 = q2 /\ r1 <= r2)) as [Hlt|[Heq Hr]] by nia.
  - repeat match goal with
           | |- context [if ?c then _ else _] => destruct c
           end; lia.
  - rewrite <- Heq.
    destruct (Z.ltb_spec r1 h), (Z.ltb_spec r2 h), (Z.ltb_spec h r1),
      (Z.ltb_spec h r2), (Z.even q1); lia.
Qed.

Lemma nearestEven_scale (m n k : Z) :
  0 <= n -> 0 <= k -> nearestEven (m * 2 ^ k) (n + k) = nearestEven m n.
Proof.
  intros Hn Hk. pose proof (pow2_pos k Hk) as Hpk.
  destruct (Z.eq_dec n 0) as [->|Hn0].
  - rewrite nearestEven_exact; [|lia|simpl; apply Z.mod_mul; lia].
    simpl. rewrite Z.div_mul by lia. reflexivity.
  - unfold nearestEven.
    destruct (Z.leb_spec (n + k) 0), (Z.leb_spec n 0); try lia. cbv zeta.
    pose proof (pow2_pos n Hn) as Hpn.
    rewrite (pow2_add n k) by lia.
    rewrite Z.div_mul_cancel_r by lia.
    rewrite Z.mul_mod_distr_r by lia.
    replace (n + k - 1) with (n - 1 + k) by lia.
    rewrite (pow2_add (n - 1) k) by lia.
    set (r := m mod 2 ^ n). set (h := 2 ^ (n - 1)).
    destruct (Z.ltb_spec (r * 2 ^ k) (h * 2 ^ k)), (Z.ltb_spec r h),
      (Z.ltb_spec (h * 2 ^ k) (r * 2 ^ k)), (Z.ltb_spec h r);
      try reflexivity; nia.
Qed.

(** *** Rounding to 53 bits *)

Lemma digits_53 (m : Z) : 2 ^ 52 <= m -> 53 <= Zdigits2 m.
Proof.
  intros H. assert (0 < m) as Hm by (pose proof (pow2_pos 52); lia).
  pose proof (digits_bounds m Hm) as [_ Hhi].
  pose proof (digits_pos m Hm).
  destruct (Z_lt_le_dec (Zdigits2 m) 53) as [Hlt|]; [|assumption].
  assert (2 ^ Zdigits2 m <= 2 ^ 52) by (apply pow2_le; lia). lia.
Qed.

Lemma digits_scale (m k : Z) :
  0 < m -> 0 <= k -> Zdigits2 (m * 2 ^ k) = Zdigits2 m + k.
Proof.
  intros Hm Hk. pose proof (pow2_pos k Hk).
  rewrite !digits_log2 by nia. rewrite Z.log2_mul_pow2 by lia. lia.
Qed.

Lemma digits_mono (m1 m2 : Z) :
  0 < m1 <= m2 -> Zdigits2 m1 <= Zdigits2 m2.
Proof.
  intros H. rewrite !digits_log2 by lia.
  pose proof (Z.log2_le_mono m1 m2). lia.
Qed.

Lemma nearestEven_bounds (m : Z) :
  2 ^ 52 <= m ->
  2 ^ 52 <= nearestEven m (Zdigits2 m - 53) <= 2 ^ 53.
Proof.
  intros H. pose proof (digits_53 m H) as Hd.
  assert (0 < m) as Hm by (pose proof (pow2_pos 52); lia).
  pose proof (digits_bounds m Hm) as [Hlo Hhi].
  set (d := Zdigits2 m) in *.
  destruct (Z.eq_dec d 53) as [E|E].
  - replace (d - 53) with 0 by lia. change (nearestEven m 0) with m.
    replace (d - 1) with 52 in Hlo by lia. replace d with 53 in Hhi by lia.
    lia.
  - pose proof (nearestEven_floor m (d - 53)) as Hf.
    pose proof (pow2_pos (d - 53)) as Hp.
    assert (2 ^ (d - 1) = 2 ^ 52 * 2 ^ (d - 53)) as E1.
    { rewrite <- pow2_add by lia. f_equal. lia. }
    assert (2 ^ d = 2 ^ 53 * 2 ^ (d - 53)) as E2.
    { rewrite <- pow2_add by lia. f_equal. lia. }
    assert (2 ^ 52 <= m / 2 ^ (d - 53)).
    { apply Z.div_le_lower_bound; lia. }
    assert (m / 2 ^ (d - 53) < 2 ^ 53).
    { apply Z.div_lt_upper_bound; lia. }
    lia.
Qed.

Lemma rounded_bounds (m : Z) :
  2 ^ 52 <= m ->
  2 ^ (Zdigits2 m - 1) <= rounded m <= 2 ^ Zdigits2 m.
Proof.
  intros H. pose proof (digits_53 m H) as Hd.
  pose proof (nearestEven_bounds m H) as Hb. unfold rounded.
  set (d := Zdigits2 m) in *.
  pose proof (pow2_pos (d - 53)) as Hp.
  assert (2 ^ (d - 1) = 2 ^ 52 * 2 ^ (d - 53)) as E1.
  { rewrite <- pow2_add by lia. f_equal. lia. }
  assert (2 ^ d = 2 ^ 53 * 2 ^ (d - 53)) as E2.
  { rewrite <- pow2_add by lia. f_equal. lia. }
  nia.
Qed.

Lemma rounded_mono (m1 m2 : Z) :
  2 ^ 52 <= m1 <= m2 -> rounded m1 <= rounded m2.
Proof.
  intros [H1 H12]. assert (2 ^ 52 <= m2) as H2 by lia.
  pose proof (pow2_pos 52) as P52.
  pose proof (digits_53 m1 H1) as D1. pose proof (digits_53 m2 H2) as D2.
  pose proof (digits_mono m1 m2) as Dm.
  destruct (Z.eq_dec (Zdigits2 m1) (Zdigits2 m2)) as [E|E].
  - unfold rounded. rewrite E.
    pose proof (pow2_pos (Zdigits2 m2 - 53)).
    pose proof (nearestEven_mono m1 m2 (Zdigits2 m2 - 53) H12). nia.
  - pose proof (rounded_bounds m1 H1) as [_ B1].
    pose proof (rounded_bounds m2 H2) as [B2 _].
    assert (2 ^ Zdigits2 m1 <= 2 ^ (Zdigits2 m2 - 1)) by (apply pow2_le; lia).
    lia.
Qed.

Lemma rounded_scale (m k : Z) :
  2 ^ 52 <= m -> 0 <= k -> rounded (m * 2 ^ k) = rounded m * 2 ^ k.
Proof.
  intros H Hk. pose proof (pow2_pos 52) as P52.
  pose proof (digits_53 m H) as Hd. unfold rounded.
  rewrite digits_scale by lia.
  replace (Zdigits2 m + k - 53) with (Zdigits2 m - 53 + k) by lia.
  rewrite nearestEven_scale by lia. rewrite pow2_add by lia. ring.
Qed.

Lemma rounded_53 (q : Z) : 2 ^ 52 <= q < 2 ^ 53 -> rounded q = q.
Proof.
  intros H. unfold rounded.
  rewrite (digits_unique q 53) by (simpl in *; lia).
  unfold nearestEven. simpl. lia.
Qed.

Lemma rounded_repr (q k : Z) :
  2 ^ 52 <= q < 2 ^ 53 -> 0 <= k -> rounded (q * 2 ^ k) = q * 2 ^ k.
Proof.
  intros H Hk. rewrite rounded_scale by lia. now rewrite rounded_53.
Qed.


(** *** [binary_round_aux] on a mantissa of 53 bits or more *)

Lemma fexp_normal (x : Z) : -1021 <= x -> fexp prec emax x = x - 53.
Proof. intros H. unfold fexp, SpecFloat.emin, prec, emax. lia. Qed.

Lemma shr_fexp_normal (m e : Z) :
  2 ^ 52 <= m -> -1021 <= Zdigits2 m + e ->
  exists rec,
    shr_fexp prec emax m e loc_Exact = (rec, e + (Zdigits2 m - 53)) /\
    0 <= shr_m rec /\
    round_nearest_even (shr_m rec) (loc_of_shr_record rec)
    = nearestEven m (Zdigits2 m - 53).
Proof.
  intros Hm He. pose proof (digits_53 m Hm) as Hd.
  pose proof (pow2_pos 52) as P52.
  unfold shr_fexp. rewrite fexp_normal by exact He.
  replace (Zdigits2 m + e - 53 - e) with (Zdigits2 m - 53) by lia.
  destruct (Zdigits2 m - 53) as [|p|p] eqn:En; try lia.
  - eexists. split; [unfold shr; f_equal; lia|]. simpl. split; [lia|].
    reflexivity.
  - eexists. split; [reflexivity|].
    pose proof (shifted_exact p m ltac:(lia)) as Hs.
    split; [destruct Hs as (low & _ & H & _); exact H|].
    apply shifted_round; [lia|exact Hs].
Qed.

Lemma shr_fexp_53 (q e : Z) :
  2 ^ 52 <= q < 2 ^ 53 -> -1074 <= e ->
  shr_fexp prec emax q e loc_Exact
  = ({| shr_m := q; shr_r := false; shr_s := false |}, e).
Proof.
  intros Hq He. unfold shr_fexp.
  rewrite (digits_unique q 53) by (simpl in *; lia).
  rewrite fexp_normal by lia.
  replace (53 + e - 53 - e) with 0 by lia. reflexivity.
Qed.

Lemma shr_fexp_carry (e : Z) :
  -1075 <= e ->
  shr_fexp prec emax (2 ^ 53) e loc_Exact
  = ({| shr_m := 2 ^ 52; shr_r := false; shr_s := false |}, e + 1).
Proof.
  intros He. unfold shr_fexp.
  change (Zdigits2 (2 ^ 53)) with 54.
  rewrite fexp_normal by lia.
  replace (54 + e - 53 - e) with 1 by lia. reflexivity.
Qed.

(** In the normal range, rounding a mantissa [m] of at least 53 bits at
    exponent [e] gives the float of value [rounded m * 2^e]. *)
Lemma round_normal (s : bool) (m e : Z) :
  2 ^ 52 <= m ->
  -1021 <= Zdigits2 m + e <= 1023 ->
  exists q e',
    binary_round_aux prec emax s m e loc_Exact = S754_finite s q e' /\
    2 ^ 52 <= Zpos q < 2 ^ 53 /\
    e <= e' /\ e' + 53 <= Zdigits2 m + e + 1 /\
    Zdigits2 m + e <= e' + 53 /\
    Zpos q * 2 ^ (e' - e) = rounded m.
Proof.
  intros Hm He. pose proof (digits_53 m Hm) as Hd.
  pose proof (pow2_pos 52) as P52.
  destruct (shr_fexp_normal m e Hm (proj1 He)) as (rec & E1 & Hnn & Hr).
  unfold binary_round_aux. rewrite E1, Hr.
  pose proof (nearestEven_bounds m Hm) as Hb.
  set (n := Zdigits2 m - 53) in *. set (q1 := nearestEven m n) in *.
  assert (rounded m = q1 * 2 ^ n) as Hval by reflexivity.
  destruct (Z.eq_dec q1 (2 ^ 53)) as [Ec|Ec].
  - rewrite Ec, shr_fexp_carry by lia. cbn [shr_m].
    change (2 ^ 52) with (Zpos (Z.to_pos (2 ^ 52))).
    destruct (Z.leb_spec (e + n + 1) (emax - prec));
      [|unfold emax, prec in *; lia].
    eexists _, _. split; [reflexivity|].
    split; [simpl; lia|]. split; [lia|]. split; [lia|]. split; [lia|].
    rewrite Hval, Ec.
    replace (e + n + 1 - e) with (1 + n) by lia.
    rewrite pow2_add by lia.
    change (Zpos (Z.to_pos (2 ^ 52)) * (2 ^ 1 * 2 ^ n))
      with (2 ^ 52 * (2 * 2 ^ n)).
    change (2 ^ 53) with (2 ^ 52 * 2). ring.
  - rewrite shr_fexp_53 by lia. cbn [shr_m].
    destruct q1 as [|p|p] eqn:Eq; try lia.
    destruct (Z.leb_spec (e + n) (emax - prec));
      [|unfold emax, prec in *; lia].
    eexists _, _. split; [reflexivity|].
    split; [lia|]. split; [lia|]. split; [lia|]. split; [lia|].
    rewrite Hval. f_equal. f_equal. lia.
Qed.

(** No rounding gives NaN. *)
Lemma shr_1_keeps_sign (rec : shr_record) :
  0 <= shr_m rec -> 0 <= shr_m (shr_1 rec).
Proof.
  destruct rec as [m r s]. simpl. intros H.
  destruct m as [|[p|p|]|]; simpl; lia.
Qed.

Lemma iter_shr_keeps_sign (p : positive) :
  forall rec, 0 <= shr_m rec -> 0 <= shr_m (iter_pos shr_1 p rec).
Proof.
  induction p as [p IH|p IH|]; intros rec H; simpl.
  - apply IH, IH, shr_1_keeps_sign, H.
  - apply IH, IH, H.
  - apply shr_1_keeps_sign, H.
Qed.

Lemma shr_keeps_sign (rec : shr_record) (e n : Z) :
  0 <= shr_m rec -> 0 <= shr_m (fst (shr rec e n)).
Proof.
  intros H. destruct n; simpl; try exact H. now apply iter_shr_keeps_sign.
Qed.

Lemma round_not_nan (s : bool) (m e : Z) (l : location) :
  0 <= m -> binary_round_aux prec emax s m e l <> S754_nan.
Proof.
  intros Hm. unfold binary_round_aux, shr_fexp.
  match goal with
  | |- context [shr ?rec ?e0 ?n] =>
      pose proof (shr_keeps_sign rec e0 n) as H1;
      destruct (shr rec e0 n) as [rec1 e1]
  end.
  assert (0 <= shr_m rec1) as Hq.
  { apply H1. destruct l as [|[]]; exact Hm. }
  clear H1.
  assert (0 <= round_nearest_even (shr_m rec1) (loc_of_shr_record rec1)) as Hr.
  { destruct rec1 as [q [] []]; simpl in *; try lia;
      destruct (Z.even q); lia. }
  match goal with
  | |- context [shr ?rec ?e0 ?n] =>
      pose proof (shr_keeps_sign rec e0 n) as H2;
      destruct (shr rec e0 n) as [rec2 e2]
  end.
  specialize (H2 Hr). simpl in H2.
  destruct (shr_m rec2) as [|p|p]; try lia; try discriminate.
  destruct (Z.leb e2 (emax - prec)); discriminate.
Qed.


(** *** Order and operations on moderate floats *)

Lemma normalWithin_inv (lo hi : Z) (f : spec_float) :
  normalWithin lo hi f = true ->
  exists m e, f = S754_finite false m e /\
              2 ^ 52 <= Zpos m < 2 ^ 53 /\ lo <= e <= hi.
Proof.
  destruct f as [| | |[|] m e]; unfold normalWithin; try discriminate.
  rewrite !andb_true_iff, Z.eqb_eq, !Z.leb_le. intros [[Hd Hlo] Hhi].
  exists m, e. split; [reflexivity|]. split; [|lia].
  pose proof (digits_bounds (Zpos m) ltac:(lia)) as H.
  rewrite Hd in H. exact H.
Qed.

Lemma normalWithin_intro (lo hi : Z) (m : positive) (e : Z) :
  2 ^ 52 <= Zpos m < 2 ^ 53 -> lo <= e <= hi ->
  normalWithin lo hi (S754_finite false m e) = true.
Proof.
  intros Hm He. unfold normalWithin.
  rewrite !andb_true_iff, Z.eqb_eq, !Z.leb_le. split; [split|]; try lia.
  apply (digits_unique (Zpos m) 53); [lia|exact Hm].
Qed.

Lemma normalWithin_weaken (lo hi lo' hi' : Z) (f : spec_float) :
  lo' <= lo -> hi <= hi' ->
  normalWithin lo hi f = true -> normalWithin lo' hi' f = true.
Proof.
  intros Hlo Hhi H. destruct (normalWithin_inv _ _ _ H) as (m & e & -> & Hm & He).
  apply normalWithin_intro; [exact Hm|lia].
Qed.

Lemma tame_moderate (f : spec_float) : tame f = true -> moderate f = true.
Proof. apply normalWithin_weaken; lia. Qed.

Lemma compare_units (x y : spec_float) :
  moderate x = true -> moderate y = true ->
  SFcompare x y = Some (units x ?= units y).
Proof.
  intros Hx Hy.
  destruct (normalWithin_inv _ _ _ Hx) as (m1 & e1 & -> & Hm1 & He1).
  destruct (normalWithin_inv _ _ _ Hy) as (m2 & e2 & -> & Hm2 & He2).
  unfold SFcompare, units. f_equal.
  pose proof (pow2_pos (e1 + 500) ltac:(lia)) as P1.
  pose proof (pow2_pos (e2 + 500) ltac:(lia)) as P2.
  destruct (Z.compare_spec e1 e2) as [E|E|E].
  - subst e2. rewrite Pos.compare_cont_spec. unfold Pos.switch_Eq.
    change (m1 ?= m2)%positive with (Zpos m1 ?= Zpos m2).
    destruct (Z.compare_spec (Zpos m1) (Zpos m2)) as [E|E|E]; symmetry.
    + rewrite E. apply Z.compare_refl.
    + apply Z.compare_lt_iff. nia.
    + apply Z.compare_gt_iff. nia.
  - symmetry. apply Z.compare_lt_iff.
    replace (e2 + 500) with (e2 - e1 + (e1 + 500)) by lia.
    rewrite (pow2_add (e2 - e1) (e1 + 500)) by lia.
    assert (2 ^ 1 <= 2 ^ (e2 - e1)) as H by (apply pow2_le; lia).
    change (2 ^ 1) with 2 in H. change (2 ^ 53) with (2 * 2 ^ 52) in *.
    assert (Zpos m1 < Zpos m2 * 2 ^ (e2 - e1)) by nia. nia.
  - symmetry. apply Z.compare_gt_iff.
    replace (e1 + 500) with (e1 - e2 + (e2 + 500)) by lia.
    rewrite (pow2_add (e1 - e2) (e2 + 500)) by lia.
    assert (2 ^ 1 <= 2 ^ (e1 - e2)) as H by (apply pow2_le; lia).
    change (2 ^ 1) with 2 in H. change (2 ^ 53) with (2 * 2 ^ 52) in *.
    assert (Zpos m2 < Zpos m1 * 2 ^ (e1 - e2)) by nia. nia.
Qed.

Lemma leb_units (x y : spec_float) :
  moderate x = true -> moderate y = true ->
  SFleb x y = (units x <=? units y).
Proof.
  intros Hx Hy. unfold SFleb. rewrite compare_units by assumption.
  unfold Z.leb. destruct (units x ?= units y); reflexivity.
Qed.

Lemma ltb_units (x y : spec_float) :
  moderate x = true -> moderate y = true ->
  SFltb x y = (units x <? units y).
Proof.
  intros Hx Hy. unfold SFltb. rewrite compare_units by assumption.
  unfold Z.ltb. destruct (units x ?= units y); reflexivity.
Qed.

Lemma iter_xO (m d : positive) : Zpos (Pos.iter xO m d) = Zpos m * 2 ^ Zpos d.
Proof.
  induction d as [|d IH] using Pos.peano_ind.
  - simpl. lia.
  - rewrite Pos.iter_succ, Pos2Z.inj_succ, Z.pow_succ_r by lia.
    rewrite Pos2Z.inj_xO, IH. ring.
Qed.

Lemma shl_align_value (m : positive) (e e' : Z) :
  e' <= e ->
  Zpos (fst (shl_align m e e')) = Zpos m * 2 ^ (e - e') /\
  snd (shl_align m e e') = e'.
Proof.
  intros H. unfold shl_align.
  destruct (e' - e) as [|d|d] eqn:E; try lia; simpl.
  - replace (e - e') with 0 by lia. change (2 ^ 0) with 1. split; lia.
  - rewrite iter_xO. replace (e - e') with (Zpos d) by lia. split; reflexivity.
Qed.

Lemma shl_align_none (m : positive) (e e' : Z) :
  e <= e' -> shl_align m e e' = (m, e).
Proof.
  intros H. unfold shl_align. destruct (e' - e) eqn:E; try lia; reflexivity.
Qed.

(** [binary_round] in the normal range gives a float of the sign asked
    for. *)
Lemma binary_round_finite (s : bool) (m : positive) (e : Z) :
  -1021 <= Zdigits2 (Zpos m) + e <= 1023 ->
  exists q e', binary_round prec emax s m e = S754_finite s q e'.
Proof.
  intros He. unfold binary_round.
  change (Zpos (digits2_pos m)) with (Zdigits2 (Zpos m)).
  rewrite fexp_normal by lia.
  set (d := Zdigits2 (Zpos m)) in *.
  pose proof (digits_bounds (Zpos m) ltac:(lia)) as Hb. fold d in Hb.
  pose proof (digits_pos (Zpos m) ltac:(lia)) as Hd. fold d in Hd.
  destruct (Z_lt_le_dec d 53) as [Hlt|Hge].
  - destruct (shl_align_value m e (d + e - 53) ltac:(lia)) as [Hv He'].
    destruct (shl_align m e (d + e - 53)) as [mz ez]. cbn [fst snd] in Hv, He'.
    subst ez. replace (e - (d + e - 53)) with (53 - d) in Hv by lia.
    assert (2 ^ 52 <= Zpos mz < 2 ^ 53) as Hmz.
    { rewrite Hv.
      assert (2 ^ 52 = 2 ^ (d - 1) * 2 ^ (53 - d)) as E52
        by (rewrite <- (pow2_add (d - 1) (53 - d)) by lia; f_equal; lia).
      assert (2 ^ 53 = 2 ^ d * 2 ^ (53 - d)) as E53
        by (rewrite <- (pow2_add d (53 - d)) by lia; f_equal; lia).
      rewrite E52, E53.
      pose proof (pow2_pos (53 - d) ltac:(lia)). nia. }
    destruct (round_normal s (Zpos mz) (d + e - 53)) as (q & e' & E & _);
      [lia|rewrite (digits_unique (Zpos mz) 53) by (simpl in *; lia); lia|].
    eauto.
  - rewrite shl_align_none by lia.
    assert (2 ^ 52 <= Zpos m) as Hm.
    { assert (2 ^ 52 <= 2 ^ (d - 1)) by (apply pow2_le; lia). lia. }
    destruct (round_normal s (Zpos m) e Hm) as (q & e' & E & _);
      [fold d; lia|]. eauto.
Qed.

(** The sum of two tame floats is a moderate float, the rounding of the
    exact sum; it is below neither. *)
Lemma add_tame (x y : spec_float) :
  tame x = true -> tame y = true ->
  moderate (SF64add x y) = true /\
  units x <= units (SF64add x y) /\ units y <= units (SF64add x y).
Proof.
  intros Hx Hy.
  destruct (normalWithin_inv _ _ _ Hx) as (mx & ex & -> & Hmx & Hex).
  destruct (normalWithin_inv _ _ _ Hy) as (my & ey & -> & Hmy & Hey).
  unfold SF64add, SFadd. cbv zeta.
  set (ez := Z.min ex ey).
  destruct (shl_align_value mx ex ez ltac:(lia)) as [Vx _].
  destruct (shl_align_value my ey ez ltac:(lia)) as [Vy _].
  set (ax := fst (shl_align mx ex ez)) in *.
  set (ay := fst (shl_align my ey ez)) in *.
  unfold cond_Zopp. change (Zpos ax + Zpos ay) with (Zpos (ax + ay)).
  unfold binary_normalize, binary_round.
  change (Zpos (digits2_pos (ax + ay))) with (Zdigits2 (Zpos (ax + ay))).
  pose proof (pow2_pos (ex - ez) ltac:(lia)) as Px.
  pose proof (pow2_pos (ey - ez) ltac:(lia)) as Py.
  pose proof (pow2_pos 52 ltac:(lia)) as P52.
  assert (2 ^ 52 <= Zpos (ax + ay)) as Hm by (rewrite Pos2Z.inj_add; nia).
  pose proof (digits_53 _ Hm) as Hd.
  assert (Zpos (ax + ay) < 2 ^ (54 + (Z.max ex ey - ez))) as Hup.
  { rewrite Pos2Z.inj_add, Vx, Vy.
    replace (54 + (Z.max ex ey - ez)) with (1 + 53 + (Z.max ex ey - ez)) by lia.
    rewrite !pow2_add by lia. change (2 ^ 1) with 2.
    assert (2 ^ (ex - ez) <= 2 ^ (Z.max ex ey - ez)) by (apply pow2_le; lia).
    assert (2 ^ (ey - ez) <= 2 ^ (Z.max ex ey - ez)) by (apply pow2_le; lia).
    nia. }
  assert (Zdigits2 (Zpos (ax + ay)) <= 54 + (Z.max ex ey - ez)) as Hd'.
  { pose proof (digits_bounds (Zpos (ax + ay)) ltac:(lia)) as [Hlo _].
    destruct (Z_le_gt_dec (Zdigits2 (Zpos (ax + ay)))
                (54 + (Z.max ex ey - ez))); [assumption|].
    assert (2 ^ (54 + (Z.max ex ey - ez))
            <= 2 ^ (Zdigits2 (Zpos (ax + ay)) - 1)) by (apply pow2_le; lia).
    lia. }
  rewrite fexp_normal by lia. rewrite shl_align_none by lia.
  destruct (round_normal false (Zpos (ax + ay)) ez Hm)
    as (q & e' & -> & Hq & He1 & He2 & He3 & Hval); [lia|].
  split; [apply normalWithin_intro; [exact Hq|lia]|].
  assert (units (S754_finite false q e')
          = rounded (Zpos (ax + ay)) * 2 ^ (ez + 500)) as Hu.
  { unfold units. rewrite <- Hval.
    replace (e' + 500) with (e' - ez + (ez + 500)) by lia.
    rewrite (pow2_add (e' - ez) (ez + 500)) by lia. ring. }
  rewrite Hu.
  pose proof (pow2_pos (ez + 500) ltac:(lia)) as Pz.
  assert (forall (m : positive) (e : Z) (a : positive),
            2 ^ 52 <= Zpos m < 2 ^ 53 -> ez <= e ->
            Zpos a = Zpos m * 2 ^ (e - ez) -> Zpos a <= Zpos (ax + ay) ->
            Zpos m * 2 ^ (e + 500)
            <= rounded (Zpos (ax + ay)) * 2 ^ (ez + 500)) as Hone.
  { intros m e a Hmm Hee Va Hle.
    replace (e + 500) with (e - ez + (ez + 500)) by lia.
    rewrite (pow2_add (e - ez) (ez + 500)) by lia.
    rewrite Z.mul_assoc, <- Va.
    apply Z.mul_le_mono_nonneg_r; [lia|].
    assert (rounded (Zpos a) = Zpos a) as Hrep
      by (rewrite Va; apply rounded_repr; lia).
    rewrite <- Hrep at 1. apply rounded_mono. split; [|exact Hle].
    rewrite Va. pose proof (pow2_pos (e - ez) ltac:(lia)). nia. }
  split.
  - apply (Hone mx ex ax Hmx ltac:(lia) Vx). lia.
  - apply (Hone my ey ay Hmy ltac:(lia) Vy). lia.
Qed.

(** The product of tame floats is a moderate float, and multiplying by a
    tame float keeps the order. *)
Lemma mul_tame (x y : spec_float) :
  tame x = true -> tame y = true ->
  exists mx ex my ey,
    x = S754_finite false mx ex /\ y = S754_finite false my ey /\
    moderate (SF64mul x y) = true /\
    units (SF64mul x y)
    = rounded (Zpos mx * Zpos my) * 2 ^ (ex + ey + 500).
Proof.
  intros Hx Hy.
  destruct (normalWithin_inv _ _ _ Hx) as (mx & ex & -> & Hmx & Hex).
  destruct (normalWithin_inv _ _ _ Hy) as (my & ey & -> & Hmy & Hey).
  exists mx, ex, my, ey. split; [reflexivity|]. split; [reflexivity|].
  unfold SF64mul, SFmul. simpl xorb.
  change (Zpos (mx * my)) with (Zpos mx * Zpos my).
  pose proof (pow2_pos 52 ltac:(lia)) as P52.
  assert (2 ^ 104 <= Zpos mx * Zpos my < 2 ^ 106) as Hp.
  { change (2 ^ 104) with (2 ^ 52 * 2 ^ 52).
    change (2 ^ 106) with (2 ^ 53 * 2 ^ 53). nia. }
  assert (105 <= Zdigits2 (Zpos mx * Zpos my) <= 106) as Hd.
  { pose proof (digits_bounds (Zpos mx * Zpos my) ltac:(lia)) as [Hlo Hhi].
    set (d := Zdigits2 (Zpos mx * Zpos my)) in *.
    pose proof (digits_pos (Zpos mx * Zpos my) ltac:(lia)) as Hdp. fold d in Hdp.
    split.
    - destruct (Z_le_gt_dec 105 d); [assumption|].
      assert (2 ^ d <= 2 ^ 104) by (apply pow2_le; lia). lia.
    - destruct (Z_le_gt_dec d 106); [assumption|].
      assert (2 ^ 106 <= 2 ^ (d - 1)) by (apply pow2_le; lia). lia. }
  destruct (round_normal false (Zpos mx * Zpos my) (ex + ey))
    as (q & e' & -> & Hq & He1 & He2 & He3 & Hval);
    [change (2 ^ 52) with 4503599627370496 in *;
     change (2 ^ 104) with 20282409603651670423947251286016 in *; lia|lia|].
  split; [apply normalWithin_intro; [exact Hq|lia]|].
  unfold units. rewrite <- Hval.
  replace (e' + 500) with (e' - (ex + ey) + (ex + ey + 500)) by lia.
  rewrite (pow2_add (e' - (ex + ey)) (ex + ey + 500)) by lia. ring.
Qed.

Lemma mul_tame_mono (x1 x2 y : spec_float) :
  tame x1 = true -> tame x2 = true -> tame y = true ->
  units x1 <= units x2 ->
  units (SF64mul x1 y) <= units (SF64mul x2 y).
Proof.
  intros H1 H2 Hy Hle.
  destruct (mul_tame x1 y H1 Hy) as (m1 & e1 & my & ey & -> & -> & _ & ->).
  destruct (mul_tame x2 _ H2 Hy) as (m2 & e2 & my' & ey' & -> & [= <- <-] & _ & ->).
  destruct (normalWithin_inv _ _ _ H1) as (? & ? & [= <- <-] & Hm1 & He1).
  destruct (normalWithin_inv _ _ _ H2) as (? & ? & [= <- <-] & Hm2 & He2).
  destruct (normalWithin_inv _ _ _ Hy) as (? & ? & [= <- <-] & Hmy & Hey).
  unfold units in Hle.
  pose proof (pow2_pos 52 ltac:(lia)) as P52.
  assert (2 ^ 52 <= Zpos m1 * Zpos my) as Hp1 by nia.
  assert (2 ^ 52 <= Zpos m2 * Zpos my) as Hp2 by nia.
  (* bring both to the scale of the smaller exponent *)
  set (e0 := Z.min e1 e2).
  assert (forall (m : positive) (e : Z),
            2 ^ 52 <= Zpos m * Zpos my -> e0 <= e -> -100 <= e0 ->
            rounded (Zpos m * Zpos my) * 2 ^ (e + ey + 500)
            = rounded (Zpos m * 2 ^ (e - e0) * Zpos my)
              * 2 ^ (e0 + ey + 500)) as Hscale.
  { intros m e Hp He He0.
    replace (Zpos m * 2 ^ (e - e0) * Zpos my)
      with (Zpos m * Zpos my * 2 ^ (e - e0)) by ring.
    rewrite rounded_scale by lia.
    replace (e + ey + 500) with (e - e0 + (e0 + ey + 500)) by lia.
    rewrite (pow2_add (e - e0) (e0 + ey + 500)) by lia. ring. }
  rewrite (Hscale m1 e1 Hp1 ltac:(lia) ltac:(lia)).
  rewrite (Hscale m2 e2 Hp2 ltac:(lia) ltac:(lia)).
  pose proof (pow2_pos (e0 + ey + 500) ltac:(lia)) as P0.
  apply Z.mul_le_mono_nonneg_r; [lia|].
  apply rounded_mono.
  pose proof (pow2_pos (e1 - e0) ltac:(lia)) as Q1.
  pose proof (pow2_pos (e2 - e0) ltac:(lia)) as Q2.
  split; [nia|].
  apply Z.mul_le_mono_nonneg_r; [lia|].
  (* the values are ordered, at the scale of e0 *)
  pose proof (pow2_pos (e0 + 500) ltac:(lia)) as R0.
  assert (Zpos m1 * 2 ^ (e1 + 500)
          = Zpos m1 * 2 ^ (e1 - e0) * 2 ^ (e0 + 500)) as E1.
  { replace (e1 + 500) with (e1 - e0 + (e0 + 500)) by lia.
    rewrite (pow2_add (e1 - e0) (e0 + 500)) by lia. ring. }
  assert (Zpos m2 * 2 ^ (e2 + 500)
          = Zpos m2 * 2 ^ (e2 - e0) * 2 ^ (e0 + 500)) as E2.
  { replace (e2 + 500) with (e2 - e0 + (e0 + 500)) by lia.
    rewrite (pow2_add (e2 - e0) (e0 + 500)) by lia. ring. }
  rewrite E1, E2 in Hle. nia.
Qed.

(** The sign of a difference of tame floats is that of their comparison. *)
Lemma sub_tame_sign (a b : spec_float) :
  tame a = true -> tame b = true ->
  SFltb (S754_zero false) (SF64sub b a) = SFltb a b.
Proof.
  intros Ha Hb.
  rewrite (ltb_units a b) by (apply tame_moderate; assumption).
  destruct (normalWithin_inv _ _ _ Ha) as (ma & ea & -> & Hma & Hea).
  destruct (normalWithin_inv _ _ _ Hb) as (mb & eb & -> & Hmb & Heb).
  unfold SF64sub, SFsub. cbv zeta.
  set (ez := Z.min eb ea).
  destruct (shl_align_value ma ea ez ltac:(lia)) as [Va _].
  destruct (shl_align_value mb eb ez ltac:(lia)) as [Vb _].
  set (xa := fst (shl_align ma ea ez)) in *.
  set (xb := fst (shl_align mb eb ez)) in *.
  unfold cond_Zopp, units.
  pose proof (pow2_pos (ez + 500) ltac:(lia)) as Pz.
  assert (Zpos ma * 2 ^ (ea + 500) = Zpos xa * 2 ^ (ez + 500)) as Ea.
  { rewrite Va. replace (ea + 500) with (ea - ez + (ez + 500)) by lia.
    rewrite (pow2_add (ea - ez) (ez + 500)) by lia. ring. }
  assert (Zpos mb * 2 ^ (eb + 500) = Zpos xb * 2 ^ (ez + 500)) as Eb.
  { rewrite Vb. replace (eb + 500) with (eb - ez + (ez + 500)) by lia.
    rewrite (pow2_add (eb - ez) (ez + 500)) by lia. ring. }
  rewrite Ea, Eb.
  assert (Zpos xa < 2 ^ 254 /\ Zpos xb < 2 ^ 254) as [Ua Ub].
  { rewrite Va, Vb.
    assert (2 ^ (ea - ez) <= 2 ^ 200) by (apply pow2_le; lia).
    assert (2 ^ (eb - ez) <= 2 ^ 200) by (apply pow2_le; lia).
    pose proof (pow2_pos (ea - ez) ltac:(lia)).
    pose proof (pow2_pos (eb - ez) ltac:(lia)).
    change (2 ^ 254) with (2 ^ 54 * 2 ^ 200).
    pose proof (pow2_pos 200 ltac:(lia)).
    assert (2 ^ 53 < 2 ^ 54) by (apply pow2_lt; lia). nia. }
  assert (forall (s : bool) (p : positive),
            Zpos p < 2 ^ 254 ->
            exists q e', binary_round prec emax s p ez = S754_finite s q e')
    as Hfin.
  { intros s p Hp. apply binary_round_finite.
    pose proof (digits_pos (Zpos p) ltac:(lia)).
    pose proof (digits_bounds (Zpos p) ltac:(lia)) as [Hlo _].
    assert (Zdigits2 (Zpos p) <= 254).
    { destruct (Z_le_gt_dec (Zdigits2 (Zpos p)) 254); [assumption|].
      assert (2 ^ 254 <= 2 ^ (Zdigits2 (Zpos p) - 1)) by (apply pow2_le; lia).
      lia. }
    lia. }
  destruct (Zpos xb - Zpos xa) as [|p|p] eqn:E; unfold binary_normalize.
  - change (SFltb (S754_zero false) (S754_zero false)) with false.
    symmetry. apply Z.ltb_ge. nia.
  - destruct (Hfin false p ltac:(lia)) as (q & e' & ->).
    change (SFltb (S754_zero false) (S754_finite false q e')) with true.
    symmetry. apply Z.ltb_lt. nia.
  - destruct (Hfin true p ltac:(lia)) as (q & e' & ->).
    change (SFltb (S754_zero false) (S754_finite true q e')) with false.
    symmetry. apply Z.ltb_ge. nia.
Qed.

End RoundingFacts.

Module Binary64Facts.
Import Rounding RoundingFacts Binary64.
Local Open Scope Z_scope.

Lemma SFcompare_refl (x : spec_float) :
  x <> S754_nan -> SFcompare x x = Some Eq.
Proof.
  destruct x as [s|s| |s m e]; intros H; try reflexivity; try (now elim H).
  - destruct s; reflexivity.
  - unfold SFcompare. rewrite Z.compare_refl, Pos.compare_cont_refl.
    destruct s; reflexivity.
Qed.

Lemma lex_antisym (e1 e2 : Z) (m1 m2 : positive) :
  match e2 ?= e1 with
  | Eq => Pos.compare_cont Eq m2 m1 | Lt => Lt | Gt => Gt
  end
  = CompOpp match e1 ?= e2 with
            | Eq => Pos.compare_cont Eq m1 m2 | Lt => Lt | Gt => Gt
            end.
Proof.
  rewrite (Z.compare_antisym e1 e2). destruct (e1 ?= e2); try reflexivity.
  simpl. rewrite !Pos.compare_cont_spec. unfold Pos.switch_Eq.
  rewrite (Pos.compare_antisym m1 m2).
  destruct (m1 ?= m2)%positive; reflexivity.
Qed.

Lemma SFcompare_antisym (x y : spec_float) :
  SFcompare y x = option_map CompOpp (SFcompare x y).
Proof.
  destruct x as [sx|sx| |sx mx ex], y as [sy|sy| |sy my ey];
    try destruct sx; try destruct sy; try reflexivity;
    unfold SFcompare, option_map; f_equal.
  - rewrite (Z.compare_antisym ex ey).
    destruct (ex ?= ey); simpl; try reflexivity.
    rewrite !Pos.compare_cont_spec. unfold Pos.switch_Eq.
    rewrite (Pos.compare_antisym mx my).
    destruct (mx ?= my)%positive; reflexivity.
  - apply lex_antisym.
Qed.

Lemma SFcompare_some (x y : spec_float) :
  x <> S754_nan -> y <> S754_nan -> exists c, SFcompare x y = Some c.
Proof.
  destruct x as [sx|sx| |sx mx ex], y as [sy|sy| |sy my ey];
    intros Hx Hy; try (now elim Hx); try (now elim Hy);
    unfold SFcompare; eauto.
Qed.

Lemma is_nan_spec (x : float) :
  is_nan x = true <-> Prim2SF x = S754_nan.
Proof.
  unfold is_nan. rewrite eqb_spec. unfold SFeqb.
  destruct (Prim2SF x) as [s|s| |s m e] eqn:E.
  - simpl. split; discriminate.
  - destruct s; simpl; split; discriminate.
  - simpl. tauto.
  - rewrite SFcompare_refl by discriminate. simpl. split; discriminate.
Qed.

Lemma not_nan_spec (x : float) :
  is_nan x = false <-> Prim2SF x <> S754_nan.
Proof.
  rewrite <- is_nan_spec. destruct (is_nan x); split; congruence.
Qed.

(** The three outcomes of comparing two numbers. *)
Lemma compare_cases (a b : float) :
  is_nan a = false -> is_nan b = false ->
  ((a <? b)%float = true /\ (b <? a)%float = false /\
   (a <=? b)%float = true /\ (b <=? a)%float = false) \/
  ((a <? b)%float = false /\ (b <? a)%float = true /\
   (a <=? b)%float = false /\ (b <=? a)%float = true) \/
  ((a <? b)%float = false /\ (b <? a)%float = false /\
   (a <=? b)%float = true /\ (b <=? a)%float = true).
Proof.
  rewrite !not_nan_spec. intros Ha Hb.
  rewrite !ltb_spec, !leb_spec. unfold SFltb, SFleb.
  rewrite (SFcompare_antisym (Prim2SF a) (Prim2SF b)).
  destruct (SFcompare_some _ _ Ha Hb) as (c & ->).
  destruct c; simpl; tauto.
Qed.

Lemma leb_refl (a : float) : is_nan a = false -> (a <=? a)%float = true.
Proof.
  rewrite not_nan_spec, leb_spec. intros H. unfold SFleb.
  now rewrite SFcompare_refl.
Qed.

Lemma mathMax_cases (a b : float) :
  is_nan a = false -> is_nan b = false ->
  (mathMax a b = a \/ mathMax a b = b) /\
  (a <=? mathMax a b)%float = true /\ (b <=? mathMax a b)%float = true.
Proof.
  intros Ha Hb. unfold mathMax. rewrite Ha, Hb. simpl orb. cbv iota.
  pose proof (leb_refl a Ha). pose proof (leb_refl b Hb).
  destruct (compare_cases a b Ha Hb)
    as [(E1 & E2 & ? & ?)|[(E1 & E2 & ? & ?)|(E1 & E2 & ? & ?)]];
    rewrite ?E1, ?E2; cbv iota; rewrite ?E1, ?E2; cbv iota;
    try destruct (get_sign a); auto.
Qed.

Lemma mathMin_cases (a b : float) :
  is_nan a = false -> is_nan b = false ->
  (mathMin a b = a \/ mathMin a b = b) /\
  (mathMin a b <=? a)%float = true /\ (mathMin a b <=? b)%float = true.
Proof.
  intros Ha Hb. unfold mathMin. rewrite Ha, Hb. simpl orb. cbv iota.
  pose proof (leb_refl a Ha). pose proof (leb_refl b Hb).
  destruct (compare_cases a b Ha Hb)
    as [(E1 & E2 & ? & ?)|[(E1 & E2 & ? & ?)|(E1 & E2 & ? & ?)]];
    rewrite ?E1, ?E2; cbv iota; rewrite ?E1, ?E2; cbv iota;
    try destruct (get_sign a); auto.
Qed.

(** A number between two tame numbers is tame. *)
Lemma between_tame (lo hi x : float) :
  tame (Prim2SF lo) = true -> tame (Prim2SF hi) = true ->
  (lo <=? x)%float = true -> (x <=? hi)%float = true ->
  tame (Prim2SF x) = true.
Proof.
  intros Hlo Hhi. rewrite !leb_spec.
  pose proof (Prim2SF_valid x) as Hv.
  destruct (normalWithin_inv _ _ _ Hlo) as (ml & el & -> & Hml & Hel).
  destruct (normalWithin_inv _ _ _ Hhi) as (mh & eh & -> & Hmh & Heh).
  destruct (Prim2SF x) as [s|s| |s m e]; unfold SFleb, SFcompare;
    try destruct s; try discriminate.
  destruct (Z.compare_spec el e), (Z.compare_spec e eh); try discriminate;
    intros _ _;
    (assert (-100 <= e <= 100) as He by lia);
    unfold valid_binary, bounded, canonical_mantissa in Hv;
    apply andb_true_iff in Hv; destruct Hv as [Hc _];
    apply Z.eqb_eq in Hc; rewrite fexp_normal in Hc
      by (pose proof (digits_pos (Zpos m) ltac:(lia));
          change (Zpos (digits2_pos m)) with (Zdigits2 (Zpos m)); lia);
    unfold tame, normalWithin;
    rewrite !andb_true_iff, Z.eqb_eq, !Z.leb_le;
    change (Zpos (digits2_pos m)) with (Zdigits2 (Zpos m)) in Hc;
    (split; [split|]; lia).
Qed.

Lemma tame_not_nan (x : float) : tame (Prim2SF x) = true -> is_nan x = false.
Proof.
  intros H. apply not_nan_spec. intros E. rewrite E in H. discriminate.
Qed.

Lemma moderate_not_nan (x : float) :
  moderate (Prim2SF x) = true -> is_nan x = false.
Proof.
  intros H. apply not_nan_spec. intros E. rewrite E in H. discriminate.
Qed.

Lemma leb_funits (x y : float) :
  moderate (Prim2SF x) = true -> moderate (Prim2SF y) = true ->
  (x <=? y)%float = (funits x <=? funits y).
Proof. intros Hx Hy. rewrite leb_spec. now apply leb_units. Qed.

Lemma ltb_funits (x y : float) :
  moderate (Prim2SF x) = true -> moderate (Prim2SF y) = true ->
  (x <? y)%float = (funits x <? funits y).
Proof. intros Hx Hy. rewrite ltb_spec. now apply ltb_units. Qed.

(** No NaN out of a quotient by a finite number, or of a sum with one. *)
Lemma div_not_nan (x y : float) :
  is_nan x = false -> isFinite (Prim2SF y) = true ->
  is_nan (x / y)%float = false.
Proof.
  rewrite !not_nan_spec, div_spec. intros Hx Hy.
  destruct (Prim2SF y) as [| | |s m e]; try discriminate. clear Hy.
  unfold SF64div, SFdiv.
  destruct (Prim2SF x) as [sx|sx| |sx mx ex]; try discriminate;
    [now elim Hx|].
  unfold SFdiv_core_binary.
  match goal with
  | |- context [Z.div_eucl ?a ?b] =>
      pose proof (Z_div_mod a b ltac:(lia)) as Hdiv;
      assert (0 <= a) as Hnum;
      [|destruct (Z.div_eucl a b) as [q r]]
  end.
  { match goal with
    | |- 0 <= match ?sh with _ => _ end =>
        destruct sh; try lia; apply Z.shiftl_nonneg; lia
    end. }
  apply round_not_nan. destruct Hdiv as [Hdiv Hr]. nia.
Qed.

Lemma add_not_nan (x y : float) :
  isFinite (Prim2SF x) = true -> is_nan y = false ->
  is_nan (x + y)%float = false.
Proof.
  rewrite !not_nan_spec, add_spec. intros Hx Hy.
  destruct (Prim2SF x) as [| | |s m e]; try discriminate. clear Hx.
  unfold SF64add, SFadd.
  destruct (Prim2SF y) as [sy|sy| |sy my ey]; try discriminate;
    [now elim Hy|].
  cbv zeta. unfold binary_normalize.
  match goal with
  | |- match ?z with _ => _ end <> _ => destruct z as [|p|p]
  end; try discriminate; unfold binary_round;
    match goal with
    | |- (let '(mz, ez) := ?a in _) <> _ => destruct a as [mz ez]
    end; apply round_not_nan; lia.
Qed.

End Binary64Facts.

(** ** Regular expressions: every match of a parser pattern advances

    The [exec] loops of the parser end because no pattern matches the empty
    string; [execAll] is exact for such patterns. *)

Module RegexFacts.
Import Regex SignalParser.

Lemma litMatch_length (l : string) :
  forall prev s prev' s',
    litMatch l prev s = Some (prev', s') -> length s = length l + length s'.
Proof.
  induction l as [|a l IH]; intros prev s prev' s'; simpl.
  - intros [= _ ->]. reflexivity.
  - destruct s as [|c s0]; [discriminate|].
    destruct (isChar (toUpperChar a) (toUpperChar c)); [|discriminate].
    intros H. apply IH in H. simpl. now rewrite H.
Qed.

Lemma classMatch_consumes {A : Type} (p : ascii -> bool)
    (k : option ascii -> string -> option A) (s : string) :
  forall lo hi prev x,
    classMatch p k lo hi prev s = Some x ->
    exists prev' s', k prev' s' = Some x /\ length s' + lo <= length s.
Proof.
  induction s as [|c s IH]; intros lo hi prev x; simpl.
  - destruct (Nat.eqb_spec lo 0) as [->|]; [|discriminate].
    intros H. exists prev, EmptyString. split; [exact H|simpl; lia].
  - assert ((if Nat.eqb lo 0 then k prev (String c s) else None) = Some x ->
            exists prev' s',
              k prev' s' = Some x /\ length s' + lo <= S (length s)) as Hstop.
    { destruct (Nat.eqb_spec lo 0) as [->|]; [|discriminate].
      intros H. exists prev, (String c s). split; [exact H|simpl; lia]. }
    destruct (p c && mayTakeMore hi); [|exact Hstop].
    destruct (classMatch p k (pred lo) (option_map pred hi) (Some c) s)
      as [y|] eqn:Hmore; [|exact Hstop].
    intros [= <-]. destruct (IH _ _ _ _ Hmore) as (prev' & s' & Hk & Hlen).
    exists prev', s'. split; [exact Hk|lia].
Qed.

Lemma matchAt_consumes (r : regex) :
  forall (A : Type) cap prev s
         (k : option string -> option ascii -> string -> option A) x,
    matchAt r cap prev s k = Some x ->
    exists cap' prev' s',
      k cap' prev' s' = Some x /\ length s' + minLength r <= length s.
Proof.
  induction r as [l|p lo hi| |r1 IH1 r2 IH2|r1 IH1 r2 IH2|r1 IH1|r1 IH1];
    intros A cap prev s k x; simpl.
  - destruct (litMatch l prev s) as [[prev' s']|] eqn:Hl; [|discriminate].
    intros H. apply litMatch_length in Hl.
    exists cap, prev', s'. split; [exact H|lia].
  - intros H. apply classMatch_consumes in H.
    destruct H as (prev' & s' & Hk & Hlen). now exists cap, prev', s'.
  - destruct (atWordBoundary prev s); [|discriminate].
    intros H. exists cap, prev, s. split; [exact H|lia].
  - intros H. apply IH1 in H. destruct H as (cap1 & prev1 & s1 & H & Hlen1).
    apply IH2 in H. destruct H as (cap2 & prev2 & s2 & H & Hlen2).
    exists cap2, prev2, s2. split; [exact H|lia].
  - destruct (matchAt r1 cap prev s k) as [y|] eqn:H1.
    + intros [= <-]. apply IH1 in H1.
      destruct H1 as (cap1 & prev1 & s1 & H & Hlen). exists cap1, prev1, s1.
      split; [exact H|lia].
    + intros H. apply IH2 in H.
      destruct H as (cap2 & prev2 & s2 & H & Hlen). exists cap2, prev2, s2.
      split; [exact H|lia].
  - destruct (matchAt r1 cap prev s k) as [y|] eqn:H1.
    + intros [= <-]. apply IH1 in H1.
      destruct H1 as (cap1 & prev1 & s1 & H & Hlen). exists cap1, prev1, s1.
      split; [exact H|lia].
    + intros H. exists cap, prev, s. split; [exact H|lia].
  - intros H. apply IH1 in H. destruct H as (cap1 & prev1 & s1 & H & Hlen).
    eexists _, prev1, s1. split; [exact H|exact Hlen].
Qed.

(** A match leaves at most [length s - minLength r] characters. *)
Lemma matchHere_consumes (r : regex) (prev : option ascii) (s : string)
    (cap : option string) (rest : string) :
  matchHere r prev s = Some (cap, rest) ->
  length rest + minLength r <= length s.
Proof.
  unfold matchHere. intros H. apply matchAt_consumes in H.
  destruct H as (cap' & prev' & s' & [= _ ->] & Hlen). exact Hlen.
Qed.

(** Every pattern the parser loops on spans at least three characters. *)
Example parser_patterns_advance :
  forallb (fun r => Nat.leb 3 (minLength r))
          (BUY_PATTERNS ++ SELL_PATTERNS ++ [TOKEN_MENTION_PATTERN]) = true.
Proof. reflexivity. Qed.

End RegexFacts.

(** ** Signal parser: what each phase of [parseSignalsFromPost] produces *)

Module SignalFacts.
Import Regex SignalParser SignalProps.

Section AnyArithmetic.
Context {N : Type} {num : Number N}.

Lemma intentSignal_shape (post : Post) (act : Action) (m : option string)
    (s : TradingSignal N) :
  In s (intentSignal post act m) ->
  action s = act /\ confidence s = intentConfidence post (token s).
Proof.
  destruct m as [tok|]; simpl; [|tauto].
  destruct (truthy tok && isValidToken tok); simpl; [|tauto].
  intros [<-|[]]; simpl. split; [reflexivity|].
  unfold intentConfidence, isKnownToken. reflexivity.
Qed.

Lemma intentSignals_shape (post : Post) (act : Action) (patterns : list regex)
    (s : TradingSignal N) :
  In s (intentSignals post act patterns) ->
  action s = act /\ confidence s = intentConfidence post (token s).
Proof.
  unfold intentSignals. rewrite in_flat_map. intros (r & _ & H).
  rewrite in_flat_map in H. destruct H as (m & _ & H).
  eapply intentSignal_shape; eassumption.
Qed.

Lemma intentPhase_confidence (post : Post) (s : TradingSignal N) :
  In s (intentPhase post) -> confidence s = intentConfidence post (token s).
Proof.
  unfold intentPhase. rewrite in_app_iff.
  intros [H|H]; apply intentSignals_shape in H; apply H.
Qed.

Lemma mentionOnly_weaken (post : Post) (before before' : list (TradingSignal N))
    (m : TradingSignal N) :
  (forall s, In s before -> In s before') ->
  mentionOnly post before' m -> mentionOnly post before m.
Proof.
  intros Hsub (Ha & Hk & Hc & Hfresh). repeat split; auto.
Qed.

Lemma mention_loop (post : Post) (ms : list (option string)) :
  forall signals : list (TradingSignal N),
  exists mentions,
    fold_left (addMention post) ms signals = signals ++ mentions /\
    Forall (mentionOnly post signals) mentions.
Proof.
  induction ms as [|m ms IH]; intros signals; simpl.
  - exists []. rewrite app_nil_r. split; [reflexivity|constructor].
  - destruct m as [tok|]; simpl; [|apply IH].
    destruct (truthy tok && isKnownToken tok) eqn:Hk; [|apply IH].
    destruct (existsb (fun s => String.eqb (token s) (cleanToken tok)) signals)
      eqn:Hex; simpl; [apply IH|].
    destruct (IH (signals ++ [mentionSignal post tok])) as (rest & Heq & Hall).
    exists (mentionSignal post tok :: rest). split.
    + rewrite Heq, <- app_assoc. reflexivity.
    + constructor.
      * apply andb_true_iff in Hk. destruct Hk as [_ Hk].
        repeat split; try reflexivity; [exact Hk|].
        intros s Hin Htok. simpl in Htok.
        assert (existsb (fun s => String.eqb (token s) (cleanToken tok)) signals
                = true) as Habs.
        { apply existsb_exists. exists s. split; [exact Hin|].
          now apply String.eqb_eq. }
        congruence.
      * eapply Forall_impl; [|exact Hall].
        intros a. apply mentionOnly_weaken.
        intros s Hs. apply in_or_app. now left.
Qed.

Lemma collected_split (post : Post) :
  exists mentions : list (TradingSignal N),
    collected post = intentPhase post ++ mentions /\
    Forall (mentionOnly post (intentPhase post)) mentions.
Proof. apply mention_loop. Qed.

Lemma dedupe_incl (l : list (TradingSignal N)) :
  forall seen s, In s (dedupe seen l) -> In s l.
Proof.
  induction l as [|x l IH]; intros seen s; simpl; [tauto|].
  destruct (has seen (keyOf x)); simpl.
  - intros H. right. eapply IH, H.
  - intros [H|H]; [now left|right; eapply IH, H].
Qed.

(** Every signal a post returns was pushed by an intent pattern or by the
    mention loop. *)
Lemma parsed_origin (post : Post) (s : TradingSignal N) :
  In s (parseSignalsFromPost post) ->
  In s (intentPhase post) \/ mentionOnly post (intentPhase post) s.
Proof.
  intros H. apply dedupe_incl in H.
  destruct (collected_split post) as (mentions & Heq & Hall).
  rewrite Heq in H. apply in_app_or in H. destruct H as [H|H]; [now left|].
  right. rewrite Forall_forall in Hall. now apply Hall.
Qed.

(** *** Keys *)

Lemma has_In (set : list string) (x : string) : has set x = true <-> In x set.
Proof.
  unfold has. rewrite existsb_exists. split.
  - intros (y & Hy & He). apply String.eqb_eq in He. now subst.
  - intros H. exists x. split; [exact H|apply String.eqb_refl].
Qed.

Lemma keyOf_inj (s s' : TradingSignal N) :
  keyOf s = keyOf s' <-> action s = action s' /\ token s = token s'.
Proof.
  unfold keyOf. split.
  - destruct (action s), (action s'); simpl; intros H;
      try discriminate; injection H as H; auto.
  - intros [-> ->]. reflexivity.
Qed.

Lemma NoDup_keys_pairs (l : list (TradingSignal N)) :
  NoDup (map keyOf l) -> NoDup (map actionToken l).
Proof.
  induction l as [|x l IH]; simpl; intros H; [constructor|].
  inversion H as [|? ? Hnotin Hnd]; subst. constructor; [|auto].
  intros Hin. apply Hnotin. apply in_map_iff in Hin.
  destruct Hin as (y & Hy & Hyin). apply in_map_iff. exists y. split; [|exact Hyin].
  unfold actionToken in Hy. injection Hy as Ha Ht. now apply keyOf_inj.
Qed.

(** *** The per-post filter keeps the first signal of every key *)

Lemma dedupe_unseen (l : list (TradingSignal N)) :
  forall seen s, In s (dedupe seen l) -> ~ In (keyOf s) seen.
Proof.
  induction l as [|x l IH]; intros seen s; simpl; [tauto|].
  destruct (has seen (keyOf x)) eqn:Hseen; simpl.
  - apply IH.
  - intros [<-|H].
    + rewrite <- has_In. congruence.
    + intros Hin. apply (IH _ _ H). now right.
Qed.

Lemma dedupe_NoDup (l : list (TradingSignal N)) :
  forall seen, NoDup (map keyOf (dedupe seen l)).
Proof.
  induction l as [|x l IH]; intros seen; simpl; [constructor|].
  destruct (has seen (keyOf x)); simpl; [apply IH|].
  constructor; [|apply IH].
  intros Hin. apply in_map_iff in Hin. destruct Hin as (y & Hy & Hyin).
  apply dedupe_unseen in Hyin. apply Hyin. left. now symmetry.
Qed.

Lemma dedupe_first (l : list (TradingSignal N)) :
  forall seen s, In s (dedupe seen l) -> firstWithKey (keyOf s) l = Some s.
Proof.
  unfold firstWithKey.
  induction l as [|x l IH]; intros seen s; simpl; [tauto|].
  destruct (has seen (keyOf x)) eqn:Hseen; simpl.
  - intros H. destruct (String.eqb (keyOf x) (keyOf s)) eqn:He.
    + apply String.eqb_eq in He. apply dedupe_unseen in H.
      apply has_In in Hseen. rewrite He in Hseen. contradiction.
    + eapply IH, H.
  - intros [<-|H].
    + now rewrite String.eqb_refl.
    + destruct (String.eqb (keyOf x) (keyOf s)) eqn:He.
      * apply String.eqb_eq in He. apply dedupe_unseen in H.
        exfalso. apply H. now left.
      * eapply IH, H.
Qed.

Lemma dedupe_covers (l : list (TradingSignal N)) :
  forall seen r, In r l -> ~ In (keyOf r) seen ->
  exists s, In s (dedupe seen l) /\ keyOf s = keyOf r.
Proof.
  induction l as [|x l IH]; intros seen r; simpl; [tauto|].
  intros [->|Hr] Hunseen.
  - destruct (has seen (keyOf r)) eqn:Hseen.
    + apply has_In in Hseen. contradiction.
    + exists r. split; [now left|reflexivity].
  - destruct (has seen (keyOf x)) eqn:Hseen.
    + now apply IH.
    + destruct (String.eqb (keyOf x) (keyOf r)) eqn:He.
      * apply String.eqb_eq in He. exists x. split; [now left|exact He].
      * destruct (IH (keyOf x :: seen) r Hr) as (s & Hs & Hk).
        { intros [Heq|Hin]; [|contradiction].
          rewrite Heq, String.eqb_refl in He. discriminate. }
        exists s. split; [now right|exact Hk].
Qed.

(** *** The map of [parseSignalsFromFeed] *)

Lemma mapGet_In (key : string) (m : SignalMap) (v : TradingSignal N) :
  mapGet key m = Some v -> In (key, v) m.
Proof.
  induction m as [|[k v'] m IH]; simpl; [discriminate|].
  destruct (String.eqb k key) eqn:He.
  - apply String.eqb_eq in He. intros [= ->]. left. now subst.
  - intros H. right. now apply IH.
Qed.

Lemma mapGet_None (key : string) (m : SignalMap (N:=N)) :
  mapGet key m = None -> ~ In key (map fst m).
Proof.
  induction m as [|[k v'] m IH]; simpl; [tauto|].
  destruct (String.eqb k key) eqn:He; [discriminate|].
  intros H [Hk|Hin]; [|now apply IH].
  subst. rewrite String.eqb_refl in He. discriminate.
Qed.

Lemma mapSet_absent (key : string) (v : TradingSignal N) (m : SignalMap) :
  ~ In key (map fst m) -> mapSet key v m = m ++ [(key, v)].
Proof.
  induction m as [|[k v'] m IH]; simpl; intros H; [reflexivity|].
  destruct (String.eqb k key) eqn:He.
  - apply String.eqb_eq in He. exfalso. apply H. now left.
  - f_equal. apply IH. intros Hin. apply H. now right.
Qed.

Lemma mapSet_present_keys (key : string) (v : TradingSignal N) (m : SignalMap) :
  In key (map fst m) -> map fst (mapSet key v m) = map fst m.
Proof.
  induction m as [|[k v'] m IH]; simpl; [tauto|].
  destruct (String.eqb k key) eqn:He; simpl; [reflexivity|].
  intros [Hk|Hin].
  - subst. rewrite String.eqb_refl in He. discriminate.
  - f_equal. now apply IH.
Qed.

Lemma mapSet_present_In (key : string) (v : TradingSignal N) (m : SignalMap) :
  NoDup (map fst m) ->
  forall k w, In (k, w) (mapSet key v m) ->
  (k = key /\ w = v) \/ (k <> key /\ In (k, w) m).
Proof.
  induction m as [|[k0 v0] m IH]; simpl; intros Hnd k w.
  - intros [[= <- <-]|[]]. now left.
  - inversion Hnd as [|? ? Hnotin Hnd']; subst.
    destruct (String.eqb k0 key) eqn:He; simpl.
    + apply String.eqb_eq in He. subst k0.
      intros [[= <- <-]|Hin]; [now left|].
      right. split; [|now right].
      intros ->. apply Hnotin. apply in_map_iff. now exists (key, w).
    + intros [[= <- <-]|Hin].
      * right. split; [|now left].
        intros ->. rewrite String.eqb_refl in He. discriminate.
      * destruct (IH Hnd' k w Hin) as [H|[Hne H]]; [now left|].
        right. split; [exact Hne|now right].
Qed.

Lemma keyed_values (m : SignalMap (N:=N)) :
  (forall k v, In (k, v) m -> k = keyOf v) ->
  map keyOf (map snd m) = map fst m.
Proof.
  induction m as [|[k v] m IH]; simpl; intros H; [reflexivity|].
  f_equal.
  - symmetry. apply H. now left.
  - apply IH. intros k' v' Hin. apply H. now right.
Qed.

(** *** Stable insertion sort *)

Lemma insertSorted_perm (x : TradingSignal N) (l : list (TradingSignal N)) :
  Permutation (insertSorted x l) (x :: l).
Proof.
  induction l as [|y ys IH]; simpl; [reflexivity|].
  destruct (comesAfter x y); [|reflexivity].
  rewrite IH. apply perm_swap.
Qed.

Lemma sortSignals_perm (l : list (TradingSignal N)) :
  Permutation (sortSignals l) l.
Proof.
  induction l as [|x l IH]; simpl; [reflexivity|].
  rewrite insertSorted_perm. now constructor.
Qed.

(** *** What the order on confidences must satisfy

    The facts below are proved for any relation [le] that the comparisons of
    the source respect; they are used with [Qle] and, for the facts that do
    not depend on the order, with the full relation. *)

Section Ordered.
Variable le : N -> N -> Prop.
Variable good : N -> Prop.
Hypothesis le_refl : forall a, good a -> le a a.
Hypothesis le_trans :
  forall a b c, good a -> good b -> good c -> le a b -> le b c -> le a c.
Hypothesis gt_le : forall a b, good a -> good b -> gt a b = true -> le b a.
Hypothesis not_gt_le :
  forall a b, good a -> good b -> gt a b = false -> le a b.
Hypothesis after_le :
  forall x y : TradingSignal N,
    good (confidence x) -> good (confidence y) ->
    comesAfter x y = true -> le (confidence x) (confidence y).
Hypothesis not_after_le :
  forall x y : TradingSignal N,
    good (confidence x) -> good (confidence y) ->
    comesAfter x y = false -> le (confidence y) (confidence x).

Local Abbreviation best := (SignalProps.best le).
Local Abbreviation descending := (SignalProps.descending le).
Local Abbreviation allGood :=
  (fun l : list (TradingSignal N) => forall s, In s l -> good (confidence s)).

Lemma unique_value (m : SignalMap (N:=N)) (k : string)
    (v w : TradingSignal N) :
  NoDup (map fst m) -> In (k, v) m -> In (k, w) m -> v = w.
Proof.
  induction m as [|[k0 v0] m IH]; simpl; [tauto|].
  intros Hnd Hv Hw. inversion Hnd as [|? ? Hnotin Hnd']; subst.
  assert (forall u, In (k0, u) m -> False) as Habs.
  { intros u Hu. apply Hnotin. apply in_map_iff. now exists (k0, u). }
  destruct Hv as [Hv|Hv], Hw as [Hw|Hw].
  - congruence.
  - inversion Hv; subst. elim (Habs _ Hw).
  - inversion Hw; subst. elim (Habs _ Hv).
  - now apply IH.
Qed.

Lemma keepBest_best (done : list (TradingSignal N)) (m : SignalMap)
    (x : TradingSignal N) :
  allGood (done ++ [x]) -> best done m -> best (done ++ [x]) (keepBest m x).
Proof.
  intros Hgood (Hnd & Hent & Hcov). unfold keepBest.
  assert (good (confidence x)) as Hgx
    by (apply Hgood, in_or_app; right; now left).
  assert (forall s, In s done -> good (confidence s)) as Hgd
    by (intros s Hs; apply Hgood, in_or_app; now left).
  destruct (mapGet (keyOf x) m) as [existing|] eqn:Hget.
  - pose proof (mapGet_In _ _ _ Hget) as Hin.
    destruct (Hent _ _ Hin) as (_ & Hexd & Hexbest).
    assert (In (keyOf x) (map fst m)) as Hkey.
    { apply in_map_iff. now exists (keyOf x, existing). }
    destruct (gt (confidence x) (confidence existing)) eqn:Hgt.
    + split; [|split].
      * now rewrite mapSet_present_keys.
      * intros k v H.
        destruct (mapSet_present_In _ x _ Hnd _ _ H) as [[-> ->]|[Hne Hold]].
        -- split; [reflexivity|]. split; [apply in_or_app; right; now left|].
           intros s Hs Hk. apply in_app_or in Hs.
           destruct Hs as [Hs|[<-|[]]]; [|now apply le_refl].
           apply (le_trans _ (confidence existing)); auto.
        -- destruct (Hent _ _ Hold) as (Hk & Hvd & Hvbest).
           split; [exact Hk|]. split; [apply in_or_app; now left|].
           intros s Hs Hks. apply in_app_or in Hs.
           destruct Hs as [Hs|[<-|[]]]; [now apply Hvbest|now elim Hne].
      * intros s Hs. rewrite mapSet_present_keys by exact Hkey.
        apply in_app_or in Hs. destruct Hs as [Hs|[<-|[]]]; auto.
    + split; [exact Hnd|split].
      * intros k v H. destruct (Hent _ _ H) as (Hk & Hvd & Hvbest).
        split; [exact Hk|]. split; [apply in_or_app; now left|].
        intros s Hs Hks. apply in_app_or in Hs.
        destruct Hs as [Hs|[<-|[]]]; [now apply Hvbest|].
        rewrite <- Hks in H. rewrite (unique_value _ _ _ _ Hnd H Hin).
        apply not_gt_le; auto.
      * intros s Hs. apply in_app_or in Hs. destruct Hs as [Hs|[<-|[]]]; auto.
  - pose proof (mapGet_None _ _ Hget) as Habsent.
    rewrite mapSet_absent by exact Habsent. split; [|split].
    + rewrite map_app. simpl. apply NoDup_app.
      * exact Hnd.
      * repeat constructor; simpl; tauto.
      * intros k Hk [<-|[]]. contradiction.
    + intros k v H. apply in_app_or in H.
      destruct H as [H|[[= <- <-]|[]]].
      * destruct (Hent _ _ H) as (Hk & Hvd & Hvbest).
        split; [exact Hk|]. split; [apply in_or_app; now left|].
        intros s Hs Hks. apply in_app_or in Hs.
        destruct Hs as [Hs|[<-|[]]]; [now apply Hvbest|].
        exfalso. apply Habsent. rewrite Hks. apply in_map_iff. now exists (k, v).
      * split; [reflexivity|]. split; [apply in_or_app; right; now left|].
        intros s Hs Hks. apply in_app_or in Hs.
        destruct Hs as [Hs|[<-|[]]]; [|now apply le_refl].
        exfalso. apply Habsent. rewrite <- Hks. now apply Hcov.
    + intros s Hs. rewrite map_app. apply in_or_app.
      apply in_app_or in Hs.
      destruct Hs as [Hs|[<-|[]]]; [left; auto|right; now left].
Qed.

Lemma fold_best (l : list (TradingSignal N)) :
  forall done m,
    allGood (done ++ l) -> best done m ->
    best (done ++ l) (fold_left keepBest l m).
Proof.
  induction l as [|x l IH]; intros done m Hgood H; simpl.
  - now rewrite app_nil_r.
  - replace (done ++ x :: l) with ((done ++ [x]) ++ l) in *
      by (rewrite <- app_assoc; reflexivity).
    apply IH; [exact Hgood|]. apply keepBest_best; [|exact H].
    intros s Hs. apply Hgood, in_or_app. now left.
Qed.

Lemma tokenActionMap_best (posts : list Post) :
  allGood (allSignals posts) -> best (allSignals posts) (tokenActionMap posts).
Proof.
  intros Hgood. apply (fold_best (allSignals posts) [] []); [exact Hgood|].
  split; [constructor|]. split; simpl; tauto.
Qed.

Lemma insertSorted_sorted (x : TradingSignal N) (l : list (TradingSignal N)) :
  good (confidence x) -> allGood l ->
  StronglySorted descending l -> StronglySorted descending (insertSorted x l).
Proof.
  intros Hgx. induction l as [|y ys IH]; simpl; intros Hgood Hs.
  - constructor; constructor.
  - inversion Hs as [|? ? Hys Hall]; subst.
    assert (good (confidence y)) as Hgy by (apply Hgood; now left).
    assert (forall s, In s ys -> good (confidence s)) as Hgys
      by (intros s Hin; apply Hgood; now right).
    destruct (comesAfter x y) eqn:Hc.
    + constructor; [now apply IH|].
      rewrite Forall_forall. intros z Hz.
      apply (Permutation_in _ (insertSorted_perm x ys)) in Hz.
      destruct Hz as [<-|Hz].
      * now apply after_le.
      * rewrite Forall_forall in Hall. now apply Hall.
    + constructor; [exact Hs|].
      constructor; [now apply not_after_le|].
      rewrite Forall_forall in *. intros z Hz. unfold descending.
      apply (le_trans _ (confidence y)); auto.
      now apply Hall.
Qed.

Lemma sortSignals_sorted (l : list (TradingSignal N)) :
  allGood l -> StronglySorted descending (sortSignals l).
Proof.
  induction l as [|x l IH]; simpl; intros Hgood; [constructor|].
  apply insertSorted_sorted.
  - apply Hgood. now left.
  - intros s Hs. apply (Permutation_in _ (sortSignals_perm l)) in Hs.
    apply Hgood. now right.
  - apply IH. intros s Hs. apply Hgood. now right.
Qed.

(** The whole of [parseSignalsFromFeed]. *)
Lemma feed_spec (posts : list Post) :
  allGood (allSignals posts) ->
  NoDup (map keyOf (parseSignalsFromFeed posts)) /\
  (forall s, In s (parseSignalsFromFeed posts) ->
     In s (allSignals posts) /\
     forall s', In s' (allSignals posts) -> keyOf s' = keyOf s ->
                le (confidence s') (confidence s)) /\
  (forall r, In r (allSignals posts) ->
     exists s, In s (parseSignalsFromFeed posts) /\ keyOf s = keyOf r) /\
  StronglySorted descending (parseSignalsFromFeed posts).
Proof.
  intros Hgood.
  destruct (tokenActionMap_best posts Hgood) as (Hnd & Hent & Hcov).
  unfold parseSignalsFromFeed.
  assert (map keyOf (map snd (tokenActionMap posts))
          = map fst (tokenActionMap posts)) as Hkeys.
  { apply keyed_values. intros k v H. apply (Hent _ _ H). }
  assert (forall s, In s (sortSignals (map snd (tokenActionMap posts))) <->
                    In (keyOf s, s) (tokenActionMap posts)) as Hmem.
  { intros s. split.
    - intros H. apply (Permutation_in _ (sortSignals_perm _)) in H.
      apply in_map_iff in H. destruct H as ([k v] & <- & H).
      simpl. destruct (Hent _ _ H) as (<- & _). exact H.
    - intros H. apply (Permutation_in _ (Permutation_sym (sortSignals_perm _))).
      apply in_map_iff. now exists (keyOf s, s). }
  split; [|split; [|split]].
  - apply (Permutation_NoDup
             (Permutation_map keyOf (Permutation_sym (sortSignals_perm _)))).
    now rewrite Hkeys.
  - intros s Hs. apply Hmem in Hs. destruct (Hent _ _ Hs) as (_ & Hd & Hb).
    split; [exact Hd|]. intros s' Hs' Hk. now apply Hb.
  - intros r Hr. specialize (Hcov r Hr). apply in_map_iff in Hcov.
    destruct Hcov as ([k v] & Hk & Hin). simpl in Hk. subst k.
    destruct (Hent _ _ Hin) as (Hkv & _).
    exists v. split; [|now symmetry].
    apply Hmem. now rewrite <- Hkv.
  - apply sortSignals_sorted. intros s Hs.
    apply in_map_iff in Hs. destruct Hs as ([k v] & <- & H).
    destruct (Hent _ _ H) as (_ & Hd & _). now apply Hgood.
Qed.

End Ordered.

End AnyArithmetic.

(** With the full relation, [feed_spec] gives the facts that hold whatever
    the arithmetic. *)
Lemma feed_any {N : Type} {num : Number N} (posts : list Post) :
  NoDup (map keyOf (parseSignalsFromFeed (N:=N) posts)) /\
  forall s, In s (parseSignalsFromFeed (N:=N) posts) ->
    exists post, In post posts /\ In s (parseSignalsFromPost post).
Proof.
  destruct (feed_spec (fun _ _ => True) (fun _ => True)) with (posts := posts)
    as (Hnd & Hin & _); auto.
  split; [exact Hnd|].
  intros s Hs. destruct (Hin s Hs) as [Hall _].
  unfold allSignals in Hall. apply in_flat_map in Hall. exact Hall.
Qed.

(** *** Exact arithmetic *)

Section ExactArithmetic.
Local Open Scope Q_scope.

Lemma base_exact (post : Post) :
  baseConfidence (N:=Q) post =
  Qmin 0.9 (Qmax 0.1
    (0.3 + (inject_Z (post_upvotes post)
            - inject_Z (match post_downvotes post with
                        | Some d => d | None => 0%Z end))
           / inject_Z 50)).
Proof. reflexivity. Qed.

End ExactArithmetic.

(** *** Binary64 arithmetic *)

Section Binary64Arithmetic.
Import Rounding RoundingFacts Binary64Facts.

Local Abbreviation c01 := (Binary64.ofDecimal 0.1%Q).
Local Abbreviation c02 := (Binary64.ofDecimal 0.2%Q).
Local Abbreviation c03 := (Binary64.ofDecimal 0.3%Q).
Local Abbreviation c07 := (Binary64.ofDecimal 0.7%Q).
Local Abbreviation c09 := (Binary64.ofDecimal 0.9%Q).
Local Abbreviation c095 := (Binary64.ofDecimal 0.95%Q).

Lemma base_float (post : Post) :
  baseConfidence (N:=float) post =
  Binary64.mathMin c09
    (Binary64.mathMax c01
       (PrimFloat.add c03
          (PrimFloat.div (netVotes post) (Binary64.ofZ 50)))).
Proof. reflexivity. Qed.

Lemma inRange_tame (lo hi c : float) :
  tame (Prim2SF lo) = true -> tame (Prim2SF hi) = true ->
  inRange lo hi c -> tame (Prim2SF c) = true.
Proof. intros Hlo Hhi [H1 H2]. exact (between_tame lo hi c Hlo Hhi H1 H2). Qed.

Lemma atMost_units (a b : float) :
  moderate (Prim2SF a) = true -> moderate (Prim2SF b) = true ->
  atMost a b <-> (funits a <= funits b)%Z.
Proof.
  intros Ha Hb. unfold atMost. rewrite (leb_funits a b Ha Hb).
  apply Z.leb_le.
Qed.

Lemma atMost_trans (a b c : float) :
  moderate (Prim2SF a) = true -> moderate (Prim2SF b) = true ->
  moderate (Prim2SF c) = true ->
  atMost a b -> atMost b c -> atMost a c.
Proof.
  intros Ha Hb Hc. rewrite !atMost_units by assumption. lia.
Qed.

(** The base confidence is clamped, whatever the votes, as long as their
    difference is a number. *)
Lemma base_in_range (post : Post) :
  counted post -> inRange c01 c09 (baseConfidence post).
Proof.
  intros Hn. rewrite base_float.
  assert (PrimFloat.is_nan
            (PrimFloat.add c03
               (PrimFloat.div (netVotes post) (Binary64.ofZ 50))) = false)
    as Hx.
  { apply add_not_nan; [reflexivity|].
    apply div_not_nan; [exact Hn|reflexivity]. }
  remember (PrimFloat.add c03
              (PrimFloat.div (netVotes post) (Binary64.ofZ 50))) as x eqn:Ex.
  clear Ex.
  destruct (mathMax_cases c01 x eq_refl Hx) as (Hy & Hy1 & Hy2).
  remember (Binary64.mathMax c01 x) as y eqn:Ey. clear Ey.
  assert (PrimFloat.is_nan y = false) as Hyn
    by (destruct Hy as [->| ->]; [reflexivity|exact Hx]).
  destruct (mathMin_cases c09 y eq_refl Hyn) as (Hb & Hb1 & Hb2).
  split; [|exact Hb1].
  destruct Hb as [->| ->]; [reflexivity|exact Hy1].
Qed.

Lemma base_tame (post : Post) :
  counted post -> tame (Prim2SF (baseConfidence post)) = true.
Proof.
  intros Hn. apply (inRange_tame c01 c09); [reflexivity|reflexivity|].
  now apply base_in_range.
Qed.

(** What adding 0.2 gives: a number that is at least the base confidence
    and at least 0.2. *)
Lemma boosted (post : Post) :
  counted post ->
  let z := PrimFloat.add (baseConfidence post) c02 in
  moderate (Prim2SF z) = true /\ atMost (baseConfidence post) z /\ atMost c02 z.
Proof.
  intros Hn z. pose proof (base_tame post Hn) as Hb.
  destruct (add_tame (Prim2SF (baseConfidence post)) (Prim2SF c02) Hb eq_refl)
    as (Hm & H1 & H2).
  unfold SF64add in *. rewrite <- add_spec in Hm, H1, H2. fold z in Hm, H1, H2.
  split; [exact Hm|].
  split; apply atMost_units; try assumption.
  - now apply tame_moderate.
  - reflexivity.
Qed.

Lemma intent_in_range (post : Post) (tok : string) :
  counted post -> inRange c01 c095 (intentConfidence post tok).
Proof.
  intros Hn. unfold intentConfidence.
  pose proof (base_in_range post Hn) as [Hlo Hhi].
  pose proof (base_tame post Hn) as Hb.
  destruct (has KNOWN_TOKENS tok).
  - destruct (boosted post Hn) as (Hm & _ & H2).
    change (inRange c01 c095
              (Binary64.mathMin c095
                 (PrimFloat.add (baseConfidence post) c02))).
    remember (PrimFloat.add (baseConfidence post) c02) as z eqn:Ez. clear Ez.
    destruct (mathMin_cases c095 z eq_refl (moderate_not_nan z Hm))
      as (Hr & Hr1 & Hr2).
    split; [|exact Hr1].
    destruct Hr as [->| ->]; [reflexivity|].
    apply (atMost_trans c01 c02 z); try assumption; reflexivity.
  - change (inRange c01 c095
              (Binary64.mathMin c095 (baseConfidence post))).
    remember (baseConfidence (N:=float) post) as b eqn:Eb. clear Eb.
    destruct (mathMin_cases c095 b eq_refl (tame_not_nan b Hb))
      as (Hr & Hr1 & Hr2).
    split; [|exact Hr1].
    destruct Hr as [->| ->]; [reflexivity|exact Hlo].
Qed.

(** A known token never lowers the confidence of an intent. *)
Lemma known_not_below_unknown (post : Post) :
  counted post ->
  atMost (Binary64.mathMin c095 (baseConfidence post))
         (Binary64.mathMin c095 (PrimFloat.add (baseConfidence post) c02)).
Proof.
  intros Hn.
  pose proof (base_in_range post Hn) as [Hlo Hhi].
  pose proof (base_tame post Hn) as Hb.
  destruct (boosted post Hn) as (Hm & H1 & _).
  remember (PrimFloat.add (baseConfidence post) c02) as z eqn:Ez. clear Ez.
  remember (baseConfidence (N:=float) post) as b eqn:Eb. clear Eb.
  destruct (mathMin_cases c095 b eq_refl (tame_not_nan b Hb))
    as (Hu & Hu1 & Hu2).
  destruct (mathMin_cases c095 z eq_refl (moderate_not_nan z Hm))
    as (Hk & _ & _).
  assert (tame (Prim2SF (Binary64.mathMin c095 b)) = true) as Htu.
  { destruct Hu as [->| ->]; [reflexivity|exact Hb]. }
  destruct Hk as [->| ->]; [exact Hu1|].
  apply (atMost_trans _ b z); try assumption; now apply tame_moderate.
Qed.

(** The confidence of a mention: between 0.1 * 0.7 and 0.9 * 0.7, as
    rounded. *)
Lemma mention_in_range (post : Post) :
  counted post -> inRange lowest highestMention (mentionConfidence post).
Proof.
  intros Hn. unfold mentionConfidence.
  pose proof (base_in_range post Hn) as [Hlo Hhi].
  pose proof (base_tame post Hn) as Hb.
  change (inRange (PrimFloat.mul c01 c07) (PrimFloat.mul c09 c07)
            (PrimFloat.mul (baseConfidence post) c07)).
  remember (baseConfidence (N:=float) post) as b eqn:Eb. clear Eb.
  assert (forall x : float,
            tame (Prim2SF x) = true ->
            moderate (Prim2SF (PrimFloat.mul x c07)) = true) as Hmod.
  { intros x Hx. rewrite mul_spec.
    destruct (mul_tame (Prim2SF x) (Prim2SF c07) Hx eq_refl)
      as (? & ? & ? & ? & _ & _ & H & _). exact H. }
  assert (forall x y : float,
            tame (Prim2SF x) = true -> tame (Prim2SF y) = true ->
            atMost x y ->
            atMost (PrimFloat.mul x c07) (PrimFloat.mul y c07)) as Hmono.
  { intros x y Hx Hy Hxy.
    apply atMost_units; [now apply Hmod|now apply Hmod|].
    unfold funits. rewrite !mul_spec.
    apply mul_tame_mono; [exact Hx|exact Hy|reflexivity|].
    apply (atMost_units x y); [now apply tame_moderate|now apply tame_moderate|].
    exact Hxy. }
  split; apply Hmono; try assumption; reflexivity.
Qed.

Lemma lowest_is_lowest :
  atMost lowest c01 /\ atMost highestMention c095.
Proof. split; reflexivity. Qed.

Lemma in_range_widen (c : float) :
  inRange c01 c095 c \/ inRange lowest highestMention c ->
  inRange lowest c095 c.
Proof.
  destruct lowest_is_lowest as [L H].
  intros [[H1 H2]|[H1 H2]].
  - assert (tame (Prim2SF c) = true) as Hc
      by (apply (between_tame c01 c095); [reflexivity|reflexivity| |];
          assumption).
    split; [|exact H2].
    apply (atMost_trans lowest c01 c); try assumption;
      solve [reflexivity | now apply tame_moderate].
  - assert (tame (Prim2SF c) = true) as Hc
      by (apply (between_tame lowest highestMention);
          [reflexivity|reflexivity| |]; assumption).
    split; [exact H1|].
    apply (atMost_trans c highestMention c095); try assumption;
      solve [reflexivity | now apply tame_moderate].
Qed.

(** Every signal of a post with counted votes has its confidence in
    range. *)
Lemma parsed_in_range (post : Post) (s : TradingSignal float) :
  counted post -> In s (parseSignalsFromPost post) ->
  inRange lowest c095 (confidence s).
Proof.
  intros Hn Hs. apply in_range_widen.
  destruct (parsed_origin post s Hs) as [Hi|(_ & _ & Hc & _)].
  - left. rewrite (intentPhase_confidence _ _ Hi). now apply intent_in_range.
  - right. rewrite Hc. now apply mention_in_range.
Qed.

Lemma all_in_range (posts : list Post) (s : TradingSignal float) :
  (forall post, In post posts -> counted post) ->
  In s (allSignals posts) -> inRange lowest c095 (confidence s).
Proof.
  intros Hn Hs. unfold allSignals in Hs. apply in_flat_map in Hs.
  destruct Hs as (post & Hp & Hs). apply (parsed_in_range post); auto.
Qed.

Lemma in_range_tame (c : float) :
  inRange lowest c095 c -> tame (Prim2SF c) = true.
Proof. apply inRange_tame; reflexivity. Qed.

(** On confidences in range, [>] and the comparator of the sort are the
    order of the numbers. *)
Lemma comesAfter_float (x y : TradingSignal float) :
  inRange lowest c095 (confidence x) -> inRange lowest c095 (confidence y) ->
  comesAfter x y = PrimFloat.ltb (confidence x) (confidence y).
Proof.
  intros Hx Hy. apply in_range_tame in Hx, Hy.
  change (comesAfter x y)
    with (PrimFloat.ltb (Binary64.ofZ 0)
            (PrimFloat.sub (confidence y) (confidence x))).
  rewrite !ltb_spec, sub_spec.
  change (Prim2SF (Binary64.ofZ 0)) with (S754_zero false).
  now apply sub_tame_sign.
Qed.

Lemma feed_float (posts : list Post) :
  (forall post, In post posts -> counted post) ->
  NoDup (map keyOf (parseSignalsFromFeed (N:=float) posts)) /\
  (forall s : TradingSignal float, In s (parseSignalsFromFeed posts) ->
     In s (allSignals posts) /\
     forall s' : TradingSignal float,
       In s' (allSignals posts) -> keyOf s' = keyOf s ->
       atMost (confidence s') (confidence s)) /\
  (forall r : TradingSignal float, In r (allSignals posts) ->
     exists s : TradingSignal float,
       In s (parseSignalsFromFeed posts) /\ keyOf s = keyOf r) /\
  StronglySorted (fun a b => atMost (confidence b) (confidence a))
                 (parseSignalsFromFeed (N:=float) posts).
Proof.
  intros Hn.
  apply (feed_spec atMost (inRange lowest c095)).
  - intros a Ha. apply leb_refl, tame_not_nan, in_range_tame, Ha.
  - intros a b c Ha Hb Hc.
    apply atMost_trans; now apply tame_moderate, in_range_tame.
  - intros a b Ha Hb H.
    change (PrimFloat.ltb b a = true) in H.
    apply in_range_tame, tame_moderate in Ha, Hb.
    rewrite (ltb_funits b a Hb Ha) in H. apply Z.ltb_lt in H.
    apply atMost_units; try assumption. lia.
  - intros a b Ha Hb H.
    change (PrimFloat.ltb b a = false) in H.
    apply in_range_tame, tame_moderate in Ha, Hb.
    rewrite (ltb_funits b a Hb Ha) in H. apply Z.ltb_ge in H.
    apply atMost_units; assumption.
  - intros x y Hx Hy H. rewrite (comesAfter_float x y Hx Hy) in H.
    apply in_range_tame, tame_moderate in Hx, Hy.
    rewrite (ltb_funits _ _ Hx Hy) in H. apply Z.ltb_lt in H.
    apply atMost_units; try assumption. lia.
  - intros x y Hx Hy H. rewrite (comesAfter_float x y Hx Hy) in H.
    apply in_range_tame, tame_moderate in Hx, Hy.
    rewrite (ltb_funits _ _ Hx Hy) in H. apply Z.ltb_ge in H.
    apply atMost_units; assumption.
  - intros s Hs. now apply (all_in_range posts).
Qed.

End Binary64Arithmetic.


Import Examples.

(** *** Confidence range (C3) *)

(** C3, as the specification states it, fails on the mention-only branch,
    both on binary64 numbers and in exact arithmetic: the bare mention of
    [$PEPE] in a post voted 0 up and 8 down is returned with confidence
    0.7 * 0.14 = 0.098 < 0.1; and with equal (zero) votes the known token
    PEPE, mentioned only, gets 0.21 while the unknown token FOO of a buy
    intent gets 0.3.  It also fails where the votes are no numbers to
    subtract: when both counts are beyond the range of binary64 their
    difference is NaN, and so is the confidence of every signal of the
    post. *)
Lemma mention_only_breaks_confidence_range :
  (exists s : TradingSignal float,
      In s (parseSignalsFromFeed [downvotedMention]) /\
      PrimFloat.ltb (confidence s) (Binary64.ofDecimal 0.1%Q) = true) /\
  (exists s : TradingSignal Q,
      In s (parseSignalsFromFeed [downvotedMention]) /\
      (confidence s < 0.1)%Q) /\
  (post_upvotes plainMention = post_upvotes unknownBuy /\
   post_downvotes plainMention = post_downvotes unknownBuy /\
   exists known unknown : TradingSignal Q,
      In known (parseSignalsFromFeed [plainMention; unknownBuy]) /\
      In unknown (parseSignalsFromFeed [plainMention; unknownBuy]) /\
      has KNOWN_TOKENS (token known) = true /\
      has KNOWN_TOKENS (token unknown) = false /\
      (confidence known < confidence unknown)%Q) /\
  (exists known unknown : TradingSignal float,
      In known (parseSignalsFromFeed [plainMention; unknownBuy]) /\
      In unknown (parseSignalsFromFeed [plainMention; unknownBuy]) /\
      has KNOWN_TOKENS (token known) = true /\
      has KNOWN_TOKENS (token unknown) = false /\
      PrimFloat.ltb (confidence known) (confidence unknown) = true) /\
  (PrimFloat.is_nan (netVotes overflowingPepe) = true /\
   exists s : TradingSignal float,
      In s (parseSignalsFromFeed [overflowingPepe]) /\
      PrimFloat.is_nan (confidence s) = true /\
      PrimFloat.leb (Binary64.ofDecimal 0.1%Q) (confidence s) = false /\
      PrimFloat.leb (confidence s) (Binary64.ofDecimal 0.95%Q) = false).
Proof.
  split; [|split; [|split; [|split]]].
  - eexists. split; [vm_compute; left; reflexivity|]. vm_compute. reflexivity.
  - eexists. split; [vm_compute; left; reflexivity|]. vm_compute. reflexivity.
  - split; [reflexivity|]. split; [reflexivity|].
    eexists. eexists. split; [vm_compute; right; left; reflexivity|].
    split; [vm_compute; left; reflexivity|].
    split; [reflexivity|]. split; [reflexivity|]. vm_compute. reflexivity.
  - eexists. eexists. split; [vm_compute; right; left; reflexivity|].
    split; [vm_compute; left; reflexivity|].
    split; [reflexivity|]. split; [reflexivity|]. vm_compute. reflexivity.
  - split; [vm_compute; reflexivity|].
    eexists. split; [vm_compute; left; reflexivity|].
    repeat split; vm_compute; reflexivity.
Qed.

(** C3, amended, on the binary64 numbers of the program.  For a post whose
    vote difference is a number: a signal pushed by an intent pattern has
    confidence in [0.1, 0.95]; a signal pushed by the mention loop has
    confidence base * 0.7, which lies between 0.1 * 0.7 and 0.9 * 0.7 as the
    program rounds them, that is between the double just below 0.07 and
    0.63, and so can be below 0.1.  Every signal that the scan of such a
    post, or of a feed of such posts, returns has confidence between
    0.1 * 0.7 and 0.95.  For such posts with
    equal votes, an intent signal for a known token has at least the
    confidence of an intent signal for an unknown token; a mention-only
    signal of a known token can have less. *)
Theorem confidence_range :
  (forall (post : Post) (s : TradingSignal float),
      counted post -> In s (intentPhase post) ->
      inRange (lit 0.1%Q) (lit 0.95%Q) (confidence s)) /\
  (forall (post : Post) (s : TradingSignal float),
      counted post -> mentionOnly post (intentPhase post) s ->
      confidence s = mul (baseConfidence post) (lit 0.7%Q) /\
      inRange lowest highestMention (confidence s)) /\
  (lowest = PrimFloat.next_down (lit 0.07%Q) /\
   highestMention = lit 0.63%Q /\
   PrimFloat.ltb lowest (lit 0.1%Q) = true) /\
  (forall (post : Post) (s : TradingSignal float),
      counted post -> In s (parseSignalsFromPost post) ->
      inRange lowest (lit 0.95%Q) (confidence s)) /\
  (forall (posts : list Post) (s : TradingSignal float),
      (forall post, In post posts -> counted post) ->
      In s (parseSignalsFromFeed posts) ->
      inRange lowest (lit 0.95%Q) (confidence s)) /\
  (forall (p1 p2 : Post) (s1 s2 : TradingSignal float),
      counted p1 ->
      post_upvotes p1 = post_upvotes p2 ->
      match post_downvotes p1 with Some d => d | None => 0%Z end
      = match post_downvotes p2 with Some d => d | None => 0%Z end ->
      In s1 (intentPhase p1) -> In s2 (intentPhase p2) ->
      has KNOWN_TOKENS (token s1) = true ->
      has KNOWN_TOKENS (token s2) = false ->
      atMost (confidence s2) (confidence s1)) /\
  (exists (p1 p2 : Post) (known unknown : TradingSignal float),
      counted p1 /\ counted p2 /\
      post_upvotes p1 = post_upvotes p2 /\
      post_downvotes p1 = post_downvotes p2 /\
      mentionOnly p1 (intentPhase p1) known /\
      In unknown (intentPhase p2) /\
      has KNOWN_TOKENS (token unknown) = false /\
      PrimFloat.ltb (confidence known) (confidence unknown) = true).
Proof.
  split; [|split; [|split; [|split; [|split; [|split]]]]].
  - intros post s Hn H. rewrite (intentPhase_confidence _ _ H).
    now apply intent_in_range.
  - intros post s Hn (_ & _ & Hc & _). split; [exact Hc|].
    rewrite Hc. now apply mention_in_range.
  - repeat split; vm_compute; reflexivity.
  - intros post s Hn H. now apply (parsed_in_range post).
  - intros posts s Hn H. apply (all_in_range posts); [exact Hn|].
    destruct (feed_any (N:=float) posts) as [_ Hfrom].
    destruct (Hfrom s H) as (post & Hp & Hs).
    unfold allSignals. apply in_flat_map. now exists post.
  - intros p1 p2 s1 s2 Hn Hu Hd H1 H2 Hk1 Hk2.
    rewrite (intentPhase_confidence _ _ H1), (intentPhase_confidence _ _ H2).
    unfold intentConfidence. rewrite Hk1, Hk2.
    assert (baseConfidence (N:=float) p2 = baseConfidence p1) as ->.
    { unfold baseConfidence, netVotes. now rewrite Hu, Hd. }
    now apply known_not_below_unknown.
  - exists plainMention, unknownBuy.
    exists (mentionSignal plainMention "PEPE").
    eexists. split; [reflexivity|]. split; [reflexivity|].
    split; [reflexivity|]. split; [reflexivity|].
    split; [|split; [vm_compute; left; reflexivity|]].
    + split; [reflexivity|]. split; [reflexivity|]. split; [reflexivity|].
      intros s [].
    + split; [reflexivity|]. vm_compute. reflexivity.
Qed.

Lemma confidence_range_witness :
  (exists s : TradingSignal float,
      In s (parseSignalsFromFeed [downvotedMention]) /\
      inRange lowest (lit 0.95%Q) (confidence s)) /\
  (exists s1 s2 : TradingSignal float,
      In s1 (intentPhase (post "p7" "buy ETH" 0 None)) /\
      In s2 (intentPhase unknownBuy) /\
      atMost (confidence s2) (confidence s1)).
Proof.
  destruct confidence_range as (_ & _ & _ & _ & Hfeed & Hknown & _). split.
  - eexists. split; [vm_compute; left; reflexivity|].
    apply (Hfeed [downvotedMention]).
    + intros p [<-|[]]. reflexivity.
    + vm_compute. left. reflexivity.
  - eexists. eexists. split; [vm_compute; left; reflexivity|].
    split; [vm_compute; left; reflexivity|].
    apply (Hknown (post "p7" "buy ETH" 0 None) unknownBuy).
    + reflexivity.
    + reflexivity.
    + reflexivity.
    + vm_compute. left. reflexivity.
    + vm_compute. left. reflexivity.
    + reflexivity.
    + reflexivity.
Defined.

(** *** Confidence of an intent-pattern signal (C4) *)

(** C4, as stated, fails in its example: on the program's binary64 numbers
    the post of the example scenario yields its Buy PEPE signal with a
    confidence that is not the number 0.86 (it is the double just below). *)
Lemma pepe_confidence_is_not_exactly_0_86 :
  exists s : TradingSignal float,
    parseSignalsFromPost pepePost = [s] /\
    action s = buy /\ token s = "PEPE" /\
    PrimFloat.eqb (confidence s) (Binary64.ofDecimal 0.86%Q) = false.
Proof.
  eexists. split; [vm_compute; reflexivity|].
  repeat split; vm_compute; reflexivity.
Qed.

(** C4, amended.  Whatever the arithmetic, a signal pushed by an intent
    pattern has confidence min(0.95, c) where c is the base confidence
    min(0.9, max(0.1, 0.3 + (upvotes - downvotes)/50)) plus 0.2 when the
    cleaned token is a known token, and the base confidence itself otherwise;
    in exact arithmetic this is min(0.95, clamp(0.3 + net/50, 0.1, 0.9) + b).
    The example post yields exactly one signal, Buy PEPE: on binary64 numbers
    its confidence is the double just below 0.86 (0.8599999999999999), in
    exact arithmetic it is 0.86. *)
Theorem intent_confidence :
  (forall (N : Type) (num : Number N) (post : Post) (s : TradingSignal N),
      In s (intentPhase post) ->
      let down := match post_downvotes post with Some d => d | None => 0%Z end in
      let base :=
        nmin (lit 0.9%Q)
             (nmax (lit 0.1%Q)
                   (add (lit 0.3%Q)
                        (div (sub (ofInt (post_upvotes post)) (ofInt down))
                             (ofInt 50)))) in
      confidence s =
      nmin (lit 0.95%Q)
           (if has KNOWN_TOKENS (token s) then add base (lit 0.2%Q) else base)) /\
  (forall (post : Post) (s : TradingSignal Q),
      In s (intentPhase post) ->
      let down := match post_downvotes post with Some d => d | None => 0%Z end in
      let net := (inject_Z (post_upvotes post) - inject_Z down)%Q in
      let b := if has KNOWN_TOKENS (token s) then 0.2%Q else 0%Q in
      (confidence s == Qmin 0.95 (Qmin 0.9 (Qmax 0.1 (0.3 + net / 50)) + b))%Q) /\
  parseSignalsFromPost pepePost =
    [signal buy "PEPE" (PrimFloat.next_down (Binary64.ofDecimal 0.86%Q)) pepePost] /\
  (exists s : TradingSignal Q,
      parseSignalsFromPost pepePost = [s] /\
      action s = buy /\ token s = "PEPE" /\ (confidence s == 0.86)%Q).
Proof.
  split; [|split; [|split]].
  - intros N num post s H. apply (intentPhase_confidence _ _ H).
  - intros post s H. rewrite (intentPhase_confidence _ _ H).
    unfold intentConfidence. rewrite base_exact.
    destruct (has KNOWN_TOKENS (token s)); simpl; [reflexivity|].
    match goal with |- (Qmin _ ?x == Qmin _ (?y + 0))%Q =>
      destruct (Q.min_spec 0.95 x) as [[H1 E1]|[H1 E1]];
      destruct (Q.min_spec 0.95 (y + 0)) as [[H2 E2]|[H2 E2]];
      rewrite E1, E2
    end; unfold inject_Z in *; lra.
  - vm_compute. reflexivity.
  - eexists. split; [vm_compute; reflexivity|].
    repeat split; vm_compute; reflexivity.
Qed.

Lemma intent_confidence_witness :
  exists s : TradingSignal float,
    In s (intentPhase pepePost) /\
    confidence s =
    Binary64.mathMin (Binary64.ofDecimal 0.95%Q)
      (PrimFloat.add
         (Binary64.mathMin (Binary64.ofDecimal 0.9%Q)
            (Binary64.mathMax (Binary64.ofDecimal 0.1%Q)
               (PrimFloat.add (Binary64.ofDecimal 0.3%Q)
                  (PrimFloat.div (PrimFloat.sub (Binary64.ofZ 20) (Binary64.ofZ 2))
                                 (Binary64.ofZ 50)))))
         (Binary64.ofDecimal 0.2%Q)).
Proof.
  eexists. split; [vm_compute; left; reflexivity|].
  apply (proj1 intent_confidence float Binary64.number pepePost).
  vm_compute. left. reflexivity.
Defined.

(** *** Deduplication and order (C5) *)

(** C5, as stated for every batch, fails where a vote difference is no
    number: of two posts with the intent [buy PEPE], the first with both
    vote counts beyond the range of binary64 and the second voted up a
    hundred times, the scan keeps the signal of the first, whose confidence
    is NaN, and drops that of the second, whose confidence is 0.95: no
    number is greater than NaN. *)
Lemma nan_confidence_displaces_a_number :
  exists kept dropped : TradingSignal float,
    parseSignalsFromFeed [overflowingPepe; strongPepe] = [kept] /\
    In dropped (allSignals [overflowingPepe; strongPepe]) /\
    actionToken dropped = actionToken kept /\
    PrimFloat.is_nan (confidence kept) = true /\
    confidence dropped = lit 0.95%Q /\
    PrimFloat.leb (confidence dropped) (confidence kept) = false.
Proof.
  eexists. eexists. split; [vm_compute; reflexivity|].
  split; [vm_compute; right; left; reflexivity|].
  repeat split; vm_compute; reflexivity.
Qed.

(** C5, amended.  The key [action-token] of the source identifies the
    (action, token) pair.  Whatever the arithmetic, neither a post nor a scan
    returns two signals with the same (action, token) pair, a post keeps,
    for every key, the first signal collected with that key, and a scan
    leaves no key out.  On the binary64 numbers of the program, when the
    vote difference of every post of the batch is a number, a scan keeps for
    every key a signal of highest confidence among those the posts
    returned, and returns the signals in descending order of confidence. *)
Theorem feed_deduplicated_best_sorted :
  (forall (N : Type) (num : Number N) (a b : TradingSignal N),
      keyOf a = keyOf b <-> actionToken a = actionToken b) /\
  (forall (N : Type) (num : Number N) (post : Post),
      NoDup (map actionToken (parseSignalsFromPost (N:=N) post)) /\
      (forall s : TradingSignal N, In s (parseSignalsFromPost post) ->
         firstWithKey (keyOf s) (collected post) = Some s) /\
      (forall r : TradingSignal N, In r (collected post) ->
         exists s, In s (parseSignalsFromPost post) /\
                   actionToken s = actionToken r)) /\
  (forall (N : Type) (num : Number N) (posts : list Post),
      NoDup (map actionToken (parseSignalsFromFeed (N:=N) posts)) /\
      (forall s : TradingSignal N, In s (parseSignalsFromFeed posts) ->
         In s (allSignals posts)) /\
      (forall r : TradingSignal N, In r (allSignals posts) ->
         exists s : TradingSignal N,
           In s (parseSignalsFromFeed posts) /\
           actionToken s = actionToken r)) /\
  (forall posts : list Post,
      (forall post, In post posts -> counted post) ->
      (forall s : TradingSignal float, In s (parseSignalsFromFeed posts) ->
         In s (allSignals posts) /\
         forall s' : TradingSignal float,
           In s' (allSignals posts) -> actionToken s' = actionToken s ->
           atMost (confidence s') (confidence s)) /\
      StronglySorted (fun a b : TradingSignal float =>
                        atMost (confidence b) (confidence a))
                     (parseSignalsFromFeed posts)).
Proof.
  assert (forall (N : Type) (num : Number N) (a b : TradingSignal N),
             actionToken a = actionToken b <-> keyOf a = keyOf b) as Hkey.
  { intros N num a b. rewrite keyOf_inj. unfold actionToken. split.
    - intros [= -> ->]. now split.
    - intros [-> ->]. reflexivity. }
  split; [|split; [|split]].
  - intros N num a b. split; intros H; now apply (Hkey N num a b).
  - intros N num post. split; [|split].
    + apply NoDup_keys_pairs, dedupe_NoDup.
    + intros s. apply dedupe_first.
    + intros r Hr.
      destruct (dedupe_covers (collected post) [] r Hr) as (s & Hs & Hk);
        [simpl; tauto|].
      exists s. split; [exact Hs|]. apply (proj2 (Hkey _ _ _ _)), Hk.
  - intros N num posts.
    destruct (feed_spec (N:=N) (fun _ _ => True) (fun _ => True))
      with (posts := posts) as (Hnd & Hin & Hcov & _); auto.
    split; [now apply NoDup_keys_pairs|]. split.
    + intros s Hs. apply (Hin s Hs).
    + intros r Hr. destruct (Hcov r Hr) as (s & Hs & Hk).
      exists s. split; [exact Hs|]. apply (proj2 (Hkey _ _ _ _)), Hk.
  - intros posts Hn.
    destruct (feed_float posts Hn) as (_ & Hbest & _ & Hsorted).
    split; [|exact Hsorted].
    intros s Hs. destruct (Hbest s Hs) as [Hin Hmax].
    split; [exact Hin|]. intros s' Hs' Hk. apply Hmax; [exact Hs'|].
    apply (proj1 (Hkey _ _ _ _)), Hk.
Qed.

Lemma feed_deduplicated_best_sorted_witness :
  exists best weaker : TradingSignal float,
    In best (parseSignalsFromFeed [weakPepe; dumpPepe; pepePost]) /\
    In weaker (allSignals [weakPepe; dumpPepe; pepePost]) /\
    actionToken weaker = actionToken best /\
    atMost (confidence weaker) (confidence best).
Proof.
  destruct feed_deduplicated_best_sorted as (_ & _ & _ & Hfeed).
  destruct (Hfeed [weakPepe; dumpPepe; pepePost]) as (Hbest & _).
  { intros p [<-|[<-|[<-|[]]]]; reflexivity. }
  eexists. eexists.
  split; [vm_compute; left; reflexivity|].
  split; [vm_compute; left; reflexivity|].
  split; [reflexivity|].
  eapply Hbest.
  - vm_compute. left. reflexivity.
  - vm_compute. left. reflexivity.
  - reflexivity.
Defined.

(** *** The mention-only branch (C10) *)

(** C10.  Whatever the arithmetic, the signals of a post before the final
    filter are those of the intent patterns followed by those of the mention
    loop, and a signal of the mention loop is a buy signal for a known token
    that is the token of no intent-pattern signal of the post, whatever that
    signal's action.  So a sell intent for a token suppresses the mention-only
    buy signal for it: [time to dump $PEPE] yields the sell signal alone. *)
Theorem mention_only_needs_unseen_token :
  (forall (N : Type) (num : Number N) (post : Post),
      exists mentions : list (TradingSignal N),
        collected post = intentPhase post ++ mentions /\
        forall m : TradingSignal N, In m mentions ->
          action m = buy /\
          has KNOWN_TOKENS (token m) = true /\
          forall s : TradingSignal N,
            In s (intentPhase post) -> token s <> token m) /\
  (exists s : TradingSignal float,
      parseSignalsFromPost dumpPepe = [s] /\
      action s = sell /\ token s = "PEPE").
Proof.
  split.
  - intros N num post.
    destruct (collected_split (N:=N) post) as (mentions & Heq & Hall).
    exists mentions. split; [exact Heq|].
    intros m Hm. rewrite Forall_forall in Hall.
    destruct (Hall m Hm) as (Ha & Hk & _ & Hfresh). auto.
  - eexists. split; [vm_compute; reflexivity|]. split; reflexivity.
Qed.

Lemma mention_only_needs_unseen_token_witness :
  exists mentions : list (TradingSignal float),
    collected (post "p8" "sell $ETH, watching $BTC" 0 None)
    = intentPhase (post "p8" "sell $ETH, watching $BTC" 0 None) ++ mentions /\
    forall m : TradingSignal float, In m mentions ->
      token m <> "ETH".
Proof.
  destruct (proj1 mention_only_needs_unseen_token float Binary64.number
              (post "p8" "sell $ETH, watching $BTC" 0 None))
    as (mentions & Heq & Hall).
  exists mentions. split; [exact Heq|].
  intros m Hm Htok. destruct (Hall m Hm) as (_ & _ & Hfresh).
  rewrite Htok in Hfresh.
  eapply Hfresh; [vm_compute; left; reflexivity|reflexivity].
Defined.

End SignalFacts.

(** ** Runs of programs *)

Module RunFacts.
Import Js Eff.

Lemma run_bind {R S : Type} (w : World) (p : Prog R) (f : R -> Prog S) :
  forall s : state w,
    run w (bind p f) s =
    let '(r, t1, s1) := run w p s in
    let '(r', t2, s2) := run w (f r) s1 in
    (r', t1 ++ t2, s2).
Proof.
  induction p as [r|A e k IH]; intros s; simpl.
  - destruct (run w (f r) s) as [[r' t2] s2]. reflexivity.
  - destruct (answer w A e s) as [a s1]. rewrite IH.
    destruct (run w (k a) s1) as [[r t1] s1'].
    destruct (run w (f r) s1') as [[r' t2] s2]. reflexivity.
Qed.

Lemma orElse_present (k d : string) :
  present (Some k) = true -> orElse (Some k) d = k.
Proof.
  unfold present, orElse. now destruct (Nat.eqb (String.length k) 0).
Qed.

(** Case analysis along a run: on what the world answers, then on what the
    program tests. *)
Ltac step :=
  match goal with
  | |- context [answer ?w ?A ?e ?s] =>
      let a := fresh "a" in
      let s' := fresh "s" in
      destruct (answer w A e s) as [a s']; simpl
  | |- context [match ?x with _ => _ end] =>
      lazymatch x with
      | context [run] => fail
      | context [answer] => fail
      | _ => destruct x; simpl
      end
  end.

(** The same, keeping what was learnt at each test. *)
Ltac stepE :=
  match goal with
  | |- context [answer ?w ?A ?e ?s] =>
      let a := fresh "a" in
      let s' := fresh "s" in
      destruct (answer w A e s) as [a s']; simpl
  | |- context [match ?x with _ => _ end] =>
      lazymatch x with
      | context [run] => fail
      | context [answer] => fail
      | _ => destruct x eqn:?; simpl
      end
  end.

Ltac boolFacts :=
  repeat match goal with
         | H : _ && _ = true |- _ => apply andb_true_iff in H; destruct H
         | H : negb _ = false |- _ => apply negb_false_iff in H
         | H : negb _ = true |- _ => apply negb_true_iff in H
         end.

Lemma run_bindM {A B : Type} (w : World) (m : M A) (f : A -> M B)
    (s : state w) :
  run w (bindM m f) s =
  let '(r, t1, s1) := run w m s in
  match r with
  | inl msg => (inl msg, t1, s1)
  | inr a => let '(r', t2, s2) := run w (f a) s1 in (r', t1 ++ t2, s2)
  end.
Proof.
  unfold bindM. rewrite run_bind.
  destruct (run w m s) as [[[msg|a] t1] s1]; simpl.
  - now rewrite app_nil_r.
  - reflexivity.
Qed.

End RunFacts.

(** ** The fallback chain of [getSwapQuote] (C1) *)

Module RouterFacts.
Import Js Eff BuyApi Observe TradeProps RunFacts.

Lemma tryKyberswap_attempt (w : World) (s : state w) (b a t : string) :
  attemptOf Kyberswap (forget (run w (tryKyberswap b a t) s)).
Proof.
  unfold attemptOf, forget, tryKyberswap, guarded, tryCatch, bindM, await,
    lift, ret. simpl.
  repeat step; repeat split; try discriminate; repeat constructor.
Qed.

Lemma tryOdos_attempt (w : World) (s : state w) (b a t : string) :
  attemptOf Odos (forget (run w (tryOdos b a t) s)).
Proof.
  unfold attemptOf, forget, tryOdos, guarded, tryCatch, bindM, await,
    lift, ret. simpl.
  repeat step; repeat split; try discriminate; repeat constructor.
Qed.

Lemma tryParaSwap_attempt (w : World) (s : state w) (b a t : string) :
  attemptOf ParaSwap (forget (run w (tryParaSwap b a t) s)).
Proof.
  unfold attemptOf, forget, tryParaSwap, guarded, tryCatch, bindM, await,
    lift, ret. simpl.
  repeat step; repeat split; try discriminate; repeat constructor.
Qed.

Lemma tryOneInch_attempt (w : World) (s : state w) (b a t key : string) :
  attemptOf OneInch (forget (run w (tryOneInch b a t key) s)).
Proof.
  unfold attemptOf, forget, tryOneInch, guarded, tryCatch, bindM, await,
    lift, ret. simpl.
  repeat step; repeat split; try discriminate; repeat constructor.
Qed.

Ltac built witnesses :=
  let q := fresh "q" in
  intros q [= <-]; boolFacts;
  try match goal with
      | H : truthy None = true |- _ => discriminate H
      | H : false = true |- _ => discriminate H
      end;
  witnesses; repeat split;
  first [ reflexivity
        | eassumption
        | match goal with
          | H : ?x = _ |- context [?x] => rewrite H; eassumption
          end ].

Lemma tryKyberswap_built (w : World) (s : state w) (b a t : string) :
  let '(r, calls, _) := run w (tryKyberswap b a t) s in
  forall q, r = Some q -> builtFrom Kyberswap a calls q.
Proof.
  unfold builtFrom, tryKyberswap, guarded, tryCatch, bindM, await, lift, ret.
  simpl.
  repeat stepE; try (intros q [=]; fail); built ltac:(do 8 eexists).
Qed.

Lemma tryOdos_built (w : World) (s : state w) (b a t : string) :
  let '(r, calls, _) := run w (tryOdos b a t) s in
  forall q, r = Some q -> builtFrom Odos a calls q.
Proof.
  unfold builtFrom, tryOdos, guarded, tryCatch, bindM, await, lift, ret.
  simpl.
  repeat stepE; try (intros q [=]; fail); built ltac:(do 8 eexists).
Qed.

Lemma tryParaSwap_built (w : World) (s : state w) (b a t : string) :
  let '(r, calls, _) := run w (tryParaSwap b a t) s in
  forall q, r = Some q -> builtFrom ParaSwap a calls q.
Proof.
  unfold builtFrom, tryParaSwap, guarded, tryCatch, bindM, await, lift, ret.
  simpl.
  repeat stepE; try (intros q [=]; fail); built ltac:(do 8 eexists).
Qed.

Lemma tryOneInch_built (w : World) (s : state w) (b a t key : string) :
  let '(r, calls, _) := run w (tryOneInch b a t key) s in
  forall q, r = Some q -> builtFrom OneInch a calls q.
Proof.
  unfold builtFrom, tryOneInch, guarded, tryCatch, bindM, await, lift, ret.
  simpl.
  repeat stepE; try (intros q [=]; fail); built ltac:(do 4 eexists).
Qed.

Lemma run_orNext (w : World) (attempt rest : Prog (option Quote))
    (s : state w) :
  run w (orNext attempt rest) s =
  let '(r, t, s1) := run w attempt s in
  match r with
  | Some q => (Some q, t, s1)
  | None => let '(r2, t2, s2) := run w rest s1 in (r2, t ++ t2, s2)
  end.
Proof.
  unfold orNext. rewrite run_bind.
  destruct (run w attempt s) as [[[q|] t] s1]; simpl.
  - now rewrite app_nil_r.
  - reflexivity.
Qed.

(** What C1 says of the order holds.  The calls of [getSwapQuote] fall into
    four consecutive segments: those to Kyberswap, then those to Odos, then
    those to ParaSwap, then those to 1inch.  When a quote is returned it
    carries the tag of a provider [p] and is built from what [p] answered in
    its segment; every provider up to [p] in the chain was called and none
    after it (so the first provider to yield a quote ends the search and
    nothing is compared); when none is returned all four were called.  In
    particular a ParaSwap quote is returned only after calls to Kyberswap and
    to Odos, and without any call to 1inch. *)
Theorem getSwapQuote_priority_order
    (w : World) (s : state w) (buyToken sellAmount takerAddress apiKey : string) :
  let quote := result w (getSwapQuote buyToken sellAmount takerAddress apiKey) s in
  let calls := trace w (getSwapQuote buyToken sellAmount takerAddress apiKey) s in
  exists seg : Provider -> list Event,
    calls = seg Kyberswap ++ seg Odos ++ seg ParaSwap ++ seg OneInch /\
    (forall p, Forall (fun ev => callsTo p ev = true) (seg p)) /\
    match quote with
    | Some q =>
        exists p, type q = tag p /\
          builtFrom p sellAmount (seg p) q /\
          forall p', (rank p' <= rank p -> seg p' <> []) /\
                     (rank p < rank p' -> seg p' = [])
    | None => forall p', seg p' <> []
    end /\
    (forall q, quote = Some q -> type q = tag ParaSwap ->
       seg Kyberswap <> [] /\ seg Odos <> [] /\ seg ParaSwap <> [] /\
       seg OneInch = []).
Proof.
  unfold result, trace, getSwapQuote. cbv zeta.
  rewrite run_orNext.
  pose proof (tryKyberswap_attempt w s buyToken sellAmount takerAddress) as Hk.
  pose proof (tryKyberswap_built w s buyToken sellAmount takerAddress) as Bk.
  destruct (run w (tryKyberswap buyToken sellAmount takerAddress) s)
    as [[r1 t1] s1].
  destruct Hk as (Hk1 & Hk2 & Hk3). simpl in Hk1, Hk2, Hk3.
  destruct r1 as [q1|].
  { exists (fun p => match p with Kyberswap => t1 | _ => [] end). simpl.
    split; [now rewrite app_nil_r|]. split; [intros []; auto|]. split.
    - exists Kyberswap. split; [exact Hk3|]. split; [exact (Bk _ eq_refl)|].
      intros []; simpl; split; intros; auto; try lia; discriminate.
    - intros q [= <-] Hq. rewrite Hk3 in Hq. discriminate. }
  rewrite run_orNext.
  pose proof (tryOdos_attempt w s1 buyToken sellAmount takerAddress) as Ho.
  pose proof (tryOdos_built w s1 buyToken sellAmount takerAddress) as Bo.
  destruct (run w (tryOdos buyToken sellAmount takerAddress) s1)
    as [[r2 t2] s2].
  destruct Ho as (Ho1 & Ho2 & Ho3). simpl in Ho1, Ho2, Ho3.
  destruct r2 as [q2|].
  { exists (fun p => match p with Kyberswap => t1 | Odos => t2 | _ => [] end).
    simpl. split; [now rewrite app_nil_r|]. split; [intros []; auto|]. split.
    - exists Odos. split; [exact Ho3|]. split; [exact (Bo _ eq_refl)|].
      intros []; simpl; split; intros; auto; try lia; discriminate.
    - intros q [= <-] Hq. rewrite Ho3 in Hq. discriminate. }
  rewrite run_orNext.
  pose proof (tryParaSwap_attempt w s2 buyToken sellAmount takerAddress) as Hp.
  pose proof (tryParaSwap_built w s2 buyToken sellAmount takerAddress) as Bp.
  destruct (run w (tryParaSwap buyToken sellAmount takerAddress) s2)
    as [[r3 t3] s3].
  destruct Hp as (Hp1 & Hp2 & Hp3). simpl in Hp1, Hp2, Hp3.
  destruct r3 as [q3|].
  { exists (fun p => match p with
                     | Kyberswap => t1 | Odos => t2 | ParaSwap => t3 | _ => []
                     end).
    simpl. split; [now rewrite app_nil_r|]. split; [intros []; auto|]. split.
    - exists ParaSwap. split; [exact Hp3|]. split; [exact (Bp _ eq_refl)|].
      intros []; simpl; split; intros; auto; try lia; discriminate.
    - intros q _ _. auto. }
  rewrite run_orNext.
  pose proof (tryOneInch_attempt w s3 buyToken sellAmount takerAddress apiKey)
    as Hi.
  pose proof (tryOneInch_built w s3 buyToken sellAmount takerAddress apiKey)
    as Bi.
  destruct (run w (tryOneInch buyToken sellAmount takerAddress apiKey) s3)
    as [[r4 t4] s4].
  destruct Hi as (Hi1 & Hi2 & Hi3). simpl in Hi1, Hi2, Hi3.
  exists (fun p => match p with
                   | Kyberswap => t1 | Odos => t2 | ParaSwap => t3 | OneInch => t4
                   end).
  destruct r4 as [q4|]; simpl.
  - split; [reflexivity|]. split; [intros []; auto|]. split.
    + exists OneInch. split; [exact Hi3|]. split; [exact (Bi _ eq_refl)|].
      intros []; simpl; split; intros; auto; lia.
    + intros q [= <-] Hq. rewrite Hi3 in Hq. discriminate.
  - split; [now rewrite app_nil_r|]. split; [intros []; auto|]. split.
    + intros []; auto.
    + intros q [=].
Qed.

Lemma getSwapQuote_priority_order_witness :
  exists seg : Provider -> list Event,
    trace onlyParaSwap
      (getSwapQuote "0x4ed4E862860beD51a9570b96d89aF5E1B0Efefed"
                    "10000000000000000" "0xA11CE" EmptyString) tt
    = seg Kyberswap ++ seg Odos ++ seg ParaSwap ++ seg OneInch /\
    seg Kyberswap <> [] /\ seg Odos <> [] /\ seg ParaSwap <> [] /\
    seg OneInch = [].
Proof.
  destruct (getSwapQuote_priority_order onlyParaSwap tt
              "0x4ed4E862860beD51a9570b96d89aF5E1B0Efefed"
              "10000000000000000" "0xA11CE" EmptyString)
    as (seg & Heq & _ & _ & Hpara).
  exists seg. split; [exact Heq|].
  eapply Hpara; [vm_compute; reflexivity|reflexivity].
Defined.

(** The run behind the witness: Kyberswap's route endpoint, Odos's quote
    endpoint, then the two ParaSwap endpoints, and a ParaSwap quote. *)
Example only_tertiary_succeeds :
  let p := getSwapQuote "0x4ed4E862860beD51a9570b96d89aF5E1B0Efefed"
                        "10000000000000000" "0xA11CE" EmptyString in
  map (fun ev => match ev with
                 | Called (Fetch rq) _ => url rq
                 | _ => EmptyString
                 end) (trace onlyParaSwap p tt)
  = [ "https://aggregator-api.kyberswap.com/base/api/v1/routes?tokenIn=0xEeeeeEeeeEeEeeEeEeEeeEEEeeeeEeeeeeeeEEeE&tokenOut=0x4ed4E862860beD51a9570b96d89aF5E1B0Efefed&amountIn=10000000000000000&saveGas=true";
      "https://api.odos.xyz/sor/quote/v2";
      "https://apiv5.paraswap.io/prices?srcToken=0xEeeeeEeeeEeEeeEeEeEeeEEEeeeeEeeeeeeeEEeE&destToken=0x4ed4E862860beD51a9570b96d89aF5E1B0Efefed&amount=10000000000000000&network=8453&side=SELL";
      "https://apiv5.paraswap.io/transactions/8453" ] /\
  option_map type (result onlyParaSwap p tt) = Some "paraswap".
Proof. split; vm_compute; reflexivity. Qed.


End RouterFacts.

(** ** Selling: approval before swap, amount received, empty sells (C7, C8) *)

Module SellFacts.
Import Js Eff Observe TradeProps RunFacts.

Lemma received_max (before after : Z) :
  Kyber.received before after = Z.max 0 (after - before).
Proof. unfold Kyber.received. destruct (Z.gtb_spec (after - before) 0); lia. Qed.

Lemma service_error_fails (msg : string) :
  isSuccess (TradeService.sellError msg) = false.
Proof.
  unfold TradeService.sellError.
  repeat match goal with
         | |- context [if ?c then _ else _] => destruct c
         end; reflexivity.
Qed.

Lemma api_error_fails (msg : string) :
  isSuccess (payload (SellApi.sellError msg)) = false.
Proof.
  unfold SellApi.sellError.
  repeat match goal with
         | |- context [if ?c then _ else _] => destruct c
         end; reflexivity.
Qed.

Ltac sellFacts :=
  boolFacts;
  repeat match goal with
         | H : (_ =? _)%Z = false |- _ => apply Z.eqb_neq in H
         end.

Ltac leaf fails :=
  first
    [ apply fails
    | reflexivity
    | do 16 eexists; sellFacts;
      split; [reflexivity|];
      split; [repeat constructor|];
      split; [simpl; lia|];
      repeat (split; [first [reflexivity | eassumption]|]);
      split; [repeat constructor|];
      let Hs := fresh "Hs" in
      intros Hs;
      first
        [ rewrite fails in Hs; discriminate
        | discriminate
        | do 3 eexists;
          split; [reflexivity|];
          split; [reflexivity|];
          rewrite received_max; reflexivity ] ].

Lemma sellToken_approvalFirst (w : World) (s : state w) (rt : Runtime)
    (epk token amount : string) :
  approvalFirst rt token (Some amount)
    (trace w (TradeService.sellToken rt epk token amount) s)
    (result w (TradeService.sellToken rt epk token amount) s).
Proof.
  unfold approvalFirst, trace, result, TradeService.sellToken,
    Kyber.approveAndSwap, Kyber.getSwapQuote, tryCatch, bindM, await, lift,
    ret, throw.
  cbn -[Kyber.amountToSell].
  repeat (stepE; cbn -[Kyber.amountToSell]); leaf service_error_fails.
Qed.

Lemma handler_approvalFirst (w : World) (s : state w) (rt : Runtime)
    (req : SellApi.SellRequest) :
  approvalFirst rt (orElse (SellApi.tokenAddress req) EmptyString)
    (SellApi.amount req)
    (trace w (SellApi.handler rt req) s)
    (payload (result w (SellApi.handler rt req) s)).
Proof.
  unfold approvalFirst, trace, result, SellApi.handler,
    Kyber.approveAndSwap, Kyber.getSwapQuote, tryCatch, bindM, await, lift,
    ret, throw.
  cbn -[Kyber.amountToSell].
  repeat (stepE; cbn -[Kyber.amountToSell]); leaf api_error_fails.
Qed.

(** C7.  In every run of [sellToken] and of the sell handler, whatever the
    world answers: a swap transaction is sent only right after the approval
    was submitted and accepted, its receipt awaited, and the native balance
    read, in this order (see [approvalFirst]).  The approval names as spender
    the [routerAddress] of the answer Kyberswap gave to the build request of
    this sale, for the amount to sell, and the swap goes to that same address
    with the data of that answer.  It is the only transaction sent besides the
    approval; and a successful result reports as received the balance read
    after the swap's receipt minus the balance read just before the swap, or
    zero when that difference is negative. *)
Theorem sell_approves_then_swaps :
  (forall (w : World) (s : state w) (rt : Runtime)
          (encryptedPrivateKey tokenAddress amount : string),
      approvalFirst rt tokenAddress (Some amount)
        (trace w (TradeService.sellToken rt encryptedPrivateKey tokenAddress
                    amount) s)
        (result w (TradeService.sellToken rt encryptedPrivateKey tokenAddress
                     amount) s)) /\
  (forall (w : World) (s : state w) (rt : Runtime) (req : SellApi.SellRequest),
      approvalFirst rt (orElse (SellApi.tokenAddress req) EmptyString)
        (SellApi.amount req)
        (trace w (SellApi.handler rt req) s)
        (payload (result w (SellApi.handler rt req) s))).
Proof.
  split.
  - intros. apply sellToken_approvalFirst.
  - intros. apply handler_approvalFirst.
Qed.

Lemma sell_approves_then_swaps_witness :
  approvalFirst demoRuntime "0xT0KEN" (Some "all")
    (trace sellingWallet
       (TradeService.sellToken demoRuntime "0xkey" "0xT0KEN" "all") 0)
    (result sellingWallet
       (TradeService.sellToken demoRuntime "0xkey" "0xT0KEN" "all") 0) /\
  approvalFirst demoRuntime "0xT0KEN" (Some "all")
    (trace sellingWallet (SellApi.handler demoRuntime sellAll) 0)
    (payload (result sellingWallet (SellApi.handler demoRuntime sellAll) 0)).
Proof.
  split.
  - apply (proj1 sell_approves_then_swaps sellingWallet 0 demoRuntime
             "0xkey" "0xT0KEN" "all").
  - apply (proj2 sell_approves_then_swaps sellingWallet 0 demoRuntime sellAll).
Defined.

(** The runs behind the witness: 5 finney before the swap, 9 after; the
    approval and the swap both name the router of the build answer. *)
Example sell_goes_through :
  result sellingWallet
    (TradeService.sellToken demoRuntime "0xkey" "0xT0KEN" "all") 0
  = obj [ ("success", JBool true);
          ("transactionHash", JStr "0xswap");
          ("ethReceived", JStr "4000000000000000") ] /\
  map callName
    (trace sellingWallet
       (TradeService.sellToken demoRuntime "0xkey" "0xT0KEN" "all") 0)
  = [ "decimals"; "balanceOf"; "fetch"; "fetch"; "approve";
      "waitForTransactionReceipt"; "getBalance"; "sendTransaction";
      "waitForTransactionReceipt"; "getBalance" ].
Proof. split; vm_compute; reflexivity. Qed.

Example sell_handler_goes_through :
  result sellingWallet (SellApi.handler demoRuntime sellAll) 0
  = reply 200 [ ("success", JBool true);
                ("transactionHash", JStr "0xswap");
                ("ethReceived", JStr "4000000000000000") ] /\
  map callName (trace sellingWallet (SellApi.handler demoRuntime sellAll) 0)
  = [ "sql"; "decimals"; "balanceOf"; "fetch"; "fetch"; "approve";
      "waitForTransactionReceipt"; "getBalance"; "sendTransaction";
      "waitForTransactionReceipt"; "getBalance" ] /\
  (exists data a,
     nth_error (trace sellingWallet (SellApi.handler demoRuntime sellAll) 0) 5
     = Some (Called (WriteApprove "0xT0KEN" (str kyberRouter) 250) (inr "0xapprove")) /\
     nth_error (trace sellingWallet (SellApi.handler demoRuntime sellAll) 0) 8
     = Some (Called (SendTransaction (str kyberRouter) data 0) a)).
Proof.
  split; [vm_compute; reflexivity|]. split; [vm_compute; reflexivity|].
  do 2 eexists. split; vm_compute; reflexivity.
Qed.

(** *** Nothing to sell (C8) *)

(** C8, as stated, fails in its last part: an empty sell is found out only
    after the chain was asked for the token's decimals and the wallet's
    balance, two network calls (and, in the handler, after the database
    lookup). *)
Lemma empty_sell_reads_chain_first :
  result emptyWallet
    (TradeService.sellToken demoRuntime "0xkey" "0xT0KEN" "all") tt
  = TradeService.failure "No tokens to sell" /\
  trace emptyWallet
    (TradeService.sellToken demoRuntime "0xkey" "0xT0KEN" "all") tt
  = [ Called (ReadDecimals "0xT0KEN") (inr 18%Z);
      Called (ReadBalanceOf "0xT0KEN" "0xA11CE") (inr 0%Z) ] /\
  trace emptyWallet
    (TradeService.sellToken demoRuntime "0xkey" "0xT0KEN" "all") tt <> [].
Proof.
  split; [vm_compute; reflexivity|].
  split; [vm_compute; reflexivity|]. vm_compute. discriminate.
Qed.

(** C8, amended.  When the amount to sell resolves to zero, [sellToken]
    returns the failure [No tokens to sell] after exactly two calls, the reads
    of the token's decimals and of the wallet's token balance; the sell
    handler answers the same failure after the database lookup and the same
    two reads.  No quote or build request is made and no transaction is
    submitted. *)
Theorem empty_sell_fails_fast :
  (forall (w : World) (s s1 s2 : state w) (rt : Runtime)
          (encryptedPrivateKey tokenAddress amount address : string)
          (decimals currentBalance : Z),
      getAccountFromEncryptedKey rt encryptedPrivateKey = inr address ->
      answer w _ (ReadDecimals tokenAddress) s = (inr decimals, s1) ->
      answer w _ (ReadBalanceOf tokenAddress address) s1
        = (inr currentBalance, s2) ->
      Kyber.amountToSell rt (Some amount) currentBalance decimals = inr 0%Z ->
      run w (TradeService.sellToken rt encryptedPrivateKey tokenAddress amount) s
      = (TradeService.failure "No tokens to sell",
         [ Called (ReadDecimals tokenAddress) (inr decimals);
           Called (ReadBalanceOf tokenAddress address) (inr currentBalance) ],
         s2)) /\
  (forall (w : World) (s s0 s1 s2 : state w) (rt : Runtime)
          (req : SellApi.SellRequest) (tokenAddress key privateKey address : string)
          (row : AgentRow) (rows : list AgentRow) (decimals currentBalance : Z),
      SellApi.req_method req = "POST" ->
      SellApi.tokenAddress req = Some tokenAddress ->
      present (Some tokenAddress) = true ->
      answer w _ (SelectAgent (SellApi.sessionId req)) s = (inr (row :: rows), s0) ->
      encrypted_private_key row = Some key -> present (Some key) = true ->
      decryptPrivateKey rt key = inr privateKey ->
      privateKeyToAccount rt privateKey = inr address ->
      answer w _ (ReadDecimals tokenAddress) s0 = (inr decimals, s1) ->
      answer w _ (ReadBalanceOf tokenAddress address) s1
        = (inr currentBalance, s2) ->
      Kyber.amountToSell rt (SellApi.amount req) currentBalance decimals
        = inr 0%Z ->
      run w (SellApi.handler rt req) s
      = (SellApi.failure "No tokens to sell",
         [ Called (SelectAgent (SellApi.sessionId req)) (inr (row :: rows));
           Called (ReadDecimals tokenAddress) (inr decimals);
           Called (ReadBalanceOf tokenAddress address) (inr currentBalance) ],
         s2)).
Proof.
  split.
  - intros w s s1 s2 rt epk token amount address decimals balance
      Hacc Hdec Hbal Hzero.
    unfold TradeService.sellToken, tryCatch, bindM, await, lift, ret.
    rewrite Hacc. simpl. rewrite Hdec. simpl. rewrite Hbal. simpl.
    simpl in Hzero. rewrite Hzero. reflexivity.
  - intros w s s0 s1 s2 rt req token key privateKey address row rows decimals
      balance Hpost Htok Hpres Hsel Hkey Hkpres Hdecrypt Hacc Hdec Hbal Hzero.
    unfold SellApi.handler, tryCatch, bindM, await, lift, ret.
    rewrite Hpost, Htok, (orElse_present _ _ Hpres), Hpres. simpl.
    rewrite Hsel. simpl.
    rewrite Hkey, (orElse_present _ _ Hkpres), Hkpres. simpl.
    rewrite Hdecrypt. simpl. rewrite Hacc. simpl.
    rewrite Hdec. simpl. rewrite Hbal. simpl. rewrite Hzero. reflexivity.
Qed.

Lemma empty_sell_fails_fast_witness :
  run emptyWallet
    (TradeService.sellToken demoRuntime "0xkey" "0xT0KEN" "all") tt
  = (TradeService.failure "No tokens to sell",
     [ Called (ReadDecimals "0xT0KEN") (inr 18%Z);
       Called (ReadBalanceOf "0xT0KEN" "0xA11CE") (inr 0%Z) ],
     tt).
Proof.
  apply (proj1 empty_sell_fails_fast emptyWallet tt tt tt demoRuntime
           "0xkey" "0xT0KEN" "all" "0xA11CE" 18%Z 0%Z); reflexivity.
Defined.

End SellFacts.

(** ** Buying: the balance check and the devbuy fallback (C2, C6) *)

Module BuyFacts.
Import Js Eff BuyApi Observe TradeProps RunFacts.

#[local] Opaque getSwapQuote.

(** The handler of api/trade/buy.ts up to the balance check: the request is
    a POST for a token, the database has the wallet, the key decrypts, the
    balance is read and the amounts parse. *)
Section PastTheWallet.
Variables (w : World) (rt : Runtime) (apiKey : string) (req : BuyRequest).
Variables (token key privateKey address : string).
Variables (row : AgentRow) (rows : list AgentRow).
Variables (balance amountIn gasBuffer : Z) (s s1 s2 : state w).
Hypothesis Hpost : req_method req = "POST".
Hypothesis Htoken : tokenAddress req = Some token.
Hypothesis Hpresent : present (Some token) = true.
Hypothesis Hrow :
  answer w _ (SelectAgent (sessionId req)) s = (inr (row :: rows), s1).
Hypothesis Hkey : encrypted_private_key row = Some key.
Hypothesis Hkeypresent : present (Some key) = true.
Hypothesis Hdecrypt : decryptPrivateKey rt key = inr privateKey.
Hypothesis Haccount : privateKeyToAccount rt privateKey = inr address.
Hypothesis Hbalance : answer w _ (GetBalance address) s1 = (inr balance, s2).
Hypothesis Hamount : parseEther rt (orElse (amountEth req) "0.001") = inr amountIn.
Hypothesis Hbuffer : parseEther rt "0.0005" = inr gasBuffer.

Local Abbreviation walletCalls :=
  (TradeProps.walletCalls req address row rows balance).

Lemma handler_insufficient :
  (balance < amountIn + gasBuffer)%Z ->
  run w (handler rt apiKey req) s
  = (insufficientEth rt balance (amountEth req), walletCalls, s2).
Proof.
  intros Hlow. apply Z.ltb_lt in Hlow.
  pose proof Hkeypresent as Hkp. unfold present in Hkp.
  unfold handler, tryCatch, bindM, await, lift, ret.
  rewrite Hpost, Htoken, Hpresent. simpl. rewrite Hrow. simpl.
  rewrite Hkey, Hkp. simpl. rewrite Hdecrypt. simpl.
  rewrite Haccount. simpl. rewrite Hbalance. simpl.
  rewrite Hamount. simpl. rewrite Hbuffer. simpl. rewrite Hlow. reflexivity.
Qed.

Lemma handler_no_route (tq : list Event) (s3 : state w) :
  (amountIn + gasBuffer <= balance)%Z ->
  run w (getSwapQuote token (bigintToString rt amountIn) address apiKey) s2
    = (None, tq, s3) ->
  run w (handler rt apiKey req) s
  = let '(r, t, s4) := run w (devBuy rt token address amountIn) s3 in
    (match r with inl msg => buyError msg | inr resp => resp end,
     walletCalls ++ tq ++ t, s4).
Proof.
  intros Henough Hquote.
  assert ((balance <? amountIn + gasBuffer)%Z = false) as Hlow
    by (apply Z.ltb_ge; exact Henough).
  pose proof Hkeypresent as Hkp. unfold present in Hkp.
  unfold handler, tryCatch, bindM, await, lift, ret.
  rewrite Hpost, Htoken, Hpresent. simpl. rewrite Hrow. simpl.
  rewrite Hkey, Hkp. simpl. rewrite Hdecrypt. simpl.
  rewrite Haccount. simpl. rewrite Hbalance. simpl.
  rewrite Hamount. simpl. rewrite Hbuffer. simpl. rewrite Hlow.
  rewrite !run_bind, Hquote. simpl.
  destruct (run w (devBuy rt token address amountIn) s3) as [[r t] s4].
  destruct r as [msg|resp]; simpl; rewrite !app_nil_r; reflexivity.
Qed.

End PastTheWallet.

(** The handler of api/trade/buy.ts does what C2 asks: with too low a
    balance it answers 400 [Insufficient ETH ...] after the database lookup
    and the balance read alone, so no quote or build request is made and no
    transaction is submitted. *)
Lemma buy_handler_checks_balance_first
    (w : World) (rt : Runtime) (apiKey : string) (req : BuyRequest)
    (token key privateKey address : string)
    (row : AgentRow) (rows : list AgentRow)
    (balance amountIn gasBuffer : Z) (s s1 s2 : state w) :
  req_method req = "POST" ->
  tokenAddress req = Some token -> present (Some token) = true ->
  answer w _ (SelectAgent (sessionId req)) s = (inr (row :: rows), s1) ->
  encrypted_private_key row = Some key -> present (Some key) = true ->
  decryptPrivateKey rt key = inr privateKey ->
  privateKeyToAccount rt privateKey = inr address ->
  answer w _ (GetBalance address) s1 = (inr balance, s2) ->
  parseEther rt (orElse (amountEth req) "0.001") = inr amountIn ->
  parseEther rt "0.0005" = inr gasBuffer ->
  (balance < amountIn + gasBuffer)%Z ->
  result w (handler rt apiKey req) s = insufficientEth rt balance (amountEth req) /\
  Forall (fun ev => isFetch ev = false /\ isSubmission ev = false)
         (trace w (handler rt apiKey req) s).
Proof.
  intros. unfold result, trace.
  erewrite handler_insufficient by eassumption. simpl.
  split; [reflexivity|]. repeat constructor.
Qed.

(** C2 fails on [buyToken] of trade-service.ts, which has no balance check:
    it never reads the wallet's balance, in any world; and for a wallet of
    0.005 ETH asked to buy for 0.01 ETH it requests a route and a build from
    Kyberswap and submits the transaction, and only the chain's rejection
    produces the insufficient-funds failure. *)
Theorem buyToken_has_no_balance_check :
  (forall (w : World) (s : state w) (rt : Runtime)
          (encryptedPrivateKey tokenAddress amountEth : string),
      Forall (fun ev => isBalanceRead ev = false)
             (trace w (TradeService.buyToken rt encryptedPrivateKey tokenAddress
                         amountEth) s)) /\
  result poorWallet
    (TradeService.buyToken demoRuntime "0xkey" someToken "0.01") tt
  = TradeService.failure "Insufficient funds. Add more ETH to your wallet." /\
  map callName
    (trace poorWallet
       (TradeService.buyToken demoRuntime "0xkey" someToken "0.01") tt)
  = ["fetch"; "fetch"; "sendTransaction"].
Proof.
  split; [|split].
  - intros w s rt epk token amount.
    unfold trace, TradeService.buyToken, Kyber.getSwapQuote, tryCatch, bindM,
      await, lift, ret, throw. simpl.
    repeat step; repeat constructor.
  - vm_compute. reflexivity.
  - vm_compute. reflexivity.
Qed.

(** *** When no aggregator has a route (C6) *)

Lemma devBuy_rejected (w : World) (s s' : state w) (rt : Runtime)
    (token address buyData err : string) (amountIn : Z) :
  encodeDevBuy rt token address 0 = inr buyData ->
  answer w _ (SendTransaction (str CLANKER_DEVBUY) (str buyData) amountIn) s
    = (inl err, s') ->
  run w (devBuy rt token address amountIn) s
  = (inr (notTradeable token),
     [Called (SendTransaction (str CLANKER_DEVBUY) (str buyData) amountIn)
             (inl err)],
     s').
Proof.
  intros Henc Hsend. unfold devBuy, bindM, await, lift, ret.
  rewrite Henc. simpl. rewrite Hsend. reflexivity.
Qed.

Lemma devBuy_sent (w : World) (s s' : state w) (rt : Runtime)
    (token address buyData hash : string) (amountIn : Z) :
  encodeDevBuy rt token address 0 = inr buyData ->
  answer w _ (SendTransaction (str CLANKER_DEVBUY) (str buyData) amountIn) s
    = (inr hash, s') ->
  run w (devBuy rt token address amountIn) s
  = let '(r, t, s'') := run w (settle rt token address hash "clanker") s' in
    (r,
     Called (SendTransaction (str CLANKER_DEVBUY) (str buyData) amountIn)
            (inr hash) :: t,
     s'').
Proof.
  intros Henc Hsend. unfold devBuy, bindM, await, lift, ret.
  rewrite Henc. simpl. rewrite Hsend. reflexivity.
Qed.

(** C6, as stated, fails in its last part: the handler never looks at what
    kind of token it is asked to buy, so for an address that no launch venue
    deployed the devbuy is sent all the same, and when the chain accepts it
    the buy succeeds [via clanker] instead of failing for lack of
    liquidity. *)
Lemma devbuy_is_sent_for_any_token :
  result noRoutes
    (getSwapQuote someToken "10000000000000000" "0xA11CE" EmptyString) tt
  = None /\
  result noRoutes (handler demoRuntime EmptyString (buyRequest someToken "0.01")) tt
  = reply 200 [ ("success", JBool true);
                ("transactionHash", JStr "0xdevbuy");
                ("tokensReceived", JStr "1000");
                ("symbol", JStr "NEW");
                ("via", JStr "clanker") ] /\
  map callName
    (trace noRoutes (handler demoRuntime EmptyString (buyRequest someToken "0.01")) tt)
  = [ "sql"; "getBalance"; "fetch"; "fetch"; "fetch"; "fetch";
      "sendTransaction"; "waitForTransactionReceipt"; "symbol"; "decimals";
      "balanceOf" ].
Proof. repeat split; vm_compute; reflexivity. Qed.

(** C6, amended.  When the handler is past the balance check and every
    aggregator failed ([getSwapQuote] returned null), it sends the Clanker
    devbuy transaction for the token asked, whatever that token is.  If the
    submission is rejected the answer is the 400 failure [Token not tradeable
    via our API yet ...] with the link to the token's page on clanker.world,
    and nothing else is called; if it is accepted the handler goes on to the
    receipt and reports the buy with [via: clanker]. *)
Theorem no_route_falls_back_to_devbuy
    (w : World) (rt : Runtime) (apiKey : string) (req : BuyRequest)
    (token key privateKey address buyData : string)
    (row : AgentRow) (rows : list AgentRow)
    (balance amountIn gasBuffer : Z) (s s1 s2 s3 : state w)
    (quoteCalls : list Event) :
  req_method req = "POST" ->
  tokenAddress req = Some token -> present (Some token) = true ->
  answer w _ (SelectAgent (sessionId req)) s = (inr (row :: rows), s1) ->
  encrypted_private_key row = Some key -> present (Some key) = true ->
  decryptPrivateKey rt key = inr privateKey ->
  privateKeyToAccount rt privateKey = inr address ->
  answer w _ (GetBalance address) s1 = (inr balance, s2) ->
  parseEther rt (orElse (amountEth req) "0.001") = inr amountIn ->
  parseEther rt "0.0005" = inr gasBuffer ->
  (amountIn + gasBuffer <= balance)%Z ->
  run w (getSwapQuote token (bigintToString rt amountIn) address apiKey) s2
    = (None, quoteCalls, s3) ->
  encodeDevBuy rt token address 0 = inr buyData ->
  let send := SendTransaction (str CLANKER_DEVBUY) (str buyData) amountIn in
  let before := walletCalls req address row rows balance ++ quoteCalls in
  (forall (err : string) (s4 : state w),
      answer w _ send s3 = (inl err, s4) ->
      run w (handler rt apiKey req) s
      = (notTradeable token, before ++ [Called send (inl err)], s4)) /\
  (forall (hash : string) (s4 : state w),
      answer w _ send s3 = (inr hash, s4) ->
      trace w (handler rt apiKey req) s
      = before ++ Called send (inr hash)
               :: trace w (settle rt token address hash "clanker") s4 /\
      result w (handler rt apiKey req) s
      = match result w (settle rt token address hash "clanker") s4 with
        | inl msg => buyError msg
        | inr response => response
        end) /\
  code (notTradeable token) = 400 /\
  optProp (payload (notTradeable token)) "clankerUrl"
  = str ("https://clanker.world/clanker/" ++ token).
Proof.
  intros Hpost Htoken Hpresent Hrow Hkey Hkeypresent Hdecrypt Haccount
    Hbalance Hamount Hbuffer Henough Hquote Henc send before.
  pose proof (handler_no_route w rt apiKey req token key privateKey address
                row rows balance amountIn gasBuffer s s1 s2 Hpost Htoken
                Hpresent Hrow Hkey Hkeypresent Hdecrypt Haccount Hbalance
                Hamount Hbuffer quoteCalls s3 Henough Hquote) as Hrun.
  split; [|split; [|split; reflexivity]].
  - intros err s4 Hsend. rewrite Hrun.
    rewrite (devBuy_rejected w s3 s4 rt token address buyData err amountIn
               Henc Hsend).
    unfold before, walletCalls. reflexivity.
  - intros hash s4 Hsend. unfold result, trace. rewrite Hrun.
    rewrite (devBuy_sent w s3 s4 rt token address buyData hash amountIn
               Henc Hsend).
    destruct (run w (settle rt token address hash "clanker") s4)
      as [[r t] s5]. simpl.
    unfold before, walletCalls. split; reflexivity.
Qed.

Lemma no_route_falls_back_to_devbuy_witness :
  run noRoutesNoDevBuy
    (handler demoRuntime EmptyString (buyRequest someToken "0.01")) tt
  = (notTradeable someToken,
     (walletCalls (buyRequest someToken "0.01") "0xA11CE" agentRow []
                  1000000000000000000%Z
      ++ snd (fst (run noRoutesNoDevBuy
                     (getSwapQuote someToken "10000000000000000" "0xA11CE"
                                   EmptyString) tt)))
     ++ [Called (SendTransaction (str CLANKER_DEVBUY)
                   (str ("0xbuy" ++ someToken)) 10000000000000000%Z)
                (inl "execution reverted")],
     tt).
Proof.
  refine (proj1 (no_route_falls_back_to_devbuy noRoutesNoDevBuy demoRuntime
            EmptyString (buyRequest someToken "0.01") someToken "0xkey" "0xkey"
            "0xA11CE" ("0xbuy" ++ someToken) agentRow [] 1000000000000000000%Z
            10000000000000000%Z 500000000000000%Z tt tt tt tt _
            _ _ _ _ _ _ _ _ _ _ _ _ _ _) "execution reverted" tt _);
    try reflexivity; try (vm_compute; discriminate).
Defined.

End BuyFacts.

(** ** Bracket orders on the exchanges (C9) *)

Module ExchangeFacts.
Import Js Eff Observe TradeProps RunFacts.

(** *** MEXC *)

Ltac eachCall :=
  solve [repeat first [apply Forall_nil | apply Forall_cons; [reflexivity|]]].

Ltac mexcLeaf :=
  split; [eachCall|];
  first
    [ exact I
    | split; [reflexivity|];
      split; [eachCall|];
      split; [simpl; lia|];
      let H := fresh "H" in
      intros H;
      first
        [ now elim H
        | split; [reflexivity|];
          do 2 eexists; split; [reflexivity|];
          boolFacts; repeat split; first [assumption | reflexivity] ] ].

Lemma mexcBuy_bracket (w : World) (s : state w)
    (creds : option Mexc.MexcCredentials) (symbol amount tp sl : Value) :
  bracketAfterFill tp sl
    (trace w (Routes.mexcBuy creds symbol amount tp sl) s)
    (result w (Routes.mexcBuy creds symbol amount tp sl) s).
Proof.
  unfold bracketAfterFill, trace, result, Routes.mexcBuy,
    Routes.buyWithBracket, Mexc.buyMarket, Mexc.placeTpSlOrders,
    Mexc.limitOrder, Mexc.placeOrder, Mexc.request, Mexc.hasCredentials,
    tryCatch, bindM, await, lift, ret, throw.
  destruct creds as [c|]; simpl; [|mexcLeaf].
  destruct (truthy symbol) eqn:Hsym; simpl; [|mexcLeaf].
  destruct (truthy amount) eqn:Ham; simpl; [|mexcLeaf].
  repeat stepE; mexcLeaf.
Qed.

Lemma executeSignal_bracket (w : World) (s : state w)
    (creds : option Mexc.MexcCredentials) (token : string)
    (amount tp sl : Value) :
  bracketAfterFill tp sl
    (trace w (Routes.executeSignal creds "buy" token amount tp sl) s)
    (result w (Routes.executeSignal creds "buy" token amount tp sl) s).
Proof.
  unfold bracketAfterFill, trace, result, Routes.executeSignal,
    Routes.buyWithBracket, Mexc.buyMarket, Mexc.placeTpSlOrders,
    Mexc.limitOrder, Mexc.placeOrder, Mexc.request, Mexc.hasCredentials,
    tryCatch, bindM, await, lift, ret, throw.
  destruct creds as [c|]; simpl; [|mexcLeaf].
  repeat stepE; mexcLeaf.
Qed.

(** *** OKX *)

(** No call of an entry cancels anything. *)
Lemma entry_never_cancels (instId tdMode side sz : string)
    (posSide tp sl : option string) (t : list Event) :
  bracketAfterOrder instId tdMode side sz posSide tp sl t ->
  Forall (fun ev => isCancel ev = false) t.
Proof.
  assert (forall ev p, okxPath ev = Some p ->
                       String.eqb p "/api/v5/trade/cancel-order" = false ->
                       isCancel ev = false) as Hpath.
  { intros [A e a] p. destruct e; simpl; try discriminate.
    now intros [= ->]. }
  destruct t as [|primary brackets]; simpl; [constructor|].
  intros (Hp & Hb & _). constructor.
  - now apply (Hpath _ _ Hp).
  - eapply Forall_impl; [|exact Hb]. intros ev Hev. now apply (Hpath _ _ Hev).
Qed.

(** A result that carries the status code 0 is an object. *)
Lemma zero_code_truthy (order sCode : Value) :
  prop order "sCode" = inr sCode -> Okx.isZeroCode sCode = true ->
  truthy order = true.
Proof.
  destruct order as [[| | | | |fields]|]; simpl; try discriminate;
    try (intros [= <-]; discriminate).
  reflexivity.
Qed.

Section OkxClient.
Variables (w : World) (creds : option Okx.OkxCredentials).

#[local] Opaque Okx.succeeded Okx.item0 Okx.isZeroCode.

Lemma placeAlgoOrder_calls (s : state w) (instId tdMode side sz : string)
    (posSide tpPx slPx : option string) :
  let t := trace w (Okx.placeAlgoOrder creds instId tdMode side sz posSide
                      tpPx slPx) s in
  Forall (fun ev => okxPath ev = Some algoPath) t /\ List.length t <= 1.
Proof.
  unfold trace, Okx.placeAlgoOrder, Okx.request, bindM, await, lift, ret, throw.
  destruct creds as [c|]; simpl; [|split; [constructor|lia]].
  repeat step; (split; [eachCall|simpl; lia]).
Qed.

(** [placeOrder] makes its one request, and what it returns is an order
    exactly when the venue accepted the request. *)
Lemma placeOrder_calls (s : state w) (params : list (string * Json)) :
  let '(r, t, _) := run w (Okx.placeOrder creds params) s in
  (t = [] /\ exists msg, r = inl msg) \/
  exists a,
    t = [Called (OkxRequest "POST" orderPath (obj params)) a] /\
    (exists c, creds = Some c) /\
    (accepted a = true -> exists order, r = inr order /\ truthy order = true) /\
    (forall order, r = inr order -> truthy order = accepted a) /\
    forall order, r = inr order -> truthy order = true ->
      exists response sCode,
        a = inr response /\
        Okx.succeeded response = inr true /\
        order = Okx.item0 (optProp response "data") /\
        prop order "sCode" = inr sCode /\
        Okx.isZeroCode sCode = true.
Proof.
  unfold Okx.placeOrder, Okx.request, bindM, await, lift, ret, throw.
  destruct creds as [c|]; simpl; [|left; split; [reflexivity|eauto]].
  destruct (answer w _ (OkxRequest "POST" "/api/v5/trade/order" (obj params)) s)
    as [[msg|response] s1]; simpl.
  { right; eexists; split; [reflexivity|]. split; [eauto|].
    split; [discriminate|]. split; intros order [=]. }
  unfold accepted.
  destruct (Okx.succeeded response) as [msg|[|]] eqn:Hgood; simpl.
  - right; eexists; split; [reflexivity|]. split; [eauto|]. rewrite Hgood.
    split; [discriminate|]. split; intros order [=].
  - destruct (prop (Okx.item0 (optProp response "data")) "sCode")
      as [msg|sCode] eqn:Hcode; simpl.
    { right; eexists; split; [reflexivity|]. split; [eauto|].
      rewrite Hgood, Hcode.
      split; [discriminate|]. split; intros order [=]. }
    destruct (Okx.isZeroCode sCode) eqn:Hzero; simpl;
      right; eexists; (split; [reflexivity|]); (split; [eauto|]);
      rewrite Hgood, Hcode, Hzero.
    + assert (truthy (Okx.item0 (optProp response "data")) = true) as Htruthy
        by now apply zero_code_truthy with (sCode := sCode).
      split; [eauto|]. split; [now intros order [= <-]|].
      intros order [= <-] _. exists response, sCode. auto.
    + split; [discriminate|].
      split; [now intros order [= <-]|intros order [= <-] [=]].
  - right; eexists; (split; [reflexivity|]); (split; [eauto|]). rewrite Hgood.
    split; [discriminate|].
    split; [now intros order [= <-]|intros order [= <-] [=]].
Qed.

(** With credentials, [placeAlgoOrder] makes the one request of its
    conditional order, and throws only where the request fails or its
    answer cannot be read. *)
Lemma placeAlgoOrder_request (c : Okx.OkxCredentials) (s : state w)
    (instId tdMode side sz : string) (posSide tpPx slPx : option string) :
  creds = Some c ->
  let '(r, t, _) := run w (Okx.placeAlgoOrder creds instId tdMode side sz
                             posSide tpPx slPx) s in
  exists a,
    t = [Called (conditional instId tdMode side sz posSide tpPx slPx) a] /\
    match a with
    | inr response =>
        match Okx.succeeded response with
        | inr _ => exists v, r = inr v
        | inl _ => exists msg, r = inl msg
        end
    | inl _ => exists msg, r = inl msg
    end.
Proof.
  intros ->.
  unfold Okx.placeAlgoOrder, Okx.request, conditional, algoPath, bindM, await,
    lift, ret, throw. simpl.
  match goal with
  | |- context [answer w ?A ?e s] =>
      destruct (answer w A e s) as [[msg|response] s1]; simpl
  end; [eexists; split; [reflexivity|]; simpl; eauto|].
  destruct (Okx.succeeded response) as [msg|[|]] eqn:Hgood; simpl;
    eexists; (split; [reflexivity|]); simpl; rewrite Hgood; eauto.
Qed.

(** The same for the step of [bracket] that places one conditional order. *)
Lemma bracket_step (c : Okx.OkxCredentials) (s : state w)
    (instId tdMode side sz : string) (posSide tpPx slPx : option string) :
  creds = Some c ->
  let '(r, t, _) := run w (Okx.placeAlgoOrder creds instId tdMode side sz
                             posSide tpPx slPx ;;; ret tt) s in
  exists a,
    t = [Called (conditional instId tdMode side sz posSide tpPx slPx) a] /\
    match a with
    | inr response =>
        match Okx.succeeded response with
        | inr _ => r = inr tt
        | inl _ => exists msg, r = inl msg
        end
    | inl _ => exists msg, r = inl msg
    end.
Proof.
  intros Hc. rewrite run_bindM.
  pose proof (placeAlgoOrder_request c s instId tdMode side sz posSide
                tpPx slPx Hc) as Halgo.
  destruct (run w (Okx.placeAlgoOrder creds instId tdMode side sz posSide
                     tpPx slPx) s) as [[r t] s1].
  destruct Halgo as (a & -> & Hr).
  destruct a as [msg|response];
    [destruct Hr as (m & ->); simpl; eexists; split; [reflexivity|];
     simpl; eauto|].
  destruct (Okx.succeeded response) as [msg|good] eqn:Hgood;
    destruct Hr as (x & ->); simpl; eexists; (split; [reflexivity|]);
    simpl; rewrite Hgood; eauto.
Qed.

(** With credentials and an order, [bracket] makes the requests of the
    conditional orders asked for, in order. *)
Lemma bracket_requests (c : Okx.OkxCredentials) (s : state w) (order : Value)
    (instId tdMode side sz : string) (posSide tp sl : option string) :
  creds = Some c -> truthy order = true ->
  madeInOrder (conditionals instId tdMode side sz posSide tp sl)
    (trace w (Okx.bracket creds order instId tdMode side sz posSide tp sl) s).
Proof.
  intros Hc Htruthy. unfold trace, Okx.bracket, conditionals.
  rewrite Htruthy. simpl andb.
  destruct (present tp) eqn:Htp, (present sl) eqn:Hsl; simpl.
  - rewrite run_bindM.
    pose proof (bracket_step c s instId tdMode side sz posSide tp None Hc)
      as H1.
    destruct (run w (Okx.placeAlgoOrder creds instId tdMode side sz posSide
                       tp None ;;; ret tt) s) as [[r1 t1] s1].
    destruct H1 as (a1 & -> & Hr1). exists a1.
    destruct a1 as [msg|response].
    { destruct Hr1 as (m & ->). simpl. eauto. }
    destruct (Okx.succeeded response) as [msg|good].
    { destruct Hr1 as (m & ->). simpl. eauto. }
    subst r1.
    pose proof (bracket_step c s1 instId tdMode side sz posSide None sl Hc)
      as H2.
    destruct (run w (Okx.placeAlgoOrder creds instId tdMode side sz posSide
                       None sl ;;; ret tt) s1) as [[r2 t2] s2].
    destruct H2 as (a2 & -> & Hr2). simpl.
    eexists. split; [reflexivity|]. exists a2, [].
    split; [reflexivity|].
    destruct a2 as [msg|response2]; [reflexivity|].
    destruct (Okx.succeeded response2); reflexivity.
  - rewrite run_bindM.
    pose proof (bracket_step c s instId tdMode side sz posSide tp None Hc)
      as H1.
    destruct (run w (Okx.placeAlgoOrder creds instId tdMode side sz posSide
                       tp None ;;; ret tt) s) as [[r1 t1] s1].
    destruct H1 as (a1 & -> & Hr1). exists a1.
    destruct a1 as [msg|response].
    { destruct Hr1 as (m & ->). simpl. eauto. }
    destruct (Okx.succeeded response) as [msg|good].
    { destruct Hr1 as (m & ->). simpl. eauto. }
    subst r1. simpl. eauto.
  - rewrite run_bindM. simpl.
    pose proof (bracket_step c s instId tdMode side sz posSide None sl Hc)
      as H2.
    destruct (run w (Okx.placeAlgoOrder creds instId tdMode side sz posSide
                       None sl ;;; ret tt) s) as [[r2 t2] s2].
    destruct H2 as (a2 & -> & Hr2). simpl. exists a2, [].
    split; [reflexivity|].
    destruct a2 as [msg|response2]; [reflexivity|].
    destruct (Okx.succeeded response2); reflexivity.
  - reflexivity.
Qed.

Lemma bracket_calls (s : state w) (order : Value)
    (instId tdMode side sz : string) (posSide tp sl : option string) :
  let t := trace w (Okx.bracket creds order instId tdMode side sz posSide
                      tp sl) s in
  Forall (fun ev => okxPath ev = Some algoPath) t /\
  List.length t <= 2 /\
  (t <> [] -> truthy order = true /\ (present tp || present sl) = true) /\
  (truthy order = false -> t = []).
Proof.
  unfold trace, Okx.bracket.
  destruct (truthy order && (present tp || present sl)) eqn:Hgo; simpl;
    [|split; [constructor|split; [lia|split; [intros H; now elim H|auto]]]].
  apply andb_true_iff in Hgo.
  rewrite !run_bindM.
  assert (forall (s0 : state w) (px1 px2 : option string) (go : bool),
             let t := snd (fst (run w
                        (if go
                         then Okx.placeAlgoOrder creds instId tdMode side sz
                                posSide px1 px2 ;;; ret tt
                         else ret tt) s0)) in
             Forall (fun ev => okxPath ev = Some algoPath) t /\
             List.length t <= 1) as Hone.
  { intros s0 px1 px2 [|]; simpl; [|split; [constructor|lia]].
    rewrite run_bindM.
    pose proof (placeAlgoOrder_calls s0 instId tdMode side sz posSide px1 px2)
      as Halgo. unfold trace in Halgo.
    destruct (run w (Okx.placeAlgoOrder creds instId tdMode side sz posSide
                       px1 px2) s0) as [[[msg|v] t] s1]; simpl in *.
    - exact Halgo.
    - rewrite app_nil_r. exact Halgo. }
  assert (truthy order = false -> forall t : list Event, t = [])
    as Hnever by (destruct Hgo as [-> _]; discriminate).
  match goal with
  | |- context [run w ?p s] =>
      assert (Forall (fun ev => okxPath ev = Some algoPath)
                     (snd (fst (run w p s))) /\
              List.length (snd (fst (run w p s))) <= 1) as H1
        by apply (Hone s tp None (present tp));
      destruct (run w p s) as [[[msg|[]] t1] s1]
  end; simpl in *.
  - destruct H1 as [Hall Hlen]. split; [exact Hall|]. split; [lia|].
    split; [tauto|auto].
  - match goal with
    | |- context [run w ?p s1] =>
        assert (Forall (fun ev => okxPath ev = Some algoPath)
                       (snd (fst (run w p s1))) /\
                List.length (snd (fst (run w p s1))) <= 1) as H2
          by apply (Hone s1 None sl (present sl));
        destruct (run w p s1) as [[r2 t2] s2]
    end; simpl in *.
    destruct H1 as [Hall1 Hlen1], H2 as [Hall2 Hlen2].
    split; [apply Forall_app; now split|].
    split; [rewrite length_app; lia|]. split; [tauto|auto].
Qed.

(** From the market order on, every entry is [placeOrder] followed by
    [bracket]. *)
Lemma entry_calls (s : state w) (params : list (string * Json))
    (instId tdMode side sz : string) (posSide tp sl : option string) :
  bracketAfterOrder instId tdMode side sz posSide tp sl
    (trace w (order <- Okx.placeOrder creds params ;;
              Okx.bracket creds order instId tdMode side sz posSide tp sl ;;;
              ret order) s).
Proof.
  unfold trace. rewrite run_bindM.
  pose proof (placeOrder_calls s params) as Hplace.
  destruct (run w (Okx.placeOrder creds params) s) as [[r t] s1].
  destruct Hplace as [[-> (msg & ->)]|(a & -> & (c & Hc) & Hgood & Hsame & Hacc)];
    simpl; [exact I|].
  destruct r as [msg|order]; simpl.
  { split; [reflexivity|]. split; [constructor|]. split; [lia|].
    split; [intros H; now elim H|].
    exists (obj params), a. split; [reflexivity|].
    destruct (accepted a); [|reflexivity].
    destruct (Hgood eq_refl) as (order & [=] & _). }
  rewrite run_bindM.
  pose proof (bracket_calls s1 order instId tdMode side sz posSide tp sl)
    as Hbr.
  pose proof (bracket_requests c s1 order instId tdMode side sz posSide tp sl
                Hc) as Hmade.
  unfold trace in Hbr, Hmade.
  destruct (run w (Okx.bracket creds order instId tdMode side sz posSide tp sl)
              s1) as [[r2 t2] s2]. simpl in Hbr, Hmade.
  destruct Hbr as (Hall & Hlen & Hwhy & Hnone).
  assert (forall t3 : list Event, t3 = t2 ->
            Forall (fun ev => okxPath ev = Some algoPath) t3 /\
            List.length t3 <= 2 /\
            (t3 <> [] ->
             (present tp || present sl) = true /\
             exists body response order0 sCode,
               Called (OkxRequest "POST" orderPath (obj params)) a
               = Called (OkxRequest "POST" orderPath body) (inr response) /\
               Okx.succeeded response = inr true /\
               order0 = Okx.item0 (optProp response "data") /\
               prop order0 "sCode" = inr sCode /\
               Okx.isZeroCode sCode = true) /\
            exists body a0,
              Called (OkxRequest "POST" orderPath (obj params)) a
              = Called (OkxRequest "POST" orderPath body) a0 /\
              if accepted a0
              then madeInOrder
                     (conditionals instId tdMode side sz posSide tp sl) t3
              else t3 = []) as Hgoal.
  { intros t3 ->. split; [exact Hall|]. split; [exact Hlen|]. split.
    - intros Hne. destruct (Hwhy Hne) as [Htruthy Hgiven].
      split; [exact Hgiven|].
      destruct (Hacc order eq_refl Htruthy)
        as (response & sCode & -> & H1 & H2 & H3 & H4).
      exists (obj params), response, order, sCode. auto.
    - exists (obj params), a. split; [reflexivity|].
      rewrite <- (Hsame order eq_refl).
      destruct (truthy order) eqn:Htruthy; [now apply Hmade|now apply Hnone]. }
  destruct r2 as [msg|[]]; simpl.
  - split; [reflexivity|]. now apply Hgoal.
  - split; [reflexivity|]. apply Hgoal. now rewrite app_nil_r.
Qed.

Lemma setLeverage_calls (s : state w) (instId lever mgnMode : string) :
  let '(r, t, _) := run w (Okx.setLeverage creds instId lever mgnMode) s in
  (t = [] /\ exists msg, r = inl msg) \/
  exists lev, t = [lev] /\ okxPath lev = Some leveragePath.
Proof.
  unfold Okx.setLeverage, Okx.request, bindM, await, lift, ret, throw.
  destruct creds as [c|]; simpl; [|left; split; [reflexivity|eauto]].
  repeat step; right; eexists; split; reflexivity.
Qed.

(** A leveraged entry sets the leverage first. *)
Lemma leveraged_entry_calls (s : state w) (params : list (string * Json))
    (instId tdMode side sz lever : string) (posSide tp sl : option string) :
  leveragedEntry instId tdMode side sz posSide tp sl
    (trace w (Okx.setLeverage creds instId lever "cross" ;;;
              order <- Okx.placeOrder creds params ;;
              Okx.bracket creds order instId tdMode side sz posSide tp sl ;;;
              ret order) s).
Proof.
  unfold trace, leveragedEntry. rewrite run_bindM.
  pose proof (setLeverage_calls s instId lever "cross") as Hlev.
  destruct (run w (Okx.setLeverage creds instId lever "cross") s)
    as [[r t] s1].
  destruct Hlev as [[-> (msg & ->)]|(lev & -> & Hpath)]; simpl; [exact I|].
  destruct r as [msg|done]; simpl.
  - split; [exact Hpath|exact I].
  - pose proof (entry_calls s1 params instId tdMode side sz posSide tp sl)
      as Hentry. unfold trace in Hentry.
    destruct (run w (order <- Okx.placeOrder creds params ;;
                     Okx.bracket creds order instId tdMode side sz posSide tp sl ;;;
                     ret order) s1) as [[r2 t2] s2]. simpl in Hentry.
    split; [exact Hpath|exact Hentry].
Qed.

End OkxClient.

(** C9, as stated, fails for OKX in one point: the bracket does not wait
    for a filled quantity.  OKX answers an order with its id and status code
    only; [buySpot] with a take-profit places the conditional order right
    after, although the order it got reports no filled quantity under any
    name. *)
Lemma okx_bracket_needs_no_fill :
  exists order : Value,
    result okxAccepts
      (Okx.buySpot (Some okxKeys) "BTC-USDT" "100" (Some "70000") None) tt
    = inr order /\
    optProp order "fillSz" = None /\
    optProp order "accFillSz" = None /\
    optProp order "executedQty" = None /\
    map okxPath
      (trace okxAccepts
         (Okx.buySpot (Some okxKeys) "BTC-USDT" "100" (Some "70000") None) tt)
    = [Some orderPath; Some algoPath].
Proof.
  eexists. split; [vm_compute; reflexivity|].
  repeat split; vm_compute; reflexivity.
Qed.

(** C9, amended.  On MEXC (the buy route and the buy branch of the signal
    route), limit orders for the bracket are placed only when a take-profit
    or a stop-loss was given and the market buy came back with an order that
    has an [executedQty]; the answer then is 200 with that order, whatever
    the limit orders returned.  On OKX ([buySpot], [openLong], [openShort]),
    the conditional orders are placed only when a take-profit or a stop-loss
    was given and the venue accepted the market order; no filled quantity is
    consulted: after an accepted order the calls that follow are exactly the
    conditional orders asked for (the take-profit, then the stop-loss), each
    of the requested amount and on the closing side, the second one being
    left out only when the first could not be requested or read; after an
    order that was not accepted there is none.  On both venues the bracket
    has at most two orders, nothing is placed after a failed primary order,
    and no run ever cancels an order. *)
Theorem brackets_follow_the_primary_order :
  (forall (w : World) (s : state w) (creds : option Mexc.MexcCredentials)
          (symbol amount tp sl : Value),
      bracketAfterFill tp sl
        (trace w (Routes.mexcBuy creds symbol amount tp sl) s)
        (result w (Routes.mexcBuy creds symbol amount tp sl) s)) /\
  (forall (w : World) (s : state w) (creds : option Mexc.MexcCredentials)
          (token : string) (amount tp sl : Value),
      bracketAfterFill tp sl
        (trace w (Routes.executeSignal creds "buy" token amount tp sl) s)
        (result w (Routes.executeSignal creds "buy" token amount tp sl) s)) /\
  (forall (w : World) (s : state w) (creds : option Okx.OkxCredentials)
          (instId amount : string) (tp sl : option string),
      let t := trace w (Okx.buySpot creds instId amount tp sl) s in
      bracketAfterOrder instId "cash" "sell" amount None tp sl t /\
      Forall (fun ev => isCancel ev = false) t) /\
  (forall (w : World) (s : state w) (creds : option Okx.OkxCredentials)
          (instId size leverage : string) (tp sl : option string),
      let long := trace w (Okx.openLong creds instId size leverage tp sl) s in
      let short := trace w (Okx.openShort creds instId size leverage tp sl) s in
      leveragedEntry instId "cross" "sell" size (Some "long") tp sl long /\
      leveragedEntry instId "cross" "buy" size (Some "short") tp sl short /\
      Forall (fun ev => isCancel ev = false) long /\
      Forall (fun ev => isCancel ev = false) short).
Proof.
  split; [|split; [|split]].
  - intros. apply mexcBuy_bracket.
  - intros. apply executeSignal_bracket.
  - intros w s creds instId amount tp sl t.
    assert (bracketAfterOrder instId "cash" "sell" amount None tp sl t) as H
      by apply entry_calls.
    split; [exact H|]. exact (entry_never_cancels _ _ _ _ _ _ _ _ H).
  - intros w s creds instId size leverage tp sl long short.
    assert (leveragedEntry instId "cross" "sell" size (Some "long") tp sl long)
      as Hl by apply leveraged_entry_calls.
    assert (leveragedEntry instId "cross" "buy" size (Some "short") tp sl short)
      as Hs by apply leveraged_entry_calls.
    assert (forall side posSide t,
               leveragedEntry instId "cross" side size posSide tp sl t ->
               Forall (fun ev => isCancel ev = false) t) as Hnc.
    { intros side posSide [|lev rest]; simpl; [constructor|].
      intros [Hp Hr]. constructor.
      - destruct lev as [A e a]. destruct e; simpl in *; try discriminate.
        now injection Hp as ->.
      - exact (entry_never_cancels _ _ _ _ _ _ _ _ Hr). }
    split; [exact Hl|]. split; [exact Hs|]. split; eapply Hnc; eassumption.
Qed.

Lemma brackets_follow_the_primary_order_witness :
  code (result mexcFillsOnly
          (Routes.mexcBuy (Some mexcKeys) (str "BTCUSDT") (str "10")
                          (str "70000") None) tt) = 200.
Proof.
  pose proof (proj1 brackets_follow_the_primary_order mexcFillsOnly tt
                (Some mexcKeys) (str "BTCUSDT") (str "10") (str "70000") None)
    as [_ H].
  remember (trace mexcFillsOnly
              (Routes.mexcBuy (Some mexcKeys) (str "BTCUSDT") (str "10")
                              (str "70000") None) tt) as t eqn:Ht.
  vm_compute in Ht. subst t.
  destruct H as (_ & _ & _ & H).
  destruct H as [_ (params & order & _ & _ & _ & Hcode & _)];
    [discriminate|exact Hcode].
Defined.

(** The run behind the witness: the market buy is filled, the take-profit
    limit order is refused, and the answer still reports the fill. *)
Example bracket_failure_keeps_the_fill :
  let p := Routes.mexcBuy (Some mexcKeys) (str "BTCUSDT") (str "10")
                          (str "70000") None in
  map mexcOrder (trace mexcFillsOnly p tt)
  = [Some ("BUY", "MARKET"); Some ("SELL", "LIMIT")] /\
  result mexcFillsOnly p tt
  = reply 200 [ ("order", JObj [ ("symbol", JStr "BTCUSDT");
                                 ("orderId", JStr "1");
                                 ("executedQty", JStr "0.0002") ]);
                ("tpOrder", JNull) ].
Proof. split; vm_compute; reflexivity. Qed.

(** A run on OKX: the order is accepted, and the take-profit and the
    stop-loss follow, each a sell of the amount bought. *)
Example okx_bracket_is_sized_by_the_amount :
  exists a0 a1 a2 : Exc Value,
    trace okxAccepts
      (Okx.buySpot (Some okxKeys) "BTC-USDT" "100" (Some "70000")
         (Some "60000")) tt
    = [ Called (OkxRequest "POST" orderPath
                  (obj [ ("instId", JStr "BTC-USDT"); ("tdMode", JStr "cash");
                         ("side", JStr "buy"); ("ordType", JStr "market");
                         ("sz", JStr "100") ])) a0;
        Called (conditional "BTC-USDT" "cash" "sell" "100" None
                  (Some "70000") None) a1;
        Called (conditional "BTC-USDT" "cash" "sell" "100" None
                  None (Some "60000")) a2 ] /\
    accepted a0 = true.
Proof. do 3 eexists. split; vm_compute; reflexivity. Qed.

End ExchangeFacts.

(** ** What the matcher returns: spans and captures

    A successful match splits the text into what the pattern spans and the
    rest, and the capture it leaves is a piece of the span that one of the
    pattern's groups spans. *)

Module TextFacts.
Import Regex SignalParser TextProps.

Local Open Scope string_scope.

Lemma append_nil_r (s : string) : s ++ EmptyString = s.
Proof. induction s as [|c s IH]; simpl; [reflexivity|now rewrite IH]. Qed.

Lemma append_assoc (a b c : string) : (a ++ b) ++ c = a ++ (b ++ c).
Proof. induction a as [|x a IH]; simpl; [reflexivity|now rewrite IH]. Qed.

Lemma length_append (a b : string) : length (a ++ b) = length a + length b.
Proof. induction a as [|x a IH]; simpl; [reflexivity|now rewrite IH]. Qed.

Lemma substring_all (w : string) : substring 0 (length w) w = w.
Proof. induction w as [|c w IH]; simpl; [reflexivity|now rewrite IH]. Qed.

Lemma substring_prefix (w s : string) : substring 0 (length w) (w ++ s) = w.
Proof.
  induction w as [|c w IH]; simpl.
  - now destruct s.
  - now rewrite IH.
Qed.

Lemma allChars_append (p : ascii -> bool) (a b : string) :
  allChars p (a ++ b) = allChars p a && allChars p b.
Proof.
  induction a as [|c a IH]; simpl; [reflexivity|].
  now rewrite IH, andb_assoc.
Qed.

Lemma occursIn_refl (v : string) : occursIn v v.
Proof. exists EmptyString, EmptyString. simpl. now rewrite append_nil_r. Qed.

Lemma occursIn_append (v w a b : string) :
  occursIn v w -> occursIn v (a ++ w ++ b).
Proof.
  intros (x & y & ->). exists (a ++ x), (y ++ b).
  now rewrite !append_assoc.
Qed.

Lemma occursIn_trans (u v w : string) :
  occursIn u v -> occursIn v w -> occursIn u w.
Proof. intros Hu (a & b & ->). now apply occursIn_append. Qed.

Lemma occursIn_left (v w b : string) : occursIn v w -> occursIn v (w ++ b).
Proof. intros H. apply (occursIn_append v w EmptyString b H). Qed.

Lemma occursIn_right (v w a : string) : occursIn v w -> occursIn v (a ++ w).
Proof.
  intros H. pose proof (occursIn_append v w a EmptyString H) as H'.
  now rewrite append_nil_r in H'.
Qed.

Lemma litMatch_sound (l : string) :
  forall prev s prev' s',
    litMatch l prev s = Some (prev', s') ->
    exists w, s = w ++ s' /\ sameText l w = true.
Proof.
  induction l as [|a l IH]; intros prev s prev' s'; simpl.
  - intros [= _ ->]. now exists EmptyString.
  - destruct s as [|c s0]; [discriminate|].
    destruct (isChar (toUpperChar a) (toUpperChar c)) eqn:Hc; [|discriminate].
    intros H. destruct (IH _ _ _ _ H) as (w & -> & Hw).
    exists (String c w). split; [reflexivity|]. simpl. now rewrite Hc.
Qed.

Lemma classMatch_sound {A : Type} (p : ascii -> bool)
    (k : option ascii -> string -> option A) (s : string) :
  forall lo hi prev x,
    classMatch p k lo hi prev s = Some x ->
    exists w s' prev',
      s = w ++ s' /\ allChars p w = true /\ within lo hi (length w) /\
      k prev' s' = Some x.
Proof.
  induction s as [|c s IH]; intros lo hi prev x.
  - simpl. destruct (Nat.eqb_spec lo 0) as [->|]; [|discriminate].
    intros H. exists EmptyString, EmptyString, prev.
    repeat split; auto. destruct hi; simpl; lia.
  - assert ((if Nat.eqb lo 0 then k prev (String c s) else None) = Some x ->
            exists w s' prev',
              String c s = w ++ s' /\ allChars p w = true /\
              within lo hi (length w) /\ k prev' s' = Some x) as Hstop.
    { destruct (Nat.eqb_spec lo 0) as [->|]; [|discriminate].
      intros H. exists EmptyString, (String c s), prev.
      repeat split; auto. destruct hi; simpl; lia. }
    simpl. destruct (p c && mayTakeMore hi) eqn:Hgo; [|exact Hstop].
    destruct (classMatch p k (pred lo) (option_map pred hi) (Some c) s)
      as [y|] eqn:Hmore; [|exact Hstop].
    intros [= <-]. apply andb_true_iff in Hgo. destruct Hgo as [Hp Hmay].
    destruct (IH _ _ _ _ Hmore) as (w & s' & prev' & -> & Hw & [Hlo Hhi] & Hk).
    exists (String c w), s', prev'. simpl. rewrite Hp, Hw.
    repeat split; auto; [lia|].
    destruct hi as [[|h]|]; simpl in *; try discriminate; auto. lia.
Qed.

(** The matcher is sound: whatever it hands to its continuation is the text
    left after a span of the pattern, and the capture is the one it was given
    or a piece of the span that a group of the pattern spans. *)
Lemma matchAt_sound (r : regex) :
  forall (A : Type) cap prev s
         (k : option string -> option ascii -> string -> option A) x,
    matchAt r cap prev s k = Some x ->
    exists w s' cap' prev',
      s = w ++ s' /\ spans r w /\ k cap' prev' s' = Some x /\
      (cap' = cap \/
       exists g v, In g (groups r) /\ cap' = Some v /\
                   spans g v /\ occursIn v w).
Proof.
  induction r as [l|p lo hi| |r1 IH1 r2 IH2|r1 IH1 r2 IH2|r1 IH1|r1 IH1];
    intros A cap prev s k x; simpl.
  - destruct (litMatch l prev s) as [[prev' s']|] eqn:Hl; [|discriminate].
    intros H. destruct (litMatch_sound _ _ _ _ _ Hl) as (w & -> & Hw).
    exists w, s', cap, prev'. auto.
  - intros H. apply classMatch_sound in H.
    destruct H as (w & s' & prev' & -> & Hw & Hn & Hk).
    exists w, s', cap, prev'. auto.
  - destruct (atWordBoundary prev s); [|discriminate].
    intros H. exists EmptyString, s, cap, prev. auto.
  - intros H. apply IH1 in H.
    destruct H as (w1 & s1 & cap1 & prev1 & -> & Hw1 & H & Hc1).
    apply IH2 in H.
    destruct H as (w2 & s2 & cap2 & prev2 & -> & Hw2 & H & Hc2).
    exists (w1 ++ w2), s2, cap2, prev2.
    split; [now rewrite append_assoc|]. split; [now exists w1, w2|].
    split; [exact H|].
    destruct Hc2 as [->|(g & v & Hg & -> & Hv & Hocc)].
    + destruct Hc1 as [->|(g & v & Hg & -> & Hv & Hocc)]; [now left|].
      right. exists g, v. repeat split; auto.
      * apply in_or_app. now left.
      * now apply occursIn_left.
    + right. exists g, v. repeat split; auto.
      * apply in_or_app. now right.
      * now apply occursIn_right.
  - destruct (matchAt r1 cap prev s k) as [y|] eqn:H1.
    + intros [= <-]. apply IH1 in H1.
      destruct H1 as (w & s' & cap' & prev' & -> & Hw & H & Hc).
      exists w, s', cap', prev'. repeat split; auto.
      destruct Hc as [->|(g & v & Hg & -> & Hv & Hocc)]; [now left|].
      right. exists g, v. repeat split; auto. apply in_or_app. now left.
    + intros H. apply IH2 in H.
      destruct H as (w & s' & cap' & prev' & -> & Hw & H & Hc).
      exists w, s', cap', prev'. repeat split; auto.
      destruct Hc as [->|(g & v & Hg & -> & Hv & Hocc)]; [now left|].
      right. exists g, v. repeat split; auto. apply in_or_app. now right.
  - destruct (matchAt r1 cap prev s k) as [y|] eqn:H1.
    + intros [= <-]. apply IH1 in H1.
      destruct H1 as (w & s' & cap' & prev' & -> & Hw & H & Hc).
      exists w, s', cap', prev'. repeat split; auto.
    + intros H. exists EmptyString, s, cap, prev. auto.
  - intros H. apply IH1 in H.
    destruct H as (w & s' & cap' & prev' & -> & Hw & H & _).
    rewrite length_append, Nat.add_sub, substring_prefix in H.
    exists w, s', (Some w), prev'. repeat split; auto.
    right. exists r1, w. repeat split; auto. apply occursIn_refl.
Qed.

(** One attempt at a position. *)
Lemma matchHere_sound (r : regex) (prev : option ascii) (s : string)
    (cap : option string) (rest : string) :
  matchHere r prev s = Some (cap, rest) ->
  exists w, s = w ++ rest /\ spans r w /\
    (cap = None \/
     exists g v, In g (groups r) /\ cap = Some v /\ spans g v /\ occursIn v w).
Proof.
  unfold matchHere. intros H. apply matchAt_sound in H.
  destruct H as (w & s' & cap' & prev' & -> & Hw & [= <- <-] & Hc).
  exists w. auto.
Qed.

(** Every capture of a [g]-flag loop is a piece of the text that a group of
    the pattern spans. *)
Lemma execAll_captures (r : regex) (s : string) :
  forall prev skip v,
    In (Some v) (execAll r prev s skip) ->
    exists g, In g (groups r) /\ spans g v /\ occursIn v s.
Proof.
  assert (forall prev s0 cap rest v,
             matchHere r prev s0 = Some (cap, rest) -> cap = Some v ->
             exists g, In g (groups r) /\ spans g v /\ occursIn v s0) as Hhere.
  { intros prev s0 cap rest v H ->. apply matchHere_sound in H.
    destruct H as (w & -> & _ & [[=]|(g & v' & Hg & [= <-] & Hv & Hocc)]).
    exists g. repeat split; auto. now apply occursIn_left. }
  induction s as [|c s IH]; intros prev skip v; simpl.
  - destruct (Nat.eqb skip 0); [|simpl; tauto].
    destruct (matchHere r prev EmptyString) as [[cap rest]|] eqn:Hm;
      [|simpl; tauto].
    intros [->|[]]. eapply Hhere; [exact Hm|reflexivity].
  - assert (forall sk, In (Some v) (execAll r (Some c) s sk) ->
              exists g, In g (groups r) /\ spans g v /\ occursIn v (String c s))
      as Hrest.
    { intros sk H. destruct (IH _ _ _ H) as (g & Hg & Hv & Hocc).
      exists g. repeat split; auto.
      apply (occursIn_right v s (String c EmptyString) Hocc). }
    destruct (Nat.eqb skip 0); [|apply Hrest].
    destruct (matchHere r prev (String c s)) as [[cap rest]|] eqn:Hm;
      [|apply Hrest].
    intros [->|H]; [|now apply Hrest in H].
    eapply Hhere; [exact Hm|reflexivity].
Qed.

Lemma matchAll_captures (r : regex) (text v : string) :
  In (Some v) (matchAll r text) ->
  exists g, In g (groups r) /\ spans g v /\ occursIn v text.
Proof. apply execAll_captures. Qed.

(** The same for [text.match(r)]. *)
Lemma searchFrom_captures (r : regex) (s : string) :
  forall prev v,
    searchFrom r prev s = Some (Some v) ->
    exists g, In g (groups r) /\ spans g v /\ occursIn v s.
Proof.
  induction s as [|c s IH]; intros prev v; simpl.
  - destruct (matchHere r prev EmptyString) as [[cap rest]|] eqn:Hm;
      [|discriminate].
    intros [= ->]. apply matchHere_sound in Hm.
    destruct Hm as (w & Hs & _ & [[=]|(g & v' & Hg & [= <-] & Hv & Hocc)]).
    exists g. repeat split; auto. rewrite Hs. now apply occursIn_left.
  - destruct (matchHere r prev (String c s)) as [[cap rest]|] eqn:Hm.
    + intros [= ->]. apply matchHere_sound in Hm.
      destruct Hm as (w & Hs & _ & [[=]|(g & v' & Hg & [= <-] & Hv & Hocc)]).
      exists g. repeat split; auto. rewrite Hs. now apply occursIn_left.
    + intros H. destruct (IH _ _ H) as (g & Hg & Hv & Hocc).
      exists g. repeat split; auto.
      apply (occursIn_right v s (String c EmptyString) Hocc).
Qed.

Lemma search_captures (r : regex) (text v : string) :
  matched (search r text) = Some v ->
  exists g, In g (groups r) /\ spans g v /\ occursIn v text.
Proof.
  unfold matched, search.
  destruct (searchFrom r None text) as [[v'|]|] eqn:H; try discriminate.
  intros [= ->]. eapply searchFrom_captures, H.
Qed.

End TextFacts.

(** ** Signal parser: tokens, sources and extracted fields *)

Module SignalExtras.
Import Regex SignalParser SignalProps TextProps PostProps TextFacts.

(** *** Characters and case *)

Ltac everyChar c :=
  destruct c as [[] [] [] [] [] [] [] []]; vm_compute;
  try reflexivity; try discriminate; auto.

Lemma isChar_eq (a c : ascii) : isChar a c = true -> c = a.
Proof.
  unfold isChar, code. intros H. apply Nat.eqb_eq in H.
  assert (ascii_of_nat (nat_of_ascii c) = ascii_of_nat (nat_of_ascii a)) as E
    by now rewrite H.
  now rewrite !ascii_nat_embedding in E.
Qed.

Lemma letter_not_dollar (c : ascii) :
  isLetter c = true -> isChar "$" c = false.
Proof. everyChar c. Qed.

Lemma upper_not_dollar (c : ascii) :
  isUpper c = true -> isChar "$" c = false.
Proof. everyChar c. Qed.

Lemma upper_of_letter (c : ascii) :
  isLetter c = true -> isUpper (toUpperChar c) = true.
Proof. everyChar c. Qed.

Lemma upper_fixed (c : ascii) : isUpper c = true -> toUpperChar c = c.
Proof. everyChar c. Qed.

Lemma upper_is_dollar (c : ascii) :
  isChar (toUpperChar "$") (toUpperChar c) = true -> c = "$"%char.
Proof. everyChar c. Qed.

Lemma letter_same_case (a c : ascii) :
  isChar (toUpperChar a) (toUpperChar c) = true -> isLetter c = isLetter a.
Proof.
  intros H. apply isChar_eq in H.
  assert (forall x, isLetter (toUpperChar x) = isLetter x) as Hup
    by (intros x; everyChar x).
  now rewrite <- (Hup c), H, Hup.
Qed.

Lemma toUpperCase_length (s : string) : length (toUpperCase s) = length s.
Proof. induction s as [|c s IH]; simpl; [reflexivity|now rewrite IH]. Qed.

Lemma toUpperCase_capitals (l : string) :
  allChars isLetter l = true -> allChars isUpper (toUpperCase l) = true.
Proof.
  induction l as [|c l IH]; simpl; [reflexivity|].
  intros H. apply andb_true_iff in H. destruct H as [Hc Hl].
  now rewrite (upper_of_letter c Hc), IH.
Qed.

Lemma toUpperCase_fixed (t : string) :
  allChars isUpper t = true -> toUpperCase t = t.
Proof.
  induction t as [|c t IH]; simpl; [reflexivity|].
  intros H. apply andb_true_iff in H. destruct H as [Hc Ht].
  now rewrite (upper_fixed c Hc), IH.
Qed.

(** *** Cleaning a captured token *)

Lemma clean_ticker (l : string) :
  ticker l ->
  cleanToken l = toUpperCase l /\
  cleanToken ("$" ++ l) = toUpperCase l.
Proof.
  intros [Hl [Hlen _]]. unfold cleanToken. split; [|reflexivity].
  destruct l as [|c l]; simpl in *; [lia|].
  apply andb_true_iff in Hl. destruct Hl as [Hc _].
  now rewrite (letter_not_dollar c Hc).
Qed.

Lemma clean_capitals (t : string) :
  allChars isUpper t = true -> cleanToken t = t.
Proof.
  intros H. unfold cleanToken.
  destruct t as [|c t]; [reflexivity|].
  pose proof H as H'. simpl in H'. apply andb_true_iff in H'.
  destruct H' as [Hc _]. simpl stripLeadingDollar.
  rewrite (upper_not_dollar c Hc). now apply toUpperCase_fixed.
Qed.

(** A string of 2 to 10 capitals that is no common word is a valid token,
    and cleaning leaves it as it is. *)
Lemma capitals_wellFormed (t : string) :
  allChars isUpper t = true -> 2 <= length t <= 10 ->
  has COMMON_WORDS t = false -> wellFormed t.
Proof.
  intros Hup Hlen Hcommon.
  pose proof (clean_capitals t Hup) as Hclean.
  unfold wellFormed. repeat split; auto; try lia.
  unfold isValidToken. rewrite Hclean, Hcommon.
  assert (Nat.ltb (length t) 2 = false) as -> by (apply Nat.ltb_ge; lia).
  assert (Nat.ltb 10 (length t) = false) as -> by (apply Nat.ltb_ge; lia).
  unfold onlyCapitals. rewrite Hup.
  destruct t; simpl in *; [lia|reflexivity].
Qed.

(** *** What the token groups span *)

Lemma spans_letters (l : string) : spans letters l -> ticker l.
Proof. intros [Hl [Hlo Hhi]]. split; [exact Hl|lia]. Qed.

Lemma spans_dollarOpt (d : string) :
  spans dollarOpt d -> d = EmptyString \/ d = "$".
Proof.
  intros [Hd [_ Hhi]]. destruct d as [|c [|c' d]]; simpl in *; auto; [|lia].
  right. apply andb_true_iff in Hd. destruct Hd as [Hc _].
  now rewrite (isChar_eq _ _ Hc).
Qed.

Lemma spans_dollar (d : string) : spans (Lit "$") d -> d = "$".
Proof.
  simpl. destruct d as [|c [|c' d]]; simpl; try discriminate.
  - rewrite andb_true_r. intros H. now rewrite (upper_is_dollar c H).
  - rewrite andb_false_r. discriminate.
Qed.

Lemma spans_tokenGroup (g : regex) (v : string) :
  tokenGroup g -> spans g v ->
  exists l, ticker l /\ occursIn l v /\ cleanToken v = toUpperCase l.
Proof.
  intros [-> | ->] (d & l & -> & Hd & Hl); apply spans_letters in Hl;
    exists l; (split; [exact Hl|]).
  - apply spans_dollarOpt in Hd. destruct Hd as [-> | ->].
    + split; [apply occursIn_refl|]. now apply clean_ticker.
    + split; [apply occursIn_right, occursIn_refl|]. now apply clean_ticker.
  - apply spans_dollar in Hd. subst d.
    split; [apply occursIn_right, occursIn_refl|]. now apply clean_ticker.
Qed.

Lemma intent_groups_all :
  Forall (fun r => Forall tokenGroup (groups r)) (BUY_PATTERNS ++ SELL_PATTERNS).
Proof.
  cbv [BUY_PATTERNS SELL_PATTERNS app].
  repeat (apply Forall_cons;
          [simpl; repeat constructor;
           first [left; reflexivity | right; reflexivity]|]).
  apply Forall_nil.
Qed.

Lemma intent_groups (r g : regex) :
  In r (BUY_PATTERNS ++ SELL_PATTERNS) -> In g (groups r) -> tokenGroup g.
Proof.
  intros Hr Hg. pose proof intent_groups_all as H.
  rewrite Forall_forall in H. specialize (H r Hr).
  rewrite Forall_forall in H. now apply H.
Qed.

(** *** What the number patterns span *)

Lemma spans_decimalNumber (n : string) : spans decimalNumber n -> decimal n.
Proof.
  intros (i & rest & -> & [Hi [Hlen _]] & p & f & -> & [Hp [_ Hone]] & [Hf _]).
  exists i, f. repeat split; auto.
  destruct p as [|c [|c' p]]; simpl in *; auto; [|lia].
  right. apply andb_true_iff in Hp. destruct Hp as [Hc _].
  now rewrite (isChar_eq _ _ Hc).
Qed.

Lemma digit_not_dollar (c : ascii) : isDigit c = true -> isChar "$" c = false.
Proof. everyChar c. Qed.

Lemma removeDollars_append (a b : string) :
  removeDollars (a ++ b) = (removeDollars a ++ removeDollars b)%string.
Proof.
  induction a as [|c a IH]; simpl; [reflexivity|].
  destruct (isChar "$" c); simpl; now rewrite IH.
Qed.

Lemma removeDollars_digits (i : string) :
  allChars isDigit i = true -> removeDollars i = i.
Proof.
  induction i as [|c i IH]; simpl; [reflexivity|].
  intros H. apply andb_true_iff in H. destruct H as [Hc Hi].
  now rewrite (digit_not_dollar c Hc), IH.
Qed.

Lemma removeDollars_decimal (n : string) : decimal n -> removeDollars n = n.
Proof.
  intros (i & f & Hi & _ & Hf & [-> | ->]);
    rewrite ?removeDollars_append, (removeDollars_digits i Hi),
      (removeDollars_digits f Hf);
    reflexivity.
Qed.

(** *** Signals of a post *)

Section AnyArithmetic.
Context {N : Type} {num : Number N}.

Lemma intentSignal_fields (post : Post) (act : Action) (tok : string)
    (s : TradingSignal N) :
  In s (intentSignal post act (Some tok)) ->
  isValidToken tok = true /\ action s = act /\ token s = cleanToken tok /\
  source s = sourceOf post /\
  amount s = extractAmount (originalText post) /\
  tp s = fst (extractTpSl (originalText post)) /\
  sl s = snd (extractTpSl (originalText post)).
Proof.
  simpl. destruct (truthy tok && isValidToken tok) eqn:Hok; simpl; [|tauto].
  apply andb_true_iff in Hok. destruct Hok as [_ Hvalid].
  intros [<-|[]]. simpl. auto 10.
Qed.

(** An invariant of [signals] up to the final filter: what holds of every
    signal an intent loop pushes and of every signal the mention loop pushes
    holds of all. *)
Lemma collected_Forall (P : TradingSignal N -> Prop) (post : Post) :
  (forall act r tok s,
      In r (BUY_PATTERNS ++ SELL_PATTERNS) ->
      In (Some tok) (matchAll r (originalText post)) ->
      In s (intentSignal post act (Some tok)) -> P s) ->
  (forall tok,
      In (Some tok) (matchAll TOKEN_MENTION_PATTERN (originalText post)) ->
      isKnownToken tok = true -> P (mentionSignal post tok)) ->
  Forall P (collected post).
Proof.
  intros Hintent Hmention. unfold collected.
  assert (Forall P (intentPhase post)) as Hphase.
  { rewrite Forall_forall. intros s Hs. unfold intentPhase in Hs.
    apply in_app_or in Hs.
    destruct Hs as [Hs|Hs]; unfold intentSignals in Hs;
      apply in_flat_map in Hs; destruct Hs as (r & Hr & Hs);
      apply in_flat_map in Hs; destruct Hs as ([tok|] & Hm & Hs);
      try contradiction;
      (eapply Hintent; [|exact Hm|exact Hs]); apply in_or_app; auto. }
  assert (forall ms signals,
             (forall m, In m ms ->
                In m (matchAll TOKEN_MENTION_PATTERN (originalText post))) ->
             Forall P signals ->
             Forall P (fold_left (addMention post) ms signals)) as Hloop.
  { induction ms as [|m ms IH]; intros signals Hms Hall; simpl; [exact Hall|].
    apply IH; [intros m' Hm'; apply Hms; now right|].
    destruct m as [tok|]; simpl; [|exact Hall].
    destruct (truthy tok && isKnownToken tok) eqn:Hk; [|exact Hall].
    destruct (existsb _ signals); simpl; [exact Hall|].
    apply Forall_app. split; [exact Hall|]. constructor; [|constructor].
    apply andb_true_iff in Hk. apply Hmention; [|apply Hk].
    apply Hms. now left. }
  apply Hloop; auto.
Qed.

Lemma parsed_Forall (P : TradingSignal N -> Prop) (post : Post) :
  (forall act r tok s,
      In r (BUY_PATTERNS ++ SELL_PATTERNS) ->
      In (Some tok) (matchAll r (originalText post)) ->
      In s (intentSignal post act (Some tok)) -> P s) ->
  (forall tok,
      In (Some tok) (matchAll TOKEN_MENTION_PATTERN (originalText post)) ->
      isKnownToken tok = true -> P (mentionSignal post tok)) ->
  forall s, In s (parseSignalsFromPost post) -> P s.
Proof.
  intros Hintent Hmention s Hs. apply SignalFacts.dedupe_incl in Hs.
  pose proof (collected_Forall P post Hintent Hmention) as H.
  rewrite Forall_forall in H. now apply H.
Qed.

Lemma parsed_source (post : Post) (s : TradingSignal N) :
  In s (parseSignalsFromPost post) -> source s = sourceOf post.
Proof.
  revert s. apply (parsed_Forall (fun s => source s = sourceOf post) post).
  - intros act r tok s' _ _ H. now apply intentSignal_fields in H.
  - reflexivity.
Qed.

Lemma parsed_fields (post : Post) (s : TradingSignal N) :
  In s (parseSignalsFromPost post) -> fieldsOfPost post s.
Proof.
  revert s. apply (parsed_Forall (fieldsOfPost post) post).
  - intros act r tok s' _ _ H. apply intentSignal_fields in H. left. tauto.
  - intros tok _ _. right. auto.
Qed.

Lemma parsed_tokenFromText (post : Post) (s : TradingSignal N) :
  In s (parseSignalsFromPost post) -> tokenFromText post s.
Proof.
  revert s. apply (parsed_Forall (tokenFromText post) post).
  - intros act r tok s' Hr Hm H. apply intentSignal_fields in H.
    destruct H as (_ & _ & Htok & _).
    destruct (matchAll_captures _ _ _ Hm) as (g & Hg & Hv & Hocc).
    destruct (spans_tokenGroup g tok (intent_groups r g Hr Hg) Hv)
      as (l & Hl & Hin & Hclean).
    exists l. split; [exact Hl|]. split; [|congruence].
    eapply occursIn_trans; eassumption.
  - intros tok Hm _.
    destruct (matchAll_captures _ _ _ Hm) as (g & Hg & Hv & Hocc).
    simpl in Hg. destruct Hg as [<-|[]]. apply spans_letters in Hv.
    exists tok. split; [exact Hv|]. split; [exact Hocc|].
    simpl. now apply clean_ticker.
Qed.

End AnyArithmetic.

(** *** The two word lists *)

Lemma validClean_valid (tok : string) :
  validClean (cleanToken tok) = true -> isValidToken tok = true.
Proof.
  unfold validClean, isValidToken. intros H.
  apply andb_true_iff in H. destruct H as [H Hcap].
  apply andb_true_iff in H. destruct H as [Hlen Hcommon].
  apply negb_true_iff in Hlen, Hcommon. now rewrite Hlen, Hcommon, Hcap.
Qed.

Lemma valid_validClean (tok : string) :
  isValidToken tok = true -> validClean (cleanToken tok) = true.
Proof.
  unfold validClean, isValidToken.
  destruct (Nat.ltb (length (cleanToken tok)) 2
            || Nat.ltb 10 (length (cleanToken tok))); [discriminate|].
  destruct (has COMMON_WORDS (cleanToken tok)); [discriminate|].
  now destruct (onlyCapitals (cleanToken tok)).
Qed.

Lemma known_validClean (c : string) :
  has KNOWN_TOKENS c = true -> validClean c = true.
Proof.
  intros H. apply SignalFacts.has_In in H.
  assert (forallb validClean KNOWN_TOKENS = true) as Hall
    by (vm_compute; reflexivity).
  rewrite forallb_forall in Hall. now apply Hall.
Qed.

Lemma validClean_wellFormed (c : string) :
  validClean c = true -> wellFormed c.
Proof.
  unfold validClean. intros H.
  apply andb_true_iff in H. destruct H as [H Hcap].
  apply andb_true_iff in H. destruct H as [Hlen Hcommon].
  apply negb_true_iff in Hlen, Hcommon. apply orb_false_iff in Hlen.
  destruct Hlen as [Hlo Hhi]. apply Nat.ltb_ge in Hlo, Hhi.
  unfold onlyCapitals in Hcap. apply andb_true_iff in Hcap.
  apply capitals_wellFormed; [apply Hcap|lia|exact Hcommon].
Qed.

(** *** Text without words *)

Lemma adjacent_left (a b : string) :
  hasAdjacentLetters a = true -> hasAdjacentLetters (a ++ b) = true.
Proof.
  induction a as [|x a IH]; [discriminate|].
  destruct a as [|y a]; [discriminate|].
  change (hasAdjacentLetters (String x (String y a)))
    with ((isLetter x && isLetter y) || hasAdjacentLetters (String y a)).
  change (hasAdjacentLetters (String x (String y a) ++ b))
    with ((isLetter x && isLetter y) || hasAdjacentLetters (String y a ++ b)).
  intros H. apply orb_true_iff in H. apply orb_true_iff.
  destruct H as [H|H]; [now left|right; now apply IH].
Qed.

Lemma adjacent_tail (c : ascii) (s : string) :
  hasAdjacentLetters s = true -> hasAdjacentLetters (String c s) = true.
Proof.
  destruct s as [|y s]; [discriminate|].
  intros H.
  change (hasAdjacentLetters (String c (String y s)))
    with ((isLetter c && isLetter y) || hasAdjacentLetters (String y s)).
  rewrite H. apply orb_true_r.
Qed.

Lemma adjacent_right (a b : string) :
  hasAdjacentLetters b = true -> hasAdjacentLetters (a ++ b) = true.
Proof.
  intros H. induction a as [|x a IH]; [exact H|].
  simpl append. now apply adjacent_tail.
Qed.

Lemma adjacent_sameText (l : string) :
  forall w, sameText l w = true -> hasAdjacentLetters w = hasAdjacentLetters l.
Proof.
  induction l as [|a l IH]; intros [|c w]; simpl; try discriminate; auto.
  intros H. apply andb_true_iff in H. destruct H as [Hc Hw].
  specialize (IH w Hw).
  destruct l as [|a' l], w as [|c' w]; try discriminate; auto.
  simpl in Hw. pose proof Hw as Hw'. apply andb_true_iff in Hw'.
  destruct Hw' as [Hc' _].
  change (hasAdjacentLetters (String c' w)
          = hasAdjacentLetters (String a' l)) in IH.
  rewrite (letter_same_case _ _ Hc), (letter_same_case _ _ Hc'), IH.
  reflexivity.
Qed.

Lemma every_ascii (c : ascii) : In c allAscii.
Proof.
  unfold allAscii. rewrite <- (ascii_nat_embedding c).
  apply in_map, in_seq. pose proof (nat_ascii_bounded c). lia.
Qed.

Lemma lettersOnly_letter (p : ascii -> bool) (c : ascii) :
  lettersOnly p = true -> p c = true -> isLetter c = true.
Proof.
  unfold lettersOnly. rewrite forallb_forall. intros H Hp.
  specialize (H c (every_ascii c)). now rewrite Hp in H.
Qed.

Lemma adjacent_run (p : ascii -> bool) (w : string) :
  lettersOnly p = true -> allChars p w = true -> 2 <= length w ->
  hasAdjacentLetters w = true.
Proof.
  intros Hp Hw Hlen. destruct w as [|a [|b w]]; simpl in Hlen; try lia.
  simpl in Hw. apply andb_true_iff in Hw. destruct Hw as [Ha Hw].
  apply andb_true_iff in Hw. destruct Hw as [Hb _].
  change (hasAdjacentLetters (String a (String b w)))
    with ((isLetter a && isLetter b) || hasAdjacentLetters (String b w)).
  now rewrite (lettersOnly_letter p a Hp Ha), (lettersOnly_letter p b Hp Hb).
Qed.

Lemma needsLetters_sound (r : regex) :
  needsLetters r = true ->
  forall w, spans r w -> hasAdjacentLetters w = true.
Proof.
  induction r as [l|p lo hi| |r1 IH1 r2 IH2|r1 IH1 r2 IH2|r1 IH1|r1 IH1];
    simpl; intros Hr w Hw; try discriminate.
  - now rewrite (adjacent_sameText l w Hw).
  - apply andb_true_iff in Hr. destruct Hr as [Hlo Hp].
    assert (2 <= lo) as Hlo'
      by (destruct lo as [|[|lo']]; try discriminate; lia).
    destruct Hw as [Hw [Hlen _]].
    apply (adjacent_run p w Hp Hw). lia.
  - destruct Hw as (w1 & w2 & -> & H1 & H2). apply orb_true_iff in Hr.
    destruct Hr as [Hr|Hr];
      [apply adjacent_left; now apply IH1|apply adjacent_right; now apply IH2].
  - apply andb_true_iff in Hr. destruct Hr as [Hr1 Hr2].
    destruct Hw as [Hw|Hw]; [now apply IH1|now apply IH2].
  - now apply IH1.
Qed.

(** A pattern that needs letters matches nowhere in a text that has no two
    adjacent letters. *)
Lemma execAll_no_letters (r : regex) (s : string) :
  needsLetters r = true ->
  forall prev skip, hasAdjacentLetters s = false -> execAll r prev s skip = [].
Proof.
  intros Hr.
  assert (forall prev s0, hasAdjacentLetters s0 = false ->
                          matchHere r prev s0 = None) as Hhere.
  { intros prev s0 Hs0.
    destruct (matchHere r prev s0) as [[cap rest]|] eqn:Hm; [|reflexivity].
    apply matchHere_sound in Hm. destruct Hm as (w & -> & Hw & _).
    apply (needsLetters_sound r Hr) in Hw.
    apply (adjacent_left w rest) in Hw. congruence. }
  induction s as [|c s IH]; intros prev skip Hs; simpl.
  - destruct (Nat.eqb skip 0); [|reflexivity]. now rewrite Hhere.
  - assert (hasAdjacentLetters s = false) as Htail.
    { destruct (hasAdjacentLetters s) eqn:E; [|reflexivity].
      apply (adjacent_tail c) in E. congruence. }
    destruct (Nat.eqb skip 0); [rewrite (Hhere _ _ Hs)|]; now apply IH.
Qed.

Lemma parser_patterns_need_letters :
  forallb needsLetters (BUY_PATTERNS ++ SELL_PATTERNS ++ [TOKEN_MENTION_PATTERN])
  = true.
Proof. vm_compute. reflexivity. Qed.

Lemma no_letters_no_signals {N : Type} {num : Number N} (post : Post) :
  hasAdjacentLetters (originalText post) = false ->
  parseSignalsFromPost (N:=N) post = [].
Proof.
  intros Htext.
  pose proof parser_patterns_need_letters as Hall.
  rewrite forallb_forall in Hall.
  assert (forall r, In r (BUY_PATTERNS ++ SELL_PATTERNS ++ [TOKEN_MENTION_PATTERN]) ->
                    matchAll r (originalText post) = []) as Hnone.
  { intros r Hr. apply execAll_no_letters; auto. }
  assert (forall (act : Action) (patterns : list regex),
             (forall r, In r patterns ->
                        matchAll r (originalText post) = []) ->
             intentSignals (N:=N) post act patterns = []) as Hintent.
  { intros act patterns Hp. unfold intentSignals.
    induction patterns as [|r rs IH]; simpl; [reflexivity|].
    rewrite (Hp r) by now left. simpl. apply IH.
    intros r' Hr'. apply Hp. now right. }
  unfold parseSignalsFromPost, collected, intentPhase.
  rewrite (Hintent buy BUY_PATTERNS), (Hintent sell SELL_PATTERNS).
  - rewrite (Hnone TOKEN_MENTION_PATTERN); [reflexivity|].
    apply in_or_app. right. apply in_or_app. right. now left.
  - intros r Hr. apply Hnone. apply in_or_app. right. apply in_or_app. now left.
  - intros r Hr. apply Hnone. apply in_or_app. now left.
Qed.

Import Examples.

(** *** The source and the extracted fields of a signal (X1) *)

(** X1.  Whatever the arithmetic, every signal a post returns carries as its
    source the id, the title, the author's name and the upvotes of that post,
    and its amount, take-profit and stop-loss are those extracted from the
    whole text of the post, or all absent (the mention-only signals); so two
    signals of one post never differ in these fields unless one of them is
    mention-only.  Every signal of a scan is such a signal of one of the
    posts scanned. *)
Theorem signal_fields_belong_to_the_post :
  (forall (N : Type) (num : Number N) (post : Post) (s : TradingSignal N),
      In s (parseSignalsFromPost post) ->
      source s = sourceOf post /\ fieldsOfPost post s) /\
  (forall (N : Type) (num : Number N) (posts : list Post) (s : TradingSignal N),
      In s (parseSignalsFromFeed posts) ->
      exists post, In post posts /\ In s (parseSignalsFromPost post) /\
                   source s = sourceOf post /\ fieldsOfPost post s).
Proof.
  split.
  - intros N num post s H.
    split; [now apply parsed_source|now apply parsed_fields].
  - intros N num posts s H.
    destruct (SignalFacts.feed_any (N:=N) posts) as [_ Hfrom].
    destruct (Hfrom s H) as (post & Hpost & Hs).
    exists post. repeat split; auto;
      [now apply parsed_source|now apply parsed_fields].
Qed.

Lemma signal_fields_belong_to_the_post_witness :
  exists s : TradingSignal Q,
    In s (parseSignalsFromFeed [weakPepe; pepePost]) /\
    exists post, In post [weakPepe; pepePost] /\
                 In s (parseSignalsFromPost post) /\
                 source s = sourceOf post /\ fieldsOfPost post s.
Proof.
  eexists. split; [vm_compute; left; reflexivity|].
  apply (proj2 signal_fields_belong_to_the_post Q Exact.number
           [weakPepe; pepePost]).
  vm_compute. left. reflexivity.
Defined.

(** *** The token of a signal (X2) *)

(** X2.  Whatever the arithmetic, the token of every signal of a scan is a
    run of 2 to 10 letters found in the text (title, space, content) of the
    post the signal cites, put in capitals; it is never one of the common
    words, [isValidToken] accepts it and [cleanToken] leaves it as it is. *)
Theorem signal_token_is_read_from_the_text :
  forall (N : Type) (num : Number N) (posts : list Post) (s : TradingSignal N),
    In s (parseSignalsFromFeed posts) ->
    exists post l,
      In post posts /\ source s = sourceOf post /\
      ticker l /\ occursIn l (originalText post) /\
      token s = toUpperCase l /\
      wellFormed (token s).
Proof.
  intros N num posts s H.
  destruct (SignalFacts.feed_any (N:=N) posts) as [_ Hfrom].
  destruct (Hfrom s H) as (post & Hpost & Hs).
  destruct (parsed_tokenFromText post s Hs) as (l & Hl & Hocc & Htok).
  exists post, l. split; [exact Hpost|]. split; [now apply parsed_source|].
  split; [exact Hl|]. split; [exact Hocc|]. split; [exact Htok|].
  { apply validClean_wellFormed.
    destruct (SignalFacts.parsed_origin post s Hs) as [Hi|(_ & Hknown & _)].
    + unfold intentPhase in Hi. apply in_app_or in Hi.
      destruct Hi as [Hi|Hi]; unfold intentSignals in Hi;
        apply in_flat_map in Hi; destruct Hi as (r & _ & Hi);
        apply in_flat_map in Hi; destruct Hi as ([tok|] & _ & Hi);
        try contradiction; apply intentSignal_fields in Hi;
        destruct Hi as (Hvalid & _ & -> & _); now apply valid_validClean.
    + now apply known_validClean. }
Qed.

Lemma signal_token_is_read_from_the_text_witness :
  exists s : TradingSignal Q,
    In s (parseSignalsFromFeed [dumpPepe]) /\
    exists post l,
      In post [dumpPepe] /\ source s = sourceOf post /\
      ticker l /\ occursIn l (originalText post) /\
      token s = toUpperCase l /\ wellFormed (token s).
Proof.
  eexists. split; [vm_compute; left; reflexivity|].
  apply (signal_token_is_read_from_the_text Q Exact.number [dumpPepe]).
  vm_compute. left. reflexivity.
Defined.

(** *** Valid and known tokens (X3) *)

(** X3.  A token that [isValidToken] accepts is cleaned into 2 to 10
    capitals that are no common word, which [isValidToken] accepts again and
    [cleanToken] no longer changes; and every token that [isKnownToken]
    accepts, [isValidToken] accepts too (no known token is a common word or
    ill-formed), so the mention loop, which tests [isKnownToken] alone,
    pushes valid tokens only. *)
Theorem known_tokens_are_valid_tokens :
  (forall tok : string,
      isValidToken tok = true -> wellFormed (cleanToken tok)) /\
  (forall tok : string,
      isKnownToken tok = true -> isValidToken tok = true).
Proof.
  split.
  - intros tok H. now apply validClean_wellFormed, valid_validClean.
  - intros tok H. now apply validClean_valid, known_validClean.
Qed.

Lemma known_tokens_are_valid_tokens_witness :
  wellFormed (cleanToken "$pepe") /\ isValidToken "$Doge" = true.
Proof.
  split.
  - apply (proj1 known_tokens_are_valid_tokens). reflexivity.
  - apply (proj2 known_tokens_are_valid_tokens). reflexivity.
Defined.

(** *** Amounts, targets and stops (X4) *)

(** X4.  What [extractAmount] and [extractTpSl] return is a decimal numeral
    (digits, then possibly a point and more digits) that occurs in the text;
    the amount never keeps a dollar sign. *)
Theorem extracted_numbers_are_decimals_of_the_text :
  forall text v : string,
    (extractAmount text = Some v \/
     fst (extractTpSl text) = Some v \/
     snd (extractTpSl text) = Some v) ->
    decimal v /\ occursIn v text /\ removeDollars v = v.
Proof.
  assert (forall r text v,
             groups r = [decimalNumber] ->
             matched (search r text) = Some v ->
             decimal v /\ occursIn v text /\ removeDollars v = v) as Hnum.
  { intros r text v Hr H. apply search_captures in H.
    destruct H as (g & Hg & Hv & Hocc). rewrite Hr in Hg.
    destruct Hg as [<-|[]]. apply spans_decimalNumber in Hv.
    repeat split; auto. now apply removeDollars_decimal. }
  intros text v [H|[H|H]].
  - unfold extractAmount in H.
    destruct (matched (search AMOUNT_PATTERN text)) as [v'|] eqn:Hm;
      [|discriminate].
    injection H as <-. apply search_captures in Hm.
    destruct Hm as (g & Hg & Hv & Hocc). simpl in Hg.
    destruct Hg as [<-|[]].
    destruct Hv as (d & n & -> & Hd & Hn).
    apply spans_decimalNumber in Hn. apply spans_dollarOpt in Hd.
    pose proof (removeDollars_decimal n Hn) as Hfix.
    assert (removeDollars (d ++ n) = n) as Hclean.
    { rewrite removeDollars_append, Hfix. now destruct Hd as [-> | ->]. }
    rewrite Hclean. repeat split; auto.
    eapply occursIn_trans; [|exact Hocc].
    apply occursIn_right, occursIn_refl.
  - apply (Hnum TP_PATTERN); [reflexivity|exact H].
  - apply (Hnum SL_PATTERN); [reflexivity|exact H].
Qed.

Lemma extracted_numbers_are_decimals_of_the_text_witness :
  decimal "50" /\ occursIn "50" "buy $PEPE with $50 usdt, tp 0.5" /\
  removeDollars "50" = "50".
Proof.
  apply (extracted_numbers_are_decimals_of_the_text
           "buy $PEPE with $50 usdt, tp 0.5" "50").
  left. vm_compute. reflexivity.
Defined.

(** *** Text without words (X5) *)

(** X5.  Whatever the arithmetic, a post whose text has no two adjacent
    letters (an empty title and no content, numbers, punctuation) yields no
    signal, and a batch of such posts yields an empty scan. *)
Theorem no_words_no_signals :
  forall (N : Type) (num : Number N) (posts : list Post),
    (forall post, In post posts ->
                  hasAdjacentLetters (originalText post) = false) ->
    (forall post, In post posts -> parseSignalsFromPost (N:=N) post = []) /\
    parseSignalsFromFeed (N:=N) posts = [].
Proof.
  intros N num posts Hposts.
  assert (forall post, In post posts -> parseSignalsFromPost (N:=N) post = [])
    as Hnone by (intros post Hp; now apply no_letters_no_signals, Hposts).
  split; [exact Hnone|].
  unfold parseSignalsFromFeed, tokenActionMap, allSignals.
  assert (flat_map (parseSignalsFromPost (N:=N)) posts = []) as ->.
  { induction posts as [|p ps IH]; simpl; [reflexivity|].
    rewrite (Hnone p) by now left. simpl. apply IH.
    - intros q Hq. apply Hposts. now right.
    - intros q Hq. apply Hnone. now right. }
  reflexivity.
Qed.

Lemma no_words_no_signals_witness :
  parseSignalsFromFeed (N:=float)
    [post "p9" EmptyString 3 None; post "p10" "+12.5% :) $ 7" 0 None] = [].
Proof.
  apply (no_words_no_signals float Binary64.number
           [post "p9" EmptyString 3 None; post "p10" "+12.5% :) $ 7" 0 None]).
  intros p [<-|[<-|[]]]; reflexivity.
Defined.

End SignalExtras.

(** ** Buying through the trade service: the quote comes first *)

Module BuyExtras.
Import Js Eff Observe TradeProps BuyProps RunFacts.

Lemma buyError_fails (msg : string) :
  isSuccess (TradeService.buyError msg) = false.
Proof.
  unfold TradeService.buyError.
  repeat match goal with
         | |- context [if ?c then _ else _] => destruct c
         end; reflexivity.
Qed.

Ltac quotedLeaf :=
  first
    [ apply buyError_fails
    | reflexivity
    | do 9 eexists; boolFacts;
      repeat (split; [first [reflexivity | eassumption | repeat constructor]|]);
      let Hs := fresh "Hs" in
      intros Hs;
      first
        [ rewrite buyError_fails in Hs; discriminate
        | discriminate
        | do 5 eexists; repeat split; reflexivity ] ].

(** X6. [buyToken] of the trade service sends what Kyberswap built and
    nothing else.  Before its first transaction it has made exactly two
    requests, the route and the build, both answered with an ok status; the
    transaction goes to the [routerAddress] of the build answer, with its
    [data] and the parsed amount as value.  No second transaction follows; a
    success reports the hash of that transaction and the token balance read
    after its receipt; and a run without a transaction is a failure. *)
Theorem buyToken_sends_what_kyberswap_built (w : World) (s : state w) (rt : Runtime)
    (epk token amountEth : string) :
  quotedFirst rt token amountEth
    (trace w (TradeService.buyToken rt epk token amountEth) s)
    (result w (TradeService.buyToken rt epk token amountEth) s).
Proof.
  unfold quotedFirst, trace, result, TradeService.buyToken,
    Kyber.getSwapQuote, tryCatch, bindM, await, lift, ret, throw. simpl.
  repeat stepE; quotedLeaf.
Qed.

(** *** The buy handler *)

Lemma fetches_not_sends (t rest : list Event) :
  Forall (fun e => isFetch e = true) t ->
  untilSend (t ++ rest)
  = (t ++ fst (untilSend rest), snd (untilSend rest)).
Proof.
  induction t as [|ev t IH]; simpl; intros H.
  - now destruct (untilSend rest).
  - inversion H as [|? ? Hev Ht]; subst.
    assert (isSend ev = false) as ->
      by (destruct ev as [A e a]; destruct e; simpl in *; congruence).
    rewrite (IH Ht). reflexivity.
Qed.

Lemma attempt_fetches (p : Provider)
    (out : option BuyApi.Quote * list Event * unit) :
  attemptOf p out -> Forall (fun e => isFetch e = true) (snd (fst out)).
Proof.
  intros (_ & H & _). eapply Forall_impl; [|exact H].
  intros [A e a]. destruct e; simpl; congruence.
Qed.

Lemma orNext_fetches (w : World) (attempt rest : Prog (option BuyApi.Quote)) :
  (forall s, Forall (fun e => isFetch e = true) (trace w attempt s)) ->
  (forall s, Forall (fun e => isFetch e = true) (trace w rest s)) ->
  forall s, Forall (fun e => isFetch e = true)
                   (trace w (BuyApi.orNext attempt rest) s).
Proof.
  intros Ha Hr s. unfold trace in *. rewrite RouterFacts.run_orNext.
  specialize (Ha s).
  destruct (run w attempt s) as [[[q|] t] s1]; simpl in *; [exact Ha|].
  specialize (Hr s1). destruct (run w rest s1) as [[r2 t2] s2]; simpl in *.
  apply Forall_app. now split.
Qed.

Lemma getSwapQuote_fetches (w : World) (s : state w)
    (buyToken sellAmount takerAddress apiKey : string) :
  Forall (fun e => isFetch e = true)
    (trace w (BuyApi.getSwapQuote buyToken sellAmount takerAddress apiKey) s).
Proof.
  revert s. unfold BuyApi.getSwapQuote.
  apply orNext_fetches;
    [intros s; apply (attempt_fetches _ _ (RouterFacts.tryKyberswap_attempt
                                            w s _ _ _))|].
  apply orNext_fetches;
    [intros s; apply (attempt_fetches _ _ (RouterFacts.tryOdos_attempt
                                            w s _ _ _))|].
  apply orNext_fetches;
    [intros s; apply (attempt_fetches _ _ (RouterFacts.tryParaSwap_attempt
                                            w s _ _ _))|].
  apply orNext_fetches;
    [intros s; apply (attempt_fetches _ _ (RouterFacts.tryOneInch_attempt
                                            w s _ _ _ _))|].
  intros s. constructor.
Qed.

Lemma buyError_not_200 (msg : string) : code (BuyApi.buyError msg) <> 200.
Proof.
  unfold BuyApi.buyError.
  repeat match goal with
         | |- context [if ?c then _ else _] => destruct c
         end; simpl; discriminate.
Qed.

Ltac sentLeaf :=
  first
    [ let resp := fresh "resp" in
      let H := fresh "H" in
      intros resp H; first [discriminate H | injection H as <-; discriminate]
    | split; [reflexivity|];
      split; [|repeat constructor];
      do 4 eexists; split; [reflexivity|];
      let resp := fresh "resp" in
      let H := fresh "H" in
      let Hc := fresh "Hc" in
      intros resp H Hc;
      first [ discriminate H
            | injection H as <-; first [discriminate Hc
                                       | do 3 eexists; repeat split; reflexivity] ] ].

Lemma aggregatorBuy_sentFirst (w : World) (s : state w) (rt : Runtime)
    (token address : string) (amountIn : Z) (quote : BuyApi.Quote) :
  sentFirst (fst (run w (BuyApi.aggregatorBuy rt token address amountIn quote) s)).
Proof.
  unfold sentFirst, BuyApi.aggregatorBuy, BuyApi.settle, BuyApi.tokenInfo,
    bindM, await, lift, ret, throw. simpl.
  repeat step; sentLeaf.
Qed.

Lemma devBuy_sentFirst (w : World) (s : state w) (rt : Runtime)
    (token address : string) (amountIn : Z) :
  sentFirst (fst (run w (BuyApi.devBuy rt token address amountIn) s)).
Proof.
  unfold sentFirst, BuyApi.devBuy, BuyApi.settle, BuyApi.tokenInfo,
    bindM, await, lift, ret, throw. simpl.
  repeat step; sentLeaf.
Qed.

#[local] Opaque BuyApi.getSwapQuote.

Ltac noSend :=
  unfold checkedFirst; simpl;
  first [ discriminate
        | intros _; reflexivity
        | let H := fresh "H" in
          intros H; exfalso; exact (buyError_not_200 _ H) ].

(** The handler past the balance check: the calls so far, then the quote,
    then what follows it. *)
Lemma checked_then_sent (rt : Runtime) (req : BuyApi.BuyRequest)
    (row : AgentRow) (rows : list AgentRow) (address : string)
    (balance amountIn gasBuffer : Z) (tq t : list Event)
    (r : Exc HttpResponse) :
  Forall (fun e => isFetch e = true) tq ->
  parseEther rt (orElse (BuyApi.amountEth req) "0.001") = inr amountIn ->
  parseEther rt "0.0005" = inr gasBuffer ->
  (balance <? amountIn + gasBuffer)%Z = false ->
  sentFirst (r, t) ->
  checkedFirst rt req
    (Called (SelectAgent (BuyApi.sessionId req)) (inr (row :: rows))
     :: Called (GetBalance address) (inr balance) :: tq ++ t)
    (match r with inl msg => BuyApi.buyError msg | inr resp => resp end).
Proof.
  intros Hq Hamount Hbuffer Henough Hsent.
  unfold checkedFirst, sentFirst in *. simpl in *.
  rewrite (fetches_not_sends tq t Hq).
  destruct (untilSend t) as [pre [[ev post]|]]; simpl.
  - destruct Hsent as (-> & (to & data & value & res & -> & Hok) & Hpost).
    exists row, rows, address, balance, amountIn, gasBuffer, tq, to, data,
      value, res.
    rewrite app_nil_r.
    repeat (split; [first [reflexivity | assumption | now apply Z.ltb_ge]|]).
    intros Hcode. destruct r as [msg|resp].
    + elim (buyError_not_200 _ Hcode).
    + now apply Hok.
  - intros Hcode. destruct r as [msg|resp].
    + elim (buyError_not_200 _ Hcode).
    + elim (Hsent resp eq_refl Hcode).
Qed.

(** X7. The buy handler sends one transaction at most, and only after
    the database returned a wallet and the balance read was at least the
    amount (or 0.001 ETH) plus the gas buffer of 0.0005 ETH; between that
    read and the transaction it only talks to the aggregators.  A 200 other
    than the empty answer to OPTIONS means that the transaction was accepted
    and its receipt awaited next, and reports success with its hash. *)
Theorem buy_handler_sends_once_after_the_balance_check (w : World) (s : state w) (rt : Runtime)
    (apiKey : string) (req : BuyApi.BuyRequest) :
  checkedFirst rt req
    (trace w (BuyApi.handler rt apiKey req) s)
    (result w (BuyApi.handler rt apiKey req) s).
Proof.
  unfold trace, result, BuyApi.handler, BuyApi.insufficientEth,
    tryCatch, bindM, await, lift, ret.
  repeat (stepE; try solve [noSend]).
  boolFacts.
  match goal with
  | |- context [run w (bind (bind (bind
                  (BuyApi.getSwapQuote ?tok ?amt ?addr ?k) _) _) _) ?st] =>
      rewrite !run_bind;
      pose proof (getSwapQuote_fetches w st tok amt addr k) as Hq;
      unfold trace in Hq;
      destruct (run w (BuyApi.getSwapQuote tok amt addr k) st)
        as [[q tq] sq]
  end.
  simpl in Hq |- *.
  match goal with
  | |- context [run w ?p sq] =>
      assert (sentFirst (fst (run w p sq))) as Hsent
        by (destruct q; [apply aggregatorBuy_sentFirst|apply devBuy_sentFirst]);
      destruct (run w p sq) as [[r t] st]
  end.
  simpl in Hsent.
  destruct r as [msg|resp]; simpl; rewrite ?app_nil_r;
    match goal with
    | |- checkedFirst _ _ _ ?x =>
        first [ change x with (match @inl string HttpResponse msg with
                               | inl m => BuyApi.buyError m
                               | inr resp0 => resp0
                               end)
              | change x with (match @inr string HttpResponse x with
                               | inl m => BuyApi.buyError m
                               | inr resp0 => resp0
                               end) ]
    end;
    eapply checked_then_sent; eassumption.
Qed.

End BuyExtras.

(** ** Runs of server tasks *)

Module TaskFacts.
Import Js Eff Server.

Lemma runT_bindT {R S : Type} (b : Backend) (p : Task R) (f : R -> Task S) :
  forall s : bstate b,
    runT b (bindT p f) s =
    let '(r, t1, s1) := runT b p s in
    let '(r', t2, s2) := runT b (f r) s1 in
    (r', t1 ++ t2, s2).
Proof.
  induction p as [r|A c k IH]; intros s; simpl.
  - destruct (runT b (f r) s) as [[r' t2] s2]. reflexivity.
  - destruct (serve b A c s) as [a s1]. rewrite IH.
    destruct (runT b (k a) s1) as [[r t1] s1'].
    destruct (runT b (f r) s1') as [[r' t2] s2]. reflexivity.
Qed.

(** A program of the trade code runs in the server as it runs in the world
    the backend shows it. *)
Lemma runT_core {R : Type} (b : Backend) (p : Prog R) :
  forall s : bstate b,
    runT b (core p) s =
    let '(r, t, s') := run (worldOf b) p s in (r, map ofEvent t, s').
Proof.
  induction p as [r|A e k IH]; intros s; simpl; [reflexivity|].
  destruct (serve b A (Core e) s) as [a s1]. rewrite IH.
  destruct (run (worldOf b) (k a) s1) as [[r t] s2]. reflexivity.
Qed.

Lemma runT_calm {R : Type} (b : Backend) (p : Task R) (s : bstate b) :
  runT b (calm p) s =
  let '(r, t, s') := runT b p s in (inr r, t, s').
Proof.
  unfold calm. rewrite runT_bindT.
  destruct (runT b p s) as [[r t] s']. simpl. now rewrite app_nil_r.
Qed.

Lemma runT_bindTM {A B : Type} (b : Backend) (m : TM A) (f : A -> TM B)
    (s : bstate b) :
  runT b (bindTM m f) s =
  let '(r, t1, s1) := runT b m s in
  match r with
  | inl msg => (inl msg, t1, s1)
  | inr a => let '(r', t2, s2) := runT b (f a) s1 in (r', t1 ++ t2, s2)
  end.
Proof.
  unfold bindTM. rewrite runT_bindT.
  destruct (runT b m s) as [[[msg|a] t1] s1]; simpl.
  - now rewrite app_nil_r.
  - reflexivity.
Qed.

(** Case analysis along a run of a task. *)
Ltac stepT :=
  match goal with
  | |- context [serve ?b ?A ?c ?s] =>
      let a := fresh "a" in
      let s' := fresh "s" in
      destruct (serve b A c s) as [a s'] eqn:?; simpl
  | |- context [match ?x with _ => _ end] =>
      lazymatch x with
      | context [runT] => fail
      | context [run] => fail
      | context [serve] => fail
      | _ => destruct x eqn:?; simpl
      end
  end.

End TaskFacts.

(** ** Unwrapping WETH and claiming fees *)

Module VaultFacts.
Import Js Eff Observe Server ServerProps TaskFacts.

Lemma failure_fails (msg : string) : isSuccess (failure msg) = false.
Proof. reflexivity. Qed.

Ltac numbers :=
  repeat match goal with
         | H : (_ =? _)%Z = false |- _ => apply Z.eqb_neq in H
         | H : (_ >? _)%Z = false |- _ =>
             rewrite Z.gtb_ltb in H; apply Z.ltb_ge in H
         end.

Ltac quietLeaf :=
  left; split;
  [ repeat constructor
  | repeat match goal with
           | |- context [if ?c then _ else _] => destruct c
           end; reflexivity ].

Ltac withdrawRest :=
  do 5 eexists;
  split; [reflexivity|];
  split; [repeat constructor|];
  split; [repeat constructor|];
  split; [eassumption|];
  split; [eassumption|];
  split; [eassumption|];
  let Hs := fresh "Hs" in
  intros Hs;
  first [ discriminate Hs
        | exfalso;
          repeat match goal with
                 | H : context [if ?c then _ else _] |- _ => destruct c
                 end; discriminate
        | do 2 eexists; repeat split; reflexivity ].

Ltac withdrawLeaf :=
  right; numbers;
  first [ solve [exists []; withdrawRest]
        | solve [eexists (cons _ nil); withdrawRest] ].

Lemma unwrapWeth_withinBalance (b : Backend) (s : bstate b) (rt : Runtime)
    (epk : string) (amount : option string) :
  withinBalance rt amount
    (calls b (unwrapWeth rt epk amount) s)
    (outcome b (unwrapWeth rt epk amount) s).
Proof.
  unfold withinBalance, calls, outcome, unwrapWeth, unwrapFrom,
    tryCatchT, bindTM, awaitT, liftT, retT. simpl.
  repeat stepT; first [solve [quietLeaf] | solve [withdrawLeaf]].
Qed.

Lemma unwrapHandler_withinBalance (b : Backend) (s : bstate b) (rt : Runtime)
    (req_method : string) (sessionId amount : option string) :
  withinBalance rt amount
    (calls b (unwrapHandler rt req_method sessionId amount) s)
    (payload (outcome b (unwrapHandler rt req_method sessionId amount) s)).
Proof.
  unfold withinBalance, calls, outcome, unwrapHandler, unwrapFrom,
    tryCatchT, bindTM, awaitT, liftT, retT. simpl.
  repeat stepT; first [solve [quietLeaf] | solve [withdrawLeaf]].
Qed.

Lemma tradeUnwrap_withinBalance (b : Backend) (s : bstate b) (rt : Runtime)
    (sessionId amount : option string) :
  withinBalance rt amount
    (calls b (tradeUnwrap rt sessionId amount) s)
    (payload (outcome b (tradeUnwrap rt sessionId amount) s)).
Proof.
  unfold withinBalance, calls, outcome, tradeUnwrap, unwrapWeth, unwrapFrom,
    tryCatchT, bindTM, calm, awaitT, liftT, retT. simpl.
  repeat stepT; first [solve [quietLeaf] | solve [withdrawLeaf]].
Qed.

(** X8. Unwrapping WETH, through [unwrapWeth] of the trade service, through
    the unwrap handler and through the unwrap route of the Express server
    alike, submits at most one transaction: a withdrawal that comes right
    after the read of the WETH balance, of the amount the request resolves to
    ("all" or nothing given: the balance), which is at most that balance, the
    balance being not zero.  Without that withdrawal the answer is a failure;
    a success reports the hash of the accepted withdrawal, after its receipt,
    and the amount withdrawn. *)
Theorem unwrap_stays_within_the_weth_balance (b : Backend) (rt : Runtime) :
  (forall (s : bstate b) (epk : string) (amount : option string),
      withinBalance rt amount
        (calls b (unwrapWeth rt epk amount) s)
        (outcome b (unwrapWeth rt epk amount) s)) /\
  (forall (s : bstate b) (req_method : string)
          (sessionId amount : option string),
      withinBalance rt amount
        (calls b (unwrapHandler rt req_method sessionId amount) s)
        (payload (outcome b (unwrapHandler rt req_method sessionId amount) s))) /\
  (forall (s : bstate b) (sessionId amount : option string),
      withinBalance rt amount
        (calls b (tradeUnwrap rt sessionId amount) s)
        (payload (outcome b (tradeUnwrap rt sessionId amount) s))).
Proof.
  split; [|split]; intros.
  - apply unwrapWeth_withinBalance.
  - apply unwrapHandler_withinBalance.
  - apply tradeUnwrap_withinBalance.
Qed.

(** A run where the withdrawal goes through: nothing asked for, so the
    whole balance is withdrawn. *)
Example unwrap_goes_through :
  let p := unwrapWeth demoRuntime "0xkey" None in
  map ServerExamples.callOf (calls ServerExamples.demoServer p tt)
  = ["balanceOf"; "withdraw"; "waitForTransactionReceipt"] /\
  outcome ServerExamples.demoServer p tt
  = obj [ ("success", JBool true); ("transactionHash", JStr "0xunwrap");
          ("ethReceived", JStr "250") ].
Proof. split; vm_compute; reflexivity. Qed.

(** *** Fees *)

Ltac claimLeaf :=
  first
    [ solve [ left; split;
              [ repeat constructor
              | repeat match goal with
                       | |- context [if ?c then _ else _] => destruct c
                       end; reflexivity ] ]
    | solve [ right; numbers; do 3 eexists;
              split; [first [eassumption | reflexivity]|];
              split; [reflexivity|];
              split; [eassumption|];
              first [ reflexivity
                    | repeat match goal with
                             | |- context [if ?c then _ else _] => destruct c
                             end; reflexivity ] ] ].

(** X9. [claimFees] claims exactly what it has just read: its calls are
    the read of the WETH fees of the account of the key and the claim of that
    amount, which is not zero, for that account; the result is a success, with
    the hash and the amount, exactly when the claim was accepted (no receipt
    is awaited).  In every other run nothing is submitted and the result is a
    failure. *)
Theorem claimFees_claims_what_it_read (b : Backend) (s : bstate b) (rt : Runtime)
    (ethFixed6 : Z -> string) (epk : string) :
  claimsWhatItRead rt ethFixed6 epk
    (calls b (claimFees ethFixed6 rt epk) s)
    (outcome b (claimFees ethFixed6 rt epk) s).
Proof.
  unfold claimsWhatItRead, calls, outcome, claimFees,
    tryCatchT, bindTM, awaitT, liftT, retT. simpl.
  repeat stepT; claimLeaf.
Qed.

Lemma feesOf_run (b : Backend) (wallet tok : string) (s : bstate b) :
  runT b (feesOf wallet tok) s =
  let (a, s1) := serve b _ (ReadFeesToClaim wallet WETH) s in
  (match a with
   | inl msg => inl msg
   | inr fees => inr (if (fees >? 0)%Z then [(tok, fees)] else [])
   end, [Occurred (ReadFeesToClaim wallet WETH) a], s1).
Proof.
  unfold feesOf, bindTM, awaitT, retT. simpl.
  destruct (serve b _ (ReadFeesToClaim wallet WETH) s) as [[msg|fees] s1];
    simpl; [reflexivity|].
  destruct (fees >? 0)%Z; reflexivity.
Qed.

Lemma collectFees_step (b : Backend) (wallet tok : string)
    (rest : list string) (s : bstate b) :
  runT b (collectFees wallet (tok :: rest)) s =
  let (a, s1) := serve b _ (ReadFeesToClaim wallet WETH) s in
  let o := Occurred (ReadFeesToClaim wallet WETH) a in
  match a with
  | inl msg => (inl msg, [o], s1)
  | inr fees =>
      let '(r, t, s2) := runT b (collectFees wallet rest) s1 in
      (match r with
       | inl msg => inl msg
       | inr more =>
           inr ((if (fees >? 0)%Z then [(tok, fees)] else []) ++ more)
       end, o :: t, s2)
  end.
Proof.
  simpl collectFees. rewrite runT_bindTM, feesOf_run.
  destruct (serve b _ (ReadFeesToClaim wallet WETH) s) as [[msg|fees] s1];
    [reflexivity|].
  rewrite runT_bindTM.
  destruct (runT b (collectFees wallet rest) s1) as [[[msg|more] t] s2];
    simpl; rewrite ?app_nil_r; reflexivity.
Qed.

Lemma feeRead_same (wallet : string) (a : Exc Z) :
  isFeeRead wallet (Occurred (ReadFeesToClaim wallet WETH) a) = true.
Proof. simpl. now rewrite !String.eqb_refl. Qed.

Lemma collectFees_reads (b : Backend) (wallet : string)
    (tokens : list string) :
  forall s : bstate b,
    Forall (fun o => isFeeRead wallet o = true)
           (calls b (collectFees wallet tokens) s) /\
    List.length (calls b (collectFees wallet tokens) s) <= List.length tokens.
Proof.
  unfold calls.
  induction tokens as [|tok rest IH]; intros s.
  - simpl. split; [constructor|lia].
  - rewrite collectFees_step.
    destruct (serve b _ (ReadFeesToClaim wallet WETH) s) as [[msg|fees] s1].
    + cbn [fst snd List.length]. split; [|lia].
      constructor; [apply feeRead_same|constructor].
    + specialize (IH s1).
      destruct (runT b (collectFees wallet rest) s1) as [[r t] s2].
      cbn [fst snd List.length] in *. destruct IH as [Hall Hlen].
      split; [|lia].
      constructor; [apply feeRead_same|exact Hall].
Qed.

Lemma getClaimableFees_calls (b : Backend) (ethFixed6 : Z -> string)
    (rt : Runtime) (wallet : string) (tokens : list string) (s : bstate b) :
  calls b (getClaimableFees ethFixed6 rt wallet tokens) s =
  calls b (collectFees wallet tokens) s.
Proof.
  unfold calls, getClaimableFees, tryCatchT.
  rewrite runT_bindT, runT_bindTM.
  destruct (runT b (collectFees wallet tokens) s) as [[[msg|results] t] s1];
    simpl; [now rewrite app_nil_r|].
  destruct (sumFees rt results 0); simpl; now rewrite !app_nil_r.
Qed.

(** When every read answers the same fees. *)
Lemma collectFees_uniform (b : Backend) (wallet : string) (fees : Z)
    (Hsame : forall s : bstate b,
        fst (serve b _ (ReadFeesToClaim wallet WETH) s) = inr fees)
    (tokens : list string) :
  forall s : bstate b,
    outcome b (collectFees wallet tokens) s =
    inr (if (fees >? 0)%Z then map (fun tok => (tok, fees)) tokens else []).
Proof.
  unfold outcome.
  induction tokens as [|tok rest IH]; intros s.
  - simpl. now destruct (fees >? 0)%Z.
  - rewrite collectFees_step. specialize (Hsame s).
    destruct (serve b _ (ReadFeesToClaim wallet WETH) s) as [a s1].
    simpl in Hsame. subst a. specialize (IH s1).
    destruct (runT b (collectFees wallet rest) s1) as [[r t] s2].
    simpl in IH. subst r. cbn [fst].
    destruct (fees >? 0)%Z; reflexivity.
Qed.

Lemma sumFees_uniform (rt : Runtime) (fees : Z)
    (Hround : toBigInt rt (str (bigintToString rt fees)) = inr fees)
    (tokens : list string) :
  forall sum : Z,
    sumFees rt (map (fun tok : string => (tok, fees)) tokens) sum =
    inr (sum + fees * Z.of_nat (List.length tokens))%Z.
Proof.
  induction tokens as [|tok rest IH]; intros sum.
  - simpl. f_equal. lia.
  - cbn [map sumFees snd]. rewrite Hround, IH. f_equal.
    cbn [List.length]. lia.
Qed.

(** A run where the fees are claimed. *)
Example claim_goes_through :
  let p := claimFees (bigintToString demoRuntime) demoRuntime "0xkey" in
  map ServerExamples.callOf (calls ServerExamples.demoServer p tt)
  = ["feesToClaim"; "claim"] /\
  outcome ServerExamples.demoServer p tt
  = obj [ ("success", JBool true); ("transactionHash", JStr "0xclaim");
          ("amountClaimed", JStr "5") ].
Proof. split; vm_compute; reflexivity. Qed.

(** X10. Whatever tokens [getClaimableFees] is asked about, every call it
    makes is the same read: the WETH fees the locker holds for the wallet.
    There is at most one read per token, and no token address reaches the
    chain. *)
Theorem claimable_fees_are_read_for_the_wallet_only (b : Backend)
    (ethFixed6 : Z -> string) (rt : Runtime) (wallet : string)
    (tokens : list string) (s : bstate b) :
  Forall (fun o => isFeeRead wallet o = true)
         (calls b (getClaimableFees ethFixed6 rt wallet tokens) s) /\
  List.length (calls b (getClaimableFees ethFixed6 rt wallet tokens) s)
    <= List.length tokens.
Proof.
  rewrite getClaimableFees_calls. apply collectFees_reads.
Qed.

(** X11. When the locker holds [fees] > 0 of WETH for the wallet,
    [getClaimableFees] lists every token asked about with that same amount,
    and the total it reports is that amount times the number of tokens. *)
Theorem claimable_fees_count_once_per_token (b : Backend)
    (ethFixed6 : Z -> string) (rt : Runtime) (wallet : string) (fees : Z)
    (tokens : list string) (s : bstate b)
    (Hpos : (0 < fees)%Z)
    (Hsame : forall st : bstate b,
        fst (serve b _ (ReadFeesToClaim wallet WETH) st) = inr fees)
    (Hround : toBigInt rt (str (bigintToString rt fees)) = inr fees) :
  outcome b (getClaimableFees ethFixed6 rt wallet tokens) s =
  obj [ ("claimableTokens",
          JArr (map (fun tok => claimable ethFixed6 rt (tok, fees)) tokens));
        ("totalFees",
          JStr (ethFixed6 (fees * Z.of_nat (List.length tokens))%Z)) ].
Proof.
  pose proof (collectFees_uniform b wallet fees Hsame tokens s) as Hc.
  unfold outcome in *. unfold getClaimableFees, tryCatchT.
  rewrite runT_bindT, runT_bindTM.
  destruct (runT b (collectFees wallet tokens) s) as [[r t] s1].
  simpl in Hc. subst r.
  assert ((fees >? 0)%Z = true) as -> by (apply Z.gtb_lt; lia).
  rewrite runT_bindTM. unfold liftT. cbn [runT].
  rewrite (sumFees_uniform rt fees Hround tokens 0). cbn.
  rewrite map_map. reflexivity.
Qed.

Lemma claimable_fees_count_once_per_token_witness :
  outcome (ServerExamples.feeLocker 5)
    (getClaimableFees (bigintToString demoRuntime) demoRuntime "0xA11CE"
       ["0xaaa"; "0xbbb"]) tt =
  obj [ ("claimableTokens",
          JArr [ JObj [ ("tokenAddress", JStr "0xaaa"); ("fees", JStr "5");
                        ("feesEth", JStr "5") ];
                 JObj [ ("tokenAddress", JStr "0xbbb"); ("fees", JStr "5");
                        ("feesEth", JStr "5") ] ]);
        ("totalFees", JStr "10") ].
Proof.
  apply (claimable_fees_count_once_per_token (ServerExamples.feeLocker 5)
           (bigintToString demoRuntime) demoRuntime "0xA11CE" 5
           ["0xaaa"; "0xbbb"] tt).
  - reflexivity.
  - intros []. reflexivity.
  - reflexivity.
Defined.

End VaultFacts.

(** ** The trading and wallet routes of the Express server *)

Module RouteFacts.
Import Js Eff Observe Server ServerProps TaskFacts.

Lemma present_named (a : option string) :
  present a = true -> exists v, a = Some v /\ v <> EmptyString /\ orElse a EmptyString = v.
Proof.
  destruct a as [v|]; [|discriminate].
  destruct v as [|c v]; [discriminate|]. intros _.
  exists (String c v). repeat split. discriminate.
Qed.

(** The shape the buy and the sell route share. *)
Lemma route_handsOver (b : Backend) (s : bstate b)
    (sessionId tokenAddress : option string)
    (service : string -> string -> Prog Value)
    (refusal : HttpResponse) (h : string -> Task HttpResponse)
    (Hrefusal : code refusal <> 200)
    (Hh : forall msg s', exists r, runT b (h msg) s' = (r, [], s') /\ code r <> 200) :
  let route :=
    tryCatchT (
      agent <~ awaitT (GetAgent sessionId) ;;
      match keyOf agent with
      | None => retT noWallet
      | Some key =>
          if negb (present tokenAddress) then retT refusal
          else
            result <~ calm (core (service key
                                    (orElse tokenAddress EmptyString))) ;;
            retT (send result)
      end) h in
  handsOver b s sessionId tokenAddress service
    (calls b route s) (outcome b route s).
Proof.
  intros route. subst route.
  unfold handsOver, calls, outcome, tryCatchT.
  rewrite !runT_bindT, !runT_bindTM. unfold awaitT. cbn [runT].
  destruct (serve b _ (GetAgent sessionId) s) as [[msg|agent] s1] eqn:Hagent.
  { left. destruct (Hh msg s1) as [r [-> Hr]].
    eexists. split; [reflexivity|exact Hr]. }
  destruct (keyOf agent) as [key|] eqn:Hkey;
    [| left; eexists; split; [reflexivity|discriminate] ].
  destruct (present tokenAddress) eqn:Htok; cbn [negb];
    [| left; eexists; split; [reflexivity|exact Hrefusal] ].
  destruct (present_named tokenAddress Htok) as [token [-> [Hne Horelse]]].
  rewrite Horelse, runT_bindTM, runT_calm, runT_core.
  right. exists agent, key, token, s1.
  unfold trace, result.
  destruct (run (worldOf b) (service key token) s1) as [[r t] s2].
  cbn. rewrite ?app_nil_r. repeat split; assumption.
Qed.

Lemma tradeBuy_handsOver (b : Backend) (s : bstate b) (rt : Runtime)
    (sessionId tokenAddress amountEth : option string) :
  handsOver b s sessionId tokenAddress
    (fun key token =>
       TradeService.buyToken rt key token (orElse amountEth "0.01"))
    (calls b (tradeBuy rt sessionId tokenAddress amountEth) s)
    (outcome b (tradeBuy rt sessionId tokenAddress amountEth) s).
Proof.
  apply (route_handsOver b s sessionId tokenAddress
           (fun key token =>
              TradeService.buyToken rt key token (orElse amountEth "0.01"))).
  - discriminate.
  - intros msg s'. eexists. split; [reflexivity|discriminate].
Qed.

Lemma tradeSell_handsOver (b : Backend) (s : bstate b) (rt : Runtime)
    (sessionId tokenAddress amount : option string) :
  handsOver b s sessionId tokenAddress
    (fun key token =>
       TradeService.sellToken rt key token (orElse amount "all"))
    (calls b (tradeSell rt sessionId tokenAddress amount) s)
    (outcome b (tradeSell rt sessionId tokenAddress amount) s).
Proof.
  apply (route_handsOver b s sessionId tokenAddress
           (fun key token =>
              TradeService.sellToken rt key token (orElse amount "all"))).
  - discriminate.
  - intros msg s'. eexists. split; [reflexivity|discriminate].
Qed.

(** X12. The buy and the sell route of the Express server call the trade
    service only for an agent with a stored key and a token address that is
    not empty; otherwise the lookup of the agent is the only call and the
    status is not 200.  When they call it, they call it once, with the amount
    given or "0.01" ETH for a buy and "all" for a sell, and answer 200 with
    its result as it is, a failed trade included. *)
Theorem trade_routes_hand_over_to_the_service (b : Backend) (s : bstate b)
    (rt : Runtime) (sessionId tokenAddress amount : option string) :
  handsOver b s sessionId tokenAddress
    (fun key token =>
       TradeService.buyToken rt key token (orElse amount "0.01"))
    (calls b (tradeBuy rt sessionId tokenAddress amount) s)
    (outcome b (tradeBuy rt sessionId tokenAddress amount) s) /\
  handsOver b s sessionId tokenAddress
    (fun key token =>
       TradeService.sellToken rt key token (orElse amount "all"))
    (calls b (tradeSell rt sessionId tokenAddress amount) s)
    (outcome b (tradeSell rt sessionId tokenAddress amount) s).
Proof.
  split; [apply tradeBuy_handsOver|apply tradeSell_handsOver].
Qed.

Ltac quietRefusal :=
  left; split; [repeat constructor|discriminate].

(** X13. A transfer of the whole balance ("max", or no amount) sends
    nothing unless the balance read is above the gas buffer of 0.0001 ETH
    (a failed read counts as an empty wallet).  What is sent then is one
    plain transfer to the address given, of the amount that [parseEther]
    reads from [(Number(balance - buffer) / 1e18).toFixed(18)]: the balance
    less the buffer as binary64 rounds it, which need not be the balance
    less the buffer.  The answer is 200, with the hash and that decimal
    amount, exactly when the transaction was accepted; its receipt is not
    awaited. *)
Theorem max_transfer_sends_the_rounded_balance (b : Backend) (s : bstate b)
    (rt : Runtime) (numberToString : float -> string)
    (sessionId toAddress amount : option string)
    (Hmax : asksForMax amount = true) :
  sendsAllButBuffer rt numberToString sessionId toAddress
    (calls b (walletTransfer numberToString rt sessionId toAddress amount) s)
    (outcome b (walletTransfer numberToString rt sessionId toAddress amount) s).
Proof.
  unfold asksForMax in Hmax.
  unfold sendsAllButBuffer, calls, outcome, walletTransfer, ethFixed18.
  rewrite Hmax.
  unfold WalletService.getWalletBalance, WalletService.transferEth,
    tryCatchT, bindTM, calm, awaitT, liftT, retT,
    tryCatch, bindM, await, lift, ret.
  cbn -[toFixed18 numberOfBigInt Z.pow].
  destruct (serve b _ (GetAgent sessionId) s) as [[msg|agent] s1];
    cbn -[toFixed18 numberOfBigInt Z.pow]; [quietRefusal|].
  destruct (keyOf agent) as [key|]; [|quietRefusal].
  destruct (addressOf agent) as [address|] eqn:Haddress; [|quietRefusal].
  destruct (present toAddress) eqn:Hto; cbn -[toFixed18 numberOfBigInt Z.pow];
    [|quietRefusal].
  destruct (present_named toAddress Hto) as [to [-> [Hne Horelse]]].
  rewrite Horelse.
  destruct (serve b _ (Core (GetBalance address)) s1) as [[msg|balance] s2];
    cbn -[toFixed18 numberOfBigInt Z.pow]; [quietRefusal|].
  destruct (balance <=? gasBuffer)%Z eqn:Hbalance;
    cbn -[toFixed18 numberOfBigInt Z.pow]; [quietRefusal|].
  apply Z.leb_gt in Hbalance.
  destruct (decryptPrivateKey rt key) as [msg|privateKey];
    cbn -[toFixed18 numberOfBigInt Z.pow]; [quietRefusal|].
  destruct (privateKeyToAccount rt privateKey) as [msg|account];
    cbn -[toFixed18 numberOfBigInt Z.pow]; [quietRefusal|].
  match goal with
  | |- context [parseEther rt ?shown] =>
      destruct (parseEther rt shown) as [msg|value] eqn:Hvalue
  end; cbn -[toFixed18 numberOfBigInt Z.pow]; [quietRefusal|].
  destruct (serve b _ (Core (SendTransaction (str to) None value)) s2)
    as [a s3] eqn:Hsend; cbn -[toFixed18 numberOfBigInt Z.pow].
  right. exists agent, address, to, balance, value, a.
  destruct a as [msg|hash]; cbn -[toFixed18 numberOfBigInt Z.pow];
    repeat split; assumption.
Qed.

Lemma max_transfer_sends_the_rounded_balance_witness :
  sendsAllButBuffer ServerExamples.transferRuntime ServerExamples.noExponent
    None (Some "0xB0B")
    (calls ServerExamples.wealthyServer
       (walletTransfer ServerExamples.noExponent
          ServerExamples.transferRuntime None (Some "0xB0B") (Some "max")) tt)
    (outcome ServerExamples.wealthyServer
       (walletTransfer ServerExamples.noExponent
          ServerExamples.transferRuntime None (Some "0xB0B") (Some "max")) tt).
Proof.
  apply (max_transfer_sends_the_rounded_balance ServerExamples.wealthyServer tt
           ServerExamples.transferRuntime ServerExamples.noExponent
           None (Some "0xB0B") (Some "max")).
  reflexivity.
Defined.

(** The run behind the witness: the wallet holds 5 ETH, so the balance less
    the buffer is 4999900000000000000 wei; the amount shown is
    4.999900000000000233, and 233 wei more than that are sent. *)
Example max_transfer_goes_through :
  let p := walletTransfer ServerExamples.noExponent
             ServerExamples.transferRuntime None (Some "0xB0B") (Some "max") in
  calls ServerExamples.wealthyServer p tt
  = [ Occurred (GetAgent None) (inr (Some ServerExamples.demoAgent));
      Occurred (Core (GetBalance "0xA11CE")) (inr 5000000000000000000%Z);
      Occurred (Core (SendTransaction (str "0xB0B") None
                        4999900000000000233))
               (inr "0xsent") ] /\
  outcome ServerExamples.wealthyServer p tt
  = reply 200 [ ("success", JBool true); ("transactionHash", JStr "0xsent");
                ("amount", JStr "4.999900000000000233") ] /\
  (5000000000000000000 - gasBuffer = 4999900000000000000)%Z.
Proof. repeat split; vm_compute; reflexivity. Qed.

(** With 1.1 finney in the wallet the passage through binary64 is exact:
    1 finney is sent. *)
Example small_max_transfer_is_exact :
  let p := walletTransfer ServerExamples.noExponent
             ServerExamples.transferRuntime None (Some "0xB0B") (Some "max") in
  map ServerExamples.callOf (calls ServerExamples.demoServer p tt)
  = ["getAgent"; "getBalance"; "sendTransaction"] /\
  outcome ServerExamples.demoServer p tt
  = reply 200 [ ("success", JBool true); ("transactionHash", JStr "0xsent");
                ("amount", JStr "0.001000000000000000") ].
Proof. split; vm_compute; reflexivity. Qed.

(** X24. The two balance routes of the Express server are decided by
    the lookup of the agent, submit nothing, and turn a failure of the chain
    into a balance of zero.  For an agent with a wallet each route reads the
    balance of that wallet once and answers 200: with the balance read, or
    with "0" when the read failed.  Without an agent or a wallet nothing is
    read: the WETH route answers 200 with "0", as it does when the lookup
    fails; the wallet route answers 400, and 500 when the lookup fails. *)
Theorem balance_routes_show_zero_when_the_chain_fails (b : Backend)
    (s : bstate b) (rt : Runtime) (sessionId : option string) :
  wethShown rt sessionId
    (calls b (walletWeth rt sessionId) s)
    (outcome b (walletWeth rt sessionId) s) /\
  walletShown rt sessionId
    (calls b (wallet rt sessionId) s)
    (outcome b (wallet rt sessionId) s).
Proof.
  unfold wethShown, walletShown, calls, outcome, walletWeth, wallet,
    WethBalance.getWethBalance, WalletService.getWalletBalance,
    tryCatchT, bindTM, calm, awaitT, liftT, retT,
    tryCatch, bindM, await, lift, ret.
  simpl. split.
  - destruct (serve b _ (GetAgent sessionId) s) as [[msg|agent] s1]; simpl.
    { exists (inl msg). split; reflexivity. }
    destruct (addressOf agent) as [address|] eqn:Haddress; simpl.
    2:{ exists (inr agent). rewrite Haddress. split; reflexivity. }
    destruct (serve b _ (Core (ReadBalanceOf WethBalance.WETH address)) s1)
      as [[msg|wei] s2]; simpl; exists (inr agent); rewrite Haddress.
    + exists (inl msg). split; reflexivity.
    + exists (inr wei). split; reflexivity.
  - destruct (serve b _ (GetAgent sessionId) s) as [[msg|agent] s1]; simpl.
    { exists (inl msg). split; reflexivity. }
    destruct (addressOf agent) as [address|] eqn:Haddress; simpl.
    2:{ exists (inr agent). rewrite Haddress. split; reflexivity. }
    destruct (serve b _ (Core (GetBalance address)) s1) as [[msg|wei] s2];
      simpl; exists (inr agent); rewrite Haddress.
    + exists (inl msg). split; reflexivity.
    + exists (inr wei). split; reflexivity.
Qed.

(** A run of the wallet route when the chain does not answer. *)
Example wallet_route_shows_zero :
  outcome ServerExamples.offlineChain (wallet demoRuntime None) tt =
  reply 200 [ ("address", JStr "0xA11CE"); ("balance", JStr "0");
              ("balanceWei", JStr "0") ].
Proof. vm_compute. reflexivity. Qed.

Ltac untouched :=
  left; repeat (apply Forall_cons; [split; reflexivity|]); apply Forall_nil.

(** X14. A run of the post queue posts one item at most, and only when
    the agent has a key and the last post is at least thirty minutes old
    (or there is none).  It posts the first pending item, with the key of the
    agent, and then changes the queue once, for that item: marked as posted
    when the answer parsed and was ok, as failed otherwise.  In every other
    run nothing is posted and the queue is left as it is. *)
Theorem queue_posts_one_item_outside_the_rate_limit (b : Backend)
    (s : bstate b) (toISOString : Z -> string) (sessionId : option string) :
  oneAtATime sessionId (calls b (queueProcess toISOString sessionId) s).
Proof.
  unfold oneAtATime, calls, queueProcess, isTrue.
  unfold Moltbook.createPost, Moltbook.request, Moltbook.headersOf,
    tryCatchT, bindTM, calm, awaitT, liftT, retT,
    tryCatch, bindM, await, lift, ret.
  simpl.
  destruct (serve b _ (GetAgent sessionId) s) as [[msg|[agent|]] s1]; simpl;
    [untouched| |untouched].
  destruct (agent_apiKey agent) as [[|c key]|] eqn:Hkey; simpl;
    [untouched| |untouched].
  destruct (serve b _ GetLastPostedTime s1) as [[msg|lastPosted] s2]; simpl;
    [untouched|].
  destruct (serve b _ Now s2) as [now s3]; simpl.
  destruct (rateLimited lastPosted now) eqn:Hlimit; simpl; [untouched|].
  destruct (serve b _ GetPendingPosts s3) as [[msg|[|post more]] s4]; simpl;
    [untouched|untouched|].
  assert (match lastPosted with
          | Some posted => (posted <= now - thirtyMinutes)%Z
          | None => True
          end) as Hold.
  { destruct lastPosted as [posted|]; [|exact I].
    unfold rateLimited in Hlimit. rewrite Z.gtb_ltb in Hlimit.
    now apply Z.ltb_ge in Hlimit. }
  match goal with
  | |- context [serve b _ (Core (Fetch ?rq)) s4] =>
      destruct (serve b _ (Core (Fetch rq)) s4) as [answer s5] eqn:Hfetch
  end.
  right. exists agent, (String c key), lastPosted, now, post, more.
  repeat stepT;
    do 3 eexists;
    (split; [exact Hkey|]); (split; [exact Hold|]);
    (split; [reflexivity|]); (split; [reflexivity|]);
    (split; [reflexivity|]); (split; [reflexivity|]);
    (split; [reflexivity|]); (split; [reflexivity|]);
    first [ solve [left; do 3 eexists; repeat split;
                   first [ reflexivity | eassumption
                         | apply negb_false_iff; eassumption ]]
          | solve [right; do 2 eexists; split; [reflexivity|];
                   let Ha := fresh "Ha" in
                   let Hj := fresh "Hj" in
                   intros ? ? Ha Hj; try discriminate Ha;
                   injection Ha as <-;
                   first [congruence | apply negb_true_iff; assumption]] ].
Qed.

(** A run where the one pending post is sent and marked. *)
Example queue_posts_the_pending_item :
  let p := queueProcess (bigintToString demoRuntime) None in
  map ServerExamples.callOf (calls ServerExamples.demoServer p tt)
  = ["getAgent"; "getLastPostedTime"; "now"; "getPendingPosts"; "fetch";
     "markAsPosted"] /\
  outcome ServerExamples.demoServer p tt
  = reply 200 [ ("processed", JNum 1);
                ("post", JObj [("id", JStr "post1")]) ].
Proof. split; vm_compute; reflexivity. Qed.

End RouteFacts.
(** ** The exchanges: sells, cancellations, queries *)

Module ExchangeExtras.
Import Js Eff Observe TradeProps ExitProps RunFacts.

Lemma sellMarket_sellOnly (w : World) (s : state w) (c : Mexc.MexcCredentials)
    (sym qty : Value) (extra : list (string * Json))
    (Hqty : truthy qty = true) :
  let p := bind (Mexc.sellMarket (Some c) sym qty) (fun order =>
             if negb (truthy order) then
               Ret (reply 400 [("error", JStr "Failed to place sell order")])
             else Ret (reply 200 (extra ++ [("order", Routes.orderJson order)])))
  in sellOnly sym qty extra (trace w p s) (result w p s).
Proof.
  unfold sellOnly, trace, result, Mexc.sellMarket, Mexc.placeOrder,
    Mexc.request, Mexc.optional, tryCatch, await. simpl. rewrite Hqty. simpl.
  right.
  destruct (answer w _ (MexcRequest "POST" "/api/v3/order"
              [ ("symbol", sym); ("side", str "SELL");
                ("type", str "MARKET"); ("quantity", qty) ] true) s)
    as [[msg|order] s1]; simpl.
  - exists (inl msg). split; reflexivity.
  - exists (inr order).
    destruct order as [[| b | n | t | items | fields]|]; simpl;
      try (split; reflexivity).
    + destruct b; split; reflexivity.
    + destruct (Z.eqb n 0); split; reflexivity.
    + destruct (Nat.eqb (String.length t) 0); split; reflexivity.
Qed.

(** X15. The two sell routes of MEXC place one market sell at most and
    nothing else, whatever take-profit and stop-loss were given.  The signal
    route sells the amount of the signal, or "10", as a quantity of the
    token.  Both answer 200 with what the venue answered whenever that is
    truthy, and 400 otherwise. *)
Theorem mexc_sells_place_one_market_order (w : World) (s : state w)
    (creds : option Mexc.MexcCredentials) (symbol quantity tp sl : Value)
    (action token : string) (amount : Value)
    (Hsell : String.eqb action "buy" = false) :
  sellOnly symbol quantity []
    (trace w (MexcRoutes.mexcSell creds symbol quantity tp sl) s)
    (result w (MexcRoutes.mexcSell creds symbol quantity tp sl) s) /\
  sellOnly (str (token ++ "USDT")) (if truthy amount then amount else str "10")
    [("success", JBool true)]
    (trace w (Routes.executeSignal creds action token amount tp sl) s)
    (result w (Routes.executeSignal creds action token amount tp sl) s).
Proof.
  split.
  - unfold MexcRoutes.mexcSell.
    destruct creds as [c|]; simpl; [|left; split; reflexivity].
    destruct (truthy symbol); simpl; [|left; split; reflexivity].
    destruct (truthy quantity) eqn:Hqty; simpl; [|left; split; reflexivity].
    exact (sellMarket_sellOnly w s c symbol quantity [] Hqty).
  - unfold Routes.executeSignal.
    destruct creds as [c|]; simpl; [|left; split; reflexivity].
    destruct (Nat.eqb (String.length action) 0 || Nat.eqb (String.length token) 0);
      [left; split; reflexivity|].
    rewrite Hsell.
    apply (sellMarket_sellOnly w s c (str (token ++ "USDT"))
             (if truthy amount then amount else str "10")
             [("success", JBool true)]).
    destruct (truthy amount) eqn:Hamount; [exact Hamount|reflexivity].
Qed.

Lemma mexc_sells_place_one_market_order_witness :
  map mexcOrder
    (trace mexcFillsOnly
       (Routes.executeSignal (Some mexcKeys) "sell" "BTC" None
          (str "70000") (str "60000")) tt)
  = [Some ("SELL", "MARKET")].
Proof.
  destruct (mexc_sells_place_one_market_order mexcFillsOnly tt (Some mexcKeys)
              (str "BTCUSDT") (str "1") (str "70000") (str "60000")
              "sell" "BTC" None eq_refl) as [_ [[H _]|[a [H _]]]].
  - vm_compute in H. discriminate H.
  - rewrite H. reflexivity.
Defined.

(** X16. With credentials, a symbol and an order id, the cancel route of
    MEXC makes one request, the signed DELETE of the order, and always
    answers 200.  The [success] it reports is true whenever the venue
    answered with a body other than [null], whatever the body says, an
    error object included; it is false when the request failed or the body
    was [null]. *)
Theorem mexc_cancel_reports_any_body_as_success (w : World) (s : state w)
    (c : Mexc.MexcCredentials) (symbol orderId : Value)
    (Hsymbol : truthy symbol = true) (Horder : truthy orderId = true) :
  exists a,
    trace w (MexcRoutes.mexcCancel (Some c) symbol orderId) s =
    [ Called (MexcRequest "DELETE" "/api/v3/order"
                [("symbol", symbol); ("orderId", orderId)] true) a ] /\
    result w (MexcRoutes.mexcCancel (Some c) symbol orderId) s =
    reply 200 [("success", JBool (answered a))].
Proof.
  unfold trace, result, MexcRoutes.mexcCancel, Mexc.cancelOrder, Mexc.request,
    tryCatch, bindM, await, lift, ret.
  simpl. rewrite Hsymbol, Horder. simpl.
  destruct (answer w _ (MexcRequest "DELETE" "/api/v3/order"
              [("symbol", symbol); ("orderId", orderId)] true) s)
    as [[msg|data] s1]; simpl.
  - exists (inl msg). split; reflexivity.
  - exists (inr data).
    destruct data as [[| b | n | t | items | fields]|]; split; reflexivity.
Qed.

Lemma mexc_cancel_reports_any_body_as_success_witness :
  exists a,
    trace mexcRefuses
      (MexcRoutes.mexcCancel (Some mexcKeys) (str "BTCUSDT") (str "42")) tt =
    [ Called (MexcRequest "DELETE" "/api/v3/order"
                [("symbol", str "BTCUSDT"); ("orderId", str "42")] true) a ] /\
    result mexcRefuses
      (MexcRoutes.mexcCancel (Some mexcKeys) (str "BTCUSDT") (str "42")) tt =
    reply 200 [("success", JBool (answered a))].
Proof.
  apply (mexc_cancel_reports_any_body_as_success mexcRefuses tt mexcKeys
           (str "BTCUSDT") (str "42")); reflexivity.
Defined.

(** The run behind the witness: the venue answers the cancellation with an
    error object, and the route reports success. *)
Example refused_cancellation_reports_success :
  result mexcRefuses
    (MexcRoutes.mexcCancel (Some mexcKeys) (str "BTCUSDT") (str "42")) tt =
  reply 200 [("success", JBool true)].
Proof. reflexivity. Qed.

(** A body of [null] is the one answer that is reported as a failure. *)
Example null_cancellation_reports_failure :
  result mexcAnswersNull
    (MexcRoutes.mexcCancel (Some mexcKeys) (str "BTCUSDT") (str "42")) tt =
  reply 200 [("success", JBool false)].
Proof. reflexivity. Qed.

(** X17. The three lists of the MEXC client are arrays in every run.
    [getTickers] makes one unsigned request; [getOpenOrders] and
    [getOrderHistory] make one signed request, and none without credentials.
    The result is what the venue answered when that is an array, and the
    empty array when it answered anything else, when the request failed, or
    when there were no credentials to sign with. *)
Theorem mexc_lists_are_arrays (w : World) (s : state w)
    (creds : option Mexc.MexcCredentials) (symbol limit : Value) :
  listedBy false creds
    (MexcRequest "GET" "/api/v3/ticker/24hr" [] false)
    (fst (run w (MexcQueries.getTickers creds) s)) /\
  listedBy true creds
    (MexcRequest "GET" "/api/v3/openOrders"
       (if truthy symbol then [("symbol", symbol)] else []) true)
    (fst (run w (MexcQueries.getOpenOrders creds symbol) s)) /\
  listedBy true creds
    (MexcRequest "GET" "/api/v3/allOrders"
       [ ("symbol", symbol);
         ("limit", match limit with None => Some (JNum 100) | Some _ => limit end) ]
       true)
    (fst (run w (MexcQueries.getOrderHistory creds symbol limit) s)).
Proof.
  unfold listedBy, MexcQueries.getTickers, MexcQueries.getOpenOrders,
    MexcQueries.getOrderHistory, MexcQueries.arrayOrEmpty,
    MexcQueries.orHundred, Mexc.request, Mexc.optional,
    tryCatch, bindM, await, lift, ret, throw.
  repeat split; destruct creds as [c|]; simpl; try reflexivity;
    match goal with
    | |- context [answer w ?A ?e s] =>
        destruct (answer w A e s) as [[msg|data] s1]
    end; simpl;
    first
      [ exists (inl msg); split; reflexivity
      | exists (inr data);
        destruct data as [[| b | n | t | items | fields]|];
        split; reflexivity ].
Qed.

(** X25. The ticker and the price route of MEXC need no credentials:
    with or without them, each makes one unsigned request for the symbol and
    answers 200 with what the venue answered when that is truthy.  Every
    other run, a failed request included, answers 404; the 500 of the route
    is never sent. *)
Theorem mexc_market_data_needs_no_credentials (w : World) (s : state w)
    (creds : option Mexc.MexcCredentials) (symbol : string) :
  quoted "/api/v3/ticker/24hr" symbol "Ticker not found"
    (trace w (MexcRoutes.mexcTicker creds symbol) s)
    (result w (MexcRoutes.mexcTicker creds symbol) s) /\
  quoted "/api/v3/ticker/price" symbol "Price not found"
    (trace w (MexcRoutes.mexcPrice creds symbol) s)
    (result w (MexcRoutes.mexcPrice creds symbol) s).
Proof.
  unfold quoted, trace, result, MexcRoutes.mexcTicker, MexcRoutes.mexcPrice,
    MexcRoutes.send, MexcQueries.getTicker, MexcQueries.getPrice,
    Mexc.request, tryCatch, await.
  simpl. split;
    match goal with
    | |- context [answer w ?A ?e s] =>
        destruct (answer w A e s) as [[msg|data] s1]
    end; simpl.
  all: first
    [ exists (inl msg); split; reflexivity
    | exists (inr data);
      destruct data as [[| b | n | t | items | fields]|]; simpl;
      try (split; reflexivity);
      first [ destruct b | destruct (Z.eqb n 0)
            | destruct (Nat.eqb (String.length t) 0) ];
      split; reflexivity ].
Qed.

(** *** OKX *)

Lemma placeOrder_exit (w : World) (s : state w)
    (creds : option Okx.OkxCredentials) (params : list (string * Json)) :
  exitOrder creds params (fst (run w (Okx.placeOrder creds params) s)).
Proof.
  unfold exitOrder, Okx.placeOrder, Okx.request, bindM, await, lift, ret, throw.
  destruct creds as [c|]; simpl; [|reflexivity].
  repeat stepE; eexists; (split; [reflexivity|]);
    intros order Hr Htruthy; try discriminate;
    injection Hr as <-; try discriminate;
    do 2 eexists; repeat split; first [eassumption | reflexivity].
Qed.

(** X18. The three exits of the OKX client, [sellSpot], [closeLong] and
    [closeShort], make one call: a market order of the whole size, on the
    side that closes.  They set no leverage and place no conditional order;
    the take-profit and stop-loss given to [sellSpot] change nothing.  An
    order is returned only if the venue accepted it, and without credentials
    they throw before any request. *)
Theorem okx_exits_place_one_order (w : World) (s : state w)
    (creds : option Okx.OkxCredentials) (instId size : string)
    (tp sl : option string) :
  exitOrder creds
    [ ("instId", JStr instId); ("tdMode", JStr "cash"); ("side", JStr "sell");
      ("ordType", JStr "market"); ("sz", JStr size) ]
    (fst (run w (OkxQueries.sellSpot creds instId size tp sl) s)) /\
  exitOrder creds (entryOrder instId "sell" "long" size)
    (fst (run w (OkxQueries.closeLong creds instId size) s)) /\
  exitOrder creds (entryOrder instId "buy" "short" size)
    (fst (run w (OkxQueries.closeShort creds instId size) s)).
Proof.
  repeat split; apply placeOrder_exit.
Qed.

Lemma placeOrder_one_call (w : World) (s : state w)
    (c : Okx.OkxCredentials) (params : list (string * Json)) :
  exists r a s', 
    run w (Okx.placeOrder (Some c) params) s =
    (r, [Called (OkxRequest "POST" orderPath (obj params)) a], s').
Proof.
  unfold Okx.placeOrder, Okx.request, bindM, await, lift, ret. simpl.
  repeat step; do 3 eexists; reflexivity.
Qed.

Lemma entry_after_leverage (w : World) (s s1 : state w)
    (c : Okx.OkxCredentials) (instId leverage : string)
    (response answerCode : Value) (params : list (string * Json))
    (rest : Value -> M Value)
    (Hanswer : answer w _ (leverageRequest instId leverage) s
               = (inr response, s1))
    (Hcode : prop response "code" = inr answerCode) :
  ordersAfter instId leverage response params
    (trace w (Okx.setLeverage (Some c) instId leverage "cross" ;;;
              order <- Okx.placeOrder (Some c) params ;;
              rest order) s).
Proof.
  unfold ordersAfter, trace. rewrite run_bindM.
  assert (run w (Okx.setLeverage (Some c) instId leverage "cross") s
          = (inr (Okx.isZeroCode answerCode),
             [Called (leverageRequest instId leverage) (inr response)], s1))
    as ->.
  { unfold Okx.setLeverage, Okx.request, bindM, await, lift, ret.
    unfold leverageRequest, leveragePath in *. simpl.
    rewrite Hanswer. simpl. rewrite Hcode. reflexivity. }
  rewrite run_bindM.
  destruct (placeOrder_one_call w s1 c params) as [r [a [s2 ->]]].
  destruct r as [msg|order].
  - exists a, []. reflexivity.
  - destruct (run w (rest order) s2) as [[r t] s3].
    exists a, t. reflexivity.
Qed.

(** X19. A leveraged entry does not look at what the venue answered to
    the leverage request: whenever that request resolves with an answer that
    has a [code], whatever the code, the next call of [openLong] and of
    [openShort] is the market order of the entry. *)
Theorem okx_entry_ignores_the_leverage_answer (w : World) (s s1 : state w)
    (c : Okx.OkxCredentials) (instId size leverage : string)
    (tp sl : option string) (response answerCode : Value)
    (Hanswer : answer w _ (leverageRequest instId leverage) s
               = (inr response, s1))
    (Hcode : prop response "code" = inr answerCode) :
  ordersAfter instId leverage response (entryOrder instId "buy" "long" size)
    (trace w (Okx.openLong (Some c) instId size leverage tp sl) s) /\
  ordersAfter instId leverage response (entryOrder instId "sell" "short" size)
    (trace w (Okx.openShort (Some c) instId size leverage tp sl) s).
Proof.
  split.
  - exact (entry_after_leverage w s s1 c instId leverage response answerCode
             (entryOrder instId "buy" "long" size) _ Hanswer Hcode).
  - exact (entry_after_leverage w s s1 c instId leverage response answerCode
             (entryOrder instId "sell" "short" size) _ Hanswer Hcode).
Qed.

Lemma okx_entry_ignores_the_leverage_answer_witness :
  ordersAfter "BTC-USDT-SWAP" "5"
    (obj [ ("code", JStr "59000"); ("msg", JStr "Setting failed");
           ("data", JArr []) ])
    (entryOrder "BTC-USDT-SWAP" "buy" "long" "1")
    (trace okxRefusesLeverage
       (Okx.openLong (Some okxKeys) "BTC-USDT-SWAP" "1" "5" None None) tt).
Proof.
  apply (okx_entry_ignores_the_leverage_answer okxRefusesLeverage tt tt okxKeys
           "BTC-USDT-SWAP" "1" "5" None None
           (obj [ ("code", JStr "59000"); ("msg", JStr "Setting failed");
                  ("data", JArr []) ])
           (str "59000")); reflexivity.
Defined.


End ExchangeExtras.
(** ** The wallet helpers and the Moltbook client *)

Module WalletFacts.
Import Js Eff Observe WalletProps RunFacts.

(** X21. Every call to Moltbook is one request, to the endpoint under the
    base address, with the method and body given and the bearer key when one
    is set.  Nothing is thrown: the result is a success that carries the
    answer exactly when the request was answered with an ok status and a
    body that parses, and a failure in every other run. *)
Theorem moltbook_calls_are_one_request (w : World) (s : state w)
    (apiKey : option string) (endpoint method : string) (body : Value) :
  oneRequest {| url := Moltbook.MOLTBOOK_BASE_URL ++ endpoint;
                method := method;
                headers := Moltbook.headersOf apiKey;
                body := body |}
    (trace w (Moltbook.request apiKey endpoint method body) s)
    (result w (Moltbook.request apiKey endpoint method body) s).
Proof.
  unfold oneRequest, trace, result, Moltbook.request,
    tryCatch, bindM, await, lift, ret.
  simpl.
  destruct (answer w _ _ s) as [[msg|response] s1]; simpl.
  - exists (inl msg). split; reflexivity.
  - exists (inr response).
    destruct (json response) as [msg|data]; simpl; [split; reflexivity|].
    destruct (ok response); simpl; [split; reflexivity|].
    destruct (prop data "error"); simpl; [split; reflexivity|].
    destruct (prop data "hint"); split; reflexivity.
Qed.

(** X22. [transferEth] makes one call at most: a plain transfer, without
    data, of the parsed amount to the address given.  It returns the hash as
    soon as the transaction is accepted, without awaiting a receipt, and an
    error in every other run; nothing is thrown. *)
Theorem transferEth_is_one_plain_transfer (w : World) (s : state w)
    (rt : Runtime) (epk toAddress amountEth : string) :
  plainTransfer rt toAddress amountEth
    (trace w (WalletService.transferEth rt epk toAddress amountEth) s)
    (result w (WalletService.transferEth rt epk toAddress amountEth) s).
Proof.
  unfold plainTransfer, trace, result, WalletService.transferEth,
    tryCatch, bindM, await, lift, ret.
  simpl.
  destruct (decryptPrivateKey rt epk) as [msg|privateKey]; simpl;
    [left; split; [reflexivity|eauto]|].
  destruct (privateKeyToAccount rt privateKey) as [msg|account]; simpl;
    [left; split; [reflexivity|eauto]|].
  destruct (parseEther rt amountEth) as [msg|value]; simpl;
    [left; split; [reflexivity|eauto]|].
  destruct (answer w _ (SendTransaction (str toAddress) None value) s)
    as [[msg|hash] s1]; simpl; right.
  - exists value, (inl msg). repeat split. eauto.
  - exists value, (inr hash). repeat split.
Qed.

(** X23. For any method but OPTIONS, the WETH balance endpoint answers
    200, and its calls are decided by the lookup of the session.  When the
    lookup gives a wallet, the endpoint reads the WETH balance of that wallet,
    once, and shows it, or "0" when the read failed.  When the lookup gives no
    row or no wallet, or fails, nothing else is called and the balance shown
    is "0".  No error is ever reported and nothing is submitted. *)
Theorem weth_balance_hides_every_failure (w : World) (s : state w)
    (rt : Runtime) (req_method : string) (sessionId : option string)
    (Hmethod : String.eqb req_method "OPTIONS" = false) :
  balanceOrZero rt sessionId
    (trace w (WethBalance.handler rt req_method sessionId) s)
    (result w (WethBalance.handler rt req_method sessionId) s).
Proof.
  unfold balanceOrZero, trace, result, WethBalance.handler,
    WethBalance.noBalance, tryCatch, bindM, await, lift, ret.
  rewrite Hmethod. simpl.
  destruct (answer w _ (SelectAgent sessionId) s) as [[msg|[|row rows]] s1];
    simpl.
  - split; [reflexivity|]. exists (inl msg). split; reflexivity.
  - split; [reflexivity|]. exists (inr []). split; reflexivity.
  - destruct (wallet_address row) as [[|c address]|] eqn:Hwallet; simpl.
    + split; [reflexivity|]. exists (inr (row :: rows)). simpl.
      rewrite Hwallet. split; reflexivity.
    + destruct (answer w _ (ReadBalanceOf WethBalance.WETH
                              (String c address)) s1)
        as [[msg|wei] s2]; simpl;
        (split; [reflexivity|]); exists (inr (row :: rows)); simpl;
        rewrite Hwallet; simpl.
      * exists (inl msg). split; reflexivity.
      * exists (inr wei). split; reflexivity.
    + split; [reflexivity|]. exists (inr (row :: rows)). simpl.
      rewrite Hwallet. split; reflexivity.
Qed.

Lemma weth_balance_hides_every_failure_witness :
  balanceOrZero demoRuntime None
    (trace emptyWallet (WethBalance.handler demoRuntime "GET" None) tt)
    (result emptyWallet (WethBalance.handler demoRuntime "GET" None) tt).
Proof.
  apply (weth_balance_hides_every_failure emptyWallet tt demoRuntime "GET"
           None).
  reflexivity.
Defined.

End WalletFacts.
